(** * NEPA schema toolkit: field mapping, coverage analysis, entity transformer

    A shallow embedding of the reconciliation engine of the repository
    (scripts/utils/mapping-utils.js, scripts/utils/transformation-utils.js and
    scripts/validate-database-crosswalk.js) together with the properties its
    specification states about it, and of the validators around it
    (scripts/validate-openapi.js, scripts/utils/csv-utils.js, the data
    functions of scripts/utils/validation-utils.js and the structural fixes of
    the YAML validation) with properties read off their code.

    Conventions of the embedding.
    - A JavaScript string is a [string]: a sequence of code units below 256.
      On that range [toLowerCase] is the per-unit map written out below.
    - A JavaScript number is an integer of [Z], printed in plain decimal.
    - An object is its prototype together with its own properties, kept in
      the order [Object.keys] and [for ... in] enumerate them.
    - A function that can throw returns an [outcome].
    - The transformer is embedded twice: over trees, where every use of an
      object is a value of its own, and over a store of cells, where
      references share objects and an assignment is seen through each of
      them. *)

From Stdlib Require Import ZArith String Ascii List Bool Lia DecimalString.
From stdpp Require Import base strings list gmap.

Open Scope string_scope.
Open Scope Z_scope.
Open Scope list_scope.

(** ** Strings *)

Module JSString.

Definition startsWith (s p : string) : bool := String.prefix p s.

Definition endsWith (s suf : string) : bool :=
  let n := String.length s in
  let m := String.length suf in
  if (m <=? n)%nat then String.eqb (String.substring (n - m) m s) suf else false.

Definition includes (s sub : string) : bool :=
  match String.index 0 sub s with Some _ => true | None => false end.

(** [s.slice(0, -1)]: the string without its last code unit. *)
Definition slice_0_m1 (s : string) : string :=
  String.substring 0 (String.length s - 1) s.

Definition lower_unit (c : ascii) : ascii :=
  let n := nat_of_ascii c in
  if ((65 <=? n) && (n <=? 90))%nat then ascii_of_nat (n + 32)
  else if ((192 <=? n) && (n <=? 222) && negb (n =? 215))%nat then ascii_of_nat (n + 32)
  else c.

Fixpoint toLowerCase (s : string) : string :=
  match s with
  | EmptyString => EmptyString
  | String c r => String (lower_unit c) (toLowerCase r)
  end.

(** [String(n)] for an integer [n]. *)
Definition of_Z (n : Z) : string := NilZero.string_of_int (Z.to_int n).

Definition is_digit (c : ascii) : bool :=
  let n := nat_of_ascii c in ((48 <=? n) && (n <=? 57))%nat.

Fixpoint digits_value (s : string) (acc : N) : option N :=
  match s with
  | EmptyString => Some acc
  | String c r =>
      if is_digit c
      then digits_value r (acc * 10 + N.of_nat (nat_of_ascii c - 48))%N
      else None
  end.

(** An array index: the canonical decimal form of an integer below 2^32 - 1.
    Such keys are enumerated first, in ascending order. *)
Definition array_index (s : string) : option N :=
  match s with
  | EmptyString => None
  | String c r =>
      if (String.eqb s "0") then Some 0%N
      else if is_digit c && negb (Ascii.eqb c "0")
      then match digits_value s 0 with
           | Some n => if (n <? 4294967295)%N then Some n else None
           | None => None
           end
      else None
  end.

Definition of_nat (n : nat) : string := of_Z (Z.of_nat n).

Fixpoint unit_strings (s : string) : list string :=
  match s with
  | EmptyString => []
  | String c r => String c EmptyString :: unit_strings r
  end.

End JSString.

Import JSString.

(** ** Values

    [VFun f] is a built-in function and [VBuiltin n] a built-in object such as
    [Object.prototype]; both are opaque except for the members every object
    inherits from [Object.prototype].  In [VObj proto props] the prototype is
    [VBuiltin "Object.prototype"] for an object literal or a parsed JSON
    object, [VNull] for none, or the object installed through [__proto__]. *)

#[warnings="-register-all"]
Inductive value : Type :=
| VUndef
| VNull
| VBool (b : bool)
| VNum (n : Z)
| VStr (s : string)
| VFun (f : string)
| VBuiltin (n : string)
| VArr (xs : list value)
| VObj (proto : value) (props : list (string * value)).

(** [Exhausted] is not a JavaScript error: it marks a run that reached a
    bound of the embedding (its recursion bound, or, in the store model, a
    reference without a cell or a member assigned on an array). *)
Inductive error : Type := TypeError | SyntaxError | Exhausted.

Inductive outcome (A : Type) : Type :=
| Ret (a : A)
| Throw (e : error).
Arguments Ret {A} a.
Arguments Throw {A} e.

Definition obind {A B} (m : outcome A) (f : A -> outcome B) : outcome B :=
  match m with Ret a => f a | Throw e => Throw e end.

Notation "'let*' x ':=' m 'in' k" := (obind m (fun x => k))
  (at level 10, x name, m at level 100, k at level 200).
Notation "'let*' ' p ':=' m 'in' k" := (obind m (fun p => k))
  (at level 10, p pattern, m at level 100, k at level 200).

Module JS.

Definition ObjectPrototype : value := VBuiltin "Object.prototype".

(** An object literal [{ k1: v1, ... }]. *)
Definition obj (props : list (string * value)) : value := VObj ObjectPrototype props.

Definition truthy (v : value) : bool :=
  match v with
  | VUndef | VNull => false
  | VBool b => b
  | VNum n => negb (n =? 0)
  | VStr s => negb (String.eqb s "")
  | _ => true
  end.

(** [a || b] and [a && b] on already evaluated operands. *)
Definition or (a b : value) : value := if truthy a then a else b.
Definition and (a b : value) : value := if truthy a then b else a.

Definition typeof (v : value) : string :=
  match v with
  | VUndef => "undefined"
  | VNull => "object"
  | VBool _ => "boolean"
  | VNum _ => "number"
  | VStr _ => "string"
  | VFun _ => "function"
  | VBuiltin n => if String.eqb n "Function.prototype" then "function" else "object"
  | VArr _ | VObj _ _ => "object"
  end.

Definition isArray (v : value) : bool :=
  match v with
  | VArr _ => true
  | VBuiltin n => String.eqb n "Array.prototype"
  | _ => false
  end.

Definition is_null (v : value) : bool := match v with VNull => true | _ => false end.
Definition is_undefined (v : value) : bool := match v with VUndef => true | _ => false end.

(** [v === VStr s]. *)
Definition is_str (v : value) (s : string) : bool :=
  match v with VStr t => String.eqb t s | _ => false end.

(** [typeof v === 'object' && v !== null]. *)
Definition is_object (v : value) : bool :=
  String.eqb (typeof v) "object" && negb (is_null v).

(** The value may be installed as a prototype: an object or a function. *)
Definition is_objectlike (v : value) : bool :=
  match v with
  | VFun _ | VBuiltin _ | VArr _ | VObj _ _ => true
  | _ => false
  end.

Definition objproto_names : list string :=
  [ "constructor"; "__defineGetter__"; "__defineSetter__"; "hasOwnProperty";
    "__lookupGetter__"; "__lookupSetter__"; "isPrototypeOf";
    "propertyIsEnumerable"; "toString"; "valueOf"; "__proto__"; "toLocaleString" ].

Definition mem (k : string) (l : list string) : bool := existsb (String.eqb k) l.

Definition proto_of (v : value) : value :=
  match v with
  | VObj p _ => p
  | VArr _ => VBuiltin "Array.prototype"
  | VStr _ => VBuiltin "String.prototype"
  | VNum _ => VBuiltin "Number.prototype"
  | VBool _ => VBuiltin "Boolean.prototype"
  | VFun _ => VBuiltin "Function.prototype"
  | VBuiltin n => if String.eqb n "Object.prototype" then VNull else ObjectPrototype
  | VUndef | VNull => VUndef
  end.

(** The member [k] of [Object.prototype], read for receiver [recv]:
    [__proto__] is an accessor answering the receiver's prototype. *)
Definition objproto_member (recv : value) (k : string) : value :=
  if String.eqb k "__proto__" then proto_of recv
  else if mem k objproto_names then VFun k
  else VUndef.

Fixpoint own_get {V : Type} (props : list (string * V)) (k : string) : option V :=
  match props with
  | [] => None
  | (k', v) :: r => if String.eqb k' k then Some v else own_get r k
  end.

Definition has_own {V : Type} (props : list (string * V)) (k : string) : bool :=
  match own_get props k with Some _ => true | None => false end.

Definition index_get (xs : list value) (k : string) : option value :=
  match array_index k with
  | Some i => nth_error xs (N.to_nat i)
  | None => if String.eqb k "length" then Some (VNum (Z.of_nat (List.length xs))) else None
  end.

Definition unit_get (s : string) (k : string) : option value :=
  match array_index k with
  | Some i => option_map VStr (nth_error (unit_strings s) (N.to_nat i))
  | None => if String.eqb k "length" then Some (VNum (Z.of_nat (String.length s))) else None
  end.

(** [recv[k]] found on [holder], a link of the prototype chain of [recv]. *)
Fixpoint get_from (holder recv : value) (k : string) : value :=
  match holder with
  | VUndef | VNull => VUndef
  | VObj p props =>
      match own_get props k with
      | Some v => v
      | None => get_from p recv k
      end
  | VArr xs =>
      match index_get xs k with
      | Some v => v
      | None => objproto_member recv k
      end
  | VStr s =>
      match unit_get s k with
      | Some v => v
      | None => objproto_member recv k
      end
  | _ => objproto_member recv k
  end.

(** [o[k]] for a base [o] other than [undefined] and [null]. *)
Definition get_prop (o : value) (k : string) : value := get_from o o k.

(** [o[k]] for any base. *)
Definition get_checked (o : value) (k : string) : outcome value :=
  match o with
  | VUndef | VNull => Throw TypeError
  | _ => Ret (get_prop o k)
  end.

Definition index_keys (n : nat) : list string := map JSString.of_nat (seq 0 n).

(** [Object.keys(v)]. *)
Definition keys (v : value) : list string :=
  match v with
  | VObj _ props => map fst props
  | VArr xs => index_keys (List.length xs)
  | VStr s => index_keys (String.length s)
  | _ => []
  end.

(** The keys [for (k in v)] visits: own ones, then inherited ones not shadowed. *)
Fixpoint forin_keys (v : value) : list string :=
  match v with
  | VObj p props =>
      map fst props ++ filter (fun k => negb (has_own props k)) (forin_keys p)
  | VArr xs => index_keys (List.length xs)
  | VStr s => index_keys (String.length s)
  | _ => []
  end.

Fixpoint own_update {V : Type} (props : list (string * V)) (k : string) (v : V)
  : list (string * V) :=
  match props with
  | [] => []
  | (k', x) :: r =>
      if String.eqb k' k then (k', v) :: r else (k', x) :: own_update r k v
  end.

Fixpoint insert_index {V : Type} (props : list (string * V)) (i : N) (k : string) (v : V)
  : list (string * V) :=
  match props with
  | [] => [(k, v)]
  | (k', x) :: r =>
      match array_index k' with
      | Some j =>
          if (j <? i)%N then (k', x) :: insert_index r i k v
          else (k, v) :: (k', x) :: r
      | None => (k, v) :: (k', x) :: r
      end
  end.

(** Create or overwrite an own property.  A new array-index key goes among the
    index keys in ascending order, any other new key goes last. *)
Definition own_set {V : Type} (props : list (string * V)) (k : string) (v : V)
  : list (string * V) :=
  if has_own props k then own_update props k v
  else match array_index k with
       | Some i => insert_index props i k v
       | None => props ++ [(k, v)]
       end.

Fixpoint own_delete {V : Type} (props : list (string * V)) (k : string)
  : list (string * V) :=
  match props with
  | [] => []
  | (k', x) :: r => if String.eqb k' k then r else (k', x) :: own_delete r k
  end.

(** Looking [__proto__] up from prototype [p] ends at the accessor of
    [Object.prototype] (and not at a data property or at the end of the chain). *)
Fixpoint inherits_proto_accessor (p : value) : bool :=
  match p with
  | VUndef | VNull => false
  | VObj p' props => if has_own props "__proto__" then false else inherits_proto_accessor p'
  | _ => true
  end.

(** [o[k] = v] for an ordinary object [o].  Assigning [__proto__] where it is
    not an own property runs the inherited setter: an object or [null]
    becomes the prototype, any other value is ignored. *)
Definition set_prop (o : value) (k : string) (v : value) : value :=
  match o with
  | VObj p props =>
      if has_own props k then VObj p (own_update props k v)
      else if String.eqb k "__proto__" && inherits_proto_accessor p
      then (if is_objectlike v || is_null v then VObj v props else o)
      else VObj p (own_set props k v)
  | _ => o
  end.

(** [delete o[k]]. *)
Definition delete_prop (o : value) (k : string) : value :=
  match o with
  | VObj p props => VObj p (own_delete props k)
  | _ => o
  end.

(** The members [JSON.stringify] writes and [JSON.parse] reads back, added
    to [acc] one by one: a member whose value has no JSON form is left out. *)
Fixpoint clone_members (clone : value -> option value) (l acc : list (string * value))
  : list (string * value) :=
  match l with
  | [] => acc
  | (k, x) :: r =>
      match clone x with
      | Some y => clone_members clone r (own_set acc k y)
      | None => clone_members clone r acc
      end
  end.

(** [JSON.parse(JSON.stringify(v))]; [None] when [JSON.stringify] answers
    [undefined].  Members holding [undefined] or a function are left out of an
    object and become [null] in an array; inherited members are left out.
    (JSON data holds no callable [toJSON].) *)
Fixpoint json_clone (v : value) : option value :=
  match v with
  | VUndef | VFun _ => None
  | VNull => Some VNull
  | VBool b => Some (VBool b)
  | VNum n => Some (VNum n)
  | VStr s => Some (VStr s)
  | VBuiltin n =>
      if String.eqb n "Function.prototype" then None
      else if String.eqb n "Array.prototype" then Some (VArr [])
      else Some (obj [])
  | VArr xs =>
      Some (VArr (map (fun x => match json_clone x with Some y => y | None => VNull end) xs))
  | VObj _ props => Some (obj (clone_members json_clone props []))
  end.

(** The object built by assigning the members of [l] in order. *)
Definition rebuild_from (l acc : list (string * value)) : list (string * value) :=
  fold_left (fun a kv => own_set a (fst kv) (snd kv)) l acc.

Fixpoint join (l : list string) : string :=
  match l with
  | [] => ""
  | [s] => s
  | s :: r => s +:+ "," +:+ join r
  end.

Fixpoint sequence {A} (l : list (outcome A)) : outcome (list A) :=
  match l with
  | [] => Ret []
  | m :: r => obind m (fun a => obind (sequence r) (fun t => Ret (a :: t)))
  end.

(** [String(v)], which is also how [v] becomes a property key.  An object
    answers ['[object Object]'] through the inherited [toString]; when
    [toString] is shadowed by data no conversion exists. *)
Fixpoint ToString (v : value) : outcome string :=
  match v with
  | VUndef => Ret "undefined"
  | VNull => Ret "null"
  | VBool b => Ret (if b then "true" else "false")
  | VNum n => Ret (of_Z n)
  | VStr s => Ret s
  | VFun f =>
      Ret ("function " +:+ (if String.eqb f "constructor" then "Object" else f)
             +:+ "() { [native code] }")
  | VBuiltin n =>
      Ret (if String.eqb n "Array.prototype" then ""
           else if String.eqb n "Function.prototype" then "function () { [native code] }"
           else "[object Object]")
  | VArr xs =>
      obind (sequence (map (fun x => match x with
                                    | VUndef | VNull => Ret ""
                                    | _ => ToString x
                                    end) xs))
            (fun l => Ret (join l))
  | VObj _ _ =>
      match get_prop v "toString" with
      | VFun f => if String.eqb f "toString" then Ret "[object Object]" else Throw TypeError
      | _ => Throw TypeError
      end
  end.

(** [a === b].  Objects and arrays are equal only to themselves; wherever the
    sources compare, one side is a primitive or a freshly built object. *)
Definition strict_eq (a b : value) : bool :=
  match a, b with
  | VUndef, VUndef | VNull, VNull => true
  | VBool x, VBool y => Bool.eqb x y
  | VNum x, VNum y => (x =? y)%Z
  | VStr x, VStr y => String.eqb x y
  | VFun x, VFun y => String.eqb x y
  | VBuiltin x, VBuiltin y => String.eqb x y
  | _, _ => false
  end.

(** [Object.entries(v)]. *)
Definition entries (v : value) : list (string * value) :=
  match v with
  | VObj _ props => props
  | VArr xs => combine (index_keys (List.length xs)) xs
  | VStr s => combine (index_keys (String.length s)) (map VStr (unit_strings s))
  | _ => []
  end.

(** [v?.k]. *)
Definition opt_get (v : value) (k : string) : value :=
  match v with
  | VUndef | VNull => VUndef
  | _ => get_prop v k
  end.

(** [o[k]] for a computed key [k]. *)
Definition get_computed (o k : value) : outcome value :=
  let* key := ToString k in Ret (get_prop o key).

(** [a.includes(x)]: membership in an array, substring test on a string. *)
Definition includes_value (a x : value) : outcome bool :=
  match a with
  | VArr xs => Ret (existsb (strict_eq x) xs)
  | VStr t => let* s := ToString x in Ret (JSString.includes t s)
  | _ => Throw TypeError
  end.

(** [a.filter(f)], defined on arrays only. *)
Fixpoint filterM (f : value -> outcome bool) (xs : list value) : outcome (list value) :=
  match xs with
  | [] => Ret []
  | x :: r =>
      let* keep := f x in
      let* t := filterM f r in
      Ret (if keep then x :: t else t)
  end.

Definition array_filter (a : value) (f : value -> outcome bool) : outcome (list value) :=
  match a with
  | VArr xs => filterM f xs
  | _ => Throw TypeError
  end.

(** [xs.join(', ')]. *)
Fixpoint join_with (sep : string) (l : list string) : string :=
  match l with
  | [] => ""
  | [s] => s
  | s :: r => s +:+ sep +:+ join_with sep r
  end.

Definition array_join (sep : string) (xs : list value) : outcome string :=
  let* l := sequence (map (fun x => match x with
                                    | VUndef | VNull => Ret ""
                                    | _ => ToString x
                                    end) xs) in
  Ret (join_with sep l).

(** A loop whose body can throw. *)
Fixpoint foldM {A S} (f : S -> A -> outcome S) (l : list A) (s : S) : outcome S :=
  match l with
  | [] => Ret s
  | a :: r => let* s' := f s a in foldM f r s'
  end.

(** Nesting depth of a value: the bound for recursion through members. *)
Fixpoint height (v : value) : nat :=
  match v with
  | VArr xs => S (fold_right (fun x n => Nat.max (height x) n) O xs)
  | VObj p props =>
      S (Nat.max (height p)
           (fold_right (fun kv n => Nat.max (height (snd kv)) n) O props))
  | _ => O
  end.

(** [a.push(x)] for the array [a]. *)
Definition array_push (a x : value) : outcome value :=
  match a with
  | VArr xs => Ret (VArr (xs ++ [x]))
  | _ => Throw TypeError
  end.

End JS.


(** ** scripts/utils/mapping-utils.js *)

Module MappingUtils.
Import JS.

(** An object literal whose members are all strings. *)
Definition strs (l : list (string * string)) : value :=
  obj (map (fun kv => (fst kv, VStr (snd kv))) l).

Definition IGNORED_FIELDS : list string :=
  [ "created_at"; "updated_at"; "_id"; "other"; "notes";
    "parent_comment_id"; "parent_event_id"; "parent_engagement_id";
    "parent_case_event_id" ].

Definition schema_binding (schemaName idField : string) : value :=
  obj [("schemaName", VStr schemaName); ("idField", VStr idField)].

Definition TABLE_TO_SCHEMA_MAP : value :=
  obj [ ("project", schema_binding "project" "project_id");
        ("process_instance", schema_binding "process" "process_id");
        ("document", schema_binding "document" "document_id");
        ("comment", schema_binding "public_comment" "comment_id");
        ("engagement", schema_binding "public_engagement_event" "event_id");
        ("case_event", schema_binding "case_event" "case_event_id");
        ("gis_data", schema_binding "gis_data" "gis_id");
        ("gis_data_element", schema_binding "gis_data_element" "gis_element_id");
        ("user_role", schema_binding "user_role" "role_id");
        ("legal_structure", schema_binding "legal_structure" "legal_structure_id");
        ("decision_element", schema_binding "decision_element" "decision_element_id");
        ("process_model", schema_binding "process_model" "process_model_id");
        ("process_decision_payload", schema_binding "decision_payload" "decision_payload_id") ].

Definition shouldIgnoreField (fieldName : string) : bool :=
  let systemFields := ["created_at"; "updated_at"; "_id"; "other"; "notes"] in
  let ignoredParentFields :=
    ["parent_comment_id"; "parent_event_id"; "parent_engagement_id";
     "parent_case_event_id"] in
  if mem fieldName systemFields || mem fieldName ignoredParentFields then true
  else if startsWith fieldName "_" || includes fieldName "_json" then true
  else if endsWith fieldName "_id" && startsWith fieldName "parent_" then
    let importantParentFields :=
      ["parent_project_id"; "parent_process_id"; "parent_document_id"] in
    negb (mem fieldName importantParentFields)
  else false.

Definition shouldCountProperty (propName tableName : string) : bool :=
  if negb (shouldIgnoreField propName) then true else false.

Definition getSchemaMapping (tableName : string) : value :=
  or (get_prop TABLE_TO_SCHEMA_MAP tableName)
     (obj [("schemaName", VStr tableName); ("idField", VStr (tableName +:+ "_id"))]).

Definition mapEntityId (tableName : string) : value :=
  let mapping := getSchemaMapping tableName in
  get_prop mapping "idField".

Definition fieldMappingsByTable : value :=
  obj [ ("project", strs
          [ ("id", "project_id"); ("title", "project_title");
            ("description", "project_description"); ("sector", "project_sector");
            ("sponsor", "project_sponsor"); ("type", "project_type");
            ("funding", "funding_source") ]);
        ("document", strs
          [ ("id", "document_id"); ("revision_no", "revision_number");
            ("supplement_no", "supplement_number"); ("public_access", "public_access");
            ("parent_process_id", "process_id") ]);
        ("process_instance", strs
          [ ("id", "process_id"); ("parent_project_id", "project_id");
            ("comment_start", "comment_period_start"); ("comment_end", "comment_period_end");
            ("process_model", "process_model_id"); ("federal_id", "federal_unique_id");
            ("description", "description"); ("type", "process_type");
            ("status", "process_status"); ("stage", "process_stage");
            ("complete_date", "completion_date"); ("outcome", "process_outcome") ]);
        ("gis_data", strs
          [ ("id", "gis_id"); ("centroid_lat", "centroid_latitude");
            ("centroid_lon", "centroid_longitude");
            ("creator_contact", "creator_contact_info"); ("map_image", "map_image_url");
            ("data_container", "container_inventory"); ("address", "location_address");
            ("updated_last", "last_updated"); ("creator", "creator");
            ("description", "description"); ("extent", "extent"); ("notes", "notes") ]);
        ("comment", strs
          [ ("id", "comment_id"); ("parent_document_id", "related_document_id");
            ("commenter_entity", "commenter_name"); ("content_text", "content");
            ("submission_method", "method_of_submission");
            ("public_acess", "public_access"); ("response_text", "agency_response") ]);
        ("case_event", strs
          [ ("id", "case_event_id"); ("name", "event_name"); ("type", "event_type");
            ("datetime", "event_date"); ("parent_process_id", "process_id") ]);
        ("engagement", strs
          [ ("id", "event_id"); ("parent_process_id", "related_process_id");
            ("participation", "participation_method"); ("start_datetime", "date");
            ("related_document_id", "related_document_id") ]);
        ("decision_element", strs
          [ ("id", "decision_element_id"); ("process_model", "process_model_id");
            ("title", "element_title"); ("description", "element_description");
            ("threshold", "threshold"); ("spatial", "spatial"); ("category", "category") ]);
        ("process_decision_payload", strs
          [ ("id", "decision_payload_id"); ("process", "process_id");
            ("project", "project_id");
            ("process_decision_element", "decision_element_id");
            ("evaluation_data", "payload_data"); ("created_at", "created_date") ]);
        ("process_model", strs [ ("id", "process_model_id"); ("title", "name") ]);
        ("gis_data_element", strs
          [ ("id", "gis_element_id"); ("parent_gis", "gis_id"); ("format", "data_type");
            ("container_reference", "container_reference");
            ("access_method", "access_method");
            ("coordinate_system", "coordinate_system");
            ("top_left_lat", "top_left_lat"); ("top_left_lon", "top_left_lon");
            ("bot_right_lat", "bot_right_lat"); ("bot_right_lon", "bot_right_lon");
            ("purpose", "purpose"); ("data_match", "data_match");
            ("access_info", "access_info") ]);
        ("legal_structure", strs [ ("id", "legal_structure_id") ]);
        ("user_role", strs [ ("id", "role_id") ]) ].

Definition specialMappings : value :=
  strs [ ("sponsor", "project_sponsor"); ("location_text", "location");
         ("location_object", "location"); ("content_text", "content");
         ("response_text", "agency_response"); ("commenter_entity", "commenter_name");
         ("submission_method", "method_of_submission");
         ("public_acess", "public_access"); ("related_process_id", "process_id") ].

Definition mapDatabaseFieldToSchema (fieldName tableName : string) : value :=
  if String.eqb fieldName "id" then mapEntityId tableName
  else
    let byTable := get_prop fieldMappingsByTable tableName in
    if truthy (if truthy byTable then get_prop byTable fieldName else byTable)
    then get_prop byTable fieldName
    else or (get_prop specialMappings fieldName) (VStr fieldName).

(** [v?.toLowerCase()]. *)
Definition optional_toLowerCase (v : value) : outcome value :=
  match v with
  | VUndef | VNull => Ret VUndef
  | VStr s => Ret (VStr (toLowerCase s))
  | _ => Throw TypeError
  end.

Definition statusMap : value :=
  strs [ ("Pre-application", "pre-application"); ("Complete", "completed");
         ("Completed", "completed"); ("In Progress", "in-progress");
         ("Pending", "pending"); ("Active", "underway"); ("Cancelled", "cancelled") ].

Definition mapStatus (status : value) : outcome value :=
  let* k := ToString status in
  let hit := get_prop statusMap k in
  if truthy hit then Ret hit
  else
    let* lower := optional_toLowerCase status in
    Ret (or lower (VStr "underway")).

Definition documentTypeMap : value :=
  strs [ ("FEIS", "Final EIS"); ("DEIS", "Draft EIS");
         ("EA", "Environmental Assessment");
         ("FONSI", "Finding of No Significant Impact");
         ("NOI", "Notice of Intent"); ("ROD", "Record of Decision") ].

Definition mapDocumentType (type : value) : outcome value :=
  let* k := ToString type in
  Ret (or (get_prop documentTypeMap k) type).

Definition engagementTypeMap : value :=
  strs [ ("public meeting", "public meeting"); ("notice", "notice");
         ("solicitation", "solicitation"); ("hearing", "public hearing");
         ("workshop", "workshop"); ("scoping", "scoping meeting") ].

Definition mapEngagementType (type : value) : outcome value :=
  let* k := ToString type in
  Ret (or (get_prop engagementTypeMap k) (VStr "public meeting")).

Definition eventStatusMap : value :=
  strs [ ("Completed", "completed"); ("Complete", "completed");
         ("In Progress", "in-progress"); ("Pending", "pending");
         ("Cancelled", "cancelled"); ("Scheduled", "scheduled") ].

Definition mapEventStatus (status : value) : outcome value :=
  let* k := ToString status in
  let hit := get_prop eventStatusMap k in
  if truthy hit then Ret hit
  else
    let* lower := optional_toLowerCase status in
    Ret (or lower (VStr "pending")).

(** [OPENAPI_TO_SCHEMA_MAP]. *)
Definition openapi_binding (schema idField : string) : value :=
  obj [("schema", VStr schema); ("idField", VStr idField)].

Definition OPENAPI_TO_SCHEMA_MAP : value :=
  obj [ ("legal_structure", openapi_binding "legal_structure" "legal_structure_id");
        ("gis_data_element", openapi_binding "gis_data" "gis_id");
        ("comment", openapi_binding "public_comment" "comment_id");
        ("engagement", openapi_binding "public_engagement_event" "event_id");
        ("process_model", openapi_binding "process_model" "process_model_id");
        ("gis_data", openapi_binding "gis_data" "gis_id");
        ("process_instance", openapi_binding "process" "process_id");
        ("document", openapi_binding "document" "document_id");
        ("process_decision_payload", openapi_binding "decision_payload" "decision_payload_id");
        ("user_role", openapi_binding "user_role" "role_id");
        ("case_event", openapi_binding "case_event" "case_event_id");
        ("decision_element", openapi_binding "decision_element" "decision_element_id");
        ("project", openapi_binding "project" "project_id") ].

Definition ignorableRequiredFields : value :=
  obj [ ("gis_data", VArr [VStr "data_type"]);
        ("case_event", VArr [VStr "document_id"]);
        ("document", VArr [VStr "related_document_ids"]);
        ("engagement", VArr [VStr "related_document_ids"]) ].

Definition canIgnoreRequiredField (fieldName tableName : string) : outcome bool :=
  if String.eqb fieldName "data_type" && String.eqb tableName "gis_data" then Ret true
  else
    let entry := get_prop ignorableRequiredFields tableName in
    let* listed :=
      if truthy entry then includes_value entry (VStr fieldName) else Ret false in
    if listed then Ret true else Ret false.

(** The pairs of table and field named by [canIgnoreRequiredField]. *)
Definition ignorable_pairs : list (string * string) :=
  [ ("gis_data", "data_type"); ("case_event", "document_id");
    ("document", "related_document_ids"); ("engagement", "related_document_ids") ].

(** [hasField(columns, columnName)]. *)
Definition hasField (columns : value) (columnName : value) : bool :=
  if negb (isArray columns) then false
  else
    match columns with
    | VArr cols =>
        existsb (fun col => truthy col && strict_eq (get_prop col "column") columnName) cols
    | _ => false
    end.

End MappingUtils.

Import MappingUtils.


(** ** scripts/validate-database-crosswalk.js

    The coverage analyzer.  Console output is left out; the messages pushed to
    the result lists are kept with the values that fill their templates, and
    [render] gives the text. *)

Module Crosswalk.
Import JS.

(** A row of the crosswalk, as [parseCrosswalkCsv] builds it. *)
Record crosswalk_column : Type := {
  column : string;
  data_type : string;
  description : string
}.

Inductive message : Type :=
| MsgNoDefinition (table schemaName : string)
| MsgSchemaNotFound (schemaName table : string)
| MsgRequiredMissing (prop table : string)
| MsgPropertyNotFound (prop table : string)
| MsgUnmatchedColumn (table col mapped schemaName : string)
| MsgRequiredNepaMissing (props table : string)
| MsgUnmatchedNepaColumn (table col mapped schemaName : string)
| MsgRequiredDatabaseMissing (fields table : string).

Definition render (m : message) : string :=
  match m with
  | MsgNoDefinition t n =>
      "No NEPA schema definition found for table: " +:+ t +:+ " (mapped to: " +:+ n +:+ ")"
  | MsgSchemaNotFound n t =>
      "Schema definition not found for: " +:+ n +:+ " (table: " +:+ t +:+ ")"
  | MsgRequiredMissing p t =>
      "Required schema property '" +:+ p +:+ "' missing in database table '" +:+ t +:+ "'"
  | MsgPropertyNotFound p t =>
      "Schema property '" +:+ p +:+ "' not found in database table '" +:+ t +:+ "'"
  | MsgUnmatchedColumn t c m n =>
      "Database column '" +:+ t +:+ "." +:+ c +:+ "' (mapped to '" +:+ m
        +:+ "') does not match any property in schema '" +:+ n +:+ "'"
  | MsgRequiredNepaMissing p t =>
      "Required NEPA schema property '" +:+ p +:+ "' missing in database table '" +:+ t +:+ "'"
  | MsgUnmatchedNepaColumn t c m n =>
      "Database column '" +:+ t +:+ "." +:+ c +:+ "' (mapped to '" +:+ m
        +:+ "') does not match any property in NEPA schema '" +:+ n +:+ "'"
  | MsgRequiredDatabaseMissing f t =>
      "Required database fields '" +:+ f +:+ "' missing in crosswalk for table '" +:+ t +:+ "'"
  end.

(** The message is an unmatched-source-field warning about column [c]. *)
Definition reports_unmatched (c : string) (m : message) : bool :=
  match m with
  | MsgUnmatchedColumn _ c' _ _ | MsgUnmatchedNepaColumn _ c' _ _ => String.eqb c' c
  | _ => false
  end.

(** No message of [ws] reports the column [public_acess] as unmatched. *)
Definition quiet (ws : list message) : bool :=
  forallb (fun m => negb (reports_unmatched "public_acess" m)) ws.

(** *** [Map] and [Set] keyed by values *)

Definition map_has {A} (m : list (value * A)) (k : value) : bool :=
  existsb (fun e => strict_eq (fst e) k) m.

Fixpoint map_set {A} (m : list (value * A)) (k : value) (a : A) : list (value * A) :=
  match m with
  | [] => [(k, a)]
  | (k', a') :: r => if strict_eq k' k then (k', a) :: r else (k', a') :: map_set r k a
  end.

Definition set_has (s : list value) (k : value) : bool := existsb (fun e => strict_eq e k) s.

Definition set_add (s : list value) (k : value) : list value :=
  if set_has s k then s else s ++ [k].

(** *** validateTable *)

Record coverage : Type := {
  found : Z;
  total : Z;
  missingRequired : list string
}.

Record table_results : Type := {
  tableName : string;
  valid : bool;
  errors : list message;
  warnings : list message;
  table_coverage : coverage
}.

Definition found_incr (r : table_results) : table_results :=
  {| tableName := tableName r; valid := valid r; errors := errors r;
     warnings := warnings r;
     table_coverage :=
       {| found := found (table_coverage r) + 1;
          total := total (table_coverage r);
          missingRequired := missingRequired (table_coverage r) |} |}.

Definition set_total (r : table_results) (n : Z) : table_results :=
  {| tableName := tableName r; valid := valid r; errors := errors r;
     warnings := warnings r;
     table_coverage :=
       {| found := found (table_coverage r); total := n;
          missingRequired := missingRequired (table_coverage r) |} |}.

Definition push_warning (r : table_results) (m : message) : table_results :=
  {| tableName := tableName r; valid := valid r; errors := errors r;
     warnings := warnings r ++ [m]; table_coverage := table_coverage r |}.

(** The three statements of the [shouldError] branch. *)
Definition required_error (r : table_results) (propName : string) : table_results :=
  {| tableName := tableName r; valid := false;
     errors := errors r ++ [MsgRequiredMissing propName (tableName r)];
     warnings := warnings r;
     table_coverage :=
       {| found := found (table_coverage r); total := total (table_coverage r);
          missingRequired := missingRequired (table_coverage r) ++ [propName] |} |}.

Definition specificMappings : value :=
  obj [ ("comment", MappingUtils.strs
          [ ("parent_document_id", "related_document_id");
            ("commenter_entity", "commenter_name"); ("content_text", "content");
            ("submission_method", "method_of_submission");
            ("public_acess", "public_access") ]);
        ("decision_element", MappingUtils.strs
          [ ("process_model", "process_model_id"); ("title", "element_title");
            ("description", "element_description") ]);
        ("engagement", MappingUtils.strs
          [ ("parent_process_id", "related_process_id"); ("type", "type");
            ("start_datetime", "date") ]);
        ("gis_data", MappingUtils.strs
          [ ("format", "data_type"); ("coordinate_system", "coordinate_system") ]);
        ("process_decision_payload", MappingUtils.strs
          [ ("process", "process_id"); ("payload_data", "payload_data");
            ("created_date", "created_date") ]);
        ("process_instance", MappingUtils.strs
          [ ("parent_project_id", "project_id"); ("type", "process_type");
            ("status", "process_status") ]) ].

(** The map of database columns: every column under its own name and under
    its schema-mapped name when that differs. *)
Definition build_dbColumnMap (tableName : string) (dbColumns : list crosswalk_column)
  : list (value * crosswalk_column) :=
  fold_left
    (fun m col =>
       let m := map_set m (VStr (column col)) col in
       let mappedName := mapDatabaseFieldToSchema (column col) tableName in
       if negb (strict_eq mappedName (VStr (column col)))
       then map_set m mappedName col
       else m)
    dbColumns [].

(** Is [propName] present: directly, through the table's specific mappings,
    or as the schema-mapped name of some column. *)
Definition property_found (tableName : string) (dbColumns : list crosswalk_column)
    (dbColumnMap : list (value * crosswalk_column)) (propName : string) : bool :=
  let found := map_has dbColumnMap (VStr propName) in
  let found :=
    if negb found && truthy (get_prop specificMappings tableName) then
      existsb (fun e => strict_eq (snd e) (VStr propName)
                        && map_has dbColumnMap (VStr (fst e)))
              (entries (get_prop specificMappings tableName))
    else found in
  if negb found then
    existsb (fun col =>
               strict_eq (mapDatabaseFieldToSchema (column col) tableName) (VStr propName))
            dbColumns
  else found.

(** The known mappings for which a missing required property is counted as
    found instead of reported. *)
Definition known_mapping (tableName propName : string)
    (dbColumnMap : list (value * crosswalk_column)) : bool :=
  if String.eqb tableName "comment" && String.eqb propName "related_document_id"
     && map_has dbColumnMap (VStr "parent_document_id") then true
  else if String.eqb tableName "decision_element" && String.eqb propName "process_model_id"
     && map_has dbColumnMap (VStr "process_model") then true
  else if String.eqb tableName "engagement" && String.eqb propName "related_process_id"
     && map_has dbColumnMap (VStr "parent_process_id") then true
  else if String.eqb tableName "gis_data" && String.eqb propName "data_type" then true
  else if String.eqb tableName "process_decision_payload" && String.eqb propName "process_id"
     && map_has dbColumnMap (VStr "process") then true
  else if String.eqb tableName "process_instance" && String.eqb propName "project_id"
     && map_has dbColumnMap (VStr "parent_project_id") then true
  else false.

(** One round of the coverage loop. *)
Definition coverage_step (table : string) (dbColumns : list crosswalk_column)
    (dbColumnMap : list (value * crosswalk_column)) (requiredSchemaFields : value)
    (results : table_results) (propName : string) : outcome table_results :=
  if property_found table dbColumns dbColumnMap propName then
    Ret (found_incr results)
  else
    let* required := includes_value requiredSchemaFields (VStr propName) in
    if required then
      if known_mapping table propName dbColumnMap
      then Ret (found_incr results)
      else Ret (required_error results propName)
    else Ret (push_warning results (MsgPropertyNotFound propName table)).

(** One round of the loop over the database columns. *)
Definition unmatched_step (table : string) (schemaName schemaProperties : value)
    (results : table_results) (col : crosswalk_column) : outcome table_results :=
  let columnName := column col in
  if shouldIgnoreField columnName then Ret results
  else
    let mappedName := mapDatabaseFieldToSchema columnName table in
    let* byMapped := get_computed schemaProperties mappedName in
    let hasSchemaMatch := or byMapped (get_prop schemaProperties columnName) in
    let* hasSchemaMatch :=
      if negb (truthy hasSchemaMatch) && truthy (get_prop specificMappings table) then
        let specificMapping := get_prop (get_prop specificMappings table) columnName in
        if truthy specificMapping then
          let* target := get_computed schemaProperties specificMapping in
          Ret (if truthy target then VBool true else hasSchemaMatch)
        else Ret hasSchemaMatch
      else Ret hasSchemaMatch in
    if negb (truthy hasSchemaMatch) && negb (endsWith columnName "_id")
       && negb (startsWith columnName "parent_") then
      let* mapped := ToString mappedName in
      let* name := ToString schemaName in
      Ret (push_warning results (MsgUnmatchedColumn table columnName mapped name))
    else Ret results.

Definition validateTable (table : string) (dbColumns : list crosswalk_column)
    (nepaSchemaDefinitions : value) : outcome table_results :=
  let results :=
    {| tableName := table; valid := true; errors := []; warnings := [];
       table_coverage := {| found := 0; total := 0; missingRequired := [] |} |} in
  let schemaMapping := getSchemaMapping table in
  let schemaName := get_prop schemaMapping "schemaName" in
  let* key := ToString schemaName in
  let* schemaDefinition := get_checked nepaSchemaDefinitions key in
  if negb (truthy schemaDefinition) then
    let* name := ToString schemaName in
    Ret (push_warning results (MsgNoDefinition table name))
  else
    let schemaProperties := or (get_prop schemaDefinition "properties") (obj []) in
    let requiredSchemaFields := or (get_prop schemaDefinition "required") (VArr []) in
    let relevantSchemaProps :=
      filter (fun prop => negb (shouldIgnoreField prop)) (keys schemaProperties) in
    let results := set_total results (Z.of_nat (List.length relevantSchemaProps)) in
    let dbColumnMap := build_dbColumnMap table dbColumns in
    let* results :=
      foldM (coverage_step table dbColumns dbColumnMap requiredSchemaFields)
            relevantSchemaProps results in
    foldM (unmatched_step table schemaName schemaProperties) dbColumns results.

(** *** validateTableAgainstSchema *)

Module Against.

Record counts : Type := { found : Z; total : Z }.

Record schema_results : Type := {
  tableName : string;
  valid : bool;
  errors : list message;
  warnings : list message;
  coverage : counts;
  databaseCoverage : counts;
  importantWarnings : list message;
  mappingWarnings : list message;
  unmatchedProperties : list string;
  unmatchedDatabaseFields : list string;
  missingRequiredFields : option (list value)
}.

(** The mutable part of the run: the result fields written by the loop over
    the columns, and the set of covered schema properties. *)
Record loop_state : Type := {
  ls_valid : bool;
  ls_errors : list message;
  ls_mappingWarnings : list message;
  coveredSchemaProps : list value
}.

Definition column_step (table : string) (schemaName schemaProperties requiredFields : value)
    (st : loop_state) (col : crosswalk_column) : outcome loop_state :=
  let dbField := column col in
  if shouldIgnoreField dbField then Ret st
  else
    let mappedSchemaField := mapDatabaseFieldToSchema dbField table in
    let* prop := get_computed schemaProperties mappedSchemaField in
    if truthy prop then
      Ret {| ls_valid := ls_valid st; ls_errors := ls_errors st;
             ls_mappingWarnings := ls_mappingWarnings st;
             coveredSchemaProps := set_add (coveredSchemaProps st) mappedSchemaField |}
    else
      let* required := includes_value requiredFields mappedSchemaField in
      let* mapped := ToString mappedSchemaField in
      if required then
        Ret {| ls_valid := false;
               ls_errors := ls_errors st ++ [MsgRequiredNepaMissing mapped table];
               ls_mappingWarnings := ls_mappingWarnings st;
               coveredSchemaProps := coveredSchemaProps st |}
      else
        let* name := ToString schemaName in
        Ret {| ls_valid := ls_valid st; ls_errors := ls_errors st;
               ls_mappingWarnings :=
                 ls_mappingWarnings st ++ [MsgUnmatchedNepaColumn table dbField mapped name];
               coveredSchemaProps := coveredSchemaProps st |}.

(** [shouldIgnoreField] applied to an element of a [required] array: a value
    that is not a string has no [startsWith]. *)
Definition shouldIgnoreField_value (v : value) : outcome bool :=
  match v with
  | VStr s => Ret (shouldIgnoreField s)
  | _ => Throw TypeError
  end.

Definition hasField (columns : list crosswalk_column) (columnName : value) : bool :=
  existsb (fun col => strict_eq (VStr (column col)) columnName) columns.

(** The table's [Row] definition in the database schema: the definition, its
    properties and its required fields, when the optional chain finds them. *)
Definition database_definition (table : string) (databaseSchemaDefinitions : value)
  : value * value * value :=
  if truthy databaseSchemaDefinitions then
    let dbPath :=
      opt_get (opt_get (opt_get (opt_get (opt_get (opt_get
        (get_prop databaseSchemaDefinitions "definitions")
        "Database") "properties") "public") "properties") "Tables") "properties" in
    if truthy dbPath && truthy (get_prop dbPath table) then
      let databaseSchemaDef := get_prop dbPath table in
      let row := opt_get (get_prop databaseSchemaDef "properties") "Row" in
      if truthy (opt_get row "properties") then
        (databaseSchemaDef, get_prop row "properties",
         or (get_prop row "required") (VArr []))
      else (databaseSchemaDef, obj [], VArr [])
    else (VNull, obj [], VArr [])
  else (VNull, obj [], VArr []).

Definition validateTableAgainstSchema (table : string) (columns : list crosswalk_column)
    (schemaDefinitions databaseSchemaDefinitions : value) : outcome schema_results :=
  let mapping := getSchemaMapping table in
  let schemaName := get_prop mapping "schemaName" in
  let* key := ToString schemaName in
  let* schemaDef := get_checked schemaDefinitions key in
  if negb (truthy schemaDef) then
    let* name := ToString schemaName in
    Ret {| tableName := table; valid := true; errors := [];
           warnings := [MsgSchemaNotFound name table];
           coverage := {| found := 0; total := 0 |};
           databaseCoverage := {| found := 0; total := 0 |};
           importantWarnings := []; mappingWarnings := [];
           unmatchedProperties := []; unmatchedDatabaseFields := [];
           missingRequiredFields := None |}
  else
    let schemaProperties := or (get_prop schemaDef "properties") (obj []) in
    let requiredFields := or (get_prop schemaDef "required") (VArr []) in
    let relevantSchemaProps :=
      filter (fun prop => negb (shouldIgnoreField prop)) (keys schemaProperties) in
    let coverage_total := Z.of_nat (List.length relevantSchemaProps) in
    let '(databaseSchemaDef, databaseSchemaProperties, databaseRequiredFields) :=
      database_definition table databaseSchemaDefinitions in
    let relevantDatabaseProps :=
      filter (fun prop => negb (shouldIgnoreField prop)) (keys databaseSchemaProperties) in
    let* st :=
      foldM (column_step table schemaName schemaProperties requiredFields) columns
            {| ls_valid := true; ls_errors := []; ls_mappingWarnings := [];
               coveredSchemaProps := [] |} in
    let coverage_found :=
      Z.min (Z.of_nat (List.length (coveredSchemaProps st))) coverage_total in
    let* missing :=
      array_filter requiredFields
        (fun field =>
           if negb (set_has (coveredSchemaProps st) field)
           then let* ign := shouldIgnoreField_value field in Ret (negb ign)
           else Ret false) in
    let* st :=
      match missing with
      | [] => Ret st
      | _ =>
          let* joined := array_join ", " missing in
          Ret {| ls_valid := false;
                 ls_errors := ls_errors st ++ [MsgRequiredNepaMissing joined table];
                 ls_mappingWarnings := ls_mappingWarnings st;
                 coveredSchemaProps := coveredSchemaProps st |}
      end in
    let* st :=
      if truthy databaseSchemaDef then
        let* missingDatabaseFields :=
          array_filter databaseRequiredFields
            (fun field =>
               if negb (hasField columns field)
               then let* ign := shouldIgnoreField_value field in Ret (negb ign)
               else Ret false) in
        match missingDatabaseFields with
        | [] => Ret st
        | _ =>
            let* joined := array_join ", " missingDatabaseFields in
            Ret {| ls_valid := false;
                   ls_errors := ls_errors st ++ [MsgRequiredDatabaseMissing joined table];
                   ls_mappingWarnings := ls_mappingWarnings st;
                   coveredSchemaProps := coveredSchemaProps st |}
        end
      else Ret st in
    Ret {| tableName := table; valid := ls_valid st; errors := ls_errors st;
           warnings := [];
           coverage := {| found := coverage_found; total := coverage_total |};
           databaseCoverage :=
             {| found := 0; total := Z.of_nat (List.length relevantDatabaseProps) |};
           importantWarnings := []; mappingWarnings := ls_mappingWarnings st;
           unmatchedProperties :=
             filter (fun prop => negb (set_has (coveredSchemaProps st) (VStr prop)))
                    relevantSchemaProps;
           unmatchedDatabaseFields :=
             if truthy databaseSchemaDef then relevantDatabaseProps else [];
           missingRequiredFields :=
             match missing with [] => None | _ => Some missing end |}.

End Against.

(** The message says that a schema property has no column. *)
Definition reports_missing_property (m : message) : bool :=
  match m with
  | MsgPropertyNotFound _ _ => true
  | _ => false
  end.

(** *** parseCrosswalkCsv

    The handler of the parser's [data] event, run on the rows the parser
    emits: [parseCrosswalkCsv rows] is the crosswalk the promise resolves
    to.  The array of a table is held by the crosswalk alone, so that
    pushing a row to it is assigning the longer array. *)

Definition crosswalk_entry (row : value) : value :=
  obj [ ("column", get_prop row "column");
        ("data_type", get_prop row "data_type");
        ("description", or (get_prop row "description") (VStr "")) ].

Definition on_data (crosswalk row : value) : outcome value :=
  let* table := get_checked row "table" in
  let* key := ToString table in
  let crosswalk :=
    if negb (truthy (get_prop crosswalk key)) then set_prop crosswalk key (VArr [])
    else crosswalk in
  let* grown := array_push (get_prop crosswalk key) (crosswalk_entry row) in
  Ret (set_prop crosswalk key grown).

Definition parseCrosswalkCsv (rows : list value) : outcome value :=
  foldM on_data rows (obj []).

End Crosswalk.

(** The non-ignored properties of the entity a table is bound to: what the
    coverage total counts.  Empty when the definitions hold no such entity. *)
Definition countable_properties (table : string) (definitions : value) : list string :=
  match JS.ToString (JS.get_prop (getSchemaMapping table) "schemaName") with
  | Ret key =>
      let def := JS.get_prop definitions key in
      if JS.truthy def then
        filter (fun prop => negb (shouldIgnoreField prop))
               (JS.keys (JS.or (JS.get_prop def "properties") (JS.obj [])))
      else []
  | Throw _ => []
  end.

(** ** Data of the repository used in the examples *)

Module Fixtures.
Import JS Crosswalk.

Definition typed (t : string) : value := obj [("type", VStr t)].

(** [definitions.public_comment] of src/jsonschema/nepa.schema.json
    (descriptions, formats and enumerations left out). *)
Definition public_comment : value :=
  obj [ ("type", VStr "object");
        ("required", VArr [ VStr "comment_id"; VStr "commenter_name"; VStr "content";
                            VStr "date_submitted"; VStr "related_document_id" ]);
        ("properties", obj
          [ ("id", typed "integer"); ("comment_id", typed "string");
            ("commenter_name", typed "string"); ("content", typed "string");
            ("date_submitted", typed "string"); ("related_document_id", typed "string");
            ("method_of_submission", typed "string"); ("agency_response", typed "string");
            ("public_source", typed "string"); ("content_json", typed "object");
            ("response_json", typed "object"); ("public_access", typed "string") ]) ].

Definition nepa_definitions : value := obj [ ("public_comment", public_comment) ].

Definition col (name type : string) : crosswalk_column :=
  {| column := name; data_type := type; description := "" |}.

(** The rows of table [comment] in src/crosswalk/database_crosswalk.csv. *)
Definition comment_columns : list crosswalk_column :=
  [ col "id" "bigint"; col "created_at" "timestamp with time zone";
    col "parent_document_id" "bigint"; col "commenter_entity" "text";
    col "date_submitted" "date"; col "submission_method" "text";
    col "content_text" "text"; col "content_json" "json";
    col "response_text" "text"; col "response_json" "json";
    col "public_source" "boolean"; col "public_acess" "boolean";
    col "other" "jsonb" ].

End Fixtures.

(** ** scripts/utils/transformation-utils.js

    The fix log and the clock are the state of a run: [fixes] is the array
    the functions push to, and [Date.now()] answers the next reading of the
    clock. *)

Module Transform.
Import JS.

Definition getDefaultValueForType (type : value) : value :=
  if is_str type "string" then VStr ""
  else if is_str type "integer" || is_str type "number" then VNum 0
  else if is_str type "boolean" then VBool false
  else if is_str type "object" then obj []
  else if is_str type "array" then VArr []
  else VNull.

Record run : Type := { fixes : list string; ticks : nat }.

Definition M (A : Type) : Type := run -> outcome (A * run).

Definition ret {A} (a : A) : M A := fun s => Ret (a, s).

Definition bind {A B} (m : M A) (f : A -> M B) : M B :=
  fun s => match m s with
           | Ret (a, s') => f a s'
           | Throw e => Throw e
           end.

Definition throw {A} (e : error) : M A := fun _ => Throw e.

Definition lift {A} (o : outcome A) : M A :=
  fun s => match o with Ret a => Ret (a, s) | Throw e => Throw e end.

(** [fixes.push(msg)]. *)
Definition push (msg : string) : M unit :=
  fun s => Ret (tt, {| fixes := fixes s ++ [msg]; ticks := ticks s |}).

Notation "'do*' x ':=' m 'in' k" := (bind m (fun x => k))
  (at level 10, x name, m at level 100, k at level 200).
Notation "m ';;' k" := (bind m (fun _ => k))
  (at level 100, k at level 200, right associativity).

(** A loop over [l] carrying the object under construction. *)
Fixpoint forM {A S} (l : list A) (s : S) (f : S -> A -> M S) : M S :=
  match l with
  | [] => ret s
  | a :: r => do* s' := f s a in forM r s' f
  end.

(** [xs.map(f)]. *)
Fixpoint mapM {A B} (f : A -> M B) (l : list A) : M (list B) :=
  match l with
  | [] => ret []
  | a :: r => do* b := f a in do* t := mapM f r in ret (b :: t)
  end.

(** The prefix of the template literal [`${a}.${b}`]. *)
Definition dotted (a b : string) : string := a +:+ "." +:+ b.

(** [s.properties] when [s] is truthy and has a truthy [properties], else [{}]. *)
Definition nested_properties (s : value) : value :=
  if truthy (and s (get_prop s "properties")) then get_prop s "properties" else obj [].

(** The replacement of a [null] member by the default of its expected type. *)
Definition null_to_default (entity : value) (entityType key : string)
    (val expectedType : value) : M value :=
  if is_null val && truthy expectedType then
    let defaultValue := getDefaultValueForType expectedType in
    if negb (is_null defaultValue) || endsWith key "_id" then
      if is_null val && negb (is_null defaultValue)
         && negb (strict_eq (get_prop entity key) defaultValue) then
        do* shown := lift (ToString defaultValue) in
        do* expected := lift (ToString expectedType) in
        push ("Replaced null with default '" +:+ shown +:+ "' for "
                +:+ dotted entityType key +:+ " (expected " +:+ expected +:+ ")") ;;
        ret defaultValue
      else ret val
    else ret val
  else ret val.

(** One round of the loop over the members of [entity]; [nested] is the
    recursive call. *)
Definition transformProperties_step (nested : value -> string -> value -> M value)
    (entity : value) (entityType : string) (schemaProperties : value)
    (transformedEntity : value) (key : string) : M value :=
  let value := get_prop entity key in
  do* expectedType := lift (get_checked schemaProperties key) in
  do* value := null_to_default entity entityType key value expectedType in
  if String.eqb entityType "gis_data" && String.eqb key "container_inventory"
     && isArray value then
    match value with
    | VArr (_ :: _) =>
        push ("Fixed container_inventory structure to object for " +:+ entityType) ;;
        ret (set_prop transformedEntity key (get_prop value "0"))
    | _ =>
        push ("Set empty container_inventory to object for " +:+ entityType) ;;
        ret (set_prop transformedEntity key (obj []))
    end
  else if is_object value then
    if negb (isArray value) then
      let nestedSchemaProperties := nested_properties (get_prop schemaProperties key) in
      do* transformed := nested value (dotted entityType key) nestedSchemaProperties in
      ret (set_prop transformedEntity key transformed)
    else ret (set_prop transformedEntity key value)
  else ret (set_prop transformedEntity key value).

Fixpoint transformProperties_rec (bound : nat) (entity : value) (entityType : string)
    (schemaProperties : value) : M value :=
  let schemaProperties :=
    if is_undefined schemaProperties then obj [] else schemaProperties in
  if negb (is_object entity) then ret entity
  else
    forM (forin_keys entity) (obj [])
         (transformProperties_step
            (match bound with
             | O => fun _ _ _ => throw Exhausted
             | S bound' => transformProperties_rec bound'
             end)
            entity entityType schemaProperties).

Definition transformProperties (entity : value) (entityType : string)
    (schemaProperties : value) : M value :=
  transformProperties_rec (height entity) entity entityType schemaProperties.

Section Clock.

(** The successive readings of [Date.now()]. *)
Variable Date_now : nat -> Z.

Definition now : M Z :=
  fun s => Ret (Date_now (ticks s), {| fixes := fixes s; ticks := S (ticks s) |}).

(** The engagement translators apply to this target or this source table. *)
Definition engagement_context (originalType targetType : string) : bool :=
  String.eqb targetType "public_engagement_events" || String.eqb originalType "engagement".

(** One round of the loop over the members of [item]. *)
Definition transformEntity_step (item : value) (originalType targetType : string)
    (entitySchemaProperties idField : value) (transformedItem : value) (key : string)
  : M value :=
  let schemaKey := mapDatabaseFieldToSchema key originalType in
  let value := get_prop item key in
  do* value :=
    if is_str schemaKey "status" || is_str schemaKey "process_status"
       || is_str schemaKey "project_status" then lift (mapStatus value)
    else if is_str schemaKey "document_type" then lift (mapDocumentType value)
    else if is_str schemaKey "event_type" && engagement_context originalType targetType
    then lift (mapEngagementType value)
    else if is_str schemaKey "event_status" && engagement_context originalType targetType
    then lift (mapEventStatus value)
    else ret value in
  do* expectedType :=
    lift (let* k := ToString schemaKey in get_checked entitySchemaProperties k) in
  do* value :=
    if is_null value && truthy expectedType then
      let defaultValue := getDefaultValueForType expectedType in
      if negb (is_null defaultValue) || strict_eq schemaKey idField then
        if negb (strict_eq (get_prop item key) defaultValue) then
          do* shown := lift (ToString defaultValue) in
          do* mapped := lift (ToString schemaKey) in
          do* expected := lift (ToString expectedType) in
          push ("Replaced null with default '" +:+ shown +:+ "' for "
                  +:+ dotted originalType key +:+ " (mapped to " +:+ mapped
                  +:+ ", expected " +:+ expected +:+ ")") ;;
          ret defaultValue
        else ret value
      else ret value
    else ret value in
  do* schemaKey :=
    match schemaKey with
    | VStr k => ret k
    | _ => throw TypeError
    end in
  do* value :=
    if endsWith schemaKey "_id" && negb (String.eqb (typeof value) "string")
       && negb (is_null value) && negb (is_undefined value) then
      match value with
      | VNum n =>
          push ("Converted numeric ID " +:+ dotted originalType key +:+ " (mapped to "
                  +:+ schemaKey +:+ ") to string: " +:+ of_Z n +:+ " -> " +:+ of_Z n) ;;
          ret (VStr (of_Z n))
      | _ => ret value
      end
    else ret value in
  let propertySchema := get_prop entitySchemaProperties schemaKey in
  if is_object value && negb (isArray value) then
    do* nested :=
      transformProperties value (dotted originalType schemaKey)
        (nested_properties propertySchema) in
    ret (set_prop transformedItem schemaKey nested)
  else if isArray value
          && truthy (and (and propertySchema (get_prop propertySchema "items"))
                         (get_prop (get_prop propertySchema "items") "properties")) then
    do* items :=
      mapM (fun arrItem =>
              transformProperties arrItem (dotted originalType schemaKey +:+ "[]")
                (get_prop (get_prop propertySchema "items") "properties"))
           (match value with VArr xs => xs | _ => [] end) in
    ret (set_prop transformedItem schemaKey (VArr items))
  else ret (set_prop transformedItem schemaKey value).

(** The defaults of a [gis_data] record. *)
Definition gis_defaults (originalType : string) (entitySchemaProperties : value)
    (transformedItem : value) : M value :=
  let missing (t : value) (k : string) :=
    negb (truthy (get_prop t k)) && truthy (get_prop entitySchemaProperties k) in
  do* t :=
    if missing transformedItem "gis_id" then
      let d := getDefaultValueForType (get_prop entitySchemaProperties "gis_id") in
      do* v := if truthy d then ret d
               else do* n := now in ret (VStr ("gis-" +:+ of_Z n)) in
      push ("Added missing required gis_id for " +:+ originalType) ;;
      ret (set_prop transformedItem "gis_id" v)
    else ret transformedItem in
  do* t :=
    if missing t "data_type" then
      let d := getDefaultValueForType (get_prop entitySchemaProperties "data_type") in
      push ("Added missing required data_type for " +:+ originalType) ;;
      ret (set_prop t "data_type" (or d (VStr "point")))
    else ret t in
  do* t :=
    if missing t "coordinate_system" then
      let d := getDefaultValueForType (get_prop entitySchemaProperties "coordinate_system") in
      push ("Added missing required coordinate_system for " +:+ originalType) ;;
      ret (set_prop t "coordinate_system" (or d (VStr "WGS84")))
    else ret t in
  let inventory := get_prop t "container_inventory" in
  let inventorySchema := get_prop entitySchemaProperties "container_inventory" in
  let expects_object :=
    truthy inventorySchema && is_str (get_prop inventorySchema "type") "object" in
  if truthy inventory && negb (String.eqb (typeof inventory) "object") && expects_object then
    push ("Fixed container_inventory structure to object for " +:+ originalType) ;;
    ret (set_prop t "container_inventory"
           (match inventory with
            | VArr (_ :: _) => get_prop inventory "0"
            | _ => getDefaultValueForType (VStr "object")
            end))
  else if negb (truthy inventory) && expects_object then
    push ("Added missing container_inventory as empty object for " +:+ originalType) ;;
    ret (set_prop t "container_inventory" (getDefaultValueForType (VStr "object")))
  else ret t.

Definition transformEntity (item : value) (originalType targetType : string)
    (entitySchemaProperties : value) : M value :=
  let entitySchemaProperties :=
    if is_undefined entitySchemaProperties then obj [] else entitySchemaProperties in
  let idField := mapEntityId originalType in
  do* transformedItem :=
    forM (forin_keys item) (obj [])
         (transformEntity_step item originalType targetType entitySchemaProperties idField) in
  let targetIdField := mapEntityId (slice_0_m1 targetType) in
  do* idKey := lift (ToString targetIdField) in
  do* idSchema :=
    if negb (truthy (get_prop transformedItem idKey))
    then lift (get_checked entitySchemaProperties idKey)
    else ret VUndef in
  do* transformedItem :=
    if negb (truthy (get_prop transformedItem idKey)) && truthy idSchema then
      let idDefaultValue := getDefaultValueForType idSchema in
      if negb (is_null idDefaultValue) then
        do* shown := lift (ToString idDefaultValue) in
        push ("Added missing ID field '" +:+ idKey +:+ "' with default '" +:+ shown
                +:+ "' for " +:+ targetType) ;;
        ret (set_prop transformedItem idKey idDefaultValue)
      else ret transformedItem
    else ret transformedItem in
  if String.eqb originalType "gis_data" || String.eqb targetType "gis_data"
  then gis_defaults originalType entitySchemaProperties transformedItem
  else ret transformedItem.

Definition object_schema (properties : list (string * string)) : value :=
  obj [("type", VStr "object"); ("properties", MappingUtils.strs properties)].

Definition simplifiedSchemas : value :=
  obj [ ("project", obj
          [ ("project_id", VStr "string"); ("project_title", VStr "string");
            ("project_status", VStr "string");
            ("project_sponsor", object_schema [("name", "string"); ("contact_info", "string")]);
            ("location", object_schema [("description", "string"); ("gis_reference", "string")]);
            ("notes", VStr "string") ]);
        ("process", MappingUtils.strs
          [ ("process_id", "string"); ("parent_process_id", "string");
            ("process_stage", "string"); ("notes", "string"); ("purpose_need", "string");
            ("process_model", "string"); ("description", "string") ]);
        ("document", MappingUtils.strs
          [ ("document_id", "string"); ("document_type", "string");
            ("volume_title", "string"); ("revision_number", "integer");
            ("supplement_number", "integer"); ("url", "string"); ("notes", "string");
            ("document_summary", "string"); ("document_toc", "string");
            ("document_revision", "string") ]);
        ("public_comment", MappingUtils.strs
          [ ("comment_id", "string"); ("method_of_submission", "string") ]);
        ("public_engagement_event", obj
          [ ("event_id", VStr "string");
            ("location", object_schema [("description", "string"); ("gis_reference", "string")]) ]);
        ("case_event", MappingUtils.strs
          [ ("case_event_id", "string"); ("source", "string"); ("outcome", "string");
            ("parent_event_id", "integer"); ("related_engagement_id", "integer");
            ("following_segment", "string") ]);
        ("gis_data", obj
          [ ("gis_id", VStr "string"); ("data_type", VStr "string");
            ("coordinate_system", VStr "string"); ("extent", VStr "string");
            ("notes", VStr "string"); ("parent_project_id", VStr "integer");
            ("parent_process_id", VStr "integer"); ("parent_document_id", VStr "integer");
            ("parent_case_event_id", VStr "integer"); ("parent_comment_id", VStr "integer");
            ("parent_engagement_id", VStr "integer");
            ("container_inventory", object_schema []) ]);
        ("legal_structure", MappingUtils.strs
          [ ("legal_structure_id", "string"); ("effective_date", "string");
            ("context", "string") ]);
        ("decision_element", MappingUtils.strs
          [ ("decision_element_id", "string"); ("intersect", "string");
            ("spatial_reference", "string"); ("evaluation_dmn", "string");
            ("spatial", "string") ]);
        ("process_model", MappingUtils.strs
          [ ("process_model_id", "string"); ("name", "string"); ("bpmn_model", "string");
            ("DMN_model", "string") ]);
        ("decision_payload", MappingUtils.strs
          [ ("decision_payload_id", "string"); ("evaluation_data", "object");
            ("response", "string"); ("result", "string"); ("result_bool", "boolean");
            ("result_notes", "string"); ("result_source", "string");
            ("data_annotation", "string"); ("evaluation_data_annotation", "string") ]) ].

(** [entityTypesMap]: source table, target array, schema properties, in the
    order the literal lists them. *)
Definition entityTypesMap : list (string * (string * value)) :=
  let schema n := get_prop simplifiedSchemas n in
  [ ("project", ("projects", schema "project"));
    ("process_instance", ("processes", schema "process"));
    ("document", ("documents", schema "document"));
    ("comment", ("public_comments", schema "public_comment"));
    ("engagement", ("public_engagement_events", schema "public_engagement_event"));
    ("case_event", ("case_events", schema "case_event"));
    ("gis_data_element", ("gis_data", schema "gis_data"));
    ("gis_data", ("gis_data", schema "gis_data"));
    ("user_role", ("user_roles", schema "user_role"));
    ("legal_structure", ("legal_structures", schema "legal_structure"));
    ("decision_element", ("decision_elements", schema "decision_element"));
    ("process_model", ("process_models", schema "process_model"));
    ("process_decision_payload", ("decision_payloads", schema "decision_payload")) ].

Definition elements (a : value) : list value :=
  match a with VArr xs => xs | _ => [] end.

(** One round of the loop over [entityTypesMap]: a legacy key is transformed
    record by record into its target array and then removed. *)
Definition migrate (transformedData : value) (entry : string * (string * value))
  : M value :=
  let '(originalType, (target, schemaProps)) := entry in
  if truthy (get_prop transformedData originalType) then
    let transformedData :=
      if negb (truthy (get_prop transformedData target))
      then set_prop transformedData target (VArr [])
      else transformedData in
    let source := get_prop transformedData originalType in
    let itemsToTransform := if isArray source then elements source else [source] in
    do* transformedData :=
      forM itemsToTransform transformedData (fun transformedData item =>
        do* entity := transformEntity item originalType target schemaProps in
        do* grown := lift (array_push (get_prop transformedData target) entity) in
        ret (set_prop transformedData target grown)) in
    let transformedData := delete_prop transformedData originalType in
    push ("Transformed " +:+ originalType +:+ " data to NEPA " +:+ target +:+ " format") ;;
    ret transformedData
  else ret transformedData.

(** One round of the second pass over the top-level members. *)
Definition normalize (transformedData : value) (nepaKey : string) : M value :=
  if isArray (get_prop transformedData nepaKey) then
    let entityType := slice_0_m1 nepaKey in
    let schemaProps := or (get_prop simplifiedSchemas entityType) (obj []) in
    do* entities :=
      mapM (fun entity => transformProperties entity entityType schemaProps)
           (elements (get_prop transformedData nepaKey)) in
    ret (set_prop transformedData nepaKey (VArr entities))
  else ret transformedData.

(** A document is a JSON object, given by its members. *)
Definition document : Type := list (string * value).

Definition transformToNepaFormat_run (data : document) : M value :=
  do* transformedData :=
    match json_clone (obj data) with
    | Some c => ret c
    | None => throw SyntaxError
    end in
  do* transformedData :=
    if negb (truthy (get_prop transformedData "projects")) then
      push "Added missing required projects array to root level" ;;
      ret (set_prop transformedData "projects" (VArr []))
    else ret transformedData in
  do* transformedData := forM entityTypesMap transformedData migrate in
  forM (forin_keys transformedData) transformedData normalize.

(** [transformToNepaFormat(data)]: the pair of [data] and [fixes] it returns. *)
Definition transformToNepaFormat (data : document) : outcome (value * list string) :=
  match transformToNepaFormat_run data {| fixes := []; ticks := 0 |} with
  | Ret (transformedData, s) => Ret (transformedData, fixes s)
  | Throw e => Throw e
  end.

End Clock.

(** *** Notions used by the properties *)

(** A value an identifier can be taken from: [null], a number or a string. *)
Definition id_source (v : value) : bool :=
  match v with
  | VNull | VNum _ | VStr _ => true
  | _ => false
  end.

(** Every member of [item] that the field mapping sends to the identifier of
    [table] holds [null], a number or a string. *)
Definition id_sources_ok (table : string) (item : value) : bool :=
  forallb (fun k =>
             if strict_eq (mapDatabaseFieldToSchema k table) (mapEntityId table)
             then id_source (get_prop item k) else true)
          (forin_keys item).

(** The source tables whose identifier [transformEntity] can synthesize: the
    name it derives from the target array is the table's identifier and the
    schema declares it (or, for [gis_data], the GIS defaults supply it). *)
Definition derivable_id_tables : list string :=
  [ "project"; "document"; "case_event"; "gis_data"; "legal_structure";
    "decision_element"; "process_model"; "process_decision_payload" ].

(** The record under construction is an object literal whose member [id], if
    present, is a string. *)
Definition id_inv (id : string) (t : value) : Prop :=
  exists props, t = obj props
    /\ (own_get props id = None \/ exists str, own_get props id = Some (VStr str)).

(** The canonical names whose values go through an enumerated translator. *)
Definition enum_names : list string :=
  ["status"; "process_status"; "project_status"; "document_type"; "event_type";
   "event_status"].

(** Plain JSON data: the value survives [JSON.parse(JSON.stringify(v))]
    unchanged (it holds no function, no [undefined] and no inherited member). *)
Definition plain (v : value) : Prop := json_clone v = Some v.

(** [v] is a fixed point of the null-to-default pass: the pass returns it
    and logs nothing, whatever recursion bound at least its height is used. *)
Definition fixed_point (v : value) (ty : string) (schema : value) : Prop :=
  forall m st, (height v <= m)%nat ->
    transformProperties_rec m v ty schema st = Ret (v, st).

(** A member the pass leaves alone: not a [null] with a known default, and,
    when it is a plain nested object, a fixed point under the nested schema. *)
Definition member_good (schema : value) (ty k : string) (v : value) : Prop :=
  (v = VNull -> truthy (get_prop schema k) = true ->
   is_null (getDefaultValueForType (get_prop schema k)) = true)
  /\ (is_object v = true -> isArray v = false -> plain v ->
      fixed_point v (dotted ty k) (nested_properties (get_prop schema k))).

(** The object under construction in the pass: every own member is good, and
    an own [__proto__] exists only beside a prototype without the accessor. *)
Definition building (schema : value) (ty : string) (acc : value) : Prop :=
  exists p props, acc = VObj p props
    /\ (has_own props "__proto__" = true -> inherits_proto_accessor p = false)
    /\ (forall k v, own_get props k = Some v -> member_good schema ty k v).

(** The document under transformation: an object literal with distinct keys. *)
Definition root (td : value) : Prop :=
  exists props, td = obj props /\ List.NoDup (map fst props).

(** [y] was produced by the second pass for entity type [ty]. *)
Definition pass_output (ty : string) (y : value) : Prop :=
  exists x s1 s2,
    transformProperties x ty (or (get_prop simplifiedSchemas ty) (obj [])) s1 = Ret (y, s2).

(** In a list of migrations, no later entry reads or fills the legacy key of
    an earlier one; no key is the name of a member of [Object.prototype]. *)
Fixpoint legacy_order_ok (l : list (string * (string * value))) : bool :=
  match l with
  | [] => true
  | (ot, (tg, _)) :: r =>
      negb (mem ot objproto_names) && negb (mem tg objproto_names)
      && forallb (fun e => negb (String.eqb (fst e) ot)
                           && negb (String.eqb (fst (snd e)) ot)) r
      && legacy_order_ok r
  end.

(** No top-level array of [r] sits under a key that the second pass turns
    into the entity type ['gis_data'] (that is ['gis_data'] plus one more
    character), for which an array-valued [container_inventory] is collapsed
    once more on every run. *)
Definition no_gis_collapse (r : value) : bool :=
  forallb (fun k => negb (isArray (get_prop r k) && String.eqb (slice_0_m1 k) "gis_data"))
          (keys r).

(** [t] is an object literal with an own member [id] holding a string. *)
Definition has_string_member (t id : value) : bool :=
  match t, id with
  | VObj _ props, VStr k =>
      match own_get props k with
      | Some (VStr _) => true
      | _ => false
      end
  | _, _ => false
  end.

(** What a recursive call of [transformProperties] answers: an object for an
    object, and a fixed point when the answer is plain data. *)
Definition nested_sound (nested : value -> string -> value -> M value) : Prop :=
  forall v ty schema s x s',
    nested v ty schema s = Ret (x, s') ->
    truthy schema = true -> String.eqb ty "gis_data" = false ->
    (is_object v = true -> exists p ps, x = VObj p ps)
    /\ (plain x -> fixed_point x ty schema).

End Transform.

(** ** The transformation over a store

    The tree model above gives every use of an object a value of its own.
    Here objects and arrays live in cells of a store and values refer to
    them, so that two references can share a cell and an assignment through
    one is seen through the other.  The schemas and the translation tables
    are literals the functions only read: they stay values of the tree
    model. *)

Module Store.
Import JS.

Inductive hval : Type :=
| HUndef
| HNull
| HBool (b : bool)
| HNum (n : Z)
| HStr (s : string)
| HFun (f : string)
| HBuiltin (n : string)
| HRef (l : nat).

Inductive cell : Type :=
| CObj (proto : hval) (props : list (string * hval))
| CArr (elems : list hval).

(** The cells, the array [fixes] and the number of readings of the clock. *)
Record state : Type := { cells : list cell; fixes : list string; ticks : nat }.

(** A computation answers a value or an exception, and the state it leaves
    in either case. *)
Definition HM (A : Type) : Type := state -> outcome A * state.

Definition ret {A} (a : A) : HM A := fun s => (Ret a, s).

Definition bind {A B} (m : HM A) (f : A -> HM B) : HM B :=
  fun s => match m s with
           | (Ret a, s') => f a s'
           | (Throw e, s') => (Throw e, s')
           end.

Definition throw {A} (e : error) : HM A := fun s => (Throw e, s).

Definition lift {A} (o : outcome A) : HM A := fun s => (o, s).

Notation "'do!' x ':=' m 'in' k" := (bind m (fun x => k))
  (at level 10, x name, m at level 100, k at level 200).
Notation "m ';;;' k" := (bind m (fun _ => k))
  (at level 100, k at level 200, right associativity).

Definition push (msg : string) : HM unit :=
  fun s => (Ret tt, {| cells := cells s; fixes := fixes s ++ [msg]; ticks := ticks s |}).

(** A look at the cells that changes nothing. *)
Definition read {A} (f : list cell -> outcome A) : HM A := fun s => (f (cells s), s).

(** A new cell, at the end of the store. *)
Definition alloc (c : cell) : HM hval :=
  fun s => (Ret (HRef (List.length (cells s))),
            {| cells := cells s ++ [c]; fixes := fixes s; ticks := ticks s |}).

Definition load (l : nat) : HM cell :=
  read (fun h => match h !! l with Some c => Ret c | None => Throw Exhausted end).

Definition store (l : nat) (c : cell) : HM unit :=
  fun s => (Ret tt, {| cells := <[l := c]> (cells s); fixes := fixes s; ticks := ticks s |}).

Fixpoint forM {A} (l : list A) (f : A -> HM unit) : HM unit :=
  match l with
  | [] => ret tt
  | a :: r => f a ;;; forM r f
  end.

Fixpoint mapM {A B} (f : A -> HM B) (l : list A) : HM (list B) :=
  match l with
  | [] => ret []
  | a :: r => do! b := f a in do! t := mapM f r in ret (b :: t)
  end.

(** A value that is no reference, in the tree model and back.  (A reference
    has no tree form of its own, a tree no store form: neither case is used.) *)
Definition to_value (v : hval) : value :=
  match v with
  | HUndef => VUndef
  | HNull => VNull
  | HBool b => VBool b
  | HNum n => VNum n
  | HStr s => VStr s
  | HFun f => VFun f
  | HBuiltin n => VBuiltin n
  | HRef _ => VUndef
  end.

Definition of_value (v : value) : hval :=
  match v with
  | VUndef => HUndef
  | VNull => HNull
  | VBool b => HBool b
  | VNum n => HNum n
  | VStr s => HStr s
  | VFun f => HFun f
  | VBuiltin n => HBuiltin n
  | VArr _ | VObj _ _ => HUndef
  end.

Definition is_ref (v : hval) : bool := match v with HRef _ => true | _ => false end.

Definition truthy (v : hval) : bool := is_ref v || JS.truthy (to_value v).
Definition typeof (v : hval) : string := if is_ref v then "object" else JS.typeof (to_value v).
Definition is_null (v : hval) : bool := match v with HNull => true | _ => false end.
Definition is_object (v : hval) : bool := String.eqb (typeof v) "object" && negb (is_null v).
Definition is_objectlike (v : hval) : bool := is_ref v || JS.is_objectlike (to_value v).

(** [a === b]: two references are equal when they name the same cell. *)
Definition strict_eq (a b : hval) : bool :=
  match a, b with
  | HRef x, HRef y => Nat.eqb x y
  | HRef _, _ | _, HRef _ => false
  | _, _ => JS.strict_eq (to_value a) (to_value b)
  end.

Definition isArray_in (h : list cell) (v : hval) : bool :=
  match v with
  | HRef l => match h !! l with Some (CArr _) => true | _ => false end
  | _ => JS.isArray (to_value v)
  end.

Definition proto_of (h : list cell) (v : hval) : hval :=
  match v with
  | HRef l =>
      match h !! l with
      | Some (CObj p _) => p
      | Some (CArr _) => HBuiltin "Array.prototype"
      | None => HUndef
      end
  | _ => of_value (JS.proto_of (to_value v))
  end.

Definition objproto_member (h : list cell) (recv : hval) (k : string) : hval :=
  if String.eqb k "__proto__" then proto_of h recv
  else if mem k objproto_names then HFun k
  else HUndef.

Definition index_get (xs : list hval) (k : string) : option hval :=
  match JSString.array_index k with
  | Some i => nth_error xs (N.to_nat i)
  | None => if String.eqb k "length" then Some (HNum (Z.of_nat (List.length xs))) else None
  end.

(** [recv[k]] found on [holder], a link of the prototype chain of [recv].
    A chain is no longer than the store has cells. *)
Fixpoint get_from (fuel : nat) (h : list cell) (holder recv : hval) (k : string)
  : outcome hval :=
  match holder with
  | HUndef | HNull => Ret HUndef
  | HRef l =>
      match h !! l with
      | Some (CObj p props) =>
          match own_get props k with
          | Some v => Ret v
          | None =>
              match fuel with
              | O => Throw Exhausted
              | S fuel' => get_from fuel' h p recv k
              end
          end
      | Some (CArr xs) =>
          match index_get xs k with
          | Some v => Ret v
          | None => Ret (objproto_member h recv k)
          end
      | None => Throw Exhausted
      end
  | HStr s =>
      match unit_get s k with
      | Some v => Ret (of_value v)
      | None => Ret (objproto_member h recv k)
      end
  | _ => Ret (objproto_member h recv k)
  end.

(** [o[k]] for a base [o] other than [undefined] and [null]. *)
Definition get_prop (o : hval) (k : string) : HM hval :=
  read (fun h => get_from (S (List.length h)) h o o k).

(** [o[k]] for any base. *)
Definition get_checked (o : hval) (k : string) : HM hval :=
  match o with
  | HUndef | HNull => throw TypeError
  | _ => get_prop o k
  end.

(** The keys [for (k in v)] visits. *)
Fixpoint forin_from (fuel : nat) (h : list cell) (v : hval) : outcome (list string) :=
  match v with
  | HRef l =>
      match h !! l with
      | Some (CObj p props) =>
          match fuel with
          | O => Throw Exhausted
          | S fuel' =>
              let* inherited := forin_from fuel' h p in
              Ret (map fst props ++ filter (fun k => negb (has_own props k)) inherited)
          end
      | Some (CArr xs) => Ret (index_keys (List.length xs))
      | None => Throw Exhausted
      end
  | HStr s => Ret (index_keys (String.length s))
  | _ => Ret []
  end.

Definition forin_keys (v : hval) : HM (list string) :=
  read (fun h => forin_from (S (List.length h)) h v).

Fixpoint inherits_proto_accessor (fuel : nat) (h : list cell) (p : hval) : outcome bool :=
  match p with
  | HUndef | HNull => Ret false
  | HRef l =>
      match h !! l with
      | Some (CObj p' props) =>
          if has_own props "__proto__" then Ret false
          else match fuel with
               | O => Throw Exhausted
               | S fuel' => inherits_proto_accessor fuel' h p'
               end
      | Some (CArr _) => Ret true
      | None => Throw Exhausted
      end
  | _ => Ret true
  end.

(** [o[k] = v]: the cell of [o] is overwritten, whoever else refers to it.
    The functions assign members of objects only; a primitive base ignores
    the assignment. *)
Definition set_prop (o : hval) (k : string) (v : hval) : HM unit :=
  match o with
  | HUndef | HNull => throw TypeError
  | HRef l =>
      do! c := load l in
      match c with
      | CObj p props =>
          if has_own props k then store l (CObj p (own_update props k v))
          else if String.eqb k "__proto__" then
            do! accessor := read (fun h => inherits_proto_accessor (S (List.length h)) h p) in
            if accessor
            then (if is_objectlike v || is_null v then store l (CObj v props) else ret tt)
            else store l (CObj p (own_set props k v))
          else store l (CObj p (own_set props k v))
      | CArr _ => throw Exhausted
      end
  | _ => ret tt
  end.

(** [delete o[k]]. *)
Definition delete_prop (o : hval) (k : string) : HM unit :=
  match o with
  | HUndef | HNull => throw TypeError
  | HRef l =>
      do! c := load l in
      match c with
      | CObj p props => store l (CObj p (own_delete props k))
      | CArr _ => throw Exhausted
      end
  | _ => ret tt
  end.

(** [a.push(x)]. *)
Definition array_push (a x : hval) : HM unit :=
  match a with
  | HRef l =>
      do! c := load l in
      match c with
      | CArr xs => store l (CArr (xs ++ [x]))
      | CObj _ _ => throw TypeError
      end
  | _ => throw TypeError
  end.

(** The elements [a.forEach] and [a.map] visit. *)
Definition elements (a : hval) : HM (list hval) :=
  match a with
  | HRef l =>
      do! c := load l in
      match c with
      | CArr xs => ret xs
      | CObj _ _ => ret []
      end
  | _ => ret []
  end.

Definition isArray (v : hval) : HM bool := read (fun h => Ret (isArray_in h v)).

(** [String(v)]. *)
Fixpoint ToString_from (fuel : nat) (h : list cell) (v : hval) : outcome string :=
  match v with
  | HRef l =>
      match fuel with
      | O => Throw Exhausted
      | S fuel' =>
          match h !! l with
          | Some (CArr xs) =>
              let* l := sequence (map (fun x => match x with
                                                | HUndef | HNull => Ret ""
                                                | _ => ToString_from fuel' h x
                                                end) xs) in
              Ret (join l)
          | Some (CObj _ _) =>
              let* m := get_from (S (List.length h)) h v v "toString" in
              match m with
              | HFun f => if String.eqb f "toString" then Ret "[object Object]"
                          else Throw TypeError
              | _ => Throw TypeError
              end
          | None => Throw Exhausted
          end
      end
  | _ => JS.ToString (to_value v)
  end.

Definition ToString (v : hval) : HM string :=
  read (fun h => ToString_from (S (List.length h)) h v).

(** [JSON.stringify(v)], as the tree [JSON.parse] reads back from the text;
    [None] when the answer is [undefined].  Only own members are written.  A
    path through more references than the store has cells comes back to a
    cell it left: the structure is circular and [JSON.stringify] throws. *)
Fixpoint stringify (fuel : nat) (h : list cell) (v : hval) : outcome (option value) :=
  match v with
  | HRef l =>
      match fuel with
      | O => Throw TypeError
      | S fuel' =>
          match h !! l with
          | Some (CArr xs) =>
              let* ys := sequence (map (fun x => let* y := stringify fuel' h x in
                                                 Ret (match y with Some t => t | None => VNull end))
                                       xs) in
              Ret (Some (VArr ys))
          | Some (CObj _ props) =>
              let* members :=
                foldM (fun acc kx =>
                         let* y := stringify fuel' h (snd kx) in
                         Ret (match y with Some t => own_set acc (fst kx) t | None => acc end))
                      props [] in
              Ret (Some (obj members))
          | None => Throw Exhausted
          end
      end
  | _ => Ret (json_clone (to_value v))
  end.

(** The objects and arrays of a tree, built in new cells: what [JSON.parse]
    and the literals [{}] and [[]] do. *)
Fixpoint alloc_value (v : value) : HM hval :=
  match v with
  | VArr xs =>
      do! ys := (fix go (l : list value) : HM (list hval) :=
                   match l with
                   | [] => ret []
                   | x :: r => do! y := alloc_value x in do! t := go r in ret (y :: t)
                   end) xs in
      alloc (CArr ys)
  | VObj p props =>
      do! p' := alloc_value p in
      do! ms := (fix go (l : list (string * value)) : HM (list (string * hval)) :=
                   match l with
                   | [] => ret []
                   | (k, x) :: r => do! y := alloc_value x in do! t := go r in ret ((k, y) :: t)
                   end) props in
      alloc (CObj p' ms)
  | _ => ret (of_value v)
  end.

(** [JSON.parse(JSON.stringify(data))]. *)
Definition deep_clone (data : hval) : HM hval :=
  do! json := read (fun h => stringify (S (List.length h)) h data) in
  match json with
  | Some t => alloc_value t
  | None => throw SyntaxError
  end.

(** The whole of a value as a tree, to compare a store with the tree model. *)
Fixpoint reify (fuel : nat) (h : list cell) (v : hval) : outcome value :=
  match v with
  | HRef l =>
      match fuel with
      | O => Throw Exhausted
      | S fuel' =>
          match h !! l with
          | Some (CArr xs) =>
              let* ys := sequence (map (reify fuel' h) xs) in Ret (VArr ys)
          | Some (CObj p props) =>
              let* p' := reify fuel' h p in
              let* ms := sequence (map (fun kx => let* y := reify fuel' h (snd kx) in
                                                  Ret (fst kx, y)) props) in
              Ret (VObj p' ms)
          | None => Throw Exhausted
          end
      end
  | _ => Ret (to_value v)
  end.

(** *** scripts/utils/mapping-utils.js: the translators on values of the store *)

(** [table[k]] when it is truthy. *)
Definition table_hit (table : value) (k : string) : option hval :=
  let hit := JS.get_prop table k in
  if JS.truthy hit then Some (of_value hit) else None.

Definition optional_toLowerCase (v : hval) : HM hval :=
  match v with
  | HUndef | HNull => ret HUndef
  | HStr s => ret (HStr (JSString.toLowerCase s))
  | _ => throw TypeError
  end.

Definition mapStatus (status : hval) : HM hval :=
  do! k := ToString status in
  match table_hit MappingUtils.statusMap k with
  | Some hit => ret hit
  | None =>
      do! lower := optional_toLowerCase status in
      ret (if truthy lower then lower else HStr "underway")
  end.

Definition mapDocumentType (type : hval) : HM hval :=
  do! k := ToString type in
  match table_hit MappingUtils.documentTypeMap k with
  | Some hit => ret hit
  | None => ret type
  end.

Definition mapEngagementType (type : hval) : HM hval :=
  do! k := ToString type in
  match table_hit MappingUtils.engagementTypeMap k with
  | Some hit => ret hit
  | None => ret (HStr "public meeting")
  end.

Definition mapEventStatus (status : hval) : HM hval :=
  do! k := ToString status in
  match table_hit MappingUtils.eventStatusMap k with
  | Some hit => ret hit
  | None =>
      do! lower := optional_toLowerCase status in
      ret (if truthy lower then lower else HStr "pending")
  end.

(** *** scripts/utils/transformation-utils.js over the store *)

Definition empty_object : cell := CObj (HBuiltin "Object.prototype") [].

Definition null_to_default (entity : hval) (entityType key : string)
    (val : hval) (expectedType : value) : HM hval :=
  if is_null val && JS.truthy expectedType then
    do! defaultValue := alloc_value (Transform.getDefaultValueForType expectedType) in
    if negb (is_null defaultValue) || JSString.endsWith key "_id" then
      if is_null val && negb (is_null defaultValue) then
        do! current := get_prop entity key in
        if negb (strict_eq current defaultValue) then
          do! shown := ToString defaultValue in
          do! expected := lift (JS.ToString expectedType) in
          push ("Replaced null with default '" +:+ shown +:+ "' for "
                  +:+ Transform.dotted entityType key +:+ " (expected " +:+ expected +:+ ")") ;;;
          ret defaultValue
        else ret val
      else ret val
    else ret val
  else ret val.

(** One round of the loop over the members of [entity]; [nested] is the
    recursive call. *)
Definition transformProperties_step (nested : hval -> string -> value -> HM hval)
    (entity : hval) (entityType : string) (schemaProperties : value)
    (transformedEntity : hval) (key : string) : HM unit :=
  do! value := get_prop entity key in
  do! expectedType := lift (JS.get_checked schemaProperties key) in
  do! value := null_to_default entity entityType key value expectedType in
  do! value_is_array := isArray value in
  if String.eqb entityType "gis_data" && String.eqb key "container_inventory"
     && value_is_array then
    do! xs := elements value in
    match xs with
    | _ :: _ =>
        do! first := get_prop value "0" in
        set_prop transformedEntity key first ;;;
        push ("Fixed container_inventory structure to object for " +:+ entityType)
    | [] =>
        do! o := alloc empty_object in
        set_prop transformedEntity key o ;;;
        push ("Set empty container_inventory to object for " +:+ entityType)
    end
  else if is_object value then
    if negb value_is_array then
      let nestedSchemaProperties :=
        Transform.nested_properties (JS.get_prop schemaProperties key) in
      do! transformed :=
        nested value (Transform.dotted entityType key) nestedSchemaProperties in
      set_prop transformedEntity key transformed
    else set_prop transformedEntity key value
  else set_prop transformedEntity key value.

Fixpoint transformProperties_rec (bound : nat) (entity : hval) (entityType : string)
    (schemaProperties : value) : HM hval :=
  let schemaProperties :=
    if is_undefined schemaProperties then obj [] else schemaProperties in
  if negb (is_object entity) then ret entity
  else
    do! transformedEntity := alloc empty_object in
    do! keys := forin_keys entity in
    forM keys
         (transformProperties_step
            (match bound with
             | O => fun _ _ _ => throw Exhausted
             | S bound' => transformProperties_rec bound'
             end)
            entity entityType schemaProperties transformedEntity) ;;;
    ret transformedEntity.

(** Objects nest no deeper than the store has cells. *)
Definition transformProperties (entity : hval) (entityType : string)
    (schemaProperties : value) : HM hval :=
  fun s => transformProperties_rec (S (List.length (cells s))) entity entityType
             schemaProperties s.

Section Clock.

Variable Date_now : nat -> Z.

Definition now : HM Z :=
  fun s => (Ret (Date_now (ticks s)),
            {| cells := cells s; fixes := fixes s; ticks := S (ticks s) |}).

(** One round of the loop over the members of [item]. *)
Definition transformEntity_step (item : hval) (originalType targetType : string)
    (entitySchemaProperties idField : value) (transformedItem : hval) (key : string)
  : HM unit :=
  let schemaKey := MappingUtils.mapDatabaseFieldToSchema key originalType in
  do! value := get_prop item key in
  do! value :=
    if is_str schemaKey "status" || is_str schemaKey "process_status"
       || is_str schemaKey "project_status" then mapStatus value
    else if is_str schemaKey "document_type" then mapDocumentType value
    else if is_str schemaKey "event_type"
            && Transform.engagement_context originalType targetType
    then mapEngagementType value
    else if is_str schemaKey "event_status"
            && Transform.engagement_context originalType targetType
    then mapEventStatus value
    else ret value in
  do! expectedType :=
    lift (let* k := JS.ToString schemaKey in JS.get_checked entitySchemaProperties k) in
  do! value :=
    if is_null value && JS.truthy expectedType then
      do! defaultValue := alloc_value (Transform.getDefaultValueForType expectedType) in
      if negb (is_null defaultValue) || JS.strict_eq schemaKey idField then
        do! current := get_prop item key in
        if negb (strict_eq current defaultValue) then
          do! shown := ToString defaultValue in
          do! mapped := lift (JS.ToString schemaKey) in
          do! expected := lift (JS.ToString expectedType) in
          push ("Replaced null with default '" +:+ shown +:+ "' for "
                  +:+ Transform.dotted originalType key +:+ " (mapped to " +:+ mapped
                  +:+ ", expected " +:+ expected +:+ ")") ;;;
          ret defaultValue
        else ret value
      else ret value
    else ret value in
  do! schemaKey :=
    match schemaKey with
    | VStr k => ret k
    | _ => throw TypeError
    end in
  do! value :=
    if JSString.endsWith schemaKey "_id" && negb (String.eqb (typeof value) "string")
       && negb (is_null value) && negb (strict_eq value HUndef) then
      match value with
      | HNum n =>
          push ("Converted numeric ID " +:+ Transform.dotted originalType key
                  +:+ " (mapped to " +:+ schemaKey +:+ ") to string: "
                  +:+ JSString.of_Z n +:+ " -> " +:+ JSString.of_Z n) ;;;
          ret (HStr (JSString.of_Z n))
      | _ => ret value
      end
    else ret value in
  let propertySchema := JS.get_prop entitySchemaProperties schemaKey in
  do! value_is_array := isArray value in
  if is_object value && negb value_is_array then
    do! nested :=
      transformProperties value (Transform.dotted originalType schemaKey)
        (Transform.nested_properties propertySchema) in
    set_prop transformedItem schemaKey nested
  else if value_is_array
          && JS.truthy (and (and propertySchema (JS.get_prop propertySchema "items"))
                            (JS.get_prop (JS.get_prop propertySchema "items") "properties"))
  then
    do! xs := elements value in
    do! items :=
      mapM (fun arrItem =>
              transformProperties arrItem (Transform.dotted originalType schemaKey +:+ "[]")
                (JS.get_prop (JS.get_prop propertySchema "items") "properties"))
           xs in
    do! mapped := alloc (CArr items) in
    set_prop transformedItem schemaKey mapped
  else set_prop transformedItem schemaKey value.

(** The defaults of a [gis_data] record. *)
Definition gis_defaults (originalType : string) (entitySchemaProperties : value)
    (transformedItem : hval) : HM unit :=
  let missing (k : string) : HM bool :=
    do! current := get_prop transformedItem k in
    ret (negb (truthy current) && JS.truthy (JS.get_prop entitySchemaProperties k)) in
  let default_of (k : string) : HM hval :=
    alloc_value (Transform.getDefaultValueForType (JS.get_prop entitySchemaProperties k)) in
  do! no_id := missing "gis_id" in
  (if no_id then
     do! d := default_of "gis_id" in
     do! v := if truthy d then ret d
              else do! n := now in ret (HStr ("gis-" +:+ JSString.of_Z n)) in
     set_prop transformedItem "gis_id" v ;;;
     push ("Added missing required gis_id for " +:+ originalType)
   else ret tt) ;;;
  do! no_type := missing "data_type" in
  (if no_type then
     do! d := default_of "data_type" in
     set_prop transformedItem "data_type" (if truthy d then d else HStr "point") ;;;
     push ("Added missing required data_type for " +:+ originalType)
   else ret tt) ;;;
  do! no_system := missing "coordinate_system" in
  (if no_system then
     do! d := default_of "coordinate_system" in
     set_prop transformedItem "coordinate_system" (if truthy d then d else HStr "WGS84") ;;;
     push ("Added missing required coordinate_system for " +:+ originalType)
   else ret tt) ;;;
  do! inventory := get_prop transformedItem "container_inventory" in
  let inventorySchema := JS.get_prop entitySchemaProperties "container_inventory" in
  let expects_object :=
    JS.truthy inventorySchema && is_str (JS.get_prop inventorySchema "type") "object" in
  if truthy inventory && negb (String.eqb (typeof inventory) "object") && expects_object then
    do! inventory_is_array := isArray inventory in
    do! xs := elements inventory in
    do! replacement :=
      match inventory_is_array, xs with
      | true, _ :: _ => get_prop inventory "0"
      | _, _ => alloc_value (Transform.getDefaultValueForType (VStr "object"))
      end in
    set_prop transformedItem "container_inventory" replacement ;;;
    push ("Fixed container_inventory structure to object for " +:+ originalType)
  else if negb (truthy inventory) && expects_object then
    do! o := alloc_value (Transform.getDefaultValueForType (VStr "object")) in
    set_prop transformedItem "container_inventory" o ;;;
    push ("Added missing container_inventory as empty object for " +:+ originalType)
  else ret tt.

Definition transformEntity (item : hval) (originalType targetType : string)
    (entitySchemaProperties : value) : HM hval :=
  let entitySchemaProperties :=
    if is_undefined entitySchemaProperties then obj [] else entitySchemaProperties in
  do! transformedItem := alloc empty_object in
  let idField := MappingUtils.mapEntityId originalType in
  do! keys := forin_keys item in
  forM keys (transformEntity_step item originalType targetType entitySchemaProperties
               idField transformedItem) ;;;
  let targetIdField := MappingUtils.mapEntityId (JSString.slice_0_m1 targetType) in
  do! idKey := lift (JS.ToString targetIdField) in
  do! current := get_prop transformedItem idKey in
  do! idSchema :=
    if negb (truthy current) then lift (JS.get_checked entitySchemaProperties idKey)
    else ret VUndef in
  (if negb (truthy current) && JS.truthy idSchema then
     do! idDefaultValue := alloc_value (Transform.getDefaultValueForType idSchema) in
     if negb (is_null idDefaultValue) then
       set_prop transformedItem idKey idDefaultValue ;;;
       do! shown := ToString idDefaultValue in
       push ("Added missing ID field '" +:+ idKey +:+ "' with default '" +:+ shown
               +:+ "' for " +:+ targetType)
     else ret tt
   else ret tt) ;;;
  (if String.eqb originalType "gis_data" || String.eqb targetType "gis_data"
   then gis_defaults originalType entitySchemaProperties transformedItem
   else ret tt) ;;;
  ret transformedItem.

(** One round of the loop over [entityTypesMap].  The array the records are
    pushed to is read again for every record, and may be the array the loop
    runs over: [forEach] visits the elements that were there when it began. *)
Definition migrate (transformedData : hval) (entry : string * (string * value))
  : HM unit :=
  let '(originalType, (target, schemaProps)) := entry in
  do! source := get_prop transformedData originalType in
  if truthy source then
    do! existing := get_prop transformedData target in
    (if negb (truthy existing) then
       do! a := alloc (CArr []) in set_prop transformedData target a
     else ret tt) ;;;
    do! source := get_prop transformedData originalType in
    do! source_is_array := isArray source in
    do! itemsToTransform :=
      if source_is_array then ret source else alloc (CArr [source]) in
    do! items := elements itemsToTransform in
    forM items (fun item =>
      do! entity := transformEntity item originalType target schemaProps in
      do! targetArray := get_prop transformedData target in
      array_push targetArray entity) ;;;
    delete_prop transformedData originalType ;;;
    push ("Transformed " +:+ originalType +:+ " data to NEPA " +:+ target +:+ " format")
  else ret tt.

(** One round of the second pass over the top-level members. *)
Definition normalize (transformedData : hval) (nepaKey : string) : HM unit :=
  do! current := get_prop transformedData nepaKey in
  do! current_is_array := isArray current in
  if current_is_array then
    let entityType := JSString.slice_0_m1 nepaKey in
    let schemaProps := or (JS.get_prop Transform.simplifiedSchemas entityType) (obj []) in
    do! xs := elements current in
    do! entities :=
      mapM (fun entity => transformProperties entity entityType schemaProps) xs in
    do! mapped := alloc (CArr entities) in
    set_prop transformedData nepaKey mapped
  else ret tt.

Definition transformToNepaFormat_run (data : hval) : HM hval :=
  do! transformedData := deep_clone data in
  do! projects := get_checked transformedData "projects" in
  (if negb (truthy projects) then
     do! a := alloc (CArr []) in
     set_prop transformedData "projects" a ;;;
     push "Added missing required projects array to root level"
   else ret tt) ;;;
  forM Transform.entityTypesMap (migrate transformedData) ;;;
  do! keys := forin_keys transformedData in
  forM keys (normalize transformedData) ;;;
  ret transformedData.

(** [transformToNepaFormat(data)] called on the store [h]: the members [data]
    and [fixes] of the object it returns, and the store it leaves. *)
Definition transformToNepaFormat (data : hval) (h : list cell)
  : outcome (hval * list string) * list cell :=
  match transformToNepaFormat_run data {| cells := h; fixes := []; ticks := 0 |} with
  | (Ret transformedData, s) => (Ret (transformedData, fixes s), cells s)
  | (Throw e, s) => (Throw e, cells s)
  end.

(** The store a document is first built in, and the reference to it. *)
Definition build (d : value) : hval * list cell :=
  match alloc_value d {| cells := []; fixes := []; ticks := 0 |} with
  | (Ret root, s) => (root, cells s)
  | (Throw _, s) => (HUndef, cells s)
  end.

End Clock.

(** *** Notions used by the frame property

    [base] is the number of cells when the call begins.  A value is new when
    it refers to no cell below [base]; a store is closed when its cells from
    [base] on hold new values only. *)

Definition fresh (base : nat) (v : hval) : Prop :=
  match v with
  | HRef l => (base <= l)%nat
  | _ => True
  end.

Definition fresh_cell (base : nat) (c : cell) : Prop :=
  match c with
  | CObj p props => fresh base p /\ Forall (fun kx => fresh base (snd kx)) props
  | CArr xs => Forall (fresh base) xs
  end.

Definition closed (base : nat) (h : list cell) : Prop :=
  Forall (fresh_cell base) (drop base h).

(** The state keeps the cells of [h0] as they were, and is closed above them. *)
Definition extends (h0 : list cell) (s : state) : Prop :=
  take (List.length h0) (cells s) = h0 /\ closed (List.length h0) (cells s).

(** Run from a state that extends [h0], the computation leaves one that does,
    and an answer satisfies [P]. *)
Definition frames (h0 : list cell) {A} (m : HM A) (P : A -> Prop) : Prop :=
  forall s, extends h0 s ->
    extends h0 (snd (m s)) /\ forall a, fst (m s) = Ret a -> P a.

(** The state keeps the cells of [h0] as they were. *)
Definition keeps (h0 : list cell) (s : state) : Prop :=
  take (List.length h0) (cells s) = h0.

(** The computation writes to cells it has added only: run from a state that
    keeps [h0], it leaves one that does, and an answer satisfies [P]. *)
Definition writes_new (h0 : list cell) {A} (m : HM A) (P : A -> Prop) : Prop :=
  forall s, keeps h0 s ->
    keeps h0 (snd (m s)) /\ forall a, fst (m s) = Ret a -> P a.

End Store.

(** ** Notions used by the properties of the grouping loops *)

Module Grouping.
Import JS.

(** Every own member is an array. *)
Definition arrays_only (props : list (string * value)) : Prop :=
  forall k v, own_get props k = Some v -> exists xs, v = VArr xs.

Definition elems (v : value) : list value :=
  match v with VArr xs => xs | _ => [] end.

(** The member [x] of a table after the entries [es] were pushed to it. *)
Definition extend (x : value) (es : list value) : value :=
  match es with
  | [] => x
  | _ => VArr (elems x ++ es)
  end.

End Grouping.

(** ** scripts/utils/validation-utils.js

    The functions of the module that compute on data.  Reading files, the
    schema compiler and console output are left out. *)

Module ValidationUtils.
Import JS.

(** The module's own [shouldIgnoreField]. *)
Definition shouldIgnoreField (fieldName : string) : bool :=
  let systemFields := ["created_at"; "updated_at"; "_id"; "other"; "notes"] in
  let parentFields :=
    ["parent_project_id"; "parent_process_id"; "parent_document_id";
     "parent_comment_id"; "parent_event_id"; "parent_engagement_id";
     "parent_case_event_id"] in
  if mem fieldName systemFields || mem fieldName parentFields then true
  else
    startsWith fieldName "_" || includes fieldName "_json"
    || (endsWith fieldName "_id" && startsWith fieldName "parent_").

(** *** _getValueByJsonPointer *)

(** [s.substring(n)]. *)
Fixpoint substring_from (n : nat) (s : string) : string :=
  match n, s with
  | O, _ => s
  | S n', String _ r => substring_from n' r
  | S _, EmptyString => EmptyString
  end.

(** [s.split(sep)] for a separator of one code unit. *)
Fixpoint split (sep : ascii) (s : string) : list string :=
  match s with
  | EmptyString => [EmptyString]
  | String c r =>
      if Ascii.eqb c sep then EmptyString :: split sep r
      else match split sep r with
           | part :: parts => String c part :: parts
           | [] => [String c EmptyString]
           end
  end.

(** [s.replace(/ab/g, replacement)] for a pattern of the two code units [a]
    and [b]: the matches are found from left to right and do not overlap. *)
Fixpoint replace_pair (a b : ascii) (replacement s : string) : string :=
  match s with
  | String x (String y r as t) =>
      if Ascii.eqb x a && Ascii.eqb y b then replacement +:+ replace_pair a b replacement r
      else String x (replace_pair a b replacement t)
  | _ => s
  end.

(** [Object.prototype.hasOwnProperty.call(v, k)] for an object [v].  Of the
    built-in prototypes only the members of [Object.prototype] are known. *)
Definition hasOwnProperty (v : value) (k : string) : outcome bool :=
  match v with
  | VObj _ props => Ret (has_own props k)
  | VArr xs => Ret (match index_get xs k with Some _ => true | None => false end)
  | VBuiltin n =>
      if String.eqb n "Object.prototype" then Ret (mem k objproto_names)
      else Throw Exhausted
  | _ => Ret false
  end.

(** One round of the loop over the parts: [None] is the early
    [return undefined]. *)
Definition pointer_step (current : option value) (part : string) : outcome (option value) :=
  match current with
  | None => Ret None
  | Some current =>
      let decodedPart := replace_pair "~" "0" "~" (replace_pair "~" "1" "/" part) in
      if negb (is_object current) then Ret None
      else
        let* own := hasOwnProperty current decodedPart in
        if negb own then Ret None else Ret (Some (get_prop current decodedPart))
  end.

Definition _getValueByJsonPointer (data : value) (pointer : string) : outcome value :=
  if String.eqb pointer "" || String.eqb pointer "#" then Ret data
  else
    let path :=
      if startsWith pointer "#/" then substring_from 2 pointer
      else if startsWith pointer "/" then substring_from 1 pointer
      else pointer in
    if String.eqb path "" then Ret data
    else
      let parts := split "/" path in
      let* current := foldM pointer_step parts (Some data) in
      Ret (match current with Some v => v | None => VUndef end).

(** *** Notions used by the properties *)

(** A reference token of RFC 6901 for the key [k]: [~] is written [~0]
    and [/] is written [~1]. *)
Fixpoint escape (k : string) : string :=
  match k with
  | EmptyString => EmptyString
  | String c r =>
      if Ascii.eqb c "~" then String "~" (String "0" (escape r))
      else if Ascii.eqb c "/" then String "~" (String "1" (escape r))
      else String c (escape r)
  end.

(** The JSON Pointer of the path [ks]. *)
Fixpoint pointer_of (ks : list string) : string :=
  match ks with
  | [] => EmptyString
  | k :: r => String "/" (escape k +:+ pointer_of r)
  end.

(** The member reached from [v] through the own keys [ks]; [undefined] when
    the path leaves the objects or names a key that is not an own one. *)
Fixpoint own_path (v : value) (ks : list string) : outcome value :=
  match ks with
  | [] => Ret v
  | k :: r =>
      if negb (is_object v) then Ret VUndef
      else
        let* own := hasOwnProperty v k in
        if negb own then Ret VUndef else own_path (get_prop v k) r
  end.

End ValidationUtils.

(** ** scripts/validate-openapi.js

    The analyzers of a parsed OpenAPI document.  Reading the files and console
    output are left out; the messages pushed to the result lists are kept
    with the values that fill their templates, and [render] gives the text.
    (Parsed data holds no callable member: a method called on a value that
    does not inherit it is a [TypeError].) *)

Module OpenApi.
Import JS.

Inductive message : Type :=
| MsgMissingField (field : string)
| MsgVersion (version : string)
| MsgDeprecated (field : string)
| MsgTableNotInCrosswalk (table : string)
| MsgColumnNotInApi (columnName : string)
| MsgParameterNotInDatabase (param : string)
| MsgNoSchemaMapping (definitionName : string)
| MsgDefinitionNotFound (schema : string)
| MsgRequiredMissing (propName : string)
| MsgPropertyNotInSchema (propName : string).

Definition render (m : message) : string :=
  match m with
  | MsgMissingField f => "Missing required OpenAPI field: " +:+ f
  | MsgVersion v => "OpenAPI version " +:+ v +:+ " - consider upgrading to 3.x"
  | MsgDeprecated f =>
      "Deprecated OpenAPI 2.0 field found: " +:+ f +:+ " - should be updated for OpenAPI 3.x"
  | MsgTableNotInCrosswalk t =>
      "Table '" +:+ t +:+ "' found in OpenAPI but not in database crosswalk"
  | MsgColumnNotInApi c => "Database column '" +:+ c +:+ "' not found in OpenAPI parameters"
  | MsgParameterNotInDatabase p =>
      "OpenAPI parameter '" +:+ p +:+ "' not found in database schema"
  | MsgNoSchemaMapping d => "No schema mapping found for OpenAPI definition: " +:+ d
  | MsgDefinitionNotFound s => "NEPA schema definition not found: " +:+ s
  | MsgRequiredMissing p => "Required schema property missing in API: " +:+ p
  | MsgPropertyNotInSchema p => "API property not found in schema: " +:+ p
  end.

(** The message says that a database column has no parameter. *)
Definition reports_missing_column (m : message) : bool :=
  match m with
  | MsgColumnNotInApi _ => true
  | _ => false
  end.

(** *** Methods and loops on values of any type *)

(** [v.startsWith(p)]. *)
Definition call_startsWith (v : value) (p : string) : outcome bool :=
  match v with
  | VStr s => Ret (startsWith s p)
  | _ => Throw TypeError
  end.

(** The values [for (const x of v)] visits. *)
Definition for_of (v : value) : outcome (list value) :=
  match v with
  | VArr xs => Ret xs
  | VStr s => Ret (map VStr (unit_strings s))
  | VBuiltin n => if String.eqb n "Array.prototype" then Ret [] else Throw TypeError
  | _ => Throw TypeError
  end.

(** [xs.some(f)] stops at the first element [f] accepts. *)
Fixpoint someM (f : value -> outcome bool) (xs : list value) : outcome bool :=
  match xs with
  | [] => Ret false
  | x :: r => let* hit := f x in if hit then Ret true else someM f r
  end.

Definition array_some (a : value) (f : value -> outcome bool) : outcome bool :=
  match a with
  | VArr xs => someM f xs
  | VBuiltin n => if String.eqb n "Array.prototype" then Ret false else Throw TypeError
  | _ => Throw TypeError
  end.

(** *** validateOpenApiStructure *)

Record structure_results : Type := {
  structure_valid : bool;
  structure_errors : list message;
  structure_warnings : list message
}.

Definition requiredFields : list string := ["openapi"; "info"; "paths"].

Definition deprecatedFields : list string :=
  ["host"; "basePath"; "schemes"; "consumes"; "produces"].

Definition required_step (openApiSpec : value) (results : structure_results)
    (field : string) : outcome structure_results :=
  let* member := get_checked openApiSpec field in
  if negb (truthy member) then
    Ret {| structure_valid := false;
           structure_errors := structure_errors results ++ [MsgMissingField field];
           structure_warnings := structure_warnings results |}
  else Ret results.

Definition structure_warning (results : structure_results) (m : message)
  : structure_results :=
  {| structure_valid := structure_valid results;
     structure_errors := structure_errors results;
     structure_warnings := structure_warnings results ++ [m] |}.

Definition deprecated_step (openApiSpec : value) (results : structure_results)
    (field : string) : outcome structure_results :=
  let* member := get_checked openApiSpec field in
  if truthy member then Ret (structure_warning results (MsgDeprecated field))
  else Ret results.

Definition validateOpenApiStructure (openApiSpec : value) : outcome structure_results :=
  let results :=
    {| structure_valid := true; structure_errors := []; structure_warnings := [] |} in
  let* results := foldM (required_step openApiSpec) requiredFields results in
  let* version := get_checked openApiSpec "openapi" in
  let* results :=
    if truthy version then
      let* current := call_startsWith version "3." in
      if negb current then
        let* shown := ToString version in
        Ret (structure_warning results (MsgVersion shown))
      else Ret results
    else Ret results in
  foldM (deprecated_step openApiSpec) deprecatedFields results.

(** *** validateTableAgainstCrosswalk *)

Record counts : Type := { found : Z; total : Z }.

Record results : Type := {
  name : string;
  valid : bool;
  errors : list message;
  warnings : list message;
  coverage : counts
}.

Definition found_incr (r : results) : results :=
  {| name := name r; valid := valid r; errors := errors r; warnings := warnings r;
     coverage := {| found := found (coverage r) + 1; total := total (coverage r) |} |}.

Definition total_incr (r : results) : results :=
  {| name := name r; valid := valid r; errors := errors r; warnings := warnings r;
     coverage := {| found := found (coverage r); total := total (coverage r) + 1 |} |}.

Definition set_total (r : results) (n : Z) : results :=
  {| name := name r; valid := valid r; errors := errors r; warnings := warnings r;
     coverage := {| found := found (coverage r); total := n |} |}.

Definition push_warning (r : results) (m : message) : results :=
  {| name := name r; valid := valid r; errors := errors r;
     warnings := warnings r ++ [m]; coverage := coverage r |}.

(** The two statements that report an error. *)
Definition push_error (r : results) (m : message) : results :=
  {| name := name r; valid := false; errors := errors r ++ [m];
     warnings := warnings r; coverage := coverage r |}.

Definition start (n : string) : results :=
  {| name := n; valid := true; errors := []; warnings := [];
     coverage := {| found := 0; total := 0 |} |}.

(** One round of the loop over the database columns.  [shouldIgnoreField]
    calls [startsWith] on its argument: past it the column name is a
    string. *)
Definition column_step (apiParameters : value) (r : results) (column : value)
  : outcome results :=
  let* columnName := get_checked column "column" in
  let* present := includes_value apiParameters columnName in
  if present then Ret (found_incr r)
  else
    match columnName with
    | VStr c =>
        if MappingUtils.shouldIgnoreField c then Ret (found_incr r)
        else if negb (includes c "_json") && negb (startsWith c "parent_")
        then Ret (push_warning r (MsgColumnNotInApi c))
        else Ret (found_incr r)
    | _ => Throw TypeError
    end.

(** One round of the loop over the parameters. *)
Definition parameter_step (dbColumns : value) (r : results) (param : value)
  : outcome results :=
  let* hasDbColumn :=
    array_some dbColumns
      (fun col => let* c := get_checked col "column" in Ret (strict_eq c param)) in
  if hasDbColumn then Ret r
  else
    match param with
    | VStr p =>
        if negb (MappingUtils.shouldIgnoreField p)
           && (negb (String.eqb p "other") && negb (startsWith p "_")
               && negb (String.eqb p "select"))
        then Ret (push_warning r (MsgParameterNotInDatabase p))
        else Ret r
    | _ => Throw TypeError
    end.

(** [dbColumns.length] is read before the loop; the loop throws on the values
    that cannot be iterated, so that the length is that of the list of the
    values visited wherever a result is returned. *)
Definition validateTableAgainstCrosswalk (tableName : string) (tableInfo crosswalk : value)
  : outcome results :=
  let r := start tableName in
  let* dbColumns := get_checked crosswalk tableName in
  if negb (truthy dbColumns) then Ret (push_warning r (MsgTableNotInCrosswalk tableName))
  else
    let* parameters := get_checked tableInfo "parameters" in
    let apiParameters := or parameters (VArr []) in
    let* columns := for_of dbColumns in
    let r := set_total r (Z.of_nat (List.length columns)) in
    let* r := foldM (column_step apiParameters) columns r in
    let* params := for_of apiParameters in
    foldM (parameter_step dbColumns) params r.

(** *** validateDefinitionAgainstSchema *)

(** One round of the loop over the properties of the schema definition. *)
Definition coverage_step (definitionName : string) (apiProperties requiredFields : value)
    (r : results) (propName : string) : outcome results :=
  let r := total_incr r in
  let* fieldFound :=
    if truthy (get_prop apiProperties propName) then Ret true
    else
      let* required := includes_value requiredFields (VStr propName) in
      if negb required && negb (MappingUtils.shouldIgnoreField propName) then
        Ret (existsb (fun apiField =>
                        strict_eq (mapDatabaseFieldToSchema apiField definitionName)
                                  (VStr propName))
                     (map fst (entries apiProperties)))
      else Ret false in
  if fieldFound then Ret (found_incr r)
  else
    let* required := includes_value requiredFields (VStr propName) in
    if required then Ret (push_error r (MsgRequiredMissing propName))
    else Ret r.

(** One round of the loop over the properties of the API definition. *)
Definition unmatched_step (definitionName : string) (schemaProperties : value)
    (r : results) (propName : string) : outcome results :=
  if negb (truthy (get_prop schemaProperties propName))
     && negb (MappingUtils.shouldIgnoreField propName) then
    let mappedField := mapDatabaseFieldToSchema propName definitionName in
    let* target := get_computed schemaProperties mappedField in
    if negb (truthy target) then Ret (push_warning r (MsgPropertyNotInSchema propName))
    else Ret r
  else Ret r.

Definition validateDefinitionAgainstSchema (definitionName : string)
    (definition nepaDefinitions : value) : outcome results :=
  let r := start definitionName in
  let schemaMapping := get_prop MappingUtils.OPENAPI_TO_SCHEMA_MAP definitionName in
  if negb (truthy schemaMapping) then Ret (push_warning r (MsgNoSchemaMapping definitionName))
  else
    let* schema := ToString (get_prop schemaMapping "schema") in
    let* nepaDefinition := get_checked nepaDefinitions schema in
    if negb (truthy nepaDefinition) then Ret (push_error r (MsgDefinitionNotFound schema))
    else
      let* properties := get_checked definition "properties" in
      let apiProperties := or properties (obj []) in
      let schemaProperties := or (get_prop nepaDefinition "properties") (obj []) in
      let requiredFields := or (get_prop nepaDefinition "required") (VArr []) in
      let* r :=
        foldM (coverage_step definitionName apiProperties requiredFields)
              (map fst (entries schemaProperties)) r in
      foldM (unmatched_step definitionName schemaProperties)
            (map fst (entries apiProperties)) r.

End OpenApi.

(** ** The YAML validation script (second module of the file that holds
    scripts/utils/validation-utils.js)

    The structural fixes applied to a parsed YAML document before it is
    validated. *)

Module YamlValidation.
Import JS.

(** The first [n] code units of [cur] followed by [filler] over and over. *)
Fixpoint cycle (n : nat) (filler cur : string) : string :=
  match n with
  | O => EmptyString
  | S n' =>
      match cur with
      | String c r => String c (cycle n' filler r)
      | EmptyString =>
          match filler with
          | String c r => String c (cycle n' filler r)
          | EmptyString => EmptyString
          end
      end
  end.

(** [s.padStart(targetLength, filler)]. *)
Definition padStart (s : string) (targetLength : nat) (filler : string) : string :=
  cycle (targetLength - String.length s) filler filler +:+ s.

(** [o[k] = v] in a module that is not in strict mode: the member of an
    object is assigned, the assignment to a primitive value is ignored.  A
    named member of an array is beyond the trees of the embedding. *)
Definition assign (o : value) (k : string) (v : value) : outcome value :=
  match o with
  | VUndef | VNull => Throw TypeError
  | VObj _ _ => Ret (set_prop o k v)
  | VArr _ | VFun _ | VBuiltin _ => Throw Exhausted
  | _ => Ret o
  end.

(** [if (!gisItem[k]) { gisItem[k] = v; fixes.push(message); }]. *)
Definition fill_missing (k : string) (v : value) (message : string)
    (st : value * list string) : outcome (value * list string) :=
  let '(gisItem, fixes) := st in
  let* current := get_checked gisItem k in
  if negb (truthy current) then
    let* gisItem := assign gisItem k v in
    Ret (gisItem, fixes ++ [message])
  else Ret (gisItem, fixes).

(** The callback of [modifiedData.gis_data.forEach]. *)
Definition gis_item_step (gisItem : value) (index : nat) (fixes : list string)
  : outcome (value * list string) :=
  let at_index := "gis_data[" +:+ of_nat index +:+ "]" in
  let* st :=
    fill_missing "gis_id" (VStr ("gis-" +:+ padStart (of_nat (index + 1)) 3 "0"))
      ("Added missing required gis_id for " +:+ at_index) (gisItem, fixes) in
  let* st :=
    fill_missing "data_type" (VStr "point")
      ("Added missing required data_type for " +:+ at_index) st in
  fill_missing "coordinate_system" (VStr "WGS84")
    ("Added missing required coordinate_system for " +:+ at_index) st.

(** The loop over the records, from index [index] on: the records as the
    callback leaves them, and the fixes. *)
Fixpoint gis_items (items : list value) (index : nat) (fixes : list string)
  : outcome (list value * list string) :=
  match items with
  | [] => Ret ([], fixes)
  | gisItem :: rest =>
      let* '(gisItem, fixes) := gis_item_step gisItem index fixes in
      let* '(rest, fixes) := gis_items rest (S index) fixes in
      Ret (gisItem :: rest, fixes)
  end.

Record fix_results : Type := {
  data : value;
  fixes : list string;
  warnings : list string
}.

(** The statements after the clone.  The records are changed in place: the
    array stays the member [gis_data] of the clone, which holds it alone. *)
Definition apply_fixes (modifiedData : value) : outcome fix_results :=
  let* projects := get_checked modifiedData "projects" in
  let* '(modifiedData, fixes) :=
    if negb (truthy projects) then
      let* modifiedData := assign modifiedData "projects" (VArr []) in
      Ret (modifiedData, ["Added missing required projects array to root level"])
    else Ret (modifiedData, []) in
  let gis_data := get_prop modifiedData "gis_data" in
  if truthy gis_data && isArray gis_data then
    match gis_data with
    | VArr items =>
        let* '(items, fixes) := gis_items items 0 fixes in
        Ret {| data := set_prop modifiedData "gis_data" (VArr items);
               fixes := fixes; warnings := [] |}
    | _ => Ret {| data := modifiedData; fixes := fixes; warnings := [] |}
    end
  else Ret {| data := modifiedData; fixes := fixes; warnings := [] |}.

Definition validateAndFixYamlStructure (data : value) : outcome fix_results :=
  let* modifiedData :=
    match json_clone data with
    | Some clone => Ret clone
    | None => Throw SyntaxError
    end in
  apply_fixes modifiedData.

(** *** Notions used by the properties *)

(** The record holds the three members the fixes supply. *)
Definition complete (gisItem : value) : Prop :=
  truthy (get_prop gisItem "gis_id") = true
  /\ truthy (get_prop gisItem "data_type") = true
  /\ truthy (get_prop gisItem "coordinate_system") = true.

(** The loop over the records leaves them as they are, and logs nothing
    when each of them is an object. *)
Definition settled (items : list value) : Prop :=
  forall index fixes, exists fixes',
    gis_items items index fixes = Ret (items, fixes')
    /\ (Forall (fun item => is_object item = true) items -> fixes' = fixes).

End YamlValidation.

(** A document with two GIS records and no projects. *)
Module YamlFixtures.
Import JS.

Definition gis_document : value :=
  obj [("gis_data", VArr [ obj [("description", VStr "Project boundary")];
                           obj [("gis_id", VStr "gis-17"); ("data_type", VStr "polygon")] ])].

End YamlFixtures.

(** ** scripts/utils/csv-utils.js

    The functions that compute on the rows of a parsed CSV file.  Reading
    the file is left out: [csvData] and [rows] are the rows the parser
    gives, each an object whose members are the fields of the row. *)

Module CsvUtils.
Import JS.

(** *** loadDatabaseCrosswalk *)

Definition tableName_of (row : value) : value :=
  or (or (get_prop row "table_name") (get_prop row "Table")) (get_prop row "table").

Definition columnName_of (row : value) : value :=
  or (or (get_prop row "column_name") (get_prop row "Column")) (get_prop row "column").

(** The entry pushed for a row. *)
Definition crosswalk_entry (row : value) : value :=
  obj [ ("table", tableName_of row);
        ("column", columnName_of row);
        ("dataType",
         or (or (get_prop row "data_type") (get_prop row "DataType")) (get_prop row "type"));
        ("nullable",
         or (or (get_prop row "is_nullable") (get_prop row "Nullable"))
            (get_prop row "nullable"));
        ("defaultValue",
         or (or (get_prop row "column_default") (get_prop row "Default"))
            (get_prop row "default"));
        ("description",
         or (or (get_prop row "description") (get_prop row "Description")) (VStr ""));
        ("constraints",
         or (or (get_prop row "constraints") (get_prop row "Constraints")) (VStr "")) ].

(** [if (!table[key]) table[key] = []; table[key].push(entry)].  The array
    of a key is held by [table] alone, so that pushing to it is assigning
    the longer array. *)
Definition push_under (table : value) (key : string) (entry : value) : outcome value :=
  let table :=
    if negb (truthy (get_prop table key)) then set_prop table key (VArr []) else table in
  let* grown := array_push (get_prop table key) entry in
  Ret (set_prop table key grown).

(** One round of the loop over the rows. *)
Definition row_step (crosswalk row : value) : outcome value :=
  let* _ := get_checked row "table_name" in
  let tableName := tableName_of row in
  let columnName := columnName_of row in
  if negb (truthy tableName) || negb (truthy columnName) then Ret crosswalk
  else
    let* key := ToString tableName in
    push_under crosswalk key (crosswalk_entry row).

(** What the promise of [loadDatabaseCrosswalk] settles to: the crosswalk,
    or the [Error] that quotes the message of the error thrown in the loop. *)
Inductive load_result : Type :=
| Loaded (crosswalk : value)
| Failed (cause : error).

Definition loadDatabaseCrosswalk (rows : list value) : load_result :=
  match foldM row_step rows (obj []) with
  | Ret crosswalk => Loaded crosswalk
  | Throw cause => Failed cause
  end.

(** *** groupCsvData *)

Definition group_step (groupByColumn : string) (grouped row : value) : outcome value :=
  let* groupKey := get_checked row groupByColumn in
  if negb (truthy groupKey) then Ret grouped
  else
    let* key := ToString groupKey in
    push_under grouped key row.

Definition groupCsvData (csvData : list value) (groupByColumn : string) : outcome value :=
  foldM (group_step groupByColumn) csvData (obj []).

(** *** getUniqueColumnValues *)

(** The white space and line terminators among the code units below 256. *)
Definition is_space (c : ascii) : bool :=
  let n := nat_of_ascii c in
  ((9 <=? n) && (n <=? 13) || (n =? 32) || (n =? 160))%nat.

Fixpoint trimStart (s : string) : string :=
  match s with
  | String c r => if is_space c then trimStart r else s
  | EmptyString => EmptyString
  end.

Fixpoint trimEnd (s : string) : string :=
  match s with
  | String c r =>
      let t := trimEnd r in
      if is_space c && String.eqb t "" then EmptyString else String c t
  | EmptyString => EmptyString
  end.

Definition trim (s : string) : string := trimEnd (trimStart s).

(** [v.trim()]. *)
Definition call_trim (v : value) : outcome string :=
  match v with
  | VStr s => Ret (trim s)
  | _ => Throw TypeError
  end.

(** [val && val.trim() !== ''], as the condition of a filter. *)
Definition not_blank (val : value) : outcome bool :=
  if truthy val then let* t := call_trim val in Ret (negb (String.eqb t ""))
  else Ret false.

(** [[...new Set(values)]]: the first occurrence of each value, in order. *)
Definition unique (values : list value) : list value :=
  fold_left Crosswalk.set_add values [].

Definition getUniqueColumnValues (csvData : list value) (columnName : string)
  : outcome (list value) :=
  let* column := sequence (map (fun row => get_checked row columnName) csvData) in
  let* kept := filterM not_blank column in
  let* values := sequence (map (fun val => let* t := call_trim val in Ret (VStr t)) kept) in
  Ret (unique values).

(** *** validateCsvStructure *)

Record csv_results : Type := {
  valid : bool;
  errors : list string;
  warnings : list string;
  rowCount : Z
}.

(** [Object.keys(v)] and [Object.values(v)] for any [v]. *)
Definition object_keys (v : value) : outcome (list string) :=
  match v with
  | VUndef | VNull => Throw TypeError
  | _ => Ret (keys v)
  end.

Definition object_values (v : value) : outcome (list value) :=
  match v with
  | VUndef | VNull => Throw TypeError
  | _ => Ret (map snd (entries v))
  end.

(** [xs.every(f)] stops at the first element [f] rejects. *)
Fixpoint everyM (f : value -> outcome bool) (xs : list value) : outcome bool :=
  match xs with
  | [] => Ret true
  | x :: r => let* ok := f x in if ok then everyM f r else Ret false
  end.

(** [!val || val.trim() === '']. *)
Definition blank (val : value) : outcome bool :=
  if negb (truthy val) then Ret true
  else let* t := call_trim val in Ret (String.eqb t "").

Definition required_step (headers : list string) (results : csv_results) (required : value)
  : outcome csv_results :=
  if negb (existsb (strict_eq required) (map VStr headers)) then
    let* shown := ToString required in
    Ret {| valid := false;
           errors := errors results ++ ["Missing required column: " +:+ shown];
           warnings := warnings results; rowCount := rowCount results |}
  else Ret results.

Definition empty_row_step (emptyRowCount : Z) (row : value) : outcome Z :=
  let* values := object_values row in
  let* all_blank := everyM blank values in
  Ret (if all_blank then emptyRowCount + 1 else emptyRowCount).

Definition validateCsvStructure (csvData : list value) (requiredColumns : list value)
  : outcome csv_results :=
  let results :=
    {| valid := true; errors := []; warnings := [];
       rowCount := Z.of_nat (List.length csvData) |} in
  match csvData with
  | [] =>
      Ret {| valid := false; errors := errors results ++ ["CSV file is empty"];
             warnings := warnings results; rowCount := rowCount results |}
  | first :: _ =>
      let* headers := object_keys first in
      let* results := foldM (required_step headers) requiredColumns results in
      let* emptyRowCount := foldM empty_row_step csvData 0 in
      if 0 <? emptyRowCount then
        Ret {| valid := valid results; errors := errors results;
               warnings := warnings results
                             ++ ["Found " +:+ of_Z emptyRowCount +:+ " empty rows"];
               rowCount := rowCount results |}
      else Ret results
  end.

(** *** Notions used by the properties *)

(** The row is a row of table [t] with a column name. *)
Definition names_table (t : string) (row : value) : bool :=
  truthy (tableName_of row) && truthy (columnName_of row) && is_str (tableName_of row) t.

(** A row of a parsed file: an object whose table and column names, where
    it has both, are strings, the table not being called like a member of
    [Object.prototype]. *)
Definition csv_named (row : value) : Prop :=
  row <> VUndef /\ row <> VNull
  /\ (truthy (tableName_of row) = true -> truthy (columnName_of row) = true ->
      exists t c, tableName_of row = VStr t /\ columnName_of row = VStr c
                  /\ mem t objproto_names = false).

(** The row holds the string [t], not empty, in column [column]. *)
Definition in_group (column t : string) (row : value) : bool :=
  truthy (get_prop row column) && is_str (get_prop row column) t.

(** A row whose group key, where it has one, is a string that is not called
    like a member of [Object.prototype]. *)
Definition csv_keyed (column : string) (row : value) : Prop :=
  row <> VUndef /\ row <> VNull
  /\ (truthy (get_prop row column) = true ->
      exists t, get_prop row column = VStr t /\ mem t objproto_names = false).

End CsvUtils.

(** Rows of a database crosswalk, the third one without a table name. *)
Module CsvFixtures.
Import JS.

Definition crosswalk_row (table column type : string) : value :=
  obj [ ("table_name", VStr table); ("column_name", VStr column);
        ("data_type", VStr type); ("is_nullable", VStr "YES") ].

Definition rows : list value :=
  [ crosswalk_row "comment" "id" "bigint";
    crosswalk_row "project" "title" "text";
    crosswalk_row "" "orphan" "text";
    crosswalk_row "comment" "content_text" "text" ].

End CsvFixtures.

(** ** Notions used by the properties of the OpenAPI analyzers *)

Module Reports.
Import JS.

(** [requiredFields.includes(propName)], where the call returns. *)
Definition listed (requiredFields : value) (propName : string) : bool :=
  match includes_value requiredFields (VStr propName) with
  | Ret b => b
  | Throw _ => false
  end.

(** The required properties of a schema definition that the API definition
    has no truthy member for under the same name. *)
Definition missing_required (schemaProperties requiredFields apiProperties : value)
  : list string :=
  List.filter (fun p => negb (truthy (get_prop apiProperties p)) && listed requiredFields p)
              (keys schemaProperties).

End Reports.

(** ** Data used in the examples of the OpenAPI analyzers *)

Module OpenApiFixtures.
Import JS.

(** A definition of [components.schemas] for the table [comment]. *)
Definition comment_definition : value :=
  obj [("properties", obj [ ("comment_id", Fixtures.typed "string");
                            ("content_text", Fixtures.typed "string");
                            ("commenter_entity", Fixtures.typed "string") ])].

Definition crosswalk_row (table column : string) : value :=
  obj [ ("table", VStr table); ("column", VStr column); ("dataType", VStr "text");
        ("nullable", VStr "YES"); ("defaultValue", VUndef); ("description", VStr "");
        ("constraints", VStr "") ].

(** A crosswalk as [loadDatabaseCrosswalk] builds it. *)
Definition crosswalk : value :=
  obj [("comment", VArr [ crosswalk_row "comment" "id";
                          crosswalk_row "comment" "created_at";
                          crosswalk_row "comment" "content_text";
                          crosswalk_row "comment" "content_json" ])].

(** The table information [extractTablesFromOpenApi] gives for a path
    [/comment] with three parameters. *)
Definition comment_table : value :=
  obj [ ("paths", VArr [VStr "/comment"]); ("methods", VArr [VStr "get"]);
        ("parameters", VArr [VStr "id"; VStr "select"; VStr "reviewer"]);
        ("responses", VArr []) ].

End OpenApiFixtures.

(** ** The order of the own keys of an object

    The keys of an object are enumerated with the array indices first, in
    ascending order, and the other keys after them in the order they were
    created. *)

Module Canonical.
Import JS.

(** [k1] may come before [k2] among the keys of an object. *)
Definition before (k1 k2 : string) : Prop :=
  match array_index k1, array_index k2 with
  | Some i, Some j => (i < j)%N
  | Some _, None => True
  | None, Some _ => False
  | None, None => k1 <> k2
  end.

Definition canonical (ks : list string) : Prop := ForallOrdPairs before ks.

End Canonical.

(** ** Notions used by the properties of the record transformer *)

Module Fields.
Import JS.

(** [t'] is an object with every own member that the object [t] has. *)
Definition grows (t t' : value) : Prop :=
  forall p props, t = VObj p props ->
    exists p' props',
      t' = VObj p' props'
      /\ forall g, has_own props g = true -> has_own props' g = true.

End Fields.

(** * Properties *)

(** ** Sanity checks of the embedding *)

Example startsWith_ex : startsWith "parent_x_id" "parent_" = true.
Proof. reflexivity. Qed.

Example endsWith_ex : endsWith "project_id" "_id" = true /\ endsWith "id" "_id" = false.
Proof. split; reflexivity. Qed.

Example includes_ex : includes "content_json" "_json" = true /\ includes "json" "_json" = false.
Proof. split; reflexivity. Qed.

Example slice_ex : slice_0_m1 "processes" = "processe" /\ slice_0_m1 "" = "".
Proof. split; reflexivity. Qed.

Example lower_ex : toLowerCase "In Progress" = "in progress".
Proof. reflexivity. Qed.

Example of_Z_ex : of_Z 42 = "42" /\ of_Z 0 = "0" /\ of_Z (-7) = "-7".
Proof. repeat split; reflexivity. Qed.

Example array_index_ex :
  array_index "10" = Some 10%N /\ array_index "01" = None /\ array_index "a" = None.
Proof. repeat split; reflexivity. Qed.

Example get_inherited :
  JS.get_prop (JS.obj [("a", VNum 1)]) "constructor" = VFun "constructor"
  /\ JS.get_prop (JS.obj [("a", VNum 1)]) "__proto__" = JS.ObjectPrototype
  /\ JS.get_prop (JS.obj [("a", VNum 1)]) "b" = VUndef.
Proof. repeat split; reflexivity. Qed.

Example own_order :
  JS.own_set (JS.own_set (JS.own_set [] "b" VNull) "10" VNull) "9" VNull
  = [("9", VNull); ("10", VNull); ("b", VNull)].
Proof. reflexivity. Qed.

Example set_proto :
  JS.set_prop (JS.obj []) "__proto__" (JS.obj [("a", VNum 1)])
  = VObj (JS.obj [("a", VNum 1)]) []
  /\ JS.forin_keys (VObj (JS.obj [("a", VNum 1)]) [("b", VNull)]) = ["b"; "a"].
Proof. split; reflexivity. Qed.

Example ToString_ex :
  JS.ToString (VArr [VStr "a"; VNull; VNum 3]) = Ret "a,,3"
  /\ JS.ToString (JS.obj []) = Ret "[object Object]"
  /\ JS.ToString (JS.obj [("toString", VNum 1)]) = Throw TypeError.
Proof. repeat split; reflexivity. Qed.

Example mapStatus_ex :
  mapStatus (VStr "In Progress") = Ret (VStr "in-progress")
  /\ mapStatus (VStr "ON HOLD") = Ret (VStr "on hold")
  /\ mapStatus VNull = Ret (VStr "underway")
  /\ mapStatus (VNum 3) = Throw TypeError.
Proof. repeat split; reflexivity. Qed.

Example mapDatabaseFieldToSchema_ex :
  mapDatabaseFieldToSchema "id" "engagement" = VStr "event_id"
  /\ mapDatabaseFieldToSchema "title" "project" = VStr "project_title"
  /\ mapDatabaseFieldToSchema "sponsor" "document" = VStr "project_sponsor"
  /\ mapDatabaseFieldToSchema "volume" "document" = VStr "volume".
Proof. repeat split; reflexivity. Qed.

Example shouldIgnoreField_ex :
  shouldIgnoreField "created_at" = true
  /\ shouldIgnoreField "parent_gis_id" = true
  /\ shouldIgnoreField "parent_project_id" = false
  /\ shouldIgnoreField "content_json" = true
  /\ shouldIgnoreField "title" = false.
Proof. repeat split; reflexivity. Qed.

Example validateTable_comment :
  option_map
    (fun r => (Crosswalk.found (Crosswalk.table_coverage r),
               Crosswalk.total (Crosswalk.table_coverage r),
               Crosswalk.valid r, Crosswalk.warnings r))
    (match Crosswalk.validateTable "comment" Fixtures.comment_columns
             Fixtures.nepa_definitions with Ret r => Some r | Throw _ => None end)
  = Some (10, 10, true, []).
Proof. vm_compute. reflexivity. Qed.

Example validateTableAgainstSchema_comment :
  option_map
    (fun r => (Crosswalk.Against.coverage r, Crosswalk.Against.valid r,
               Crosswalk.Against.mappingWarnings r, Crosswalk.Against.unmatchedProperties r))
    (match Crosswalk.Against.validateTableAgainstSchema "comment" Fixtures.comment_columns
             Fixtures.nepa_definitions VNull with Ret r => Some r | Throw _ => None end)
  = Some ({| Crosswalk.Against.found := 9; Crosswalk.Against.total := 10 |}, true, [],
          ["id"]).
Proof. vm_compute. reflexivity. Qed.

Section TransformExamples.
Import JS Transform.

(** A clock for the examples. *)
Let clock (n : nat) : Z := 1700000000000 + Z.of_nat n.

(** Scenario 1 of the specification. *)
Example scenario_numeric_id :
  transformToNepaFormat clock [("project", VArr [obj [("id", VNum 42)]])]
  = Ret (obj [("projects", VArr [obj [("project_id", VStr "42")]])],
         [ "Added missing required projects array to root level";
           "Converted numeric ID project.id (mapped to project_id) to string: 42 -> 42";
           "Transformed project data to NEPA projects format" ]).
Proof. vm_compute. reflexivity. Qed.

(** Scenario 2 of the specification. *)
Example scenario_status :
  transformEntity clock (obj [("status", VStr "In Progress")]) "process_instance"
    "processes" (get_prop simplifiedSchemas "process") {| fixes := []; ticks := 0 |}
  = Ret (obj [("process_status", VStr "in-progress")], {| fixes := []; ticks := 0 |}).
Proof. vm_compute. reflexivity. Qed.

(** Scenario 4 of the specification. *)
Example scenario_empty_root :
  transformToNepaFormat clock []
  = Ret (obj [("projects", VArr [])],
         ["Added missing required projects array to root level"]).
Proof. vm_compute. reflexivity. Qed.

Example null_defaults :
  transformToNepaFormat clock
    [("projects", VArr [obj [("notes", VNull); ("project_sponsor", obj [("name", VNull)])]])]
  = Ret (obj [("projects",
               VArr [obj [("notes", VStr ""); ("project_sponsor", obj [("name", VStr "")])]])],
         [ "Replaced null with default '' for project.notes (expected string)";
           "Replaced null with default '' for project.project_sponsor.name (expected string)" ]).
Proof. vm_compute. reflexivity. Qed.

End TransformExamples.

(** ** Own properties *)

Section OwnProperties.
Import JS.
Context {V : Type}.
Implicit Types (props : list (string * V)) (v : V).

Lemma own_get_update_same props k v :
  has_own props k = true -> own_get (own_update props k v) k = Some v.
Proof.
  unfold has_own. induction props as [|[k' x] r IH]; simpl; [discriminate|].
  destruct (String.eqb k' k) eqn:E; simpl; rewrite E; auto.
Qed.

Lemma own_get_update_other props k v k' :
  k' <> k -> own_get (own_update props k v) k' = own_get props k'.
Proof.
  intros Hne. induction props as [|[k0 x] r IH]; simpl; [reflexivity|].
  destruct (String.eqb k0 k) eqn:E; simpl.
  - apply String.eqb_eq in E. subst k0.
    destruct (String.eqb k k') eqn:E'; [|reflexivity].
    apply String.eqb_eq in E'. congruence.
  - rewrite IH. reflexivity.
Qed.

Lemma own_get_insert_fresh props i k v :
  own_get props k = None -> own_get (insert_index props i k v) k = Some v.
Proof.
  induction props as [|[k0 x] r IH]; simpl.
  - rewrite String.eqb_refl. reflexivity.
  - destruct (String.eqb k0 k) eqn:E; [discriminate|]. intros H.
    destruct (array_index k0) as [j|].
    + destruct (j <? i)%N; simpl.
      * rewrite E. auto.
      * rewrite String.eqb_refl. reflexivity.
    + simpl. rewrite String.eqb_refl. reflexivity.
Qed.

Lemma own_get_insert_other props i k v k' :
  k' <> k -> own_get (insert_index props i k v) k' = own_get props k'.
Proof.
  intros Hne.
  assert (String.eqb k k' = false) as Ek by (apply String.eqb_neq; congruence).
  induction props as [|[k0 x] r IH]; simpl.
  - rewrite Ek. reflexivity.
  - destruct (array_index k0) as [j|].
    + destruct (j <? i)%N; simpl.
      * rewrite IH. reflexivity.
      * rewrite Ek. reflexivity.
    + simpl. rewrite Ek. reflexivity.
Qed.

Lemma own_get_app props k v k' :
  own_get (props ++ [(k, v)]) k'
  = match own_get props k' with
    | Some x => Some x
    | None => if String.eqb k k' then Some v else None
    end.
Proof.
  induction props as [|[k0 x] r IH]; simpl; [reflexivity|].
  destruct (String.eqb k0 k'); [reflexivity|exact IH].
Qed.

(** Reading back the property just written. *)
Lemma own_get_set_same props k v : own_get (own_set props k v) k = Some v.
Proof.
  unfold own_set. destruct (has_own props k) eqn:E.
  - apply own_get_update_same, E.
  - assert (own_get props k = None) as Hn.
    { unfold has_own in E. destruct (own_get props k); [discriminate|reflexivity]. }
    destruct (array_index k).
    + apply own_get_insert_fresh, Hn.
    + rewrite own_get_app, Hn, String.eqb_refl. reflexivity.
Qed.

(** Writing a property leaves the others as they are. *)
Lemma own_get_set_other props k v k' :
  k' <> k -> own_get (own_set props k v) k' = own_get props k'.
Proof.
  intros Hne. unfold own_set. destruct (has_own props k).
  - apply own_get_update_other, Hne.
  - destruct (array_index k).
    + apply own_get_insert_other, Hne.
    + rewrite own_get_app. destruct (own_get props k'); [reflexivity|].
      destruct (String.eqb k k') eqn:E; [|reflexivity].
      apply String.eqb_eq in E. congruence.
Qed.

(** Assigning a member other than [__proto__] of an object literal writes an
    own property. *)
Lemma set_prop_plain p (props : list (string * value)) k (v : value) :
  k <> "__proto__" -> set_prop (VObj p props) k v = VObj p (own_set props k v).
Proof.
  intros Hne. unfold set_prop, own_set.
  destruct (has_own props k); [reflexivity|].
  destruct (String.eqb k "__proto__") eqn:E; [|reflexivity].
  apply String.eqb_eq in E. contradiction.
Qed.

Lemma own_get_In props k v : own_get props k = Some v -> In (k, v) props.
Proof.
  induction props as [|[k0 x] r IH]; simpl; [discriminate|].
  destruct (String.eqb k0 k) eqn:E.
  - apply String.eqb_eq in E. intros H. injection H as <-. subst. auto.
  - auto.
Qed.

(** A string read from an object literal is an own member: no inherited
    member is a string. *)
Lemma literal_string_own (props : list (string * value)) k s :
  get_prop (obj props) k = VStr s -> own_get props k = Some (VStr s).
Proof.
  unfold get_prop, obj. cbn [get_from].
  destruct (own_get props k) as [v|]; [congruence|].
  unfold ObjectPrototype. cbn [get_from]. unfold objproto_member.
  destruct (String.eqb k "__proto__"); [discriminate|].
  destruct (mem k objproto_names); discriminate.
Qed.

Lemma builtin_member_not_string (v : value) k s :
  (exists f, v = VFun f) \/ (exists n, v = VBuiltin n) \/ v = VUndef \/ v = VNull ->
  get_prop v k <> VStr s.
Proof.
  intros [[f ->]|[[n ->]|[->| ->]]]; unfold get_prop; cbn [get_from];
    try discriminate; unfold objproto_member;
    (destruct (String.eqb k "__proto__");
     [simpl; try discriminate; destruct (String.eqb n "Object.prototype"); discriminate
     |destruct (mem k objproto_names); discriminate]).
Qed.

(** What a read of an object literal can answer. *)
Lemma literal_get_cases (props : list (string * value)) k :
  (exists x : value, own_get props k = Some x /\ get_prop (obj props) k = x)
  \/ (own_get props k = None
      /\ (get_prop (obj props) k = VUndef
          \/ (exists f, get_prop (obj props) k = VFun f)
          \/ (exists n, get_prop (obj props) k = VBuiltin n))).
Proof.
  unfold get_prop, obj. cbn [get_from].
  destruct (own_get props k) as [x|]; [left; eauto|right; split; [reflexivity|]].
  unfold ObjectPrototype. cbn [get_from]. unfold objproto_member.
  destruct (String.eqb k "__proto__"); [right; right; simpl; eauto|].
  destruct (mem k objproto_names); eauto.
Qed.

End OwnProperties.

(** Induction on a value through its elements, its prototype and its members. *)
Lemma value_nested_ind (P : value -> Prop) :
  P VUndef -> P VNull -> (forall b, P (VBool b)) -> (forall n, P (VNum n)) ->
  (forall s, P (VStr s)) -> (forall f, P (VFun f)) -> (forall n, P (VBuiltin n)) ->
  (forall xs, Forall P xs -> P (VArr xs)) ->
  (forall p props, P p -> Forall (fun kx => P (snd kx)) props -> P (VObj p props)) ->
  forall v, P v.
Proof.
  intros HU HN HB HZ HS HF HP HA HO. fix IH 1.
  intros [| |b|n|s|f|n|xs|p props].
  - exact HU.
  - exact HN.
  - apply HB.
  - apply HZ.
  - apply HS.
  - apply HF.
  - apply HP.
  - apply HA. induction xs as [|x r IHr]; constructor; [apply IH|exact IHr].
  - apply HO; [apply IH|].
    induction props as [|[k x] r IHr]; constructor; [apply IH|exact IHr].
Qed.

(** ** Lookups in object literals *)

Section Literals.
Import JS.

Lemma own_get_miss (props : list (string * value)) (k : string) :
  mem k (map fst props) = false -> own_get props k = None.
Proof.
  induction props as [|[k' v] r IH]; simpl; [reflexivity|].
  rewrite String.eqb_sym.
  destruct (String.eqb k' k); simpl; [discriminate|exact IH].
Qed.

Lemma own_get_hit (props : list (string * value)) (k : string) :
  mem k (map fst props) = true -> exists v, own_get props k = Some v.
Proof.
  induction props as [|[k' v] r IH]; simpl; [discriminate|].
  rewrite String.eqb_sym.
  destruct (String.eqb k' k); simpl; eauto.
Qed.

Lemma objproto_member_miss (recv : value) (k : string) :
  mem k objproto_names = false -> objproto_member recv k = VUndef.
Proof.
  intros H. unfold objproto_member. rewrite H.
  destruct (String.eqb k "__proto__") eqn:E; [|reflexivity].
  apply String.eqb_eq in E. subst k. discriminate H.
Qed.

(** A name that is neither an own key of an object literal nor a member of
    [Object.prototype] reads as [undefined]. *)
Lemma literal_miss (props : list (string * value)) (k : string) :
  mem k (keys (obj props)) = false ->
  mem k objproto_names = false ->
  get_prop (obj props) k = VUndef.
Proof.
  intros Hk Hp. unfold get_prop, obj, keys in *. cbn [get_from].
  rewrite (own_get_miss _ _ Hk). unfold ObjectPrototype. cbn [get_from].
  apply objproto_member_miss, Hp.
Qed.

(** A member of [Object.prototype] other than [__proto__] that is not shadowed
    reads as the inherited built-in function. *)
Lemma literal_inherited (props : list (string * value)) (k : string) :
  mem k (keys (obj props)) = false ->
  mem k objproto_names = true ->
  k <> "__proto__" ->
  get_prop (obj props) k = VFun k.
Proof.
  intros Hk Hp Hn. unfold get_prop, obj, keys in *. cbn [get_from].
  rewrite (own_get_miss _ _ Hk). unfold ObjectPrototype. cbn [get_from].
  unfold objproto_member. rewrite Hp.
  destruct (String.eqb k "__proto__") eqn:E; [|reflexivity].
  apply String.eqb_eq in E. contradiction.
Qed.

End Literals.

Lemma toLowerCase_nonempty (s : string) : s <> "" -> toLowerCase s <> "".
Proof. destruct s; simpl; [congruence|discriminate]. Qed.

(** ** Enumerated value translators *)

(** C1, as stated, fails: an engagement type outside the table is replaced. *)
Lemma mapEngagementType_not_passthrough :
  JS.mem "webinar" (JS.keys engagementTypeMap) = false
  /\ mapEngagementType (VStr "webinar") = Ret (VStr "public meeting")
  /\ mapEngagementType (VStr "webinar") <> Ret (VStr "webinar").
Proof. repeat split; try reflexivity. discriminate. Qed.

(** C1 (amended): for every input string that is not a key of the
    engagement-type table (and does not name a member inherited from
    [Object.prototype]), [mapEngagementType] returns the fixed default
    ['public meeting']. *)
Theorem mapEngagementType_unknown (s : string) :
  JS.mem s (JS.keys engagementTypeMap) = false ->
  JS.mem s JS.objproto_names = false ->
  mapEngagementType (VStr s) = Ret (VStr "public meeting").
Proof.
  intros Hk Hp. unfold mapEngagementType. simpl.
  unfold engagementTypeMap, strs in *.
  rewrite (literal_miss _ _ Hk Hp). reflexivity.
Qed.

Lemma mapEngagementType_unknown_witness :
  mapEngagementType (VStr "town hall") = Ret (VStr "public meeting").
Proof. apply (mapEngagementType_unknown "town hall"); reflexivity. Defined.

(** The document-type translator does pass unknown types through. *)
Lemma mapDocumentType_unknown (s : string) :
  JS.mem s (JS.keys documentTypeMap) = false ->
  JS.mem s JS.objproto_names = false ->
  mapDocumentType (VStr s) = Ret (VStr s).
Proof.
  intros Hk Hp. unfold mapDocumentType. simpl.
  unfold documentTypeMap, strs in *.
  rewrite (literal_miss _ _ Hk Hp). reflexivity.
Qed.

(** C6, as stated, fails at the empty string: the result is ['underway'],
    not the (empty) lower-cased copy. *)
Lemma mapStatus_empty_string :
  JS.mem "" (JS.keys statusMap) = false
  /\ mapStatus (VStr "") = Ret (VStr "underway")
  /\ mapStatus (VStr "") <> Ret (VStr (toLowerCase "")).
Proof. repeat split; try reflexivity. discriminate. Qed.

(** C6 (amended): for every non-empty input string that is not a key of the
    status table (and does not name a member inherited from
    [Object.prototype]), [mapStatus] returns the lower-cased copy of the
    input, also when lower-casing leaves it unchanged; for the empty string
    it returns ['underway']. *)
Theorem mapStatus_unknown (s : string) :
  JS.mem s (JS.keys statusMap) = false ->
  JS.mem s JS.objproto_names = false ->
  mapStatus (VStr s)
  = Ret (VStr (if String.eqb s "" then "underway" else toLowerCase s)).
Proof.
  intros Hk Hp. unfold mapStatus. simpl.
  unfold statusMap, strs in *.
  rewrite (literal_miss _ _ Hk Hp). simpl.
  destruct (String.eqb s "") eqn:E.
  - apply String.eqb_eq in E. subst s. reflexivity.
  - apply String.eqb_neq in E. apply toLowerCase_nonempty in E.
    unfold JS.or. simpl.
    destruct (String.eqb (toLowerCase s) "") eqn:E'; [|reflexivity].
    apply String.eqb_eq in E'. contradiction.
Qed.

Lemma mapStatus_unknown_witness :
  mapStatus (VStr "On Hold") = Ret (VStr "on hold")
  /\ mapStatus (VStr "draft") = Ret (VStr "draft").
Proof.
  split.
  - apply (mapStatus_unknown "On Hold"); reflexivity.
  - apply (mapStatus_unknown "draft"); reflexivity.
Defined.

(** ** Table bindings *)

(** Table names outside the binding table, and not naming an inherited
    member, get the fallback binding. *)
Lemma getSchemaMapping_fallback (t : string) :
  JS.mem t (JS.keys TABLE_TO_SCHEMA_MAP) = false ->
  JS.mem t JS.objproto_names = false ->
  getSchemaMapping t
  = JS.obj [("schemaName", VStr t); ("idField", VStr (t +:+ "_id"))]
  /\ mapEntityId t = VStr (t +:+ "_id").
Proof.
  intros Hk Hp. unfold mapEntityId, getSchemaMapping.
  unfold TABLE_TO_SCHEMA_MAP in *.
  rewrite (literal_miss _ _ Hk Hp). split; reflexivity.
Qed.

(** C9: the table name ['constructor'] is not a key of the binding table, yet
    the lookup finds the inherited [Object] constructor, which is truthy:
    no fallback binding is built and the identifier field is [undefined]. *)
Lemma getSchemaMapping_inherited_name :
  JS.mem "constructor" (JS.keys TABLE_TO_SCHEMA_MAP) = false
  /\ getSchemaMapping "constructor" = VFun "constructor"
  /\ getSchemaMapping "constructor"
     <> JS.obj [("schemaName", VStr "constructor"); ("idField", VStr "constructor_id")]
  /\ mapEntityId "constructor" = VUndef.
Proof. repeat split; try reflexivity. discriminate. Qed.

(** ** Coverage analysis *)

Section Coverage.
Import JS Crosswalk.

Lemma obind_ret {A B} (m : outcome A) (f : A -> outcome B) (b : B) :
  obind m f = Ret b -> exists a, m = Ret a /\ f a = Ret b.
Proof. destruct m as [a|e]; simpl; [eauto|discriminate]. Qed.

(** An invariant kept by every round of a loop holds when the loop returns. *)
Lemma foldM_invariant {A S} (f : S -> A -> outcome S) (I : S -> Prop) :
  (forall s a s', I s -> f s a = Ret s' -> I s') ->
  forall l s s', I s -> foldM f l s = Ret s' -> I s'.
Proof.
  intros step l. induction l as [|a r IH]; simpl; intros s s' Hs H.
  - injection H as <-. exact Hs.
  - apply obind_ret in H as (s1 & H1 & H2). eauto.
Qed.

(** A counter that grows by at most one a round grows by at most the number
    of rounds. *)
Lemma foldM_counter {A S} (f : S -> A -> outcome S) (c : S -> Z) :
  (forall s a s', f s a = Ret s' -> c s <= c s' <= c s + 1) ->
  forall l s s', foldM f l s = Ret s' -> c s <= c s' <= c s + Z.of_nat (List.length l).
Proof.
  intros step l. induction l as [|a r IH]; simpl List.length; simpl foldM; intros s s' H.
  - injection H as <-. lia.
  - apply obind_ret in H as (s1 & H1 & H2).
    apply step in H1. apply IH in H2. lia.
Qed.

Lemma coverage_step_counts table cols m req r p r' :
  coverage_step table cols m req r p = Ret r' ->
  total (table_coverage r') = total (table_coverage r)
  /\ found (table_coverage r) <= found (table_coverage r')
     <= found (table_coverage r) + 1.
Proof.
  unfold coverage_step. intros H.
  destruct (property_found table cols m p).
  - injection H as <-. simpl. lia.
  - apply obind_ret in H as (b & _ & H).
    destruct b; [destruct (known_mapping table p m)|];
      injection H as <-; simpl; lia.
Qed.

Lemma unmatched_step_coverage table name props r c r' :
  unmatched_step table name props r c = Ret r' ->
  table_coverage r' = table_coverage r.
Proof.
  unfold unmatched_step. intros H.
  destruct (shouldIgnoreField (column c)); [injection H as <-; reflexivity|].
  apply obind_ret in H as (v1 & _ & H).
  apply obind_ret in H as (v2 & _ & H).
  match type of H with (if ?c then _ else _) = _ => destruct c end.
  - apply obind_ret in H as (s1 & _ & H).
    apply obind_ret in H as (s2 & _ & H).
    injection H as <-. reflexivity.
  - injection H as <-. reflexivity.
Qed.

Lemma validateTable_counts table cols defs r :
  validateTable table cols defs = Ret r ->
  0 <= found (table_coverage r) <= total (table_coverage r)
  /\ total (table_coverage r) = Z.of_nat (List.length (countable_properties table defs)).
Proof.
  unfold validateTable, countable_properties. intros H.
  apply obind_ret in H as (key & Hkey & H). rewrite Hkey.
  apply obind_ret in H as (def & Hdef & H).
  assert (def = get_prop defs key) as ->.
  { destruct defs; simpl in Hdef; congruence. }
  destruct (truthy (get_prop defs key)); simpl negb in H; cbv iota in H.
  - apply obind_ret in H as (r1 & H1 & H2).
    apply foldM_counter with (c := fun s => found (table_coverage s)) in H1 as Hc;
      [|intros; eapply coverage_step_counts; eassumption].
    apply foldM_invariant
      with (I := fun s => total (table_coverage s)
                          = Z.of_nat (List.length
                              (filter (fun prop => negb (shouldIgnoreField prop))
                                 (keys (or (get_prop (get_prop defs key) "properties")
                                           (obj []))))))
      in H1 as Ht;
      [|intros s a s' Hs Hstep; apply coverage_step_counts in Hstep as [-> _]; exact Hs
       |reflexivity].
    apply foldM_invariant
      with (I := fun s => table_coverage s = table_coverage r1) in H2 as He;
      [|intros s a s' Hs Hstep; apply unmatched_step_coverage in Hstep; congruence
       |reflexivity].
    rewrite He. simpl in Hc. lia.
  - apply obind_ret in H as (name & _ & H). injection H as <-. simpl. lia.
Qed.

Lemma validateTableAgainstSchema_counts table cols defs dbdefs r :
  Against.validateTableAgainstSchema table cols defs dbdefs = Ret r ->
  0 <= Against.found (Against.coverage r) <= Against.total (Against.coverage r)
  /\ Against.total (Against.coverage r)
     = Z.of_nat (List.length (countable_properties table defs)).
Proof.
  unfold Against.validateTableAgainstSchema, countable_properties. intros H.
  apply obind_ret in H as (key & Hkey & H). rewrite Hkey.
  apply obind_ret in H as (def & Hdef & H).
  assert (def = get_prop defs key) as ->.
  { destruct defs; simpl in Hdef; congruence. }
  destruct (truthy (get_prop defs key)); simpl negb in H; cbv iota in H.
  - destruct (Against.database_definition table dbdefs) as [[d1 d2] d3].
    apply obind_ret in H as (st & _ & H).
    apply obind_ret in H as (missing & _ & H).
    apply obind_ret in H as (st1 & _ & H).
    apply obind_ret in H as (st2 & _ & H).
    injection H as <-. simpl. lia.
  - apply obind_ret in H as (name & _ & H). injection H as <-. simpl. lia.
Qed.

(** C5: whatever table is analyzed, the coverage counts of the result satisfy
    [0 <= found <= total], where [total] is the number of non-ignored
    properties of the target entity, for both analyzers of the crosswalk
    ([validateTable] and [validateTableAgainstSchema]). *)
Theorem coverage_bound table cols defs dbdefs :
  (forall r, validateTable table cols defs = Ret r ->
     0 <= found (table_coverage r) <= total (table_coverage r)
     /\ total (table_coverage r)
        = Z.of_nat (List.length (countable_properties table defs)))
  /\ (forall r, Against.validateTableAgainstSchema table cols defs dbdefs = Ret r ->
     0 <= Against.found (Against.coverage r) <= Against.total (Against.coverage r)
     /\ Against.total (Against.coverage r)
        = Z.of_nat (List.length (countable_properties table defs))).
Proof.
  split; intros r H.
  - exact (validateTable_counts _ _ _ _ H).
  - exact (validateTableAgainstSchema_counts _ _ _ _ _ H).
Qed.

End Coverage.

(** ** The misspelt column [public_acess] of table [comment] *)

Section Typo.
Import JS Crosswalk.

Lemma coverage_witness_run :
  exists r, validateTable "comment" Fixtures.comment_columns Fixtures.nepa_definitions = Ret r
            /\ found (table_coverage r) = 10 /\ total (table_coverage r) = 10
            /\ warnings r = [].
Proof. eexists. split; [vm_compute; reflexivity|]. repeat split. Qed.

(** C2, as stated, fails on the repository's own crosswalk and schema: the
    table-specific rule resolves [public_acess] to [public_access], and
    neither analyzer reports the column. *)
Lemma public_acess_not_reported :
  mapDatabaseFieldToSchema "public_acess" "comment" = VStr "public_access"
  /\ (exists r, validateTable "comment" Fixtures.comment_columns
                  Fixtures.nepa_definitions = Ret r
                /\ warnings r = [])
  /\ (exists r, Against.validateTableAgainstSchema "comment" Fixtures.comment_columns
                  Fixtures.nepa_definitions VNull = Ret r
                /\ Against.warnings r = [] /\ Against.mappingWarnings r = []).
Proof.
  split; [reflexivity|]. split.
  - eexists. split; [vm_compute; reflexivity|reflexivity].
  - eexists. split; [vm_compute; reflexivity|]. split; reflexivity.
Qed.

Lemma quiet_push ws m :
  quiet ws = true -> reports_unmatched "public_acess" m = false -> quiet (ws ++ [m]) = true.
Proof.
  unfold quiet. intros H1 H2. rewrite forallb_app, H1. simpl. rewrite H2. reflexivity.
Qed.

Lemma coverage_step_quiet cols m req r p r' :
  quiet (warnings r) = true ->
  coverage_step "comment" cols m req r p = Ret r' ->
  quiet (warnings r') = true.
Proof.
  unfold coverage_step. intros Hq H.
  destruct (property_found "comment" cols m p).
  - injection H as <-. exact Hq.
  - apply obind_ret in H as (b & _ & H).
    destruct b; [destruct (known_mapping "comment" p m)|]; injection H as <-; simpl;
      try exact Hq.
    apply quiet_push; [exact Hq|reflexivity].
Qed.

Lemma unmatched_step_quiet name props r c r' :
  truthy (get_prop props "public_access") = true ->
  quiet (warnings r) = true ->
  unmatched_step "comment" name props r c = Ret r' ->
  quiet (warnings r') = true.
Proof.
  intros Hp Hq H. unfold unmatched_step in H.
  destruct (String.eqb (column c) "public_acess") eqn:E.
  - apply String.eqb_eq in E. rewrite E in H.
    change (shouldIgnoreField "public_acess") with false in H. cbv iota in H.
    change (mapDatabaseFieldToSchema "public_acess" "comment")
      with (VStr "public_access") in H.
    unfold get_computed in H. cbn [ToString obind] in H.
    unfold or in H.
    repeat first [rewrite Hp in H | progress cbn [negb andb obind] in H].
    injection H as <-. exact Hq.
  - destruct (shouldIgnoreField (column c)); [injection H as <-; exact Hq|].
    apply obind_ret in H as (v1 & _ & H).
    apply obind_ret in H as (v2 & _ & H).
    match type of H with (if ?c then _ else _) = _ => destruct c end.
    + apply obind_ret in H as (s1 & _ & H).
      apply obind_ret in H as (s2 & _ & H).
      injection H as <-. simpl. apply quiet_push; [exact Hq|]. simpl. exact E.
    + injection H as <-. exact Hq.
Qed.

Lemma column_step_quiet name props req st c st' :
  truthy (get_prop props "public_access") = true ->
  quiet (Against.ls_mappingWarnings st) = true ->
  Against.column_step "comment" name props req st c = Ret st' ->
  quiet (Against.ls_mappingWarnings st') = true.
Proof.
  intros Hp Hq H. unfold Against.column_step in H.
  destruct (String.eqb (column c) "public_acess") eqn:E.
  - apply String.eqb_eq in E. rewrite E in H.
    change (shouldIgnoreField "public_acess") with false in H. cbv iota in H.
    change (mapDatabaseFieldToSchema "public_acess" "comment")
      with (VStr "public_access") in H.
    unfold get_computed in H. cbn [ToString obind] in H.
    rewrite Hp in H. injection H as <-. exact Hq.
  - destruct (shouldIgnoreField (column c)); [injection H as <-; exact Hq|].
    apply obind_ret in H as (v1 & _ & H).
    destruct (truthy v1); [injection H as <-; exact Hq|].
    apply obind_ret in H as (b & _ & H).
    apply obind_ret in H as (s1 & _ & H).
    destruct b; [injection H as <-; exact Hq|].
    apply obind_ret in H as (s2 & _ & H).
    injection H as <-. simpl. apply quiet_push; [exact Hq|]. simpl. exact E.
Qed.

(** C2 (amended): on table [comment] the column [public_acess] is resolved to
    the canonical property [public_access] by the table-specific rule, by the
    global rule and by the analyzer's special-case table; whenever the target
    entity defines [public_access], as [public_comment] does, neither analyzer
    reports the column as an unmatched source field. *)
Theorem public_acess_resolved :
  get_prop (get_prop fieldMappingsByTable "comment") "public_acess" = VStr "public_access"
  /\ get_prop specialMappings "public_acess" = VStr "public_access"
  /\ get_prop (get_prop specificMappings "comment") "public_acess" = VStr "public_access"
  /\ mapDatabaseFieldToSchema "public_acess" "comment" = VStr "public_access"
  /\ forall cols defs dbdefs,
       truthy (get_prop (or (get_prop (get_prop defs "public_comment") "properties")
                            (obj [])) "public_access") = true ->
       (forall r, validateTable "comment" cols defs = Ret r ->
                  quiet (warnings r) = true)
       /\ (forall r, Against.validateTableAgainstSchema "comment" cols defs dbdefs = Ret r ->
                  quiet (Against.warnings r) = true
                  /\ quiet (Against.mappingWarnings r) = true).
Proof.
  do 4 (split; [reflexivity|]).
  intros cols defs dbdefs Hp. split; intros r H.
  - unfold validateTable in H.
    change (ToString (get_prop (getSchemaMapping "comment") "schemaName"))
      with (Ret (A := string) "public_comment") in H.
    cbn [obind] in H.
    apply obind_ret in H as (def & Hdef & H).
    assert (def = get_prop defs "public_comment") as ->.
    { destruct defs; simpl in Hdef; congruence. }
    destruct (truthy (get_prop defs "public_comment")); simpl negb in H; cbv iota in H.
    + apply obind_ret in H as (r1 & H1 & H2).
      apply foldM_invariant with (I := fun s => quiet (warnings s) = true) in H1;
        [|intros s a s' Hs Hstep; eapply coverage_step_quiet; eassumption|reflexivity].
      apply foldM_invariant with (I := fun s => quiet (warnings s) = true) in H2;
        [exact H2|intros s a s' Hs Hstep; eapply unmatched_step_quiet; eassumption
         |exact H1].
    + injection H as <-. reflexivity.
  - unfold Against.validateTableAgainstSchema in H.
    change (ToString (get_prop (getSchemaMapping "comment") "schemaName"))
      with (Ret (A := string) "public_comment") in H.
    cbn [obind] in H.
    apply obind_ret in H as (def & Hdef & H).
    assert (def = get_prop defs "public_comment") as ->.
    { destruct defs; simpl in Hdef; congruence. }
    destruct (truthy (get_prop defs "public_comment")); simpl negb in H; cbv iota in H.
    + destruct (Against.database_definition "comment" dbdefs) as [[d1 d2] d3].
      apply obind_ret in H as (st & Hst & H).
      apply foldM_invariant
        with (I := fun s => quiet (Against.ls_mappingWarnings s) = true) in Hst;
        [|intros s a s' Hs Hstep; eapply column_step_quiet; eassumption|reflexivity].
      apply obind_ret in H as (missing & _ & H).
      apply obind_ret in H as (st1 & H1 & H).
      apply obind_ret in H as (st2 & H2 & H).
      injection H as <-. simpl. split; [reflexivity|].
      assert (Against.ls_mappingWarnings st1 = Against.ls_mappingWarnings st) as E1.
      { destruct missing; [injection H1 as <-; reflexivity|].
        apply obind_ret in H1 as (j & _ & H1). injection H1 as <-. reflexivity. }
      assert (Against.ls_mappingWarnings st2 = Against.ls_mappingWarnings st1) as E2.
      { destruct (truthy d1); [|injection H2 as <-; reflexivity].
        apply obind_ret in H2 as (mdf & _ & H2).
        destruct mdf; [injection H2 as <-; reflexivity|].
        apply obind_ret in H2 as (j & _ & H2). injection H2 as <-. reflexivity. }
      rewrite E2, E1. exact Hst.
    + injection H as <-. split; reflexivity.
Qed.

Lemma public_acess_resolved_witness :
  exists r, validateTable "comment" Fixtures.comment_columns Fixtures.nepa_definitions = Ret r
            /\ quiet (warnings r) = true.
Proof.
  destruct public_acess_resolved as (_ & _ & _ & _ & H).
  destruct (H Fixtures.comment_columns Fixtures.nepa_definitions VNull) as [H1 _];
    [vm_compute; reflexivity|].
  eexists. split; [|apply H1]; vm_compute; reflexivity.
Defined.

Lemma coverage_bound_witness :
  exists r, validateTable "comment" Fixtures.comment_columns Fixtures.nepa_definitions = Ret r
            /\ 0 <= found (table_coverage r) <= total (table_coverage r).
Proof.
  destruct (coverage_bound "comment" Fixtures.comment_columns Fixtures.nepa_definitions VNull)
    as [H _].
  eexists. split; [|apply H]; vm_compute; reflexivity.
Defined.

End Typo.

(** ** The entity transformer *)

Section TransformBasics.
Import JS Transform.

Variable Date_now : nat -> Z.

Lemma bind_ret_inv {A B} (m : M A) (f : A -> M B) (s : run) (b : B) (s' : run) :
  bind m f s = Ret (b, s') ->
  exists a s1, m s = Ret (a, s1) /\ f a s1 = Ret (b, s').
Proof.
  unfold bind. destruct (m s) as [[a s1]|e]; [eauto|discriminate].
Qed.

Lemma lift_ret_inv {A} (o : outcome A) (s : run) (a : A) (s' : run) :
  lift o s = Ret (a, s') -> o = Ret a /\ s' = s.
Proof.
  unfold lift. destruct o; [|discriminate]. intros H. injection H as <- <-. auto.
Qed.

(** C10: [transformProperties] returns every input that is [null] or not an
    object (a number, a string, a boolean, [undefined]) unchanged, without
    throwing and without logging a fix. *)
Theorem transformProperties_non_object (entity : value) (entityType : string)
    (schemaProperties : value) (s : run) :
  is_object entity = false ->
  transformProperties entity entityType schemaProperties s = Ret (entity, s).
Proof.
  intros H. unfold transformProperties.
  destruct (height entity); simpl; rewrite H; reflexivity.
Qed.

Lemma transformProperties_non_object_witness :
  transformProperties VNull "project" (obj []) {| fixes := []; ticks := 0 |}
  = Ret (VNull, {| fixes := []; ticks := 0 |})
  /\ transformProperties (VNum 7) "project" VUndef {| fixes := []; ticks := 0 |}
     = Ret (VNum 7, {| fixes := []; ticks := 0 |})
  /\ transformProperties (VStr "x") "project" VNull {| fixes := []; ticks := 0 |}
     = Ret (VStr "x", {| fixes := []; ticks := 0 |}).
Proof.
  split; [|split]; apply transformProperties_non_object; reflexivity.
Defined.

(** C4: the [process] schema knows [notes] as a string, yet the second pass
    leaves a null [notes] of a [processes] element in place, because the
    schema is looked up under ['processe'] ([nepaKey.slice(0, -1)]); the same
    field of a [projects] element is filled. *)
Lemma second_pass_misses_processes :
  get_prop (get_prop simplifiedSchemas "process") "notes" = VStr "string"
  /\ slice_0_m1 "processes" = "processe"
  /\ get_prop simplifiedSchemas "processe" = VUndef
  /\ transformToNepaFormat Date_now
       [("projects", VArr []); ("processes", VArr [obj [("notes", VNull)]])]
     = Ret (obj [("projects", VArr []); ("processes", VArr [obj [("notes", VNull)]])], [])
  /\ transformToNepaFormat Date_now
       [("projects", VArr [obj [("notes", VNull)]]); ("processes", VArr [])]
     = Ret (obj [("projects", VArr [obj [("notes", VStr "")]]); ("processes", VArr [])],
            ["Replaced null with default '' for project.notes (expected string)"]).
Proof. repeat split; vm_compute; reflexivity. Qed.

End TransformBasics.

(** ** The names the field mapping can answer *)

Section MappingRange.
Import JS.

Lemma append_id_not_proto (t : string) : t +:+ "_id" <> "__proto__".
Proof.
  destruct t as [|c1 [|c2 [|c3 [|c4 [|c5 [|c6 [|c7 [|c8 [|c9 [|c10 t]]]]]]]]]];
    simpl; intros H; try discriminate H;
    repeat (injection H as _ H); try discriminate H.
Qed.

Lemma strs_lookup_not_proto (l : list (string * string)) (k : string) :
  forallb (fun kv => negb (String.eqb (snd kv) "__proto__")) l = true ->
  get_prop (strs l) k <> VStr "__proto__".
Proof.
  intros Hall Hget. unfold strs in Hget.
  apply literal_string_own, own_get_In in Hget.
  apply in_map_iff in Hget as ([k0 v0] & Heq & Hin). simpl in Heq.
  injection Heq as _ ->.
  rewrite forallb_forall in Hall. specialize (Hall _ Hin). discriminate Hall.
Qed.

Lemma mapEntityId_not_proto (t : string) : mapEntityId t <> VStr "__proto__".
Proof.
  unfold mapEntityId, getSchemaMapping, TABLE_TO_SCHEMA_MAP.
  match goal with |- context [get_prop (obj ?props) t] =>
    destruct (literal_get_cases props t)
      as [(v & Hown & ->)|(_ & [-> |[(f & ->)|(n & ->)]])]
  end.
  - apply own_get_In in Hown. simpl in Hown.
    repeat (destruct Hown as [Hown|Hown]; [injection Hown as _ <-; discriminate|]).
    destruct Hown.
  - cbn. intros H. injection H as H. exact (append_id_not_proto _ H).
  - apply builtin_member_not_string. eauto.
  - apply builtin_member_not_string. eauto.
Qed.

Lemma special_lookup_not_proto (k : string) :
  or (get_prop specialMappings k) (VStr k) <> VStr "__proto__".
Proof.
  unfold or. destruct (truthy (get_prop specialMappings k)) eqn:E.
  - apply strs_lookup_not_proto. reflexivity.
  - intros H. injection H as ->. discriminate E.
Qed.

(** The field mapping never answers the name [__proto__]. *)
Lemma mapDatabaseFieldToSchema_not_proto (k t : string) :
  mapDatabaseFieldToSchema k t <> VStr "__proto__".
Proof.
  unfold mapDatabaseFieldToSchema.
  destruct (String.eqb k "id"); [apply mapEntityId_not_proto|].
  unfold fieldMappingsByTable.
  match goal with |- context [get_prop (obj ?props) t] =>
    destruct (literal_get_cases props t)
      as [(v & Hown & ->)|(_ & [-> |[(f & ->)|(n & ->)]])]
  end.
  - match goal with |- (if ?c then _ else _) <> _ => destruct c end;
      [|apply special_lookup_not_proto].
    apply own_get_In in Hown. simpl in Hown.
    repeat (destruct Hown as [Hown|Hown];
            [injection Hown as _ <-; apply strs_lookup_not_proto; reflexivity|]).
    destruct Hown.
  - cbn [truthy]. cbv iota. apply special_lookup_not_proto.
  - match goal with |- (if ?c then _ else _) <> _ => destruct c end;
      [apply builtin_member_not_string; eauto|apply special_lookup_not_proto].
  - match goal with |- (if ?c then _ else _) <> _ => destruct c end;
      [apply builtin_member_not_string; eauto|apply special_lookup_not_proto].
Qed.

End MappingRange.

(** ** The identifier of a transformed record *)

Section Identifier.
Import JS Transform.

Variable Date_now : nat -> Z.

Lemma ret_inv {A} (a b : A) (s s' : run) : ret a s = Ret (b, s') -> b = a /\ s' = s.
Proof. unfold ret. intros H. injection H as <- <-. auto. Qed.

Lemma push_bind_inv {A} (msg : string) (k : M A) (s : run) (a : A) (s' : run) :
  (push msg ;; k) s = Ret (a, s') ->
  k {| fixes := fixes s ++ [msg]; ticks := ticks s |} = Ret (a, s').
Proof. unfold bind, push. auto. Qed.

Lemma id_inv_set_other id t k v :
  id_inv id t -> k <> "__proto__" -> k <> id -> id_inv id (set_prop t k v).
Proof.
  intros (props & -> & H) Hk Hne. exists (own_set props k v). split.
  - apply set_prop_plain, Hk.
  - rewrite own_get_set_other by congruence. exact H.
Qed.

Lemma id_inv_set_string id t str :
  id_inv id t -> id <> "__proto__" -> id_inv id (set_prop t id (VStr str)).
Proof.
  intros (props & -> & H) Hk. exists (own_set props id (VStr str)). split.
  - apply set_prop_plain, Hk.
  - right. exists str. apply own_get_set_same.
Qed.

Lemma step_keeps_id table target ESP id item t k s t' s' :
  mapEntityId table = VStr id ->
  endsWith id "_id" = true ->
  mem id enum_names = false ->
  get_checked ESP id = Ret (VStr "string") ->
  id_inv id t ->
  (strict_eq (mapDatabaseFieldToSchema k table) (mapEntityId table) = true ->
   id_source (get_prop item k) = true) ->
  transformEntity_step item table target ESP (VStr id) t k s = Ret (t', s') ->
  id_inv id t'.
Proof.
  intros Hid Hends Henum Hschema Hinv Hsrc H.
  unfold transformEntity_step in H.
  pose proof (mapDatabaseFieldToSchema_not_proto k table) as Hnp.
  rewrite Hid in Hsrc.
  destruct (mapDatabaseFieldToSchema k table) as [| | | |sk| | | |] eqn:Esk;
    try (apply bind_ret_inv in H as (v1 & s1 & _ & H);
         apply bind_ret_inv in H as (et & s2 & _ & H);
         apply bind_ret_inv in H as (v2 & s3 & _ & H);
         apply bind_ret_inv in H as (key & s4 & Hkey & _); discriminate Hkey).
  assert (sk <> "__proto__") as Hsk by congruence.
  destruct (String.eqb sk id) eqn:Eid.
  - apply String.eqb_eq in Eid. subst sk.
    assert (forall c, is_str (VStr id) c = true -> mem c enum_names = true -> False)
      as Hno.
    { intros c Hc Hm. simpl in Hc. apply String.eqb_eq in Hc. subst c. congruence. }
    assert (is_str (VStr id) "status" = false
            /\ is_str (VStr id) "process_status" = false
            /\ is_str (VStr id) "project_status" = false
            /\ is_str (VStr id) "document_type" = false
            /\ is_str (VStr id) "event_type" = false
            /\ is_str (VStr id) "event_status" = false) as (E1 & E2 & E3 & E4 & E5 & E6).
    { repeat split;
        match goal with |- ?b = false =>
          destruct b eqn:E; [exfalso; eapply Hno; [exact E|reflexivity]|reflexivity]
        end. }
    rewrite E1, E2, E3, E4, E5, E6 in H. cbn [orb andb] in H.
    cbn [ToString obind] in H. rewrite Hschema in H.
    assert (id_source (get_prop item k) = true) as Hv.
    { apply Hsrc. simpl. apply String.eqb_refl. }
    unfold bind at 1 in H. cbn [ret] in H.
    unfold bind at 1 in H. cbn [lift] in H.
    destruct (get_prop item k) as [| |b|n|str|f|bn|xs|p ps] eqn:Ev; try discriminate Hv.
    + (* null: the string default *)
      cbn in H. rewrite Hends in H. cbn in H.
      injection H as <- _. apply id_inv_set_string; assumption.
    + (* number: converted *)
      cbn in H. rewrite Hends in H. cbn in H.
      injection H as <- _. apply id_inv_set_string; assumption.
    + (* string: kept *)
      cbn in H. rewrite Hends in H. cbn in H.
      injection H as <- _. apply id_inv_set_string; assumption.
  - apply String.eqb_neq in Eid.
    apply bind_ret_inv in H as (v1 & s1 & _ & H).
    apply bind_ret_inv in H as (et & s2 & _ & H).
    apply bind_ret_inv in H as (v2 & s3 & _ & H).
    apply bind_ret_inv in H as (key & s4 & Hkey & H).
    apply ret_inv in Hkey as [-> ->].
    apply bind_ret_inv in H as (v3 & s5 & _ & H).
    destruct (is_object v3 && negb (isArray v3)).
    + apply bind_ret_inv in H as (nested & s6 & _ & H).
      apply ret_inv in H as [-> _]. apply id_inv_set_other; assumption.
    + match type of H with (if ?c then _ else _) _ = _ => destruct c end.
      * apply bind_ret_inv in H as (items & s6 & _ & H).
        apply ret_inv in H as [-> _]. apply id_inv_set_other; assumption.
      * apply ret_inv in H as [-> _]. apply id_inv_set_other; assumption.
Qed.

(** An invariant kept by every round of a loop holds when the loop returns. *)
Lemma forM_invariant {A S} (f : S -> A -> M S) (I : S -> Prop) (l : list A) :
  (forall x a st x' st', In a l -> I x -> f x a st = Ret (x', st') -> I x') ->
  forall x st x' st', I x -> forM l x f st = Ret (x', st') -> I x'.
Proof.
  induction l as [|a r IH]; intros step x st x' st' Hx H; simpl in H.
  - apply ret_inv in H as [-> _]. exact Hx.
  - apply bind_ret_inv in H as (x1 & st1 & H1 & H2).
    eapply IH; [|eapply step; [left; reflexivity|exact Hx|exact H1]|exact H2].
    intros. eapply step; eauto. right. assumption.
Qed.

Lemma loop_keeps_id table target ESP id item st t st' :
  mapEntityId table = VStr id ->
  endsWith id "_id" = true ->
  mem id enum_names = false ->
  get_checked ESP id = Ret (VStr "string") ->
  id_sources_ok table item = true ->
  forM (forin_keys item) (obj [])
       (transformEntity_step item table target ESP (VStr id)) st = Ret (t, st') ->
  id_inv id t.
Proof.
  intros Hid Hends Henum Hschema Hsrc H.
  eapply forM_invariant in H; [exact H| |exists []; split; [reflexivity|left; reflexivity]].
  intros x k s x' s' Hin Hx Hstep.
  eapply step_keeps_id; try eassumption.
  intros Heq. unfold id_sources_ok in Hsrc. rewrite forallb_forall in Hsrc.
  specialize (Hsrc k Hin). rewrite Heq in Hsrc. exact Hsrc.
Qed.

Lemma id_inv_read id t :
  mem id objproto_names = false ->
  id_inv id t ->
  truthy (get_prop t id) = true ->
  has_string_member t (VStr id) = true.
Proof.
  intros Hp (props & -> & [Hn|(str & Hs)]) Ht.
  - unfold get_prop, obj in Ht. cbn [get_from] in Ht. rewrite Hn in Ht.
    unfold ObjectPrototype in Ht. cbn [get_from] in Ht.
    rewrite (objproto_member_miss _ _ Hp) in Ht. discriminate Ht.
  - unfold has_string_member, obj. rewrite Hs. reflexivity.
Qed.

Lemma has_string_member_set id t str :
  id_inv id t -> id <> "__proto__" ->
  has_string_member (set_prop t id (VStr str)) (VStr id) = true.
Proof.
  intros (props & -> & _) Hne. unfold obj. rewrite set_prop_plain by assumption.
  unfold has_string_member. rewrite own_get_set_same. reflexivity.
Qed.

Lemma has_string_member_set_other id t k v :
  (exists props, t = obj props) ->
  has_string_member t (VStr id) = true ->
  k <> "__proto__" -> k <> id ->
  has_string_member (set_prop t k v) (VStr id) = true.
Proof.
  intros (props & ->) H Hk Hne. unfold obj in *. rewrite set_prop_plain by assumption.
  unfold has_string_member in *. rewrite own_get_set_other by congruence. exact H.
Qed.

Lemma not_proto_name id : mem id objproto_names = false -> id <> "__proto__".
Proof. intros H ->. discriminate H. Qed.

(** Tables whose identifier name is rebuilt from the target array. *)
Lemma transformEntity_id_derived table target schema id item s t s' :
  mapEntityId table = VStr id ->
  endsWith id "_id" = true ->
  mem id enum_names = false ->
  mem id objproto_names = false ->
  get_checked (if is_undefined schema then obj [] else schema) id = Ret (VStr "string") ->
  mapEntityId (slice_0_m1 target) = VStr id ->
  String.eqb table "gis_data" || String.eqb target "gis_data" = false ->
  id_sources_ok table item = true ->
  transformEntity Date_now item table target schema s = Ret (t, s') ->
  has_string_member t (VStr id) = true.
Proof.
  intros Hid Hends Henum Hp Hschema Htarget Hgis Hsrc H.
  pose proof (not_proto_name _ Hp) as Hne.
  unfold transformEntity in H. rewrite Hid, Htarget, Hgis in H.
  apply bind_ret_inv in H as (t0 & s0 & Hloop & H).
  eapply loop_keeps_id in Hloop; try eassumption.
  cbn [ToString] in H.
  apply bind_ret_inv in H as (idKey & s1 & Hk & H).
  apply lift_ret_inv in Hk as [Hk ->]. injection Hk as <-.
  apply bind_ret_inv in H as (idSchema & s2 & Hs & H).
  apply bind_ret_inv in H as (t1 & s3 & Ht1 & H).
  apply ret_inv in H as [-> _].
  destruct (truthy (get_prop t0 id)) eqn:Etr; cbn [negb andb] in Ht1, Hs.
  - apply ret_inv in Ht1 as [-> _]. apply id_inv_read; assumption.
  - apply lift_ret_inv in Hs as [Hs ->]. rewrite Hschema in Hs. injection Hs as <-.
    cbn in Ht1. injection Ht1 as <- _.
    apply has_string_member_set; assumption.
Qed.

Lemma gis_defaults_keep_id schema t s t' s' :
  get_prop schema "gis_id" = VStr "string" ->
  id_inv "gis_id" t ->
  gis_defaults Date_now "gis_data" schema t s = Ret (t', s') ->
  has_string_member t' (VStr "gis_id") = true.
Proof.
  intros Hschema Hinv H. unfold gis_defaults in H.
  apply bind_ret_inv in H as (t1 & s1 & H1 & H).
  assert ((exists props, t1 = obj props)
          /\ has_string_member t1 (VStr "gis_id") = true) as [Ho1 Hm1].
  { rewrite Hschema in H1. cbn [truthy String.eqb Ascii.eqb Bool.eqb negb andb] in H1.
    rewrite andb_true_r in H1.
    destruct (truthy (get_prop t "gis_id")) eqn:Etr; cbn [negb] in H1.
    - apply ret_inv in H1 as [-> _]. split.
      + destruct Hinv as (props & -> & _). eauto.
      + apply id_inv_read; [reflexivity|assumption|assumption].
    - cbn in H1. injection H1 as <- _. split.
      + destruct Hinv as (props & -> & _). unfold obj.
        rewrite set_prop_plain by discriminate. eauto.
      + apply has_string_member_set; [assumption|discriminate]. }
  assert (forall k v u, (exists props, u = obj props) ->
            exists props, set_prop u k v = obj props \/ k = "__proto__") as Hshape.
  { intros k v u (props & ->). destruct (String.eqb k "__proto__") eqn:E.
    - apply String.eqb_eq in E. exists []. auto.
    - apply String.eqb_neq in E. unfold obj. rewrite set_prop_plain by assumption.
      eauto. }
  apply bind_ret_inv in H as (t2 & s2 & H2 & H).
  assert ((exists props, t2 = obj props)
          /\ has_string_member t2 (VStr "gis_id") = true) as [Ho2 Hm2].
  { match type of H2 with (if ?c then _ else _) _ = _ => destruct c end.
    - apply push_bind_inv, ret_inv in H2 as [-> _]. split.
      + destruct (Hshape "data_type"
                    (or (getDefaultValueForType (get_prop schema "data_type"))
                        (VStr "point")) t1 Ho1) as (props & [E|E]);
          [eauto|discriminate E].
      + apply has_string_member_set_other; auto; discriminate.
    - apply ret_inv in H2 as [-> _]. auto. }
  apply bind_ret_inv in H as (t3 & s3 & H3 & H).
  assert ((exists props, t3 = obj props)
          /\ has_string_member t3 (VStr "gis_id") = true) as [Ho3 Hm3].
  { match type of H3 with (if ?c then _ else _) _ = _ => destruct c end.
    - apply push_bind_inv, ret_inv in H3 as [-> _]. split.
      + destruct (Hshape "coordinate_system"
                    (or (getDefaultValueForType (get_prop schema "coordinate_system"))
                        (VStr "WGS84")) t2 Ho2) as (props & [E|E]);
          [eauto|discriminate E].
      + apply has_string_member_set_other; auto; discriminate.
    - apply ret_inv in H3 as [-> _]. auto. }
  match type of H with (if ?c then _ else _) _ = _ => destruct c end;
    [|match type of H with (if ?c then _ else _) _ = _ => destruct c end].
  - apply push_bind_inv, ret_inv in H as [-> _].
    apply has_string_member_set_other; auto; discriminate.
  - apply push_bind_inv, ret_inv in H as [-> _].
    apply has_string_member_set_other; auto; discriminate.
  - apply ret_inv in H as [-> _]. exact Hm3.
Qed.

Lemma transformEntity_id_gis item s t s' :
  id_sources_ok "gis_data" item = true ->
  transformEntity Date_now item "gis_data" "gis_data"
    (get_prop simplifiedSchemas "gis_data") s = Ret (t, s') ->
  has_string_member t (VStr "gis_id") = true.
Proof.
  intros Hsrc H. unfold transformEntity in H.
  change (mapEntityId "gis_data") with (VStr "gis_id") in H.
  change (mapEntityId (slice_0_m1 "gis_data")) with (VStr "gis_dat_id") in H.
  change (String.eqb "gis_data" "gis_data" || String.eqb "gis_data" "gis_data")
    with true in H.
  cbv iota in H.
  set (schema := get_prop simplifiedSchemas "gis_data") in *.
  change (is_undefined schema) with false in H. cbv iota in H.
  apply bind_ret_inv in H as (t0 & s0 & Hloop & H).
  eapply loop_keeps_id in Hloop; try eassumption; try reflexivity.
  cbn [ToString] in H.
  apply bind_ret_inv in H as (idKey & s1 & Hk & H).
  apply lift_ret_inv in Hk as [Hk ->]. injection Hk as <-.
  apply bind_ret_inv in H as (idSchema & s2 & Hs & H).
  assert (truthy idSchema = false) as Hfalse.
  { destruct (truthy (get_prop t0 "gis_dat_id")); cbn [negb] in Hs.
    - apply ret_inv in Hs as [-> _]. reflexivity.
    - apply lift_ret_inv in Hs as [Hs _]. vm_compute in Hs. injection Hs as <-.
      reflexivity. }
  rewrite Hfalse, andb_false_r in H.
  apply bind_ret_inv in H as (t1 & s3 & Ht1 & H).
  apply ret_inv in Ht1 as [-> _].
  eapply gis_defaults_keep_id; [|exact Hloop|exact H]. reflexivity.
Qed.

(** C3, as stated, fails: an identifier that is neither null, a number nor a
    string is passed through as it is (only numbers are converted). *)
Lemma identifier_not_coerced :
  In ("project", ("projects", get_prop simplifiedSchemas "project")) entityTypesMap
  /\ transformEntity (fun _ => 0) (obj [("project_id", VBool true)]) "project" "projects"
       (get_prop simplifiedSchemas "project") {| fixes := []; ticks := 0 |}
     = Ret (obj [("project_id", VBool true)], {| fixes := []; ticks := 0 |})
  /\ has_string_member (obj [("project_id", VBool true)]) (mapEntityId "project") = false.
Proof. split; [left; reflexivity|]. split; vm_compute; reflexivity. Qed.

(** For [process_instance] the name rebuilt from the target array is
    ['processe_id'], which the schema does not declare: no identifier is
    synthesized for a record that has none. *)
Lemma identifier_not_synthesized :
  mapEntityId "process_instance" = VStr "process_id"
  /\ mapEntityId (slice_0_m1 "processes") = VStr "processe_id"
  /\ forall s, transformEntity Date_now (obj []) "process_instance" "processes"
                 (get_prop simplifiedSchemas "process") s = Ret (obj [], s).
Proof. repeat split. Qed.

(** C3 (amended): for the source tables project, document, case_event,
    gis_data, legal_structure, decision_element, process_model and
    process_decision_payload, and every source record on which the entity
    transformer returns and whose members mapped to the identifier hold null,
    a number or a string, the record produced has the table's canonical
    identifier field as an own member and its value is a string. *)
Theorem identifier_is_string table target schema item s t s' :
  In (table, (target, schema)) entityTypesMap ->
  mem table derivable_id_tables = true ->
  id_sources_ok table item = true ->
  transformEntity Date_now item table target schema s = Ret (t, s') ->
  has_string_member t (mapEntityId table) = true.
Proof.
  intros Hin Hmem Hsrc H. simpl in Hin.
  repeat (destruct Hin as [Hin|Hin];
          [injection Hin as <- <- <-; try discriminate Hmem;
           first [ eapply transformEntity_id_derived in H;
                   [exact H|reflexivity..|exact Hsrc]
                 | eapply transformEntity_id_gis; eassumption ]
          |]).
  destruct Hin.
Qed.

End Identifier.

Lemma identifier_is_string_witness :
  Transform.has_string_member
    (JS.obj [("project_title", VStr "Bridge"); ("project_id", VStr "42")])
    (mapEntityId "project") = true.
Proof.
  eapply (identifier_is_string (fun _ => 0) "project" "projects"
            (JS.get_prop Transform.simplifiedSchemas "project")
            (JS.obj [("title", VStr "Bridge"); ("id", VNum 42)])
            {| Transform.fixes := []; Transform.ticks := 0 |}).
  - left. reflexivity.
  - reflexivity.
  - reflexivity.
  - vm_compute. reflexivity.
Defined.

(** ** Plain JSON data *)

Section Plain.
Import JS Transform.
Implicit Types (props : list (string * value)) (v : value).

Lemma own_update_length props k v : List.length (own_update props k v) = List.length props.
Proof.
  induction props as [|[k0 x] r IH]; simpl; [reflexivity|].
  destruct (String.eqb k0 k); simpl; congruence.
Qed.

Lemma insert_index_length props i k v :
  List.length (insert_index props i k v) = S (List.length props).
Proof.
  induction props as [|[k0 x] r IH]; simpl; [reflexivity|].
  destruct (array_index k0) as [j|]; [destruct (j <? i)%N|]; simpl; congruence.
Qed.

Lemma own_set_length props k v :
  List.length (own_set props k v)
  = if has_own props k then List.length props else S (List.length props).
Proof.
  unfold own_set. destruct (has_own props k).
  - apply own_update_length.
  - destruct (array_index k).
    + apply insert_index_length.
    + rewrite length_app. simpl. lia.
Qed.

Lemma has_own_set_same props k v : has_own (own_set props k v) k = true.
Proof. unfold has_own. rewrite own_get_set_same. reflexivity. Qed.

Lemma has_own_set_other props k v k' :
  k' <> k -> has_own (own_set props k v) k' = has_own props k'.
Proof. intros H. unfold has_own. rewrite own_get_set_other by exact H. reflexivity. Qed.

Lemma own_get_NoDup props k v :
  List.NoDup (map fst props) -> In (k, v) props -> own_get props k = Some v.
Proof.
  induction props as [|[k0 x] r IH]; simpl; intros Hnd Hin; [destruct Hin|].
  inversion Hnd as [|? ? Hnotin Hnd']; subst.
  destruct Hin as [Heq|Hin].
  - injection Heq as -> ->. rewrite String.eqb_refl. reflexivity.
  - destruct (String.eqb k0 k) eqn:E; [|auto].
    apply String.eqb_eq in E. subst k0. exfalso. apply Hnotin.
    apply in_map_iff. exists (k, v). auto.
Qed.

Section Members.

Variable clone : value -> option value.

Lemma clone_members_length l acc :
  (List.length (clone_members clone l acc) <= List.length acc + List.length l)%nat.
Proof.
  revert acc. induction l as [|[k x] r IH]; intros acc; simpl; [lia|].
  destruct (clone x) as [y|].
  - specialize (IH (own_set acc k y)). rewrite own_set_length in IH.
    destruct (has_own acc k); lia.
  - specialize (IH acc). lia.
Qed.

(** When no member is lost, the keys are distinct, new, and every value has
    a JSON form. *)
Lemma clone_members_full l acc :
  List.length (clone_members clone l acc) = (List.length acc + List.length l)%nat ->
  List.NoDup (map fst l)
  /\ (forall k, In k (map fst l) -> has_own acc k = false)
  /\ (forall k x, In (k, x) l -> clone x <> None).
Proof.
  revert acc. induction l as [|[k x] r IH]; intros acc; simpl; intros Hlen.
  - split; [constructor|]. split; intros; contradiction.
  - destruct (clone x) as [y|] eqn:Ex.
    + pose proof (clone_members_length r (own_set acc k y)) as Hle.
      rewrite own_set_length in Hle.
      destruct (has_own acc k) eqn:Eown; [lia|].
      assert (List.length (clone_members clone r (own_set acc k y))
              = (List.length (own_set acc k y) + List.length r)%nat) as Hlen'.
      { rewrite own_set_length, Eown. lia. }
      destruct (IH _ Hlen') as (Hnd & Hnew & Hsome).
      assert (~ In k (map fst r)) as Hnotin.
      { intros Hin. specialize (Hnew _ Hin). rewrite has_own_set_same in Hnew.
        discriminate Hnew. }
      split; [constructor; assumption|]. split.
      * intros k' [<-|Hin]; [exact Eown|].
        specialize (Hnew _ Hin). rewrite has_own_set_other in Hnew; [exact Hnew|].
        intros ->. contradiction.
      * intros k' x' [Heq|Hin]; [injection Heq as <- <-; congruence|eauto].
    + pose proof (clone_members_length r acc). lia.
Qed.

Lemma clone_members_get_other l acc k :
  ~ In k (map fst l) -> own_get (clone_members clone l acc) k = own_get acc k.
Proof.
  revert acc. induction l as [|[k0 x] r IH]; intros acc Hnotin; simpl; [reflexivity|].
  simpl in Hnotin.
  destruct (clone x) as [y|].
  - rewrite IH by tauto. apply own_get_set_other. intros E. apply Hnotin. left. congruence.
  - apply IH. tauto.
Qed.

Lemma clone_members_get l acc k x y :
  List.NoDup (map fst l) -> In (k, x) l -> clone x = Some y ->
  own_get (clone_members clone l acc) k = Some y.
Proof.
  revert acc. induction l as [|[k0 x0] r IH]; intros acc Hnd Hin Hy; [destruct Hin|].
  simpl in *. inversion Hnd as [|? ? Hnotin Hnd']; subst.
  destruct Hin as [Heq|Hin].
  - injection Heq as -> ->. rewrite Hy.
    rewrite clone_members_get_other by exact Hnotin. apply own_get_set_same.
  - destruct (clone x0); eauto.
Qed.

Lemma clone_members_rebuild l acc :
  (forall k x, In (k, x) l -> clone x = Some x) ->
  clone_members clone l acc = rebuild_from l acc.
Proof.
  revert acc. induction l as [|[k x] r IH]; intros acc Hall; simpl; [reflexivity|].
  rewrite (Hall k x) by (left; reflexivity). apply IH.
  intros k' x' Hin. apply (Hall k' x'). right. exact Hin.
Qed.

End Members.

(** What it means for an object to be plain. *)
Lemma plain_object p props :
  plain (VObj p props) ->
  p = ObjectPrototype
  /\ List.NoDup (map fst props)
  /\ (forall k v, In (k, v) props -> plain v)
  /\ rebuild_from props [] = props.
Proof.
  unfold plain. simpl. intros H. injection H as Hp Hm. subst p.
  assert (List.length (clone_members json_clone props [])
          = (List.length (@nil (string * value)) + List.length props)%nat) as Hlen.
  { rewrite Hm. reflexivity. }
  destruct (clone_members_full _ _ _ Hlen) as (Hnd & _ & Hsome).
  assert (forall k v, In (k, v) props -> json_clone v = Some v) as Hplain.
  { intros k v Hin. destruct (json_clone v) as [y|] eqn:Ey;
      [|exfalso; exact (Hsome _ _ Hin Ey)].
    pose proof (clone_members_get json_clone props [] k v y Hnd Hin Ey) as Hget.
    rewrite Hm, (own_get_NoDup _ _ _ Hnd Hin) in Hget. congruence. }
  repeat split; try assumption.
  rewrite <- (clone_members_rebuild json_clone) by exact Hplain. exact Hm.
Qed.

Lemma plain_array xs x : plain (VArr xs) -> In x xs -> plain x.
Proof.
  unfold plain. simpl. intros H Hin. injection H as H.
  induction xs as [|a r IH]; [destruct Hin|].
  simpl in H. injection H as Ha Hr. destruct Hin as [<-|Hin]; [|auto].
  destruct (json_clone a) as [y|] eqn:Ey; [congruence|].
  subst a. discriminate Ey.
Qed.

End Plain.

(** ** The null-to-default pass reaches a fixed point *)

Section FixedPoint.
Import JS Transform.
Implicit Types (props : list (string * value)) (v : value).

Lemma bind_ret_eq {A B} (m : M A) (f : A -> M B) (s : run) (a : A) (s1 : run) :
  m s = Ret (a, s1) -> bind m f s = f a s1.
Proof. unfold bind. intros ->. reflexivity. Qed.

Lemma forin_keys_obj props : forin_keys (obj props) = map fst props.
Proof. unfold obj, ObjectPrototype. simpl. apply app_nil_r. Qed.

Lemma get_prop_own p props k v :
  own_get props k = Some v -> get_prop (VObj p props) k = v.
Proof. unfold get_prop. simpl. intros ->. reflexivity. Qed.

Lemma height_member p props k v :
  In (k, v) props -> (height v < height (VObj p props))%nat.
Proof.
  intros Hin. simpl.
  assert (height v <= fold_right (fun kv n => Nat.max (height (snd kv)) n) O props)%nat.
  { induction props as [|[k0 x] r IH]; [destruct Hin|].
    simpl. destruct Hin as [Heq|Hin]; [injection Heq as _ ->; lia|].
    specialize (IH Hin). lia. }
  lia.
Qed.

Lemma truthy_nested_properties s : truthy (nested_properties s) = true.
Proof.
  unfold nested_properties, and.
  destruct (truthy s) eqn:Es.
  - destruct (truthy (get_prop s "properties")) eqn:Ep; [exact Ep|reflexivity].
  - rewrite Es. reflexivity.
Qed.

Lemma get_checked_truthy s k : truthy s = true -> get_checked s k = Ret (get_prop s k).
Proof. destruct s; simpl; intros H; try discriminate H; reflexivity. Qed.

Lemma not_undefined_truthy s : truthy s = true -> is_undefined s = false.
Proof. destruct s; simpl; intros H; try discriminate H; reflexivity. Qed.

Lemma dotted_not_gis a b : String.eqb (dotted a b) "gis_data" = false.
Proof.
  apply String.eqb_neq. unfold dotted.
  destruct a as [|c1 [|c2 [|c3 [|c4 [|c5 [|c6 [|c7 [|c8 [|c9 a]]]]]]]]];
    simpl; intros H; try discriminate H;
    repeat (injection H as _ H); try discriminate H.
Qed.

Lemma strict_eq_null_default d : is_null d = false -> strict_eq VNull d = false.
Proof. destruct d; simpl; intros H; try discriminate H; reflexivity. Qed.

(** What the replacement step can answer. *)
Lemma null_to_default_result entity ty k et st v2 st2 :
  null_to_default entity ty k (get_prop entity k) et st = Ret (v2, st2) ->
  (v2 = VNull -> truthy et = true -> is_null (getDefaultValueForType et) = true).
Proof.
  unfold null_to_default. intros H Hnull Het.
  destruct (is_null (get_prop entity k)) eqn:En.
  - rewrite Het in H. cbn [andb] in H.
    destruct (is_null (getDefaultValueForType et)) eqn:Ed; [reflexivity|].
    cbn [negb orb andb] in H.
    assert (get_prop entity k = VNull) as Ev
      by (destruct (get_prop entity k); try discriminate En; reflexivity).
    rewrite Ev, (strict_eq_null_default _ Ed) in H. cbn [negb] in H.
    apply bind_ret_inv in H as (s1 & st3 & _ & H).
    apply bind_ret_inv in H as (s2 & st4 & _ & H).
    apply push_bind_inv, ret_inv in H as [Hv _].
    rewrite <- Hv, Hnull in Ed. discriminate Ed.
  - cbn [andb] in H. apply ret_inv in H as [-> _].
    rewrite Hnull in En. discriminate En.
Qed.

(** A good member goes through the replacement step unchanged. *)
Lemma null_to_default_good entity ty k et v st :
  (v = VNull -> truthy et = true -> is_null (getDefaultValueForType et) = true) ->
  null_to_default entity ty k v et st = Ret (v, st).
Proof.
  intros Hgood. unfold null_to_default.
  destruct (is_null v) eqn:En; [|reflexivity].
  destruct (truthy et) eqn:Et; [|reflexivity]. cbn [andb].
  assert (v = VNull) as Ev by (destruct v; try discriminate En; reflexivity).
  rewrite (Hgood Ev eq_refl). cbn [negb orb andb].
  destruct (endsWith k "_id"); reflexivity.
Qed.

Lemma has_own_update props k v k' :
  has_own (own_update props k v) k' = has_own props k'.
Proof.
  unfold has_own. induction props as [|[k0 x] r IH]; simpl; [reflexivity|].
  destruct (String.eqb k0 k) eqn:E; simpl.
  - destruct (String.eqb k0 k'); reflexivity.
  - destruct (String.eqb k0 k'); [reflexivity|exact IH].
Qed.

Lemma own_get_has_own props k v : own_get props k = Some v -> has_own props k = true.
Proof. unfold has_own. intros ->. reflexivity. Qed.

(** Assigning a good member keeps the object under construction good. *)
Lemma building_set schema ty acc k x :
  building schema ty acc -> member_good schema ty k x ->
  building schema ty (set_prop acc k x).
Proof.
  intros (p & props & -> & Hproto & Hgood) Hx. unfold set_prop.
  destruct (has_own props k) eqn:Eown.
  - exists p, (own_update props k x). split; [reflexivity|]. split.
    + rewrite has_own_update. exact Hproto.
    + intros k' v Hget. destruct (String.eqb k' k) eqn:E.
      * apply String.eqb_eq in E. subst k'.
        rewrite own_get_update_same in Hget by exact Eown. congruence.
      * apply String.eqb_neq in E. rewrite own_get_update_other in Hget by exact E.
        eauto.
  - destruct (String.eqb k "__proto__" && inherits_proto_accessor p) eqn:Esetter.
    + apply andb_true_iff in Esetter as [Ek _]. apply String.eqb_eq in Ek. subst k.
      destruct (is_objectlike x || is_null x).
      * exists x, props. split; [reflexivity|]. split; [congruence|exact Hgood].
      * exists p, props. auto.
    + exists p, (own_set props k x). split; [reflexivity|]. split.
      * intros Hown. destruct (String.eqb k "__proto__") eqn:Ek.
        -- cbn [andb] in Esetter. exact Esetter.
        -- apply String.eqb_neq in Ek.
           rewrite has_own_set_other in Hown by congruence. auto.
      * intros k' v Hget. destruct (String.eqb k' k) eqn:E.
        -- apply String.eqb_eq in E. subst k'.
           rewrite own_get_set_same in Hget. congruence.
        -- apply String.eqb_neq in E. rewrite own_get_set_other in Hget by exact E.
           eauto.
Qed.

Lemma transformProperties_rec_unfold n e ty schema :
  transformProperties_rec n e ty schema
  = let schema' := if is_undefined schema then obj [] else schema in
    if negb (is_object e) then ret e
    else forM (forin_keys e) (obj [])
           (transformProperties_step
              (match n with
               | O => fun _ _ _ => throw Exhausted
               | S n' => transformProperties_rec n'
               end) e ty schema').
Proof. destruct n; reflexivity. Qed.

Lemma step_building nested schema ty e0 acc key st acc' st' :
  truthy schema = true -> String.eqb ty "gis_data" = false ->
  nested_sound nested ->
  building schema ty acc ->
  transformProperties_step nested e0 ty schema acc key st = Ret (acc', st') ->
  building schema ty acc'.
Proof.
  intros Hs Hty Hnested Hacc H. unfold transformProperties_step in H.
  apply bind_ret_inv in H as (et & s1 & Het & H).
  apply lift_ret_inv in Het as [Het ->].
  rewrite get_checked_truthy in Het by exact Hs. injection Het as <-.
  apply bind_ret_inv in H as (v2 & s2 & Hv2 & H).
  pose proof (null_to_default_result _ _ _ _ _ _ _ Hv2) as Hnull.
  rewrite Hty in H. cbn [andb] in H.
  destruct (is_object v2) eqn:Eo; [destruct (isArray v2) eqn:Ea; cbn [negb] in H|].
  - apply ret_inv in H as [-> _]. apply building_set; [exact Hacc|].
    split; [exact Hnull|congruence].
  - apply bind_ret_inv in H as (x & s3 & Hx & H).
    apply ret_inv in H as [-> _]. apply building_set; [exact Hacc|].
    destruct (Hnested _ _ _ _ _ _ Hx (truthy_nested_properties _) (dotted_not_gis _ _))
      as [Hshape Hfix].
    split.
    + intros ->. destruct (Hshape Eo) as (p & ps & Hp). discriminate Hp.
    + intros _ _ Hplain. exact (Hfix Hplain).
  - apply ret_inv in H as [-> _]. apply building_set; [exact Hacc|].
    split; [exact Hnull|congruence].
Qed.

(** Running the pass over members that are all good rebuilds them. *)
Lemma settled_loop m schema ty e (l : list (string * value)) :
  truthy schema = true -> String.eqb ty "gis_data" = false ->
  (forall k v, In (k, v) l ->
     k <> "__proto__" /\ get_prop e k = v /\ member_good schema ty k v
     /\ plain v /\ (height v < m)%nat) ->
  forall acc st,
    forM (map fst l) (obj acc)
         (transformProperties_step
            (match m with
             | O => fun _ _ _ => throw Exhausted
             | S m' => transformProperties_rec m'
             end) e ty schema) st
    = Ret (obj (rebuild_from l acc), st).
Proof.
  intros Hs Hty. induction l as [|[k v] r IH]; intros Hall acc st; [reflexivity|].
  destruct (Hall k v (or_introl eq_refl)) as (Hk & Hget & [Hnull Hfix] & Hplain & Hh).
  cbn [map fst forM].
  erewrite bind_ret_eq; [apply IH; intros; apply Hall; right; assumption|].
  unfold transformProperties_step. rewrite Hget.
  erewrite bind_ret_eq by (rewrite get_checked_truthy by exact Hs; reflexivity).
  erewrite bind_ret_eq by (apply null_to_default_good; exact Hnull).
  rewrite Hty. cbn [andb].
  unfold obj. rewrite set_prop_plain by exact Hk.
  destruct (is_object v) eqn:Eo; [destruct (isArray v) eqn:Ea; cbn [negb]|];
    try reflexivity.
  destruct m as [|m']; [lia|].
  erewrite bind_ret_eq by (apply (Hfix eq_refl eq_refl Hplain); lia).
  rewrite set_prop_plain by exact Hk. reflexivity.
Qed.

Lemma throw_sound : nested_sound (fun _ _ _ => throw Exhausted).
Proof. intros v ty schema s x s' H. discriminate H. Qed.

(** The output of the pass, when it is plain JSON data, is a fixed point of
    the pass (for an entity type other than ['gis_data']). *)
Lemma pass_output_sound n : nested_sound (transformProperties_rec n).
Proof.
  assert (forall nested n0,
            nested_sound nested ->
            nested = match n0 with
                     | O => fun _ _ _ => throw Exhausted
                     | S n' => transformProperties_rec n'
                     end ->
            nested_sound (transformProperties_rec n0)) as Hgen.
  { intros nested n0 Hnested Heq e0 ty schema st e st' H Hs Hty.
    rewrite transformProperties_rec_unfold in H. cbv zeta in H.
    rewrite (not_undefined_truthy _ Hs) in H. rewrite <- Heq in H.
    destruct (is_object e0) eqn:Eo; cbn [negb] in H.
    - assert (building schema ty e) as (p & props & -> & Hproto & Hgood).
      { eapply forM_invariant in H; [exact H| |].
        - intros acc key s acc' s' _ Hacc Hstep.
          eapply step_building; eassumption.
        - exists ObjectPrototype, []. split; [reflexivity|]. split; [discriminate|].
          intros k v Hget. discriminate Hget. }
      split; [eauto|]. intros Hplain.
      destruct (plain_object _ _ Hplain) as (-> & Hnd & Hmem & Hre).
      assert (has_own props "__proto__" = false) as Hnp.
      { destruct (has_own props "__proto__") eqn:E; [|reflexivity].
        specialize (Hproto eq_refl). discriminate Hproto. }
      intros m s Hm. rewrite transformProperties_rec_unfold. cbv zeta.
      rewrite (not_undefined_truthy _ Hs).
      change (VObj ObjectPrototype props) with (obj props).
      change (negb (is_object (obj props))) with false. cbv iota.
      rewrite forin_keys_obj, (settled_loop m schema ty (obj props) props Hs Hty).
      + rewrite Hre. reflexivity.
      + intros k v Hin. pose proof (own_get_NoDup _ _ _ Hnd Hin) as Hget.
        split; [|split; [|split; [|split]]].
        * intros ->. apply own_get_has_own in Hget. congruence.
        * apply get_prop_own, Hget.
        * eauto.
        * eauto.
        * pose proof (height_member ObjectPrototype props k v Hin). unfold obj in Hm. lia.
    - apply ret_inv in H as [-> _]. split; [congruence|].
      intros _ m s _. rewrite transformProperties_rec_unfold. cbv zeta.
      rewrite Eo. reflexivity. }
  induction n as [|n IH].
  - eapply Hgen; [exact throw_sound|reflexivity].
  - eapply Hgen; [exact IH|reflexivity].
Qed.

End FixedPoint.

(** ** Keys of an object *)

Section Keys.
Import JS Transform.
Implicit Types (props : list (string * value)) (v : value).

Lemma has_own_In props k : has_own props k = true <-> In k (map fst props).
Proof.
  unfold has_own. induction props as [|[k0 x] r IH]; simpl.
  - split; [discriminate|contradiction].
  - destruct (String.eqb k0 k) eqn:E.
    + apply String.eqb_eq in E. split; auto.
    + apply String.eqb_neq in E. rewrite IH. split; [auto|intros [?|?]; [contradiction|auto]].
Qed.

Lemma own_update_keys props k v : map fst (own_update props k v) = map fst props.
Proof.
  induction props as [|[k0 x] r IH]; simpl; [reflexivity|].
  destruct (String.eqb k0 k); simpl; congruence.
Qed.

Lemma insert_index_In props i k v k' :
  In k' (map fst (insert_index props i k v)) <-> k' = k \/ In k' (map fst props).
Proof.
  induction props as [|[k0 x] r IH]; simpl; [intuition|].
  destruct (array_index k0) as [j|]; [destruct (j <? i)%N|]; simpl;
    try rewrite IH; intuition.
Qed.

Lemma insert_index_NoDup props i k v :
  ~ In k (map fst props) -> List.NoDup (map fst props) ->
  List.NoDup (map fst (insert_index props i k v)).
Proof.
  induction props as [|[k0 x] r IH]; simpl; intros Hnotin Hnd.
  - constructor; [intros []|constructor].
  - inversion Hnd as [|? ? Hk0 Hnd']; subst.
    destruct (array_index k0) as [j|]; [destruct (j <? i)%N|]; simpl.
    + constructor; [|apply IH; tauto].
      rewrite insert_index_In. intros [->|Hin]; tauto.
    + constructor; [simpl; tauto|constructor; assumption].
    + constructor; [simpl; tauto|constructor; assumption].
Qed.

Lemma NoDup_snoc (l : list string) (k : string) :
  ~ In k l -> List.NoDup l -> List.NoDup (l ++ [k]).
Proof.
  induction l as [|a r IH]; simpl; intros Hnotin Hnd.
  - constructor; [intros []|constructor].
  - inversion Hnd as [|? ? Ha Hnd']; subst. constructor; [|apply IH; tauto].
    rewrite in_app_iff. simpl. intros [Hin|[->|[]]]; tauto.
Qed.

Lemma own_set_NoDup props k v :
  List.NoDup (map fst props) -> List.NoDup (map fst (own_set props k v)).
Proof.
  intros Hnd. unfold own_set. destruct (has_own props k) eqn:E.
  - rewrite own_update_keys. exact Hnd.
  - assert (~ In k (map fst props)) as Hnotin.
    { intros Hin. apply has_own_In in Hin. congruence. }
    destruct (array_index k).
    + apply insert_index_NoDup; assumption.
    + rewrite map_app. simpl. apply NoDup_snoc; assumption.
Qed.

Lemma own_delete_In props k k' :
  In k' (map fst (own_delete props k)) -> In k' (map fst props).
Proof.
  induction props as [|[k0 x] r IH]; simpl; [auto|].
  destruct (String.eqb k0 k); simpl; intuition.
Qed.

Lemma own_delete_NoDup props k :
  List.NoDup (map fst props) -> List.NoDup (map fst (own_delete props k)).
Proof.
  induction props as [|[k0 x] r IH]; simpl; intros Hnd; [constructor|].
  inversion Hnd as [|? ? Hk0 Hnd']; subst.
  destruct (String.eqb k0 k); simpl; [exact Hnd'|].
  constructor; [|auto]. intros Hin. apply Hk0. eapply own_delete_In. exact Hin.
Qed.

Lemma own_get_delete_same props k :
  List.NoDup (map fst props) -> own_get (own_delete props k) k = None.
Proof.
  induction props as [|[k0 x] r IH]; simpl; intros Hnd; [reflexivity|].
  inversion Hnd as [|? ? Hk0 Hnd']; subst.
  destruct (String.eqb k0 k) eqn:E; simpl.
  - apply String.eqb_eq in E. subst k0.
    destruct (own_get r k) eqn:Eg; [|reflexivity].
    exfalso. apply Hk0. apply has_own_In. unfold has_own. rewrite Eg. reflexivity.
  - rewrite E. auto.
Qed.

Lemma own_get_delete_other props k k' :
  k' <> k -> own_get (own_delete props k) k' = own_get props k'.
Proof.
  intros Hne. induction props as [|[k0 x] r IH]; simpl; [reflexivity|].
  destruct (String.eqb k0 k) eqn:E; simpl.
  - apply String.eqb_eq in E. subst k0.
    destruct (String.eqb k k') eqn:E'; [|reflexivity].
    apply String.eqb_eq in E'. congruence.
  - rewrite IH. reflexivity.
Qed.

Lemma clone_members_NoDup clone l acc :
  List.NoDup (map fst acc) -> List.NoDup (map fst (clone_members clone l acc)).
Proof.
  revert acc. induction l as [|[k x] r IH]; intros acc Hnd; simpl; [exact Hnd|].
  destruct (clone x); [apply IH, own_set_NoDup, Hnd|apply IH, Hnd].
Qed.

(** Writing back the value a member already has changes nothing. *)
Lemma own_update_id props k v : own_get props k = Some v -> own_update props k v = props.
Proof.
  induction props as [|[k0 x] r IH]; simpl; [reflexivity|].
  destruct (String.eqb k0 k) eqn:E.
  - apply String.eqb_eq in E. intros H. injection H as ->. congruence.
  - intros H. rewrite IH by exact H. reflexivity.
Qed.

End Keys.

(** ** The phases of [transformToNepaFormat] *)

Section Phases.
Import JS Transform.

Variable Date_now : nat -> Z.

Lemma get_prop_obj_ext p1 p2 k :
  own_get p1 k = own_get p2 k -> get_prop (obj p1) k = get_prop (obj p2) k.
Proof.
  unfold get_prop, obj. cbn [get_from]. intros ->.
  destruct (own_get p2 k); [reflexivity|].
  unfold ObjectPrototype. cbn [get_from]. unfold objproto_member.
  destruct (String.eqb k "__proto__"); reflexivity.
Qed.

Lemma get_prop_obj_miss props k :
  own_get props k = None -> mem k objproto_names = false -> get_prop (obj props) k = VUndef.
Proof.
  intros Hn Hp. unfold get_prop, obj. cbn [get_from]. rewrite Hn.
  unfold ObjectPrototype. cbn [get_from]. apply objproto_member_miss, Hp.
Qed.

Lemma root_set td k v :
  root td -> k <> "__proto__" ->
  root (set_prop td k v)
  /\ get_prop (set_prop td k v) k = v
  /\ (forall k', k' <> k -> get_prop (set_prop td k v) k' = get_prop td k').
Proof.
  intros (props & -> & Hnd) Hk. unfold obj. rewrite set_prop_plain by exact Hk.
  split; [|split].
  - exists (own_set props k v). split; [reflexivity|apply own_set_NoDup, Hnd].
  - apply get_prop_own, own_get_set_same.
  - intros k' Hne. apply get_prop_obj_ext, own_get_set_other, Hne.
Qed.

Lemma root_delete td k :
  root td -> mem k objproto_names = false ->
  root (delete_prop td k)
  /\ get_prop (delete_prop td k) k = VUndef
  /\ (forall k', k' <> k -> get_prop (delete_prop td k) k' = get_prop td k').
Proof.
  intros (props & -> & Hnd) Hk. unfold obj, delete_prop. split; [|split].
  - exists (own_delete props k). split; [reflexivity|apply own_delete_NoDup, Hnd].
  - apply get_prop_obj_miss; [apply own_get_delete_same, Hnd|exact Hk].
  - intros k' Hne. apply get_prop_obj_ext, own_get_delete_other, Hne.
Qed.

Lemma array_push_truthy a x g : array_push a x = Ret g -> truthy g = true.
Proof. destruct a; simpl; intros H; try discriminate H. injection H as <-. reflexivity. Qed.

(** What one migration does to the document. *)
Lemma migrate_spec td ot tg schema st td' st' :
  root td ->
  mem ot objproto_names = false -> mem tg objproto_names = false ->
  migrate Date_now td (ot, (tg, schema)) st = Ret (td', st') ->
  root td'
  /\ truthy (get_prop td' ot) = false
  /\ (forall k, k <> ot -> k <> tg -> get_prop td' k = get_prop td k)
  /\ (ot <> tg -> truthy (get_prop td tg) = true -> truthy (get_prop td' tg) = true).
Proof.
  intros Hroot Hot Htg H. unfold migrate in H.
  pose proof (not_proto_name _ Htg) as Htg'.
  destruct (truthy (get_prop td ot)) eqn:Eot.
  2:{ apply ret_inv in H as [-> _]. auto. }
  set (td_a := if negb (truthy (get_prop td tg)) then set_prop td tg (VArr []) else td) in H.
  assert (root td_a /\ truthy (get_prop td_a tg) = true
          /\ (forall k, k <> tg -> get_prop td_a k = get_prop td k)) as (Ra & Ta & Sa).
  { subst td_a. destruct (truthy (get_prop td tg)) eqn:Etg; cbn [negb]; [auto|].
    destruct (root_set td tg (VArr []) Hroot Htg') as (R1 & G1 & O1).
    split; [exact R1|]. split; [rewrite G1; reflexivity|exact O1]. }
  apply bind_ret_inv in H as (td_b & s1 & Hloop & H).
  assert (root td_b /\ truthy (get_prop td_b tg) = true
          /\ (forall k, k <> tg -> get_prop td_b k = get_prop td_a k)) as (Rb & Tb & Sb).
  { eapply forM_invariant
      with (I := fun x => root x /\ truthy (get_prop x tg) = true
                          /\ (forall k, k <> tg -> get_prop x k = get_prop td_a k))
      in Hloop; [exact Hloop| |auto].
    intros x item s x' s' _ (Rx & Tx & Sx) Hstep.
    apply bind_ret_inv in Hstep as (entity & s2 & _ & Hstep).
    apply bind_ret_inv in Hstep as (grown & s3 & Hg & Hstep).
    apply lift_ret_inv in Hg as [Hg _]. apply ret_inv in Hstep as [-> _].
    destruct (root_set x tg grown Rx Htg') as (R1 & G1 & O1).
    split; [exact R1|]. split; [rewrite G1; eapply array_push_truthy; exact Hg|].
    intros k Hk. rewrite O1 by exact Hk. auto. }
  apply push_bind_inv, ret_inv in H as [-> _].
  destruct (root_delete td_b ot Rb Hot) as (Rd & Gd & Od).
  split; [exact Rd|]. split; [rewrite Gd; reflexivity|]. split.
  - intros k Hk1 Hk2. rewrite Od, Sb, Sa by assumption. reflexivity.
  - intros Hne _. rewrite Od by congruence. exact Tb.
Qed.

Lemma migrate_loop_spec l : forall td st td' st',
  root td -> legacy_order_ok l = true ->
  forM l td (migrate Date_now) st = Ret (td', st') ->
  root td'
  /\ (forall e, In e l -> truthy (get_prop td' (fst e)) = false)
  /\ (forall k, (forall e, In e l -> k <> fst e) ->
        truthy (get_prop td k) = true -> truthy (get_prop td' k) = true)
  /\ (forall k, (forall e, In e l -> k <> fst (snd e)) ->
        truthy (get_prop td k) = false -> truthy (get_prop td' k) = false).
Proof.
  induction l as [|[ot [tg schema]] r IH]; intros td st td' st' Hroot Hok H.
  - apply ret_inv in H as [-> _]. split; [exact Hroot|]. split; [intros e []|auto].
  - simpl in Hok. apply andb_true_iff in Hok as [Hok Hr].
    apply andb_true_iff in Hok as [Hok Hlater].
    apply andb_true_iff in Hok as [Hot Htg].
    apply negb_true_iff in Hot, Htg.
    cbn [forM] in H. apply bind_ret_inv in H as (td1 & s1 & H1 & H2).
    destruct (migrate_spec _ _ _ _ _ _ _ Hroot Hot Htg H1) as (R1 & F1 & O1 & T1).
    destruct (IH _ _ _ _ R1 Hr H2) as (R2 & F2 & T2 & K2).
    rewrite forallb_forall in Hlater.
    split; [exact R2|]. split; [|split].
    + intros e [<-|Hin]; [|auto]. simpl. apply K2; [|exact F1].
      intros e' Hin'. specialize (Hlater e' Hin').
      apply andb_true_iff in Hlater as [_ Hne]. apply negb_true_iff, String.eqb_neq in Hne.
      congruence.
    + intros k Hk Ht. apply T2; [intros e Hin; apply Hk; right; exact Hin|].
      assert (k <> ot) as Hne by (apply (Hk (ot, (tg, schema))); left; reflexivity).
      destruct (String.eqb k tg) eqn:E.
      * apply String.eqb_eq in E. subst k. apply T1; [congruence|exact Ht].
      * apply String.eqb_neq in E. rewrite O1 by assumption. exact Ht.
    + intros k Hk Hf. apply K2; [intros e Hin; apply Hk; right; exact Hin|].
      assert (k <> tg) as Hne by (apply (Hk (ot, (tg, schema))); left; reflexivity).
      destruct (String.eqb k ot) eqn:E.
      * apply String.eqb_eq in E. subst k. exact F1.
      * apply String.eqb_neq in E. rewrite O1 by assumption. exact Hf.
Qed.

Lemma mapM_outputs {A B} (f : A -> M B) (l : list A) : forall st ys st',
  mapM f l st = Ret (ys, st') ->
  forall y, In y ys -> exists x s1 s2, f x s1 = Ret (y, s2).
Proof.
  induction l as [|a r IH]; intros st ys st' H y Hin; simpl in H.
  - apply ret_inv in H as [-> _]. destruct Hin.
  - apply bind_ret_inv in H as (b & s1 & Hb & H).
    apply bind_ret_inv in H as (t & s2 & Ht & H).
    apply ret_inv in H as [-> _]. destruct Hin as [<-|Hin]; eauto.
Qed.

Lemma mapM_id {A} (f : A -> M A) (l : list A) :
  (forall x st, In x l -> f x st = Ret (x, st)) ->
  forall st, mapM f l st = Ret (l, st).
Proof.
  induction l as [|a r IH]; intros Hall st; [reflexivity|]. simpl.
  erewrite bind_ret_eq by (apply Hall; left; reflexivity).
  erewrite bind_ret_eq by (apply IH; intros; apply Hall; right; assumption).
  reflexivity.
Qed.

Lemma forM_id {A S} (f : S -> A -> M S) (l : list A) (x : S) :
  (forall a st, In a l -> f x a st = Ret (x, st)) ->
  forall st, forM l x f st = Ret (x, st).
Proof.
  induction l as [|a r IH]; intros Hall st; [reflexivity|]. simpl.
  erewrite bind_ret_eq by (apply Hall; left; reflexivity).
  apply IH. intros; apply Hall; right; assumption.
Qed.

Lemma isArray_truthy v : isArray v = true -> truthy v = true.
Proof. destruct v; simpl; intros H; try discriminate H; reflexivity. Qed.

Lemma root_update props k v :
  has_own props k = true ->
  set_prop (obj props) k v = obj (own_update props k v).
Proof. intros H. unfold obj, set_prop. rewrite H. reflexivity. Qed.

(** What the second pass does to one top-level member. *)
Lemma normalize_spec td k st td' st' :
  root td -> In k (keys td) ->
  normalize td k st = Ret (td', st') ->
  root td' /\ keys td' = keys td
  /\ (forall k', k' <> k -> get_prop td' k' = get_prop td k')
  /\ (isArray (get_prop td k) = false -> get_prop td' k = get_prop td k)
  /\ (isArray (get_prop td k) = true ->
      exists ys, get_prop td' k = VArr ys
                 /\ forall y, In y ys -> pass_output (slice_0_m1 k) y).
Proof.
  intros (props & -> & Hnd) Hin H. unfold normalize in H.
  destruct (isArray (get_prop (obj props) k)) eqn:Ea.
  - apply bind_ret_inv in H as (ys & s1 & Hmap & H).
    apply ret_inv in H as [-> _].
    assert (has_own props k = true) as Hown by (apply has_own_In; exact Hin).
    rewrite root_update by exact Hown.
    split; [exists (own_update props k (VArr ys)); split;
            [reflexivity|rewrite own_update_keys; exact Hnd]|].
    split; [simpl; apply own_update_keys|]. split; [|split; [discriminate|]].
    + intros k' Hne. apply get_prop_obj_ext, own_get_update_other, Hne.
    + intros _. exists ys. split.
      * apply get_prop_own, own_get_update_same, Hown.
      * intros y Hy. destruct (mapM_outputs _ _ _ _ _ Hmap y Hy) as (x & s2 & s3 & Hx).
        exists x, s2, s3. exact Hx.
  - apply ret_inv in H as [-> _].
    split; [exists props; auto|]. split; [reflexivity|]. split; [auto|].
    split; [auto|discriminate].
Qed.

Lemma normalize_loop_spec ks : forall td st td' st',
  root td -> List.NoDup ks -> (forall k, In k ks -> In k (keys td)) ->
  forM ks td normalize st = Ret (td', st') ->
  root td' /\ keys td' = keys td
  /\ (forall k, ~ In k ks -> get_prop td' k = get_prop td k)
  /\ (forall k, In k ks ->
        (isArray (get_prop td k) = false -> get_prop td' k = get_prop td k)
        /\ (isArray (get_prop td k) = true ->
            exists ys, get_prop td' k = VArr ys
                       /\ forall y, In y ys -> pass_output (slice_0_m1 k) y)).
Proof.
  induction ks as [|k r IH]; intros td st td' st' Hroot Hnd Hin H.
  - apply ret_inv in H as [-> _]. split; [exact Hroot|]. split; [reflexivity|].
    split; [auto|intros k []].
  - cbn [forM] in H. apply bind_ret_inv in H as (td1 & s1 & H1 & H2).
    inversion Hnd as [|? ? Hk Hnd']; subst.
    destruct (normalize_spec _ _ _ _ _ Hroot (Hin k (or_introl eq_refl)) H1)
      as (R1 & K1 & O1 & N1 & A1).
    assert (forall k', In k' r -> In k' (keys td1)) as Hin1.
    { intros k' Hk'. rewrite K1. apply Hin. right. exact Hk'. }
    destruct (IH _ _ _ _ R1 Hnd' Hin1 H2) as (R2 & K2 & O2 & S2).
    split; [exact R2|]. split; [congruence|]. split.
    + intros k' Hk'. simpl in Hk'. rewrite O2 by tauto. apply O1. intros ->. tauto.
    + intros k' [<-|Hk'].
      * rewrite (O2 k Hk). split; assumption.
      * assert (k' <> k) as Hne by (intros ->; contradiction).
        destruct (S2 k' Hk') as [N2 A2]. rewrite O1 in N2, A2 by exact Hne.
        split; [exact N2|exact A2].
Qed.

Lemma or_truthy a b : truthy b = true -> truthy (or a b) = true.
Proof. unfold or. destruct (truthy a) eqn:E; auto. Qed.

(** What a run establishes about the document it returns. *)
Lemma run_spec d r fx :
  transformToNepaFormat Date_now d = Ret (r, fx) ->
  exists props,
    r = obj props /\ List.NoDup (map fst props)
    /\ truthy (get_prop r "projects") = true
    /\ (forall e, In e entityTypesMap -> truthy (get_prop r (fst e)) = false)
    /\ (forall k xs, own_get props k = Some (VArr xs) ->
          forall x, In x xs -> pass_output (slice_0_m1 k) x).
Proof.
  unfold transformToNepaFormat. intros H.
  destruct (transformToNepaFormat_run Date_now d {| fixes := []; ticks := 0 |})
    as [[td s]|] eqn:Hrun; [|discriminate H].
  injection H as -> _. unfold transformToNepaFormat_run in Hrun.
  apply bind_ret_inv in Hrun as (td0 & s0 & H0 & Hrun).
  assert (root td0) as R0.
  { simpl in H0. apply ret_inv in H0 as [-> _].
    exists (clone_members json_clone d []). split; [reflexivity|].
    apply clone_members_NoDup. constructor. }
  apply bind_ret_inv in Hrun as (td1 & s1 & H1 & Hrun).
  assert (root td1 /\ truthy (get_prop td1 "projects") = true) as [R1 T1].
  { destruct (truthy (get_prop td0 "projects")) eqn:E; cbn [negb] in H1.
    - apply ret_inv in H1 as [-> _]. auto.
    - apply push_bind_inv, ret_inv in H1 as [-> _].
      destruct (root_set td0 "projects" (VArr []) R0) as (R & G & _); [discriminate|].
      split; [exact R|rewrite G; reflexivity]. }
  apply bind_ret_inv in Hrun as (td2 & s2 & H2 & Hrun).
  assert (legacy_order_ok entityTypesMap = true) as Hok by (vm_compute; reflexivity).
  destruct (migrate_loop_spec _ _ _ _ _ R1 Hok H2) as (R2 & F2 & T2 & _).
  assert (truthy (get_prop td2 "projects") = true) as P2.
  { apply T2; [|exact T1]. intros e He.
    assert (forallb (fun e => negb (String.eqb "projects" (fst e))) entityTypesMap = true)
      as Hall by reflexivity.
    rewrite forallb_forall in Hall. specialize (Hall e He).
    apply negb_true_iff, String.eqb_neq in Hall. exact Hall. }
  destruct R2 as (props2 & -> & Hnd2).
  rewrite forin_keys_obj in Hrun.
  destruct (normalize_loop_spec _ _ _ _ _
              (ex_intro _ props2 (conj eq_refl Hnd2)) Hnd2 (fun k H => H) Hrun)
    as ((props & -> & Hnd) & K & O & S).
  assert (forall k, truthy (get_prop (obj props) k) = truthy (get_prop (obj props2) k))
    as Htruthy.
  { intros k. destruct (in_dec string_dec k (map fst props2)) as [Hin|Hnotin].
    - destruct (S k Hin) as [N A].
      destruct (isArray (get_prop (obj props2) k)) eqn:Ea.
      + destruct (A eq_refl) as (ys & -> & _).
        rewrite (isArray_truthy _ Ea). reflexivity.
      + rewrite N by reflexivity. reflexivity.
    - rewrite O by exact Hnotin. reflexivity. }
  exists props. split; [reflexivity|]. split; [exact Hnd|]. split; [|split].
  - rewrite Htruthy. exact P2.
  - intros e He. rewrite Htruthy. apply F2, He.
  - intros k xs Hget x Hx.
    assert (In k (map fst props2)) as Hin.
    { simpl in K. rewrite <- K. apply has_own_In. eapply own_get_has_own. exact Hget. }
    pose proof (get_prop_own ObjectPrototype props k _ Hget) as Hg.
    change (VObj ObjectPrototype props) with (obj props) in Hg.
    destruct (S k Hin) as [N A].
    destruct (isArray (get_prop (obj props2) k)) eqn:Ea.
    + destruct (A eq_refl) as (ys & Hys & Hout). rewrite Hg in Hys.
      injection Hys as <-. apply Hout, Hx.
    + rewrite Hg in N. rewrite <- N in Ea by reflexivity. discriminate Ea.
Qed.

End Phases.

(** ** Idempotence of the transformation *)

Section Idempotence.
Import JS Transform.

Variable Date_now : nat -> Z.

(** C8, as stated, fails: under a key that the second pass reads as entity
    type [gis_data], an array-valued [container_inventory] is collapsed to
    its first element on every run, so a second run changes the document
    again and logs a fix. *)
Lemma container_collapsed_again :
  transformToNepaFormat (fun _ => 0)
    [("gis_datas", VArr [obj [("container_inventory", VArr [VArr [VNum 1]])]])]
  = Ret (obj [("gis_datas", VArr [obj [("container_inventory", VArr [VNum 1])]]);
              ("projects", VArr [])],
         [ "Added missing required projects array to root level";
           "Fixed container_inventory structure to object for gis_data" ])
  /\ transformToNepaFormat (fun _ => 0)
       (entries (obj [("gis_datas", VArr [obj [("container_inventory", VArr [VNum 1])]]);
                      ("projects", VArr [])]))
     = Ret (obj [("gis_datas", VArr [obj [("container_inventory", VNum 1)]]);
                 ("projects", VArr [])],
            [ "Fixed container_inventory structure to object for gis_data" ]).
Proof. split; vm_compute; reflexivity. Qed.

(** A function found on a prototype chain does not survive the JSON clone of
    the next run either. *)
Lemma inherited_function_dropped :
  transformToNepaFormat (fun _ => 0) [("project", VArr [obj [("status", VStr "constructor")]])]
  = Ret (obj [("projects", VArr [obj [("status", VFun "constructor");
                                       ("project_id", VStr "")]])],
         [ "Added missing required projects array to root level";
           "Added missing ID field 'project_id' with default '' for projects";
           "Transformed project data to NEPA projects format" ])
  /\ transformToNepaFormat (fun _ => 0)
       (entries (obj [("projects", VArr [obj [("status", VFun "constructor");
                                              ("project_id", VStr "")]])]))
     = Ret (obj [("projects", VArr [obj [("project_id", VStr "")]])], []).
Proof. split; vm_compute; reflexivity. Qed.

Lemma plain_array_shape v : plain v -> isArray v = true -> exists xs, v = VArr xs.
Proof.
  unfold plain. destruct v; simpl; intros Hp Ha; try discriminate Ha; [|eauto].
  destruct (String.eqb n "Function.prototype"); [discriminate Hp|].
  rewrite Ha in Hp. discriminate Hp.
Qed.

(** On the document a run returned, the second pass changes nothing. *)
Lemma normalize_settled props k st :
  List.NoDup (map fst props) ->
  plain (obj props) ->
  no_gis_collapse (obj props) = true ->
  (forall k xs, own_get props k = Some (VArr xs) ->
     forall x, In x xs -> pass_output (slice_0_m1 k) x) ->
  In k (map fst props) ->
  normalize (obj props) k st = Ret (obj props, st).
Proof.
  intros Hnd Hplain Hgis Hout Hin. unfold normalize.
  destruct (isArray (get_prop (obj props) k)) eqn:Ea; [|reflexivity].
  apply in_map_iff in Hin as ([k0 v] & Hk & Hin). simpl in Hk. subst k0.
  pose proof (own_get_NoDup _ _ _ Hnd Hin) as Hget.
  pose proof (get_prop_own ObjectPrototype props k v Hget) as Hg.
  change (VObj ObjectPrototype props) with (obj props) in Hg.
  destruct (plain_object _ _ Hplain) as (_ & _ & Hmem & _).
  pose proof (Hmem k v Hin) as Hpv. rewrite Hg in Ea.
  destruct (plain_array_shape v Hpv Ea) as (xs & ->).
  assert (String.eqb (slice_0_m1 k) "gis_data" = false) as Hty.
  { unfold no_gis_collapse in Hgis. rewrite forallb_forall in Hgis.
    assert (In k (keys (obj props))) as Hk.
    { simpl. apply in_map_iff. exists (k, VArr xs). auto. }
    specialize (Hgis k Hk). rewrite Hg in Hgis. simpl in Hgis.
    apply negb_true_iff in Hgis. exact Hgis. }
  rewrite Hg. cbn [elements].
  erewrite bind_ret_eq.
  2:{ apply mapM_id. intros x s Hx.
      destruct (Hout k xs Hget x Hx) as (x0 & s1 & s2 & Hrun).
      unfold transformProperties in Hrun.
      destruct (pass_output_sound _ _ _ _ _ _ _ Hrun
                  (or_truthy _ (obj []) eq_refl) Hty) as [_ Hfix].
      apply (Hfix (plain_array _ _ Hpv Hx)). apply Nat.le_refl. }
  unfold ret. rewrite root_update by (eapply own_get_has_own; exact Hget).
  rewrite own_update_id by exact Hget. reflexivity.
Qed.

(** C8 (amended): for every input document on which [transformToNepaFormat]
    returns data [r], if [r] is plain JSON data (it survives
    [JSON.parse(JSON.stringify(r))] unchanged) and no top-level array of [r]
    sits under a key that the second pass reads as entity type [gis_data],
    then running [transformToNepaFormat] on [r] returns [r] again and an
    empty fix list. *)
Theorem transform_idempotent (d : document) (r : value) (fx : list string) :
  transformToNepaFormat Date_now d = Ret (r, fx) ->
  plain r ->
  no_gis_collapse r = true ->
  transformToNepaFormat Date_now (entries r) = Ret (r, []).
Proof.
  intros Hrun Hplain Hgis.
  destruct (run_spec _ _ _ _ Hrun) as (props & -> & Hnd & Hproj & Hlegacy & Hout).
  unfold transformToNepaFormat, transformToNepaFormat_run. cbn [entries obj].
  change (VObj ObjectPrototype props) with (obj props).
  rewrite Hplain.
  erewrite bind_ret_eq by reflexivity.
  rewrite Hproj. cbn [negb].
  erewrite bind_ret_eq by reflexivity.
  erewrite bind_ret_eq.
  2:{ apply forM_id. intros [ot [tg schema]] st Hin. unfold migrate.
      pose proof (Hlegacy _ Hin) as Hf. simpl in Hf. rewrite Hf. reflexivity. }
  rewrite forin_keys_obj, forM_id; [reflexivity|].
  intros k st Hk. apply normalize_settled; assumption.
Qed.

End Idempotence.

Lemma transform_idempotent_witness :
  Transform.transformToNepaFormat (fun _ => 0)
    (JS.entries (JS.obj [("projects",
       VArr [JS.obj [("project_id", VStr "42"); ("notes", VStr "")]])]))
  = Ret (JS.obj [("projects",
           VArr [JS.obj [("project_id", VStr "42"); ("notes", VStr "")]])], []).
Proof.
  apply (transform_idempotent (fun _ => 0)
           [("project", VArr [JS.obj [("id", VNum 42); ("notes", VNull)]])]
           (JS.obj [("projects",
              VArr [JS.obj [("project_id", VStr "42"); ("notes", VStr "")]])])
           [ "Added missing required projects array to root level";
             "Converted numeric ID project.id (mapped to project_id) to string: 42 -> 42";
             "Replaced null with default '' for project.notes (mapped to notes, expected string)";
             "Transformed project data to NEPA projects format" ]).
  - vm_compute. reflexivity.
  - vm_compute. reflexivity.
  - vm_compute. reflexivity.
Defined.

(** ** The input of [transformToNepaFormat] is left as it was *)

Section Frame.
Import JS Store.
Local Open Scope nat_scope.

Variable h0 : list cell.
Local Abbreviation base := (List.length h0).

Lemma extends_length s : extends h0 s -> base <= List.length (cells s).
Proof.
  intros [Ht _]. rewrite <- Ht at 1. rewrite length_take. lia.
Qed.

Lemma closed_lookup h l c :
  closed base h -> base <= l -> h !! l = Some c -> fresh_cell base c.
Proof.
  intros Hc Hl Hg. unfold closed in Hc. rewrite Forall_lookup in Hc.
  apply (Hc (l - base)). rewrite lookup_drop. rewrite <- Hg. f_equal. lia.
Qed.

Lemma frames_ret {A} (a : A) (P : A -> Prop) : P a -> frames h0 (ret a) P.
Proof. intros Ha s Hs. split; [exact Hs|]. simpl. intros b E. congruence. Qed.

Lemma frames_throw {A} e (P : A -> Prop) : frames h0 (throw e) P.
Proof. intros s Hs. split; [exact Hs|]. simpl. discriminate. Qed.

Lemma frames_bind {A B} (m : HM A) (f : A -> HM B) (P : A -> Prop) (Q : B -> Prop) :
  frames h0 m P -> (forall a, P a -> frames h0 (f a) Q) -> frames h0 (bind m f) Q.
Proof.
  intros Hm Hf s Hs. unfold bind. destruct (Hm s Hs) as [Hs' Ha].
  destruct (m s) as [[a|e] s']; simpl in *.
  - apply Hf; [apply Ha; reflexivity|exact Hs'].
  - split; [exact Hs'|discriminate].
Qed.

Lemma frames_weaken {A} (m : HM A) (P Q : A -> Prop) :
  frames h0 m P -> (forall a, P a -> Q a) -> frames h0 m Q.
Proof.
  intros Hm HPQ s Hs. destruct (Hm s Hs) as [Hs' Ha]. split; [exact Hs'|].
  intros a E. apply HPQ, Ha, E.
Qed.

Lemma frames_lift {A} (o : outcome A) : frames h0 (lift o) (fun _ => True).
Proof. intros s Hs. split; [exact Hs|trivial]. Qed.

Lemma frames_push msg : frames h0 (push msg) (fun _ => True).
Proof. intros s Hs. split; [exact Hs|trivial]. Qed.

Lemma frames_now Date_now : frames h0 (now Date_now) (fun _ => True).
Proof. intros s Hs. split; [exact Hs|trivial]. Qed.

Lemma frames_read {A} (f : list cell -> outcome A) (P : A -> Prop) :
  (forall h a, closed base h -> f h = Ret a -> P a) -> frames h0 (read f) P.
Proof.
  intros Hf s Hs. split; [exact Hs|]. simpl. intros a E.
  destruct Hs as [_ Hc]. exact (Hf _ _ Hc E).
Qed.

Lemma frames_look {A} (f : list cell -> outcome A) : frames h0 (read f) (fun _ => True).
Proof. apply frames_read. trivial. Qed.

Lemma frames_alloc c : fresh_cell base c -> frames h0 (alloc c) (fresh base).
Proof.
  intros Hc s Hs. pose proof (extends_length s Hs) as Hlen.
  destruct Hs as [Ht Hcl]. split.
  - split; simpl.
    + rewrite take_app_le by exact Hlen. exact Ht.
    + unfold closed. rewrite drop_app_le by exact Hlen.
      apply Forall_app. split; [exact Hcl|]. constructor; [exact Hc|constructor].
  - simpl. intros a E. injection E as <-. exact Hlen.
Qed.

Lemma frames_load l : base <= l -> frames h0 (load l) (fresh_cell base).
Proof.
  intros Hl. apply frames_read. intros h c Hc E.
  destruct (h !! l) as [c'|] eqn:G; [|discriminate].
  injection E as <-. exact (closed_lookup h l c' Hc Hl G).
Qed.

Lemma frames_store l c :
  base <= l -> fresh_cell base c -> frames h0 (store l c) (fun _ => True).
Proof.
  intros Hl Hc s [Ht Hcl]. split; [|trivial]. split; simpl.
  - rewrite take_insert_ge by exact Hl. exact Ht.
  - unfold closed. rewrite drop_insert_ge by exact Hl.
    apply Forall_insert; assumption.
Qed.

Lemma frames_forM {A} (l : list A) (f : A -> HM unit) (P : A -> Prop) :
  Forall P l -> (forall a, P a -> frames h0 (f a) (fun _ => True)) ->
  frames h0 (forM l f) (fun _ => True).
Proof.
  intros Hl Hf. induction Hl as [|a r Ha _ IH]; simpl.
  - apply frames_ret. exact I.
  - eapply frames_bind; [exact (Hf a Ha)|]. intros _ _. exact IH.
Qed.

Lemma frames_mapM {A B} (f : A -> HM B) (l : list A) (P : A -> Prop) (Q : B -> Prop) :
  Forall P l -> (forall a, P a -> frames h0 (f a) Q) ->
  frames h0 (mapM f l) (Forall Q).
Proof.
  intros Hl Hf. induction Hl as [|a r Ha _ IH]; simpl.
  - apply frames_ret. constructor.
  - eapply frames_bind; [exact (Hf a Ha)|]. intros b Hb.
    eapply frames_bind; [exact IH|]. intros t Ht.
    apply frames_ret. constructor; assumption.
Qed.

End Frame.

Section FrameOperations.
Import JS Store.
Local Open Scope nat_scope.

Variable h0 : list cell.
Local Abbreviation base := (List.length h0).

Lemma fresh_of_value v : fresh base (of_value v).
Proof. destruct v; exact I. Qed.

Lemma own_get_Forall {V} (P : V -> Prop) (props : list (string * V)) k v :
  Forall (fun kx => P (snd kx)) props -> own_get props k = Some v -> P v.
Proof.
  induction 1 as [|[k' x] r Hx _ IH]; simpl; [discriminate|].
  destruct (String.eqb k' k); [intros E; injection E as <-; exact Hx|exact IH].
Qed.

Lemma own_update_Forall {V} (P : V -> Prop) (props : list (string * V)) k v :
  Forall (fun kx => P (snd kx)) props -> P v ->
  Forall (fun kx => P (snd kx)) (own_update props k v).
Proof.
  intros H Hv. induction H as [|[k' x] r Hx Hr IH]; simpl; [constructor|].
  destruct (String.eqb k' k); constructor; assumption.
Qed.

Lemma insert_index_Forall {V} (P : V -> Prop) (props : list (string * V)) i k v :
  Forall (fun kx => P (snd kx)) props -> P v ->
  Forall (fun kx => P (snd kx)) (insert_index props i k v).
Proof.
  intros H Hv. induction H as [|[k' x] r Hx Hr IH]; simpl.
  - constructor; [exact Hv|constructor].
  - destruct (JSString.array_index k') as [j|]; [destruct (j <? i)%N|];
      repeat constructor; assumption.
Qed.

Lemma own_set_Forall {V} (P : V -> Prop) (props : list (string * V)) k v :
  Forall (fun kx => P (snd kx)) props -> P v ->
  Forall (fun kx => P (snd kx)) (own_set props k v).
Proof.
  intros H Hv. unfold own_set. destruct (has_own props k).
  - apply own_update_Forall; assumption.
  - destruct (JSString.array_index k).
    + apply insert_index_Forall; assumption.
    + apply Forall_app. split; [exact H|]. constructor; [exact Hv|constructor].
Qed.

Lemma own_delete_Forall {V} (P : V -> Prop) (props : list (string * V)) k :
  Forall (fun kx => P (snd kx)) props ->
  Forall (fun kx => P (snd kx)) (own_delete props k).
Proof.
  induction 1 as [|[k' x] r Hx Hr IH]; simpl; [constructor|].
  destruct (String.eqb k' k); [exact Hr|constructor; assumption].
Qed.

Lemma fresh_proto_of h v : closed base h -> fresh base v -> fresh base (proto_of h v).
Proof.
  intros Hc Hv. destruct v; try apply fresh_of_value. simpl.
  destruct (h !! l) as [[p props|xs]|] eqn:G; try exact I.
  exact (proj1 (closed_lookup h0 h l _ Hc Hv G)).
Qed.

Lemma fresh_objproto_member h recv k :
  closed base h -> fresh base recv -> fresh base (objproto_member h recv k).
Proof.
  intros Hc Hv. unfold objproto_member.
  destruct (String.eqb k "__proto__"); [apply fresh_proto_of; assumption|].
  destruct (mem k objproto_names); exact I.
Qed.

Lemma fresh_index_get xs k v :
  Forall (fresh base) xs -> Store.index_get xs k = Some v -> fresh base v.
Proof.
  intros Hxs. unfold Store.index_get. destruct (JSString.array_index k) as [i|].
  - intros E. exact (proj1 (List.Forall_forall _ _) Hxs _ (nth_error_In _ _ E)).
  - destruct (String.eqb k "length"); [|discriminate].
    intros E. injection E as <-. exact I.
Qed.

Lemma get_from_fresh fuel h : forall holder recv k v,
  closed base h -> fresh base holder -> fresh base recv ->
  Store.get_from fuel h holder recv k = Ret v -> fresh base v.
Proof.
  induction fuel as [|fuel IH]; intros holder recv k v Hc Hh Hr;
    (destruct holder; simpl;
     try (intros E; injection E as <-;
          first [exact I | apply fresh_objproto_member; assumption]));
    try (destruct (unit_get s k); intros E; injection E as <-;
         first [apply fresh_of_value | apply fresh_objproto_member; assumption]).
  all: destruct (h !! l) as [[p props|xs]|] eqn:G; try discriminate;
    pose proof (closed_lookup h0 h l _ Hc Hh G) as Hcell; simpl in Hcell.
  all: try (destruct (Store.index_get xs k) eqn:Ei; intros E; injection E as <-;
            [exact (fresh_index_get _ _ _ Hcell Ei)|apply fresh_objproto_member; assumption]).
  all: destruct Hcell as [Hp Hprops];
    destruct (own_get props k) eqn:Eo;
    [intros E; injection E as <-; exact (own_get_Forall _ _ _ _ Hprops Eo)|].
  - discriminate.
  - apply IH; assumption.
Qed.


Lemma frames_get_prop o k :
  fresh base o -> frames h0 (Store.get_prop o k) (fresh base).
Proof.
  intros Ho. apply frames_read. intros h v Hc E.
  exact (get_from_fresh _ _ _ _ _ _ Hc Ho Ho E).
Qed.

Lemma frames_get_checked o k :
  fresh base o -> frames h0 (Store.get_checked o k) (fresh base).
Proof.
  intros Ho. destruct o; simpl; try apply frames_throw; apply frames_get_prop; exact Ho.
Qed.

Lemma frames_set_prop o k v :
  fresh base o -> fresh base v -> frames h0 (Store.set_prop o k v) (fun _ => True).
Proof.
  intros Ho Hv.
  destruct o; simpl; try (apply frames_ret; exact I); try apply frames_throw.
  eapply frames_bind; [apply frames_load; exact Ho|].
  intros [p props|xs] Hc; [|apply frames_throw]. destruct Hc as [Hp Hprops].
  assert (frames h0 (store l (CObj p (own_set props k v))) (fun _ => True)) as Hset.
  { apply frames_store; [exact Ho|]. split; [exact Hp|].
    apply own_set_Forall; assumption. }
  destruct (has_own props k).
  { apply frames_store; [exact Ho|]. split; [exact Hp|].
    apply own_update_Forall; assumption. }
  destruct (String.eqb k "__proto__"); [|exact Hset].
  eapply frames_bind; [apply frames_look|]. intros [|] _; [|exact Hset].
  destruct (Store.is_objectlike v || Store.is_null v).
  - apply frames_store; [exact Ho|]. split; assumption.
  - apply frames_ret. exact I.
Qed.

Lemma frames_delete_prop o k :
  fresh base o -> frames h0 (Store.delete_prop o k) (fun _ => True).
Proof.
  intros Ho.
  destruct o; simpl; try (apply frames_ret; exact I); try apply frames_throw.
  eapply frames_bind; [apply frames_load; exact Ho|].
  intros [p props|xs] Hc; [|apply frames_throw]. destruct Hc as [Hp Hprops].
  apply frames_store; [exact Ho|]. split; [exact Hp|].
  apply own_delete_Forall. exact Hprops.
Qed.

Lemma frames_array_push a x :
  fresh base a -> fresh base x -> frames h0 (Store.array_push a x) (fun _ => True).
Proof.
  intros Ha Hx. destruct a; simpl; try apply frames_throw.
  eapply frames_bind; [apply frames_load; exact Ha|].
  intros [p props|xs] Hc; [apply frames_throw|].
  apply frames_store; [exact Ha|]. simpl. apply Forall_app. split; [exact Hc|].
  constructor; [exact Hx|constructor].
Qed.

Lemma frames_elements a :
  fresh base a -> frames h0 (Store.elements a) (Forall (fresh base)).
Proof.
  intros Ha. destruct a; simpl; try (apply frames_ret; constructor).
  eapply frames_bind; [apply frames_load; exact Ha|].
  intros [p props|xs] Hc; apply frames_ret; [constructor|exact Hc].
Qed.

Lemma frames_alloc_value v : frames h0 (alloc_value v) (fresh base).
Proof.
  induction v as [| |b|n|s|f|n|xs IH|p props IHp IH] using value_nested_ind;
    try (apply frames_ret; exact I).
  - simpl. apply frames_bind with (P := Forall (fresh base)).
    + induction IH as [|x r Hx _ IHr].
      * apply frames_ret. constructor.
      * eapply frames_bind; [exact Hx|]. intros y Hy.
        eapply frames_bind; [exact IHr|]. intros t Ht.
        apply frames_ret. constructor; assumption.
    + intros ys Hys. apply frames_alloc. exact Hys.
  - simpl. eapply frames_bind; [exact IHp|]. intros p' Hp'.
    apply frames_bind with (P := Forall (fun kx => fresh base (snd kx))).
    + induction IH as [|[k x] r Hx _ IHr].
      * apply frames_ret. constructor.
      * eapply frames_bind; [exact Hx|]. intros y Hy.
        eapply frames_bind; [exact IHr|]. intros t Ht.
        apply frames_ret. constructor; assumption.
    + intros ms Hms. apply frames_alloc. split; assumption.
Qed.

Lemma frames_deep_clone data : frames h0 (deep_clone data) (fresh base).
Proof.
  unfold deep_clone. eapply frames_bind; [apply frames_look|].
  intros [t|] _; [apply frames_alloc_value|apply frames_throw].
Qed.

End FrameOperations.

(** The rules, as hints: a step of a function is framed by the rule of the
    operation it runs. *)

Create HintDb frames discriminated.

#[local] Hint Resolve frames_throw frames_lift frames_push frames_now
  frames_get_prop frames_get_checked frames_set_prop frames_delete_prop
  frames_array_push frames_elements frames_alloc_value frames_alloc
  frames_deep_clone fresh_of_value : frames.
#[local] Hint Extern 1 (Store.fresh _ _) => exact I : frames.
#[local] Hint Extern 2 (Store.fresh _ (if ?b then _ else _)) => destruct b : frames.
#[local] Hint Extern 1 (Store.fresh_cell _ _) => repeat constructor : frames.
#[local] Hint Extern 1 (Forall _ _) => apply Forall_true; trivial : frames.

Ltac frame_leaf := solve [eauto 4 with frames nocore].

Ltac frame :=
  lazymatch goal with
  | |- Store.frames ?h (Store.bind _ _) _ =>
      first
        [ eapply frames_bind; [frame_leaf|]
        | apply frames_bind with (P := Store.fresh (List.length h)); [solve [frame]|]
        | apply frames_bind with (P := fun _ => True); [solve [frame]|] ];
      intros ? ?; frame
  | |- Store.frames _ (Store.ret _) _ => apply frames_ret; first [exact I|frame_leaf]
  | |- Store.frames _ (if ?b then _ else _) _ => destruct b; frame
  | |- Store.frames _ (match ?x with _ => _ end) _ => destruct x; frame
  | |- _ => first [frame_leaf | eapply frames_weaken; [frame_leaf|trivial]]
  end.

Section FrameFunctions.
Import JS Store.
Local Open Scope nat_scope.

Variable h0 : list cell.
Local Abbreviation base := (List.length h0).

Lemma frames_ToString v : frames h0 (Store.ToString v) (fun _ => True).
Proof. apply frames_look. Qed.

Lemma frames_isArray v : frames h0 (Store.isArray v) (fun _ => True).
Proof. apply frames_look. Qed.

Lemma frames_forin_keys v : frames h0 (Store.forin_keys v) (fun _ => True).
Proof. apply frames_look. Qed.

Hint Resolve frames_ToString frames_isArray frames_forin_keys : frames.

Lemma frames_null_to_default entity ty key val expected :
  fresh base entity -> fresh base val ->
  frames h0 (Store.null_to_default entity ty key val expected) (fresh base).
Proof.
  intros He Hv. unfold Store.null_to_default. frame.
Qed.

Hint Resolve frames_null_to_default : frames.

Lemma frames_transformProperties_step nested entity ty schema target key :
  (forall e t s, fresh base e -> frames h0 (nested e t s) (fresh base)) ->
  fresh base entity -> fresh base target ->
  frames h0 (Store.transformProperties_step nested entity ty schema target key)
    (fun _ => True).
Proof.
  intros Hnested He Ht. unfold Store.transformProperties_step. frame.
Qed.

Lemma frames_transformProperties_rec bound : forall entity ty schema,
  fresh base entity ->
  frames h0 (Store.transformProperties_rec bound entity ty schema) (fresh base).
Proof.
  induction bound as [|bound IH]; intros entity ty schema He; simpl;
    (destruct (negb (Store.is_object entity)); [apply frames_ret; exact He|]);
    (eapply frames_bind; [apply frames_alloc; repeat constructor|]);
    intros target Ht;
    (eapply frames_bind; [apply frames_forin_keys|]); intros keys _;
    (eapply frames_bind; [|intros _ _; apply frames_ret; exact Ht]);
    (apply frames_forM with (P := fun _ => True); [apply Forall_true; trivial|]);
    intros key _; apply frames_transformProperties_step; try assumption.
  intros e t s _. apply frames_throw.
Qed.

Lemma frames_transformProperties entity ty schema :
  fresh base entity ->
  frames h0 (Store.transformProperties entity ty schema) (fresh base).
Proof.
  intros He s Hs. unfold Store.transformProperties.
  exact (frames_transformProperties_rec _ entity ty schema He s Hs).
Qed.

Lemma frames_optional_toLowerCase v :
  frames h0 (Store.optional_toLowerCase v) (fresh base).
Proof. destruct v; simpl; first [apply frames_throw | apply frames_ret; exact I]. Qed.

Lemma fresh_table_hit table k v : table_hit table k = Some v -> fresh base v.
Proof.
  unfold table_hit. destruct (JS.truthy _); [|discriminate].
  intros E. injection E as <-. apply fresh_of_value.
Qed.

Lemma frames_mapStatus v : fresh base v -> frames h0 (Store.mapStatus v) (fresh base).
Proof.
  intros Hv. unfold Store.mapStatus.
  eapply frames_bind; [apply frames_ToString|]. intros k _.
  destruct (table_hit _ k) eqn:E; [apply frames_ret; exact (fresh_table_hit _ _ _ E)|].
  eapply frames_bind; [apply frames_optional_toLowerCase|]. intros lower Hl.
  apply frames_ret. destruct (Store.truthy lower); [exact Hl|exact I].
Qed.

Lemma frames_mapEventStatus v :
  fresh base v -> frames h0 (Store.mapEventStatus v) (fresh base).
Proof.
  intros Hv. unfold Store.mapEventStatus.
  eapply frames_bind; [apply frames_ToString|]. intros k _.
  destruct (table_hit _ k) eqn:E; [apply frames_ret; exact (fresh_table_hit _ _ _ E)|].
  eapply frames_bind; [apply frames_optional_toLowerCase|]. intros lower Hl.
  apply frames_ret. destruct (Store.truthy lower); [exact Hl|exact I].
Qed.

Lemma frames_mapDocumentType v :
  fresh base v -> frames h0 (Store.mapDocumentType v) (fresh base).
Proof.
  intros Hv. unfold Store.mapDocumentType.
  eapply frames_bind; [apply frames_ToString|]. intros k _.
  destruct (table_hit _ k) eqn:E; apply frames_ret;
    [exact (fresh_table_hit _ _ _ E)|exact Hv].
Qed.

Lemma frames_mapEngagementType v :
  frames h0 (Store.mapEngagementType v) (fresh base).
Proof.
  unfold Store.mapEngagementType.
  eapply frames_bind; [apply frames_ToString|]. intros k _.
  destruct (table_hit _ k) eqn:E; apply frames_ret;
    [exact (fresh_table_hit _ _ _ E)|exact I].
Qed.

Hint Resolve frames_transformProperties frames_mapStatus frames_mapEventStatus
  frames_mapDocumentType frames_mapEngagementType : frames.


Variable Date_now : nat -> Z.

Lemma frames_transformEntity_step item originalType targetType schema idField target key :
  fresh base item -> fresh base target ->
  frames h0 (Store.transformEntity_step item originalType targetType schema idField
               target key) (fun _ => True).
Proof.
  intros Hi Ht. unfold Store.transformEntity_step.
  eapply frames_bind; [frame_leaf|]. intros value Hvalue.
  apply frames_bind with (P := fresh base); [solve [frame]|]. clear value Hvalue.
  intros value Hvalue.
  eapply frames_bind; [frame_leaf|]. intros expectedType _.
  apply frames_bind with (P := fresh base); [solve [frame]|]. clear value Hvalue.
  intros value Hvalue.
  apply frames_bind with (P := fun _ => True); [solve [frame]|]. intros schemaKey _.
  apply frames_bind with (P := fresh base); [solve [frame]|]. clear value Hvalue.
  intros value Hvalue.
  eapply frames_bind; [frame_leaf|]. intros value_is_array _.
  destruct (Store.is_object value && negb value_is_array); [solve [frame]|].
  destruct (value_is_array && _); [|solve [frame]].
  eapply frames_bind; [frame_leaf|]. intros xs Hxs.
  eapply frames_bind.
  - apply frames_mapM with (P := fresh base); [exact Hxs|].
    intros arrItem Hitem. apply frames_transformProperties. exact Hitem.
  - intros items Hitems.
    eapply frames_bind; [apply frames_alloc; exact Hitems|]. intros mapped Hmapped.
    apply frames_set_prop; assumption.
Qed.

Lemma frames_gis_defaults originalType schema target :
  fresh base target ->
  frames h0 (Store.gis_defaults Date_now originalType schema target) (fun _ => True).
Proof.
  intros Ht. unfold Store.gis_defaults. cbv beta zeta. frame.
Qed.

Hint Resolve frames_transformEntity_step frames_gis_defaults : frames.

Lemma frames_transformEntity item originalType targetType schema :
  fresh base item ->
  frames h0 (Store.transformEntity Date_now item originalType targetType schema)
    (fresh base).
Proof.
  intros Hi. unfold Store.transformEntity.
  eapply frames_bind; [apply frames_alloc; repeat constructor|]. intros target Ht.
  eapply frames_bind; [frame_leaf|]. intros keys _.
  eapply frames_bind.
  { apply frames_forM with (P := fun _ => True); [apply Forall_true; trivial|].
    intros key _. apply frames_transformEntity_step; assumption. }
  intros _ _. frame.
Qed.

Lemma frames_migrate root entry :
  fresh base root -> frames h0 (Store.migrate Date_now root entry) (fun _ => True).
Proof.
  intros Hr. destruct entry as [originalType [target schemaProps]]. simpl.
  eapply frames_bind; [frame_leaf|]. intros source Hs.
  destruct (Store.truthy source); [|apply frames_ret; exact I].
  eapply frames_bind; [frame_leaf|]. intros existing He.
  apply frames_bind with (P := fun _ => True); [solve [frame]|]. intros _ _.
  eapply frames_bind; [frame_leaf|]. intros source' Hs'.
  eapply frames_bind; [frame_leaf|]. intros source_is_array _.
  apply frames_bind with (P := fresh base).
  { destruct source_is_array; [apply frames_ret; exact Hs'|].
    apply frames_alloc. constructor; [exact Hs'|constructor]. }
  intros itemsToTransform Hitems.
  eapply frames_bind; [frame_leaf|]. intros items HI.
  eapply frames_bind.
  { apply frames_forM with (P := fresh base); [exact HI|].
    intros item Hitem.
    eapply frames_bind; [apply frames_transformEntity; exact Hitem|]. intros entity He'.
    eapply frames_bind; [frame_leaf|]. intros targetArray Ha.
    apply frames_array_push; assumption. }
  intros _ _. frame.
Qed.

Lemma frames_normalize root nepaKey :
  fresh base root -> frames h0 (Store.normalize root nepaKey) (fun _ => True).
Proof.
  intros Hr. unfold Store.normalize.
  eapply frames_bind; [frame_leaf|]. intros current Hc.
  eapply frames_bind; [frame_leaf|]. intros [|] _; [|apply frames_ret; exact I].
  eapply frames_bind; [frame_leaf|]. intros xs Hxs.
  eapply frames_bind.
  { apply frames_mapM with (P := fresh base); [exact Hxs|].
    intros entity He. apply frames_transformProperties. exact He. }
  intros entities Hes.
  eapply frames_bind; [apply frames_alloc; exact Hes|]. intros mapped Hm.
  apply frames_set_prop; assumption.
Qed.

Lemma frames_transformToNepaFormat_run data :
  frames h0 (Store.transformToNepaFormat_run Date_now data) (fresh base).
Proof.
  unfold Store.transformToNepaFormat_run.
  eapply frames_bind; [apply frames_deep_clone|]. intros root Hr.
  eapply frames_bind; [frame_leaf|]. intros projects Hp.
  apply frames_bind with (P := fun _ => True); [solve [frame]|]. intros _ _.
  eapply frames_bind.
  { apply frames_forM with (P := fun _ => True); [apply Forall_true; trivial|].
    intros entry _. apply frames_migrate. exact Hr. }
  intros _ _.
  eapply frames_bind; [frame_leaf|]. intros keys _.
  eapply frames_bind.
  { apply frames_forM with (P := fun _ => True); [apply Forall_true; trivial|].
    intros key _. apply frames_normalize. exact Hr. }
  intros _ _. apply frames_ret. exact Hr.
Qed.

End FrameFunctions.

Section InputUnchanged.
Import JS Store.
Local Open Scope nat_scope.

Variable Date_now : nat -> Z.

(** The store tells a write to the input from a write to the copy: an
    assignment through a reference changes the cell it names. *)
Example assignment_through_reference :
  cells (snd (Store.set_prop (HRef 0) "notes" (HStr "")
                {| cells := [CObj (HBuiltin "Object.prototype") [("notes", HNull)]];
                   fixes := []; ticks := 0 |}))
  = [CObj (HBuiltin "Object.prototype") [("notes", HStr "")]].
Proof. reflexivity. Qed.

(** A legacy document whose [project] array holds the same record twice: the
    record is transformed twice, in new cells, and the three cells of the
    input are as they were. *)
Example shared_record_run :
  let h := [ CObj (HBuiltin "Object.prototype") [("id", HNum 7); ("notes", HNull)];
             CArr [HRef 0; HRef 0];
             CObj (HBuiltin "Object.prototype") [("project", HRef 1)] ] in
  let after := Store.transformToNepaFormat Date_now (HRef 2) h in
  fst after
  = Ret (HRef 6,
         [ "Added missing required projects array to root level";
           "Converted numeric ID project.id (mapped to project_id) to string: 7 -> 7";
           "Replaced null with default '' for project.notes (mapped to notes, expected string)";
           "Converted numeric ID project.id (mapped to project_id) to string: 7 -> 7";
           "Replaced null with default '' for project.notes (mapped to notes, expected string)";
           "Transformed project data to NEPA projects format" ])
  /\ reify 13 (snd after) (HRef 6)
     = Ret (obj [("projects",
                  VArr [ obj [("project_id", VStr "7"); ("notes", VStr "")];
                         obj [("project_id", VStr "7"); ("notes", VStr "")] ])])
  /\ take 3 (snd after) = h.
Proof. vm_compute. repeat split. Qed.

(** On a document built from a tree, the store and the tree model give the
    same data and the same fixes. *)
Example store_agrees_with_tree :
  let d := [ ("project", VArr [obj [ ("id", VNum 7); ("status", VStr "Active");
                                     ("notes", VNull);
                                     ("sponsor", obj [("name", VNull)]) ]]);
             ("documents", VArr [obj [("notes", VNull); ("type", VStr "FEIS")]]) ] in
  let '(root, h) := build (obj d) in
  let after := Store.transformToNepaFormat Date_now root h in
  match fst after, Transform.transformToNepaFormat Date_now d with
  | Ret (r, fx), Ret (r', fx') =>
      reify (S (List.length (snd after))) (snd after) r = Ret r' /\ fx = fx'
  | _, _ => False
  end.
Proof. vm_compute. split; reflexivity. Qed.

(** A circular input makes [JSON.stringify] throw; the store is as it was. *)
Example circular_input :
  Store.transformToNepaFormat Date_now (HRef 0)
    [CObj (HBuiltin "Object.prototype") [("self", HRef 0)]]
  = (Throw TypeError, [CObj (HBuiltin "Object.prototype") [("self", HRef 0)]]).
Proof. reflexivity. Qed.

(** C7: for every store and every input [data] in it, a call of
    [transformToNepaFormat(data)], whether it returns or throws, leaves every
    cell the store had before the call as it was: no object or array of the
    input is written to.  The data it returns is a new document: the cells
    added by the call refer to added cells only, and the returned value
    refers to none of the cells of the input. *)
Theorem input_left_unchanged (data : hval) (h : list cell) :
  let after := Store.transformToNepaFormat Date_now data h in
  take (List.length h) (snd after) = h
  /\ closed (List.length h) (snd after)
  /\ forall r fx, fst after = Ret (r, fx) -> fresh (List.length h) r.
Proof.
  unfold Store.transformToNepaFormat.
  assert (extends h {| cells := h; fixes := []; ticks := 0 |}) as Hstart.
  { split; simpl; [apply firstn_all|]. unfold closed. rewrite drop_all. constructor. }
  destruct (frames_transformToNepaFormat_run h Date_now data _ Hstart) as [[Hkeep Hnew] Hret].
  destruct (transformToNepaFormat_run Date_now data _) as [[root|e] s]; simpl in *.
  - split; [exact Hkeep|]. split; [exact Hnew|].
    intros r fx E. injection E as <- _. apply Hret. reflexivity.
  - split; [exact Hkeep|]. split; [exact Hnew|]. discriminate.
Qed.

End InputUnchanged.

(** ** The recursion bound of [transformProperties] is never reached *)

Section Bound.
Import JS Transform.

Lemma sequence_not_exhausted {A} (l : list (outcome A)) :
  Forall (fun o => o <> Throw Exhausted) l -> sequence l <> Throw Exhausted.
Proof.
  induction 1 as [|o r Ho _ IH]; simpl; [discriminate|].
  destruct o as [a|e]; simpl; [|intros E; apply Ho; congruence].
  destruct (sequence r); simpl; [discriminate|intros E; apply IH; congruence].
Qed.

Lemma ToString_not_exhausted v : ToString v <> Throw Exhausted.
Proof.
  induction v as [| |b|n|s|f|n|xs IH|p props _ _] using value_nested_ind;
    try (simpl; discriminate).
  - simpl.
    assert (sequence (map (fun x => match x with
                                    | VUndef | VNull => Ret ""
                                    | _ => ToString x
                                    end) xs) <> Throw Exhausted) as Hs.
    { apply sequence_not_exhausted. induction IH as [|x r Hx _ IHr]; simpl; constructor.
      - destruct x; first [discriminate|exact Hx].
      - exact IHr. }
    destruct (sequence _); simpl; [discriminate|intros E; apply Hs; congruence].
  - simpl. destruct (get_prop (VObj p props) "toString"); try discriminate.
    destruct (String.eqb f "toString"); discriminate.
Qed.

Lemma height_element xs x : In x xs -> (height x < height (VArr xs))%nat.
Proof.
  intros Hin. simpl.
  assert (height x <= fold_right (fun x n => Nat.max (height x) n) O xs)%nat.
  { induction xs as [|y r IH]; [destruct Hin|].
    simpl. destruct Hin as [->|Hin]; [lia|]. specialize (IH Hin). lia. }
  lia.
Qed.

Lemma height_objproto_member recv k :
  (height (objproto_member recv k) <= height (proto_of recv))%nat.
Proof.
  unfold objproto_member. destruct (String.eqb k "__proto__"); [lia|].
  destruct (mem k objproto_names); simpl; lia.
Qed.

(** A member read through the prototype chain lies below its holder, or
    below the prototype of the receiver. *)
Lemma height_get_from holder recv k :
  (height (get_from holder recv k)
   <= Nat.max (Nat.pred (height holder)) (height (proto_of recv)))%nat.
Proof.
  induction holder as [| |b|n|s|f|n|xs _|p props IHp _] using value_nested_ind;
    try (simpl; lia);
    try (pose proof (height_objproto_member recv k); simpl; lia).
  - cbn [get_from]. destruct (unit_get s k) as [v|] eqn:E.
    + unfold unit_get in E. destruct (JSString.array_index k).
      * destruct (nth_error _ _); [|discriminate]. injection E as <-. simpl. lia.
      * destruct (String.eqb k "length"); [|discriminate]. injection E as <-. simpl. lia.
    + pose proof (height_objproto_member recv k). lia.
  - cbn [get_from]. destruct (index_get xs k) as [v|] eqn:E.
    + unfold index_get in E. destruct (JSString.array_index k).
      * pose proof (height_element xs v (nth_error_In _ _ E)). lia.
      * destruct (String.eqb k "length"); [|discriminate]. injection E as <-. simpl. lia.
    + pose proof (height_objproto_member recv k). lia.
  - cbn [get_from]. destruct (own_get props k) as [v|] eqn:E.
    + pose proof (height_member p props k v (own_get_In _ _ _ E)). lia.
    + cbn [height Nat.pred]. lia.
Qed.

Lemma height_get_prop v k :
  is_object v = true -> forin_keys v <> [] ->
  (height (get_prop v k) < height v)%nat.
Proof.
  intros Hobj Hkeys. pose proof (height_get_from v v k) as H. unfold get_prop.
  destruct v; try discriminate Hobj; try (exfalso; apply Hkeys; reflexivity);
    cbn [height proto_of Nat.pred] in *; lia.
Qed.

Lemma bind_not_exhausted {A B} (m : M A) (f : A -> M B) (s : run) :
  m s <> Throw Exhausted ->
  (forall a s', m s = Ret (a, s') -> f a s' <> Throw Exhausted) ->
  bind m f s <> Throw Exhausted.
Proof.
  intros Hm Hf. unfold bind. destruct (m s) as [[a s']|e].
  - apply Hf. reflexivity.
  - intros E. apply Hm. congruence.
Qed.

Lemma lift_not_exhausted {A} (o : outcome A) (s : run) :
  o <> Throw Exhausted -> lift o s <> Throw Exhausted.
Proof. unfold lift. destruct o; [discriminate|]. intros H E. apply H. congruence. Qed.

Lemma forM_not_exhausted {A S} (l : list A) (f : S -> A -> M S) :
  (forall acc a s, In a l -> f acc a s <> Throw Exhausted) ->
  forall acc s, forM l acc f s <> Throw Exhausted.
Proof.
  induction l as [|a r IH]; intros Hf acc s; simpl; [discriminate|].
  apply bind_not_exhausted; [apply Hf; left; reflexivity|].
  intros acc' s' _. apply IH. intros acc0 a0 s0 Hin. apply Hf. right. exact Hin.
Qed.

(** The replacement step answers the member or a default, and the default
    that is an object has no members. *)
Lemma null_to_default_answers entity ty k val et s :
  null_to_default entity ty k val et s <> Throw Exhausted
  /\ forall v s', null_to_default entity ty k val et s = Ret (v, s') ->
       v = val \/ forin_keys v = [].
Proof.
  unfold null_to_default.
  destruct (is_null val && truthy et); [|split; [discriminate|]; intros v s' H;
    apply ret_inv in H as [-> _]; left; reflexivity].
  destruct (negb (is_null (getDefaultValueForType et)) || JSString.endsWith k "_id");
    [|split; [discriminate|]; intros v s' H; apply ret_inv in H as [-> _]; left; reflexivity].
  destruct (is_null val && negb (is_null (getDefaultValueForType et))
            && negb (strict_eq (get_prop entity k) (getDefaultValueForType et)));
    [|split; [discriminate|]; intros v s' H; apply ret_inv in H as [-> _]; left; reflexivity].
  split.
  - apply bind_not_exhausted; [apply lift_not_exhausted, ToString_not_exhausted|].
    intros shown s1 _.
    apply bind_not_exhausted; [apply lift_not_exhausted, ToString_not_exhausted|].
    intros expected s2 _. discriminate.
  - intros v s' H.
    apply bind_ret_inv in H as (shown & s1 & _ & H).
    apply bind_ret_inv in H as (expected & s2 & _ & H).
    apply push_bind_inv, ret_inv in H as [-> _]. right.
    unfold getDefaultValueForType.
    repeat match goal with |- context [if ?b then _ else _] => destruct b end;
      reflexivity.
Qed.

Lemma transformProperties_step_not_exhausted nested entity ty schema acc key s (n : nat) :
  (forall v ty' schema' s', (height v <= n)%nat \/ forin_keys v = [] ->
     nested v ty' schema' s' <> Throw Exhausted) ->
  (height (get_prop entity key) <= n)%nat ->
  transformProperties_step nested entity ty schema acc key s <> Throw Exhausted.
Proof.
  intros Hnested Hheight. unfold transformProperties_step.
  apply bind_not_exhausted.
  { apply lift_not_exhausted. destruct schema; discriminate. }
  intros expectedType s1 _.
  destruct (null_to_default_answers entity ty key (get_prop entity key) expectedType s1)
    as [Hsafe Hcases].
  apply bind_not_exhausted; [exact Hsafe|]. intros value s2 Hvalue.
  destruct (String.eqb ty "gis_data" && String.eqb key "container_inventory"
            && isArray value).
  { destruct value as [| | | | | | |[|x xs]|]; discriminate. }
  destruct (is_object value); [|discriminate].
  destruct (negb (isArray value)); [|discriminate].
  apply bind_not_exhausted; [|discriminate].
  apply Hnested. destruct (Hcases _ _ Hvalue) as [->|Hempty]; [left; exact Hheight|].
  right. exact Hempty.
Qed.

Lemma transformProperties_rec_not_exhausted (n : nat) : forall entity ty schema s,
  (height entity <= n)%nat \/ forin_keys entity = [] ->
  transformProperties_rec n entity ty schema s <> Throw Exhausted.
Proof.
  induction n as [|n IH]; intros entity ty schema s Hcovered;
    rewrite transformProperties_rec_unfold;
    (destruct (is_object entity) eqn:Hobj; [|discriminate]); cbn [negb];
    apply forM_not_exhausted; intros acc key s' Hin.
  - assert (forin_keys entity = []) as Hempty.
    { destruct Hcovered as [Hh|He]; [|exact He].
      destruct entity; try discriminate Hobj; try reflexivity; simpl in Hh; lia. }
    rewrite Hempty in Hin. destruct Hin.
  - assert (forin_keys entity <> []) as Hkeys by (intros E; rewrite E in Hin; destruct Hin).
    destruct Hcovered as [Hh|He]; [|contradiction].
    apply transformProperties_step_not_exhausted with (n := n).
    + intros v ty' schema' s0 Hv. apply IH. exact Hv.
    + pose proof (height_get_prop entity key Hobj Hkeys). lia.
Qed.

(** [transformProperties] never stops for want of recursion depth: whatever
    it answers, the source function answers. *)
Theorem transformProperties_bound_suffices entity ty schema s :
  transformProperties entity ty schema s <> Throw Exhausted.
Proof.
  unfold transformProperties. apply transformProperties_rec_not_exhausted.
  left. lia.
Qed.

End Bound.

(** ** A record given to [transformEntity] is left as it was

    Called on its own, [transformEntity] copies nothing: the arrays of the
    record are shared with the record it returns.  It still writes to the
    objects it builds only. *)

Section RecordRules.
Import JS Store.
Local Open Scope nat_scope.

Variable h0 : list cell.
Local Abbreviation base := (List.length h0).

Lemma writes_ret {A} (a : A) (P : A -> Prop) : P a -> writes_new h0 (ret a) P.
Proof. intros Ha s Hs. split; [exact Hs|]. simpl. intros b E. congruence. Qed.

Lemma writes_throw {A} e (P : A -> Prop) : writes_new h0 (throw e) P.
Proof. intros s Hs. split; [exact Hs|]. simpl. discriminate. Qed.

Lemma writes_bind {A B} (m : HM A) (f : A -> HM B) (P : A -> Prop) (Q : B -> Prop) :
  writes_new h0 m P -> (forall a, P a -> writes_new h0 (f a) Q) ->
  writes_new h0 (bind m f) Q.
Proof.
  intros Hm Hf s Hs. unfold bind. destruct (Hm s Hs) as [Hs' Ha].
  destruct (m s) as [[a|e] s']; simpl in *.
  - apply Hf; [apply Ha; reflexivity|exact Hs'].
  - split; [exact Hs'|discriminate].
Qed.

Lemma writes_weaken {A} (m : HM A) (P Q : A -> Prop) :
  writes_new h0 m P -> (forall a, P a -> Q a) -> writes_new h0 m Q.
Proof.
  intros Hm HPQ s Hs. destruct (Hm s Hs) as [Hs' Ha]. split; [exact Hs'|].
  intros a E. apply HPQ, Ha, E.
Qed.

Lemma writes_lift {A} (o : outcome A) : writes_new h0 (lift o) (fun _ => True).
Proof. intros s Hs. split; [exact Hs|trivial]. Qed.

Lemma writes_push msg : writes_new h0 (push msg) (fun _ => True).
Proof. intros s Hs. split; [exact Hs|trivial]. Qed.

Lemma writes_now Date_now : writes_new h0 (now Date_now) (fun _ => True).
Proof. intros s Hs. split; [exact Hs|trivial]. Qed.

Lemma writes_read {A} (f : list cell -> outcome A) :
  writes_new h0 (read f) (fun _ => True).
Proof. intros s Hs. split; [exact Hs|trivial]. Qed.

Lemma writes_alloc c : writes_new h0 (alloc c) (fresh base).
Proof.
  intros s Hs. unfold keeps in *.
  assert (base <= List.length (cells s)) as Hlen.
  { rewrite <- Hs at 1. rewrite length_take. lia. }
  split; simpl.
  - rewrite take_app_le by exact Hlen. exact Hs.
  - intros a E. injection E as <-. exact Hlen.
Qed.

Lemma writes_store l c : base <= l -> writes_new h0 (store l c) (fun _ => True).
Proof.
  intros Hl s Hs. split; [|trivial]. unfold keeps in *. simpl.
  rewrite take_insert_ge by exact Hl. exact Hs.
Qed.

Lemma writes_set_prop o k v :
  fresh base o -> writes_new h0 (Store.set_prop o k v) (fun _ => True).
Proof.
  intros Ho.
  destruct o; simpl; try (apply writes_ret; exact I); try apply writes_throw.
  eapply writes_bind; [apply writes_read|].
  intros [p props|xs] _; [|apply writes_throw].
  destruct (has_own props k); [apply writes_store; exact Ho|].
  destruct (String.eqb k "__proto__"); [|apply writes_store; exact Ho].
  eapply writes_bind; [apply writes_read|]. intros [|] _; [|apply writes_store; exact Ho].
  destruct (Store.is_objectlike v || Store.is_null v);
    [apply writes_store; exact Ho|apply writes_ret; exact I].
Qed.

Lemma writes_elements a : writes_new h0 (Store.elements a) (fun _ => True).
Proof.
  destruct a; simpl; try (apply writes_ret; exact I).
  eapply writes_bind; [apply writes_read|].
  intros [p props|xs] _; apply writes_ret; exact I.
Qed.

Lemma writes_forM {A} (l : list A) (f : A -> HM unit) :
  (forall a, writes_new h0 (f a) (fun _ => True)) ->
  writes_new h0 (forM l f) (fun _ => True).
Proof.
  intros Hf. induction l as [|a r IH]; simpl.
  - apply writes_ret. exact I.
  - eapply writes_bind; [exact (Hf a)|]. intros _ _. exact IH.
Qed.

Lemma writes_mapM {A B} (f : A -> HM B) (l : list A) :
  (forall a, writes_new h0 (f a) (fun _ => True)) ->
  writes_new h0 (mapM f l) (fun _ => True).
Proof.
  intros Hf. induction l as [|a r IH]; simpl.
  - apply writes_ret. exact I.
  - eapply writes_bind; [exact (Hf a)|]. intros b _.
    eapply writes_bind; [exact IH|]. intros t _. apply writes_ret. exact I.
Qed.

Lemma writes_alloc_value v : writes_new h0 (alloc_value v) (fun _ => True).
Proof.
  induction v as [| |b|n|s|f|n|xs IH|p props IHp IH] using value_nested_ind;
    try (apply writes_ret; exact I).
  - simpl. apply writes_bind with (P := fun _ => True).
    + induction IH as [|x r Hx _ IHr].
      * apply writes_ret. exact I.
      * eapply writes_bind; [exact Hx|]. intros y _.
        eapply writes_bind; [exact IHr|]. intros t _. apply writes_ret. exact I.
    + intros ys _. eapply writes_weaken; [apply writes_alloc|trivial].
  - simpl. eapply writes_bind; [exact IHp|]. intros p' _.
    apply writes_bind with (P := fun _ => True).
    + induction IH as [|[k x] r Hx _ IHr].
      * apply writes_ret. exact I.
      * eapply writes_bind; [exact Hx|]. intros y _.
        eapply writes_bind; [exact IHr|]. intros t _. apply writes_ret. exact I.
    + intros ms _. eapply writes_weaken; [apply writes_alloc|trivial].
Qed.

End RecordRules.

Create HintDb writes discriminated.

#[local] Hint Resolve writes_throw writes_lift writes_push writes_now writes_read
  writes_set_prop writes_elements writes_alloc_value writes_alloc : writes.

Ltac record_leaf := solve [eauto 3 with writes nocore].

Ltac record_frame :=
  lazymatch goal with
  | |- Store.writes_new _ (Store.bind _ _) _ =>
      first
        [ eapply writes_bind; [record_leaf|]
        | apply writes_bind with (P := fun _ => True); [solve [record_frame]|] ];
      intros ? ?; record_frame
  | |- Store.writes_new _ (Store.ret _) _ => apply writes_ret; exact I
  | |- Store.writes_new _ (if ?b then _ else _) _ => destruct b; record_frame
  | |- Store.writes_new _ (match ?x with _ => _ end) _ => destruct x; record_frame
  | |- _ => first [record_leaf | eapply writes_weaken; [record_leaf|trivial]]
  end.

Section RecordFunctions.
Import JS Store.
Local Open Scope nat_scope.

Variable h0 : list cell.
Local Abbreviation base := (List.length h0).

Variable Date_now : nat -> Z.

Lemma writes_get_checked o k : writes_new h0 (Store.get_checked o k) (fun _ => True).
Proof. destruct o; simpl; first [apply writes_throw|apply writes_read]. Qed.

Hint Resolve writes_get_checked : writes.

Lemma writes_null_to_default entity ty key val expected :
  writes_new h0 (Store.null_to_default entity ty key val expected) (fun _ => True).
Proof. unfold Store.null_to_default. record_frame. Qed.

Hint Resolve writes_null_to_default : writes.

Lemma writes_transformProperties_step nested entity ty schema target key :
  (forall e t s, writes_new h0 (nested e t s) (fun _ => True)) ->
  fresh base target ->
  writes_new h0 (Store.transformProperties_step nested entity ty schema target key)
    (fun _ => True).
Proof.
  intros Hnested Ht. unfold Store.transformProperties_step. record_frame.
Qed.

Lemma writes_transformProperties_rec bound : forall entity ty schema,
  writes_new h0 (Store.transformProperties_rec bound entity ty schema) (fun _ => True).
Proof.
  induction bound as [|bound IH]; intros entity ty schema; simpl;
    (destruct (negb (Store.is_object entity)); [apply writes_ret; exact I|]);
    (eapply writes_bind; [apply writes_alloc|]); intros target Ht;
    (eapply writes_bind; [apply writes_read|]); intros keys _;
    (eapply writes_bind; [|intros _ _; apply writes_ret; exact I]);
    apply writes_forM; intros key;
    apply writes_transformProperties_step; try assumption.
  intros e t s. apply writes_throw.
Qed.

Lemma writes_transformProperties entity ty schema :
  writes_new h0 (Store.transformProperties entity ty schema) (fun _ => True).
Proof.
  intros s Hs. unfold Store.transformProperties.
  exact (writes_transformProperties_rec _ entity ty schema s Hs).
Qed.

Lemma writes_optional_toLowerCase v :
  writes_new h0 (Store.optional_toLowerCase v) (fun _ => True).
Proof. destruct v; simpl; first [apply writes_throw|apply writes_ret; exact I]. Qed.

Hint Resolve writes_transformProperties writes_optional_toLowerCase : writes.

Lemma writes_mapStatus v : writes_new h0 (Store.mapStatus v) (fun _ => True).
Proof. unfold Store.mapStatus. record_frame. Qed.

Lemma writes_mapEventStatus v : writes_new h0 (Store.mapEventStatus v) (fun _ => True).
Proof. unfold Store.mapEventStatus. record_frame. Qed.

Lemma writes_mapDocumentType v : writes_new h0 (Store.mapDocumentType v) (fun _ => True).
Proof. unfold Store.mapDocumentType. record_frame. Qed.

Lemma writes_mapEngagementType v :
  writes_new h0 (Store.mapEngagementType v) (fun _ => True).
Proof. unfold Store.mapEngagementType. record_frame. Qed.

Hint Resolve writes_mapStatus writes_mapEventStatus writes_mapDocumentType
  writes_mapEngagementType : writes.

Lemma writes_transformEntity_step item originalType targetType schema idField target key :
  fresh base target ->
  writes_new h0 (Store.transformEntity_step item originalType targetType schema idField
                   target key) (fun _ => True).
Proof.
  intros Ht. unfold Store.transformEntity_step.
  do 7 (apply writes_bind with (P := fun _ => True); [solve [record_frame]|]; intros ? _).
  destruct (Store.is_object _ && negb _); [solve [record_frame]|].
  destruct (_ && _); [|solve [record_frame]].
  eapply writes_bind; [record_leaf|]. intros xs _.
  eapply writes_bind.
  - apply writes_mapM. intros arrItem. apply writes_transformProperties.
  - intros items _. record_frame.
Qed.

Lemma writes_gis_defaults originalType schema target :
  fresh base target ->
  writes_new h0 (Store.gis_defaults Date_now originalType schema target) (fun _ => True).
Proof.
  intros Ht. unfold Store.gis_defaults. cbv beta zeta. record_frame.
Qed.

Lemma writes_transformEntity item originalType targetType schema :
  writes_new h0 (Store.transformEntity Date_now item originalType targetType schema)
    (fresh base).
Proof.
  unfold Store.transformEntity.
  eapply writes_bind; [apply writes_alloc|]. intros target Ht.
  eapply writes_bind; [apply writes_read|]. intros keys _.
  eapply writes_bind.
  { apply writes_forM. intros key. apply writes_transformEntity_step. exact Ht. }
  intros _ _.
  do 3 (apply writes_bind with (P := fun _ => True); [solve [record_frame]|]; intros ? _).
  apply writes_bind with (P := fun _ => True); [solve [record_frame]|]. intros _ _.
  apply writes_bind with (P := fun _ => True).
  { destruct (_ || _); [apply writes_gis_defaults; exact Ht|apply writes_ret; exact I]. }
  intros _ _. apply writes_ret. exact Ht.
Qed.

End RecordFunctions.


(** The record returned shares the array of the record given: both refer to
    cell 0. *)
Example record_shares_array :
  Store.transformEntity (fun _ => 0%Z) (Store.HRef 1) "project" "projects"
    (JS.get_prop Transform.simplifiedSchemas "project")
    {| Store.cells :=
         [ Store.CArr [Store.HNum 1];
           Store.CObj (Store.HBuiltin "Object.prototype")
             [("tags", Store.HRef 0); ("notes", Store.HNull)] ];
       Store.fixes := []; Store.ticks := 0 |}
  = (Ret (Store.HRef 2),
     {| Store.cells :=
          [ Store.CArr [Store.HNum 1];
            Store.CObj (Store.HBuiltin "Object.prototype")
              [("tags", Store.HRef 0); ("notes", Store.HNull)];
            Store.CObj (Store.HBuiltin "Object.prototype")
              [ ("tags", Store.HRef 0); ("notes", Store.HStr "");
                ("project_id", Store.HStr "") ] ];
        Store.fixes :=
          [ "Replaced null with default '' for project.notes (mapped to notes, expected string)";
            "Added missing ID field 'project_id' with default '' for projects" ];
        Store.ticks := 0 |}).
Proof. vm_compute. reflexivity. Qed.

(** ** More on the mapping utilities *)

Section MappingExtra.
Import JS.

Lemma mem_cons k a l : mem k (a :: l) = String.eqb k a || mem k l.
Proof. reflexivity. Qed.

Lemma mem_In k l : mem k l = true <-> In k l.
Proof.
  unfold mem. rewrite existsb_exists. split.
  - intros (x & Hin & E). apply String.eqb_eq in E. subst. exact Hin.
  - intros Hin. exists k. split; [exact Hin|apply String.eqb_refl].
Qed.

(** The two [shouldIgnoreField] of the repository differ on three names
    only: the parent references that the mapping utilities keep, because
    they map to required schema properties, are ignored by the one of the
    validation utilities. *)
Theorem shouldIgnoreField_variants (f : string) :
  ValidationUtils.shouldIgnoreField f
  = shouldIgnoreField f
    || mem f ["parent_project_id"; "parent_process_id"; "parent_document_id"]
  /\ (mem f ["parent_project_id"; "parent_process_id"; "parent_document_id"] = true ->
      shouldIgnoreField f = false).
Proof.
  split.
  - unfold ValidationUtils.shouldIgnoreField, shouldIgnoreField.
    cbv zeta. rewrite !mem_cons.
    destruct (String.eqb f "parent_project_id"), (String.eqb f "parent_process_id"),
      (String.eqb f "parent_document_id"); cbn [orb];
      rewrite ?orb_true_r; cbn [orb negb];
      try reflexivity;
      try (repeat match goal with
                  | |- context [if ?b then _ else _] => destruct b; cbn [orb andb negb]
                  end; rewrite ?orb_true_r; reflexivity).
  - intros H. apply mem_In in H. simpl in H.
    destruct H as [<-|[<-|[<-|[]]]]; reflexivity.
Qed.

End MappingExtra.

(** ** The enumerated value translators, continued *)

Section Translators.
Import JS.

Lemma lower_unit_idem (c : ascii) : lower_unit (lower_unit c) = lower_unit c.
Proof. destruct c as [[] [] [] [] [] [] [] []]; reflexivity. Qed.

Lemma toLowerCase_idem (s : string) : toLowerCase (toLowerCase s) = toLowerCase s.
Proof. induction s as [|c s IH]; simpl; [reflexivity|]. rewrite lower_unit_idem, IH. reflexivity. Qed.

Lemma keys_strs (l : list (string * string)) : keys (strs l) = map fst l.
Proof. unfold strs, obj, keys. rewrite map_map. reflexivity. Qed.

Lemma strs_miss (l : list (string * string)) (k : string) :
  mem k (map fst l) = false -> mem k objproto_names = false ->
  get_prop (strs l) k = VUndef.
Proof.
  intros Hk Hp. unfold strs. apply literal_miss; [|exact Hp].
  change (obj (map (fun kv => (fst kv, VStr (snd kv))) l)) with (strs l).
  rewrite keys_strs. exact Hk.
Qed.

(** A lower-cased string is no key of a table whose keys all change under
    lower-casing. *)
Lemma lower_not_key (keys : list string) (s : string) :
  forallb (fun k => negb (String.eqb (toLowerCase k) k)) keys = true ->
  mem (toLowerCase s) keys = false.
Proof.
  intros Hall. destruct (mem (toLowerCase s) keys) eqn:E; [|reflexivity].
  apply mem_In in E. rewrite forallb_forall in Hall. specialize (Hall _ E).
  rewrite toLowerCase_idem, String.eqb_refl in Hall. discriminate Hall.
Qed.

Lemma string_nonempty_eqb (s : string) : s <> "" -> String.eqb s "" = false.
Proof. intros H. apply String.eqb_neq. exact H. Qed.

(** What the two status translators answer on a string outside their table. *)
Lemma status_miss (table : list (string * string)) (default s : string) :
  mem s (map fst table) = false -> mem s objproto_names = false ->
  (let hit := get_prop (strs table) s in
   if truthy hit then Ret hit
   else let* lower := optional_toLowerCase (VStr s) in Ret (or lower (VStr default)))
  = Ret (VStr (if String.eqb s "" then default else toLowerCase s)).
Proof.
  intros Hk Hp. cbv zeta. rewrite (strs_miss _ _ Hk Hp). simpl.
  destruct (String.eqb s "") eqn:E.
  - apply String.eqb_eq in E. subst s. reflexivity.
  - apply String.eqb_neq in E. apply toLowerCase_nonempty in E.
    unfold or. simpl. rewrite (string_nonempty_eqb _ E). reflexivity.
Qed.

(** [mapEventStatus] on a string outside its table: the lower-cased copy, and
    ['pending'] for the empty string. *)
Theorem mapEventStatus_unknown (s : string) :
  mem s (keys eventStatusMap) = false ->
  mem s objproto_names = false ->
  mapEventStatus (VStr s)
  = Ret (VStr (if String.eqb s "" then "pending" else toLowerCase s)).
Proof.
  intros Hk Hp. unfold eventStatusMap in Hk. rewrite keys_strs in Hk.
  exact (status_miss _ "pending" s Hk Hp).
Qed.

Lemma mapEventStatus_unknown_witness :
  mapEventStatus (VStr "Postponed") = Ret (VStr "postponed")
  /\ mapEventStatus (VStr "") = Ret (VStr "pending").
Proof.
  split.
  - apply (mapEventStatus_unknown "Postponed"); reflexivity.
  - apply (mapEventStatus_unknown ""); reflexivity.
Defined.

(** A status-like translator applied twice gives what it gives once. *)
Lemma status_twice (table : list (string * string)) (default s : string)
    (f : value -> outcome value) :
  (forall v, f v = let* k := ToString v in
                   let hit := get_prop (strs table) k in
                   if truthy hit then Ret hit
                   else let* lower := optional_toLowerCase v in
                        Ret (or lower (VStr default))) ->
  forallb (fun k => negb (String.eqb (toLowerCase k) k)) (map fst table) = true ->
  forallb (fun kv => match f (VStr (fst kv)) with
                     | Ret (VStr r) =>
                         match f (VStr r) with
                         | Ret (VStr r') => String.eqb r' r
                         | _ => false
                         end
                     | _ => false
                     end) table = true ->
  match f (VStr default) with Ret (VStr r) => String.eqb r default | _ => false end = true ->
  mem s objproto_names = false ->
  mem (toLowerCase s) objproto_names = false ->
  exists r, f (VStr s) = Ret (VStr r) /\ f (VStr r) = Ret (VStr r).
Proof.
  intros Hf Hkeys Htable Hdefault Hp Hlp.
  destruct (mem s (map fst table)) eqn:Hk.
  - apply mem_In, in_map_iff in Hk as ([k v] & <- & Hin).
    rewrite forallb_forall in Htable. specialize (Htable _ Hin). simpl in *.
    destruct (f (VStr k)) as [[| | | |r| | | |]|]; try discriminate Htable.
    exists r. split; [reflexivity|].
    destruct (f (VStr r)) as [[| | | |r'| | | |]|]; try discriminate Htable.
    apply String.eqb_eq in Htable. subst r'. reflexivity.
  - pose proof (status_miss table default s Hk Hp) as H1.
    destruct (String.eqb s "") eqn:E.
    + exists default. split.
      * rewrite Hf. simpl. exact H1.
      * destruct (f (VStr default)) as [[| | | |r| | | |]|]; try discriminate Hdefault.
        apply String.eqb_eq in Hdefault. subst r. reflexivity.
    + exists (toLowerCase s). split; [rewrite Hf; simpl; exact H1|].
      rewrite Hf. simpl.
      pose proof (status_miss table default (toLowerCase s)
                    (lower_not_key _ s Hkeys) Hlp) as H2.
      rewrite toLowerCase_idem in H2.
      apply String.eqb_neq in E. apply toLowerCase_nonempty in E.
      rewrite (string_nonempty_eqb _ E) in H2. exact H2.
Qed.

(** The status translators are idempotent on strings: translating a
    translated status changes nothing, provided neither the status nor its
    lower-cased copy names a member of [Object.prototype]. *)
Theorem status_translators_idempotent (s : string) :
  mem s objproto_names = false ->
  mem (toLowerCase s) objproto_names = false ->
  (exists r, mapStatus (VStr s) = Ret (VStr r) /\ mapStatus (VStr r) = Ret (VStr r))
  /\ (exists r, mapEventStatus (VStr s) = Ret (VStr r)
                /\ mapEventStatus (VStr r) = Ret (VStr r)).
Proof.
  intros Hp Hlp. split.
  - apply (status_twice
             [ ("Pre-application", "pre-application"); ("Complete", "completed");
               ("Completed", "completed"); ("In Progress", "in-progress");
               ("Pending", "pending"); ("Active", "underway"); ("Cancelled", "cancelled") ]
             "underway" s mapStatus); try reflexivity; assumption.
  - apply (status_twice
             [ ("Completed", "completed"); ("Complete", "completed");
               ("In Progress", "in-progress"); ("Pending", "pending");
               ("Cancelled", "cancelled"); ("Scheduled", "scheduled") ]
             "pending" s mapEventStatus); try reflexivity; assumption.
Qed.

Lemma status_translators_idempotent_witness :
  (exists r, mapStatus (VStr "In Review") = Ret (VStr r)
             /\ mapStatus (VStr r) = Ret (VStr r))
  /\ (exists r, mapEventStatus (VStr "In Review") = Ret (VStr r)
                /\ mapEventStatus (VStr r) = Ret (VStr r)).
Proof. apply (status_translators_idempotent "In Review"); reflexivity. Defined.

(** Lower-casing can produce the name of an inherited member: the status
    ['Constructor'] becomes ['constructor'], which a second translation
    answers with the built-in [Object] function. *)
Example status_not_idempotent_on_inherited_name :
  mapStatus (VStr "Constructor") = Ret (VStr "constructor")
  /\ mapStatus (VStr "constructor") = Ret (VFun "constructor").
Proof. split; reflexivity. Qed.

End Translators.

Section TranslatorRanges.
Import JS.

(** Whatever string it is given, other than the name of a member of
    [Object.prototype], [mapEngagementType] answers one of six engagement
    types. *)
Theorem mapEngagementType_range (s : string) :
  mem s objproto_names = false ->
  exists c, mapEngagementType (VStr s) = Ret (VStr c)
            /\ In c [ "public meeting"; "notice"; "solicitation"; "public hearing";
                      "workshop"; "scoping meeting" ].
Proof.
  intros Hp. destruct (mem s (map fst
      [ ("public meeting", "public meeting"); ("notice", "notice");
        ("solicitation", "solicitation"); ("hearing", "public hearing");
        ("workshop", "workshop"); ("scoping", "scoping meeting") ])) eqn:Hk.
  - apply mem_In in Hk. simpl in Hk.
    destruct Hk as [<-|[<-|[<-|[<-|[<-|[<-|[]]]]]]];
      eexists; (split; [reflexivity|]); simpl; tauto.
  - exists "public meeting". split; [|simpl; tauto].
    unfold mapEngagementType, engagementTypeMap. simpl.
    rewrite (strs_miss _ _ Hk Hp). reflexivity.
Qed.

Lemma mapEngagementType_range_witness :
  exists c, mapEngagementType (VStr "open house") = Ret (VStr c)
            /\ In c [ "public meeting"; "notice"; "solicitation"; "public hearing";
                      "workshop"; "scoping meeting" ].
Proof. apply (mapEngagementType_range "open house"). reflexivity. Defined.

(** The engagement translator is not idempotent: a hearing becomes a public
    hearing, and a public hearing a public meeting. *)
Example mapEngagementType_twice :
  mapEngagementType (VStr "hearing") = Ret (VStr "public hearing")
  /\ mapEngagementType (VStr "public hearing") = Ret (VStr "public meeting").
Proof. split; reflexivity. Qed.

(** [mapDocumentType] is idempotent on strings that name no member of
    [Object.prototype]: an abbreviation is expanded once, and neither an
    expansion nor an unknown type is changed. *)
Theorem mapDocumentType_idempotent (s : string) :
  mem s objproto_names = false ->
  exists r, mapDocumentType (VStr s) = Ret (VStr r)
            /\ mapDocumentType (VStr r) = Ret (VStr r).
Proof.
  intros Hp. destruct (mem s (map fst
      [ ("FEIS", "Final EIS"); ("DEIS", "Draft EIS"); ("EA", "Environmental Assessment");
        ("FONSI", "Finding of No Significant Impact"); ("NOI", "Notice of Intent");
        ("ROD", "Record of Decision") ])) eqn:Hk.
  - apply mem_In in Hk. simpl in Hk.
    destruct Hk as [<-|[<-|[<-|[<-|[<-|[<-|[]]]]]]];
      eexists; split; reflexivity.
  - exists s.
    assert (mapDocumentType (VStr s) = Ret (VStr s)) as H.
    { unfold mapDocumentType, documentTypeMap. simpl.
      rewrite (strs_miss _ _ Hk Hp). reflexivity. }
    split; exact H.
Qed.

Lemma mapDocumentType_idempotent_witness :
  exists r, mapDocumentType (VStr "FEIS") = Ret (VStr r)
            /\ mapDocumentType (VStr r) = Ret (VStr r).
Proof. apply (mapDocumentType_idempotent "FEIS"). reflexivity. Defined.

(** The decimal form of an integer begins with a digit or the sign. *)
Lemma of_Z_head (n : Z) :
  exists c r, JSString.of_Z n = String c r
              /\ (JSString.is_digit c || Ascii.eqb c "-")%bool = true.
Proof.
  unfold JSString.of_Z. destruct (Z.to_int n) as [d|d]; simpl.
  - destruct d; simpl; eexists; eexists; split; reflexivity.
  - eexists; eexists; split; reflexivity.
Qed.

(** No table of the translators has a key that begins with a digit or the
    sign, and no member of [Object.prototype] has such a name. *)
Lemma lookup_number_head (table : list (string * string)) (c : ascii) (r : string) :
  (JSString.is_digit c || Ascii.eqb c "-")%bool = true ->
  forallb (fun kv => match fst kv with
                     | EmptyString => false
                     | String c' _ => negb (JSString.is_digit c' || Ascii.eqb c' "-")
                     end) table = true ->
  get_prop (strs table) (String c r) = VUndef.
Proof.
  intros Hc Hall. apply strs_miss.
  - destruct (mem (String c r) (map fst table)) eqn:E; [|reflexivity].
    apply mem_In, in_map_iff in E as ([k v] & Hk & Hin). simpl in Hk. subst k.
    rewrite forallb_forall in Hall. specialize (Hall _ Hin). simpl in Hall.
    rewrite Hc in Hall. discriminate Hall.
  - destruct c as [[] [] [] [] [] [] [] []]; try discriminate Hc; reflexivity.
Qed.

(** The optional call [status?.toLowerCase()] guards against [null] and
    [undefined] only: a status that is a number or a boolean makes both
    status translators throw a [TypeError], while [null] and [undefined]
    get the default. *)
Theorem status_translators_non_string :
  (forall n, mapStatus (VNum n) = Throw TypeError
             /\ mapEventStatus (VNum n) = Throw TypeError)
  /\ (forall b, mapStatus (VBool b) = Throw TypeError
                /\ mapEventStatus (VBool b) = Throw TypeError)
  /\ mapStatus VNull = Ret (VStr "underway")
  /\ mapStatus VUndef = Ret (VStr "underway")
  /\ mapEventStatus VNull = Ret (VStr "pending")
  /\ mapEventStatus VUndef = Ret (VStr "pending").
Proof.
  split; [|split; [|repeat split; reflexivity]].
  - intros n. destruct (of_Z_head n) as (c & r & E & Hc).
    unfold mapStatus, mapEventStatus, statusMap, eventStatusMap. simpl. rewrite E.
    rewrite !(lookup_number_head _ c r Hc) by reflexivity. split; reflexivity.
  - intros [|]; split; reflexivity.
Qed.

End TranslatorRanges.

(** ** Required fields that may be missing, and the stability of the field mapping *)

Section FieldMapping.
Import JS.

(** For a table name that names no member of [Object.prototype],
    [canIgnoreRequiredField] returns, and answers [true] for exactly four
    pairs of table and field. *)
Theorem canIgnoreRequiredField_listed (f t : string) :
  mem t objproto_names = false ->
  canIgnoreRequiredField f t
  = Ret (existsb (fun p => String.eqb t (fst p) && String.eqb f (snd p)) ignorable_pairs).
Proof.
  intros Hp. unfold canIgnoreRequiredField, ignorable_pairs. cbn [existsb fst snd].
  destruct (mem t (keys ignorableRequiredFields)) eqn:Hk.
  - apply mem_In in Hk. simpl in Hk.
    destruct Hk as [<-|[<-|[<-|[<-|[]]]]]; cbn;
      repeat match goal with
             | |- context [String.eqb f ?x] => destruct (String.eqb f x); cbn
             end; reflexivity.
  - unfold ignorableRequiredFields in *.
    rewrite (literal_miss _ _ Hk Hp). cbn [truthy obind].
    simpl in Hk. rewrite !orb_false_r in Hk.
    repeat (apply orb_false_iff in Hk as [? Hk]).
    repeat match goal with H : String.eqb t _ = false |- _ => rewrite H; clear H end.
    cbn [andb orb]. rewrite andb_false_r. reflexivity.
Qed.

Lemma canIgnoreRequiredField_listed_witness :
  canIgnoreRequiredField "document_id" "case_event" = Ret true
  /\ canIgnoreRequiredField "document_id" "project" = Ret false.
Proof.
  split.
  - apply (canIgnoreRequiredField_listed "document_id" "case_event"). reflexivity.
  - apply (canIgnoreRequiredField_listed "document_id" "project"). reflexivity.
Defined.

(** For a table name that names a member of [Object.prototype]
    ([constructor], [toString], ...) the lookup finds the inherited member,
    which has no [includes]: the function throws instead of answering
    [false]. *)
Theorem canIgnoreRequiredField_inherited_table (f t : string) :
  mem t objproto_names = true ->
  canIgnoreRequiredField f t = Throw TypeError.
Proof.
  intros Hp. apply mem_In in Hp. simpl in Hp. unfold canIgnoreRequiredField.
  repeat (destruct Hp as [<-|Hp]; [rewrite andb_false_r; reflexivity|]).
  destruct Hp.
Qed.

Lemma canIgnoreRequiredField_inherited_table_witness :
  canIgnoreRequiredField "document_id" "constructor" = Throw TypeError.
Proof. apply (canIgnoreRequiredField_inherited_table "document_id" "constructor"). reflexivity. Defined.

(** The names a table can rename a field to; [check] says that each of them
    is renamed to itself. *)
Lemma stable_for (t f g : string) (props : list (string * value)) :
  get_prop fieldMappingsByTable t = obj props ->
  forallb (fun e => match snd e with
                    | VStr v =>
                        String.eqb v "related_process_id"
                        || match mapDatabaseFieldToSchema v t with
                           | VStr r => String.eqb r v
                           | _ => false
                           end
                    | _ => true
                    end)
          (("id", mapEntityId t) :: props ++ entries specialMappings) = true ->
  mapDatabaseFieldToSchema f t = VStr g ->
  g <> "related_process_id" ->
  mapDatabaseFieldToSchema g t = VStr g.
Proof.
  intros Htable Hcheck H Hg. rewrite forallb_forall in Hcheck.
  assert (forall k, In (k, VStr g) (("id", mapEntityId t) :: props ++ entries specialMappings)
                    -> mapDatabaseFieldToSchema g t = VStr g) as Hin.
  { intros k Hk. specialize (Hcheck _ Hk). cbn [snd] in Hcheck.
    apply orb_true_iff in Hcheck as [E|E].
    - apply String.eqb_eq in E. contradiction.
    - destruct (mapDatabaseFieldToSchema g t); try discriminate E.
      apply String.eqb_eq in E. subst. reflexivity. }
  pose proof H as H0. unfold mapDatabaseFieldToSchema in H.
  destruct (String.eqb f "id").
  { apply (Hin "id"). left. rewrite H. reflexivity. }
  rewrite Htable in H. cbn [truthy obj] in H.
  change (VObj ObjectPrototype props) with (obj props) in H.
  destruct (truthy (get_prop (obj props) f)) eqn:Et.
  - apply literal_string_own, own_get_In in H.
    apply (Hin f). right. apply in_or_app. left. exact H.
  - unfold or in H. destruct (truthy (get_prop specialMappings f)) eqn:Es.
    + unfold specialMappings, strs in H.
      apply literal_string_own, own_get_In in H.
      apply (Hin f). right. apply in_or_app. right. exact H.
    + injection H as <-. exact H0.
Qed.

(** In each of the thirteen known tables the field mapping is stable: the
    name a field is mapped to is mapped to itself, except for
    [related_process_id], which the global rule maps on to [process_id]. *)
Theorem field_mapping_stable (t f g : string) :
  mem t (keys TABLE_TO_SCHEMA_MAP) = true ->
  mapDatabaseFieldToSchema f t = VStr g ->
  g <> "related_process_id" ->
  mapDatabaseFieldToSchema g t = VStr g.
Proof.
  intros Ht. apply mem_In in Ht. simpl in Ht.
  repeat (destruct Ht as [<-|Ht];
          [eapply stable_for; [reflexivity|vm_compute; reflexivity]|]).
  destruct Ht.
Qed.

Lemma field_mapping_stable_witness :
  mapDatabaseFieldToSchema "project_title" "project" = VStr "project_title".
Proof.
  apply (field_mapping_stable "project" "title" "project_title");
    [reflexivity|reflexivity|discriminate].
Defined.

(** The exception: in table [engagement] the parent process is renamed
    twice. *)
Example field_mapping_renamed_twice :
  mapDatabaseFieldToSchema "parent_process_id" "engagement" = VStr "related_process_id"
  /\ mapDatabaseFieldToSchema "related_process_id" "engagement" = VStr "process_id".
Proof. split; reflexivity. Qed.

(** A field the global rules rename is renamed the same way in every table
    (whose name is not that of a member of [Object.prototype]): where a
    table has a rule of its own for such a field, the two agree. *)
Theorem global_rename_in_every_table (t f : string) :
  mem t objproto_names = false ->
  mem f (keys specialMappings) = true ->
  mapDatabaseFieldToSchema f t = get_prop specialMappings f.
Proof.
  intros Hp Hf. apply mem_In in Hf. simpl in Hf.
  destruct (mem t (keys fieldMappingsByTable)) eqn:Hk.
  - apply mem_In in Hk. simpl in Hk.
    repeat (destruct Hk as [<-|Hk];
            [repeat (destruct Hf as [<-|Hf]; [reflexivity|]); destruct Hf|]).
    destruct Hk.
  - unfold mapDatabaseFieldToSchema.
    unfold fieldMappingsByTable in *. rewrite (literal_miss _ _ Hk Hp). cbn [truthy].
    repeat (destruct Hf as [<-|Hf]; [reflexivity|]). destruct Hf.
Qed.

Lemma global_rename_in_every_table_witness :
  mapDatabaseFieldToSchema "location_text" "document" = VStr "location".
Proof.
  apply (global_rename_in_every_table "document" "location_text"); reflexivity.
Defined.

End FieldMapping.

(** ** More on the entity transformer *)

Section TransformExtra.
Import JS Transform.

Variable Date_now : nat -> Z.


(** No legacy key survives a run: under each of the thirteen source table
    names the returned data holds nothing truthy.  [gis_data] is one of
    them, although it is also the canonical key that [gis_data_element]
    records are migrated to: the GIS records of a document, legacy or
    canonical, are transformed and then removed. *)
Theorem legacy_keys_removed (d : document) (r : value) (fx : list string) (table : string) :
  transformToNepaFormat Date_now d = Ret (r, fx) ->
  In table [ "project"; "process_instance"; "document"; "comment"; "engagement";
             "case_event"; "gis_data_element"; "gis_data"; "user_role";
             "legal_structure"; "decision_element"; "process_model";
             "process_decision_payload" ] ->
  truthy (get_prop r table) = false.
Proof.
  intros H Hin. destruct (run_spec Date_now d r fx H) as (props & _ & _ & _ & Hl & _).
  change [ "project"; "process_instance"; "document"; "comment"; "engagement";
           "case_event"; "gis_data_element"; "gis_data"; "user_role";
           "legal_structure"; "decision_element"; "process_model";
           "process_decision_payload" ]
    with (map fst entityTypesMap) in Hin.
  apply in_map_iff in Hin as (e & <- & He). apply Hl, He.
Qed.

(** One round of the loop of [transformProperties] assigns the member [key]
    of the object under construction, whatever else it does. *)
Lemma transformProperties_step_assigns nested e ty schema props key s acc' s' :
  key <> "__proto__" ->
  transformProperties_step nested e ty schema (obj props) key s = Ret (acc', s') ->
  exists v, acc' = obj (own_set props key v).
Proof.
  intros Hk H. unfold transformProperties_step in H.
  apply bind_ret_inv in H as (expectedType & s1 & _ & H).
  apply bind_ret_inv in H as (value & s2 & _ & H).
  assert (forall x, exists v, set_prop (obj props) key x = obj (own_set props key v)) as Hset.
  { intros x. exists x. apply set_prop_plain, Hk. }
  destruct (String.eqb ty "gis_data" && String.eqb key "container_inventory"
            && isArray value).
  { destruct value as [| | | | | | |[|x xs]|];
      apply push_bind_inv, ret_inv in H as [-> _]; apply Hset. }
  destruct (is_object value); [destruct (negb (isArray value))|].
  - apply bind_ret_inv in H as (transformed & s3 & _ & H).
    apply ret_inv in H as [-> _]. apply Hset.
  - apply ret_inv in H as [-> _]. apply Hset.
  - apply ret_inv in H as [-> _]. apply Hset.
Qed.

Lemma transformProperties_loop_keys nested e ty schema (l : list string) :
  forall props s r s',
  mem "__proto__" l = false ->
  forM l (obj props) (transformProperties_step nested e ty schema) s = Ret (r, s') ->
  exists props', r = obj props'
                 /\ forall k, has_own props' k = has_own props k || mem k l.
Proof.
  induction l as [|a l IH]; intros props s r s' Hl H.
  - apply ret_inv in H as [-> _]. exists props. split; [reflexivity|].
    intros k. rewrite orb_false_r. reflexivity.
  - cbn [forM] in H. apply bind_ret_inv in H as (acc & s1 & H1 & H2).
    rewrite mem_cons in Hl. apply orb_false_iff in Hl as [Ha Hl].
    assert (a <> "__proto__") as Hne.
    { intros ->. discriminate Ha. }
    destruct (transformProperties_step_assigns _ _ _ _ _ _ _ _ _ Hne H1) as (v & ->).
    destruct (IH _ _ _ _ Hl H2) as (props' & -> & Hkeys).
    exists props'. split; [reflexivity|]. intros k. rewrite Hkeys, mem_cons.
    destruct (String.eqb k a) eqn:E.
    + apply String.eqb_eq in E. subst k. rewrite has_own_set_same.
      rewrite orb_true_r. reflexivity.
    + apply String.eqb_neq in E. rewrite (has_own_set_other _ _ _ _ E).
      reflexivity.
Qed.

(** [transformProperties] neither drops nor adds a member: given an object
    or an array (with no member named [__proto__]), it returns a new object
    literal whose own keys are exactly the keys [for ... in] enumerates on
    the input.  An array thus comes back as an object with index keys. *)
Theorem transformProperties_keeps_keys entity ty schema s r s' :
  is_object entity = true ->
  mem "__proto__" (forin_keys entity) = false ->
  transformProperties entity ty schema s = Ret (r, s') ->
  exists props, r = obj props
                /\ forall k, has_own props k = mem k (forin_keys entity).
Proof.
  intros Hobj Hp H. unfold transformProperties in H.
  rewrite transformProperties_rec_unfold in H. cbv zeta in H.
  rewrite Hobj in H. cbn [negb] in H.
  destruct (transformProperties_loop_keys _ _ _ _ _ _ _ _ _ Hp H) as (props & -> & Hk).
  exists props. split; [reflexivity|]. intros k. rewrite Hk. reflexivity.
Qed.

End TransformExtra.


Lemma legacy_keys_removed_witness :
  JS.truthy (JS.get_prop (JS.obj [("projects", VArr [])]) "gis_data") = false.
Proof.
  apply (legacy_keys_removed (fun _ => 0)
           [("gis_data", VArr [JS.obj [("gis_id", VStr "g1"); ("data_type", VStr "point");
                                       ("coordinate_system", VStr "WGS84")]])]
           (JS.obj [("projects", VArr [])])
           [ "Added missing required projects array to root level";
             "Added missing container_inventory as empty object for gis_data";
             "Transformed gis_data data to NEPA gis_data format" ]
           "gis_data").
  - vm_compute. reflexivity.
  - simpl. tauto.
Defined.

Lemma transformProperties_keeps_keys_witness :
  exists props,
    JS.obj [("0", VNum 1); ("1", VNull); ("2", JS.obj [("a", VNull)]); ("3", VArr [VNum 2])]
    = JS.obj props
    /\ forall k, JS.has_own props k
                 = JS.mem k (JS.forin_keys
                               (VArr [VNum 1; VNull; JS.obj [("a", VNull)]; VArr [VNum 2]])).
Proof.
  apply (transformProperties_keeps_keys
           (VArr [VNum 1; VNull; JS.obj [("a", VNull)]; VArr [VNum 2]]) "project"
           (JS.obj [("0", VStr "string")])
           {| Transform.fixes := []; Transform.ticks := 0 |}
           _ {| Transform.fixes := []; Transform.ticks := 0 |});
    vm_compute; reflexivity.
Defined.

(** ** The accounts of the coverage analyzers *)

Section Accounting.
Import JS Crosswalk.

Lemma foldM_exact {A S} (f : S -> A -> outcome S) (c : S -> Z) :
  (forall s a s', f s a = Ret s' -> c s' = c s + 1) ->
  forall l s s', foldM f l s = Ret s' -> c s' = c s + Z.of_nat (List.length l).
Proof.
  intros step l. induction l as [|a r IH]; simpl List.length; simpl foldM; intros s s' H.
  - injection H as <-. lia.
  - apply obind_ret in H as (s1 & H1 & H2).
    apply step in H1. apply IH in H2. lia.
Qed.

Lemma count_app (l1 l2 : list message) :
  List.length (List.filter reports_missing_property (l1 ++ l2))
  = (List.length (List.filter reports_missing_property l1)
     + List.length (List.filter reports_missing_property l2))%nat.
Proof. rewrite List.filter_app, length_app. reflexivity. Qed.

Lemma app_nil_iff {A} (l : list A) (a : A) : l ++ [a] = [] <-> False.
Proof. split; [destruct l; discriminate|tauto]. Qed.

(** The account of a result of [validateTable]: the properties counted as
    found, those reported as errors and those warned about as not found. *)
Lemma coverage_step_account table cols m req r p r' :
  coverage_step table cols m req r p = Ret r' ->
  found (table_coverage r') + Z.of_nat (List.length (errors r'))
    + Z.of_nat (List.length (List.filter reports_missing_property (warnings r')))
  = found (table_coverage r) + Z.of_nat (List.length (errors r))
    + Z.of_nat (List.length (List.filter reports_missing_property (warnings r))) + 1
  /\ total (table_coverage r') = total (table_coverage r)
  /\ ((valid r = true <-> errors r = []) -> (valid r' = true <-> errors r' = []))
  /\ (List.length (errors r) = List.length (missingRequired (table_coverage r)) ->
      List.length (errors r') = List.length (missingRequired (table_coverage r'))).
Proof.
  unfold coverage_step. intros H.
  destruct (property_found table cols m p).
  { injection H as <-. simpl. repeat split; try tauto; lia. }
  apply obind_ret in H as (b & _ & H).
  destruct b; [destruct (known_mapping table p m)|]; injection H as <-; simpl.
  - repeat split; try tauto; lia.
  - rewrite !length_app. simpl. split; [lia|]. split; [reflexivity|].
    split; [|lia]. intros _. rewrite app_nil_iff. split; [discriminate|tauto].
  - rewrite count_app. simpl. repeat split; try tauto; lia.
Qed.

Lemma unmatched_step_account table name props r c r' :
  unmatched_step table name props r c = Ret r' ->
  table_coverage r' = table_coverage r /\ errors r' = errors r /\ valid r' = valid r
  /\ List.filter reports_missing_property (warnings r')
     = List.filter reports_missing_property (warnings r).
Proof.
  unfold unmatched_step. intros H.
  destruct (shouldIgnoreField (column c)); [injection H as <-; auto|].
  apply obind_ret in H as (v1 & _ & H).
  apply obind_ret in H as (v2 & _ & H).
  match type of H with (if ?c then _ else _) = _ => destruct c end.
  - apply obind_ret in H as (s1 & _ & H).
    apply obind_ret in H as (s2 & _ & H).
    injection H as <-. simpl. rewrite List.filter_app. simpl. rewrite app_nil_r. auto.
  - injection H as <-. auto.
Qed.

(** Every non-ignored property of the target entity is accounted for once
    in a result of [validateTable]: it is counted as found, or reported as
    an error, or warned about as not found.  The result is valid exactly
    when it holds no error, and it lists one missing required property for
    each error. *)
Theorem validateTable_accounts table cols defs r :
  validateTable table cols defs = Ret r ->
  found (table_coverage r) + Z.of_nat (List.length (errors r))
    + Z.of_nat (List.length (List.filter reports_missing_property (warnings r)))
  = total (table_coverage r)
  /\ (valid r = true <-> errors r = [])
  /\ List.length (errors r) = List.length (missingRequired (table_coverage r)).
Proof.
  unfold validateTable. intros H.
  apply obind_ret in H as (key & Hkey & H).
  apply obind_ret in H as (def & Hdef & H).
  destruct (truthy def); simpl negb in H; cbv iota in H.
  2:{ apply obind_ret in H as (name & _ & H). injection H as <-. simpl.
      repeat split; try reflexivity. }
  apply obind_ret in H as (r1 & H1 & H2).
  set (relevant := filter (fun prop => negb (shouldIgnoreField prop))
                     (keys (or (get_prop def "properties") (obj [])))) in *.
  assert (found (table_coverage r1) + Z.of_nat (List.length (errors r1))
            + Z.of_nat (List.length (List.filter reports_missing_property (warnings r1)))
          = Z.of_nat (List.length relevant)) as Hacct.
  { apply foldM_exact
      with (c := fun s => found (table_coverage s) + Z.of_nat (List.length (errors s))
                          + Z.of_nat (List.length
                                        (List.filter reports_missing_property (warnings s))))
      in H1; [simpl in H1; lia|].
    intros s a s' Hs. apply coverage_step_account in Hs as [Hs _]. exact Hs. }
  assert (total (table_coverage r1) = Z.of_nat (List.length relevant)
          /\ (valid r1 = true <-> errors r1 = [])
          /\ List.length (errors r1) = List.length (missingRequired (table_coverage r1)))
    as (Ht & Hv & Hm).
  { apply foldM_invariant
      with (I := fun s => total (table_coverage s) = Z.of_nat (List.length relevant)
                          /\ (valid s = true <-> errors s = [])
                          /\ List.length (errors s)
                             = List.length (missingRequired (table_coverage s)))
      in H1; [exact H1| |simpl; tauto].
    intros s a s' (I1 & I2 & I3) Hs.
    apply coverage_step_account in Hs as (_ & T & V & M).
    split; [congruence|]. split; [exact (V I2)|exact (M I3)]. }
  apply foldM_invariant
    with (I := fun s => table_coverage s = table_coverage r1 /\ errors s = errors r1
                        /\ valid s = valid r1
                        /\ List.filter reports_missing_property (warnings s)
                           = List.filter reports_missing_property (warnings r1))
    in H2 as (E1 & E2 & E3 & E4); [| |auto].
  2:{ intros s a s' (I1 & I2 & I3 & I4) Hs.
      apply unmatched_step_account in Hs as (A1 & A2 & A3 & A4).
      repeat split; congruence. }
  rewrite E1, E2, E3, E4. split; [lia|]. split; assumption.
Qed.

Lemma validateTable_accounts_witness :
  exists r, validateTable "comment" Fixtures.comment_columns Fixtures.nepa_definitions = Ret r
            /\ found (table_coverage r) + Z.of_nat (List.length (errors r))
                 + Z.of_nat (List.length (List.filter reports_missing_property (warnings r)))
               = total (table_coverage r).
Proof.
  eexists. split; [vm_compute; reflexivity|].
  refine (proj1 (validateTable_accounts "comment" Fixtures.comment_columns
                   Fixtures.nepa_definitions _ _)).
  vm_compute. reflexivity.
Defined.

Lemma column_step_valid table name props req st c st' :
  Against.column_step table name props req st c = Ret st' ->
  (Against.ls_valid st = true <-> Against.ls_errors st = []) ->
  (Against.ls_valid st' = true <-> Against.ls_errors st' = []).
Proof.
  unfold Against.column_step. intros H Hv.
  destruct (shouldIgnoreField (column c)); [injection H as <-; exact Hv|].
  apply obind_ret in H as (prop & _ & H).
  destruct (truthy prop); [injection H as <-; exact Hv|].
  apply obind_ret in H as (required & _ & H).
  apply obind_ret in H as (mapped & _ & H).
  destruct required.
  - injection H as <-. simpl. rewrite app_nil_iff. split; [discriminate|tauto].
  - apply obind_ret in H as (nm & _ & H). injection H as <-. exact Hv.
Qed.

(** A result of [validateTableAgainstSchema] is valid exactly when it holds
    no error; when it lists missing required fields it is invalid; and its
    database coverage never counts a field as found, whatever database
    schema is given. *)
Theorem validateTableAgainstSchema_report table cols defs dbdefs r :
  Against.validateTableAgainstSchema table cols defs dbdefs = Ret r ->
  (Against.valid r = true <-> Against.errors r = [])
  /\ (Against.missingRequiredFields r <> None -> Against.valid r = false)
  /\ Against.found (Against.databaseCoverage r) = 0.
Proof.
  unfold Against.validateTableAgainstSchema. intros H.
  apply obind_ret in H as (key & _ & H).
  apply obind_ret in H as (def & _ & H).
  destruct (truthy def); simpl negb in H; cbv iota in H.
  2:{ apply obind_ret in H as (name & _ & H). injection H as <-. simpl.
      repeat split; try reflexivity. intros E. contradiction. }
  destruct (Against.database_definition table dbdefs) as [[d1 d2] d3].
  apply obind_ret in H as (st & Hloop & H).
  apply foldM_invariant
    with (I := fun s => Against.ls_valid s = true <-> Against.ls_errors s = [])
    in Hloop as Hv; [|intros s a s' Hs Hstep; exact (column_step_valid _ _ _ _ _ _ _ Hstep Hs)
                    |simpl; tauto].
  apply obind_ret in H as (missing & _ & H).
  apply obind_ret in H as (st1 & H1 & H).
  apply obind_ret in H as (st2 & H2 & H).
  assert ((Against.ls_valid st1 = true <-> Against.ls_errors st1 = [])
          /\ (missing <> [] -> Against.ls_valid st1 = false)) as [Hv1 Hm1].
  { destruct missing as [|m ms].
    - injection H1 as <-. split; [exact Hv|]. intros E. contradiction.
    - apply obind_ret in H1 as (joined & _ & H1). injection H1 as <-. simpl.
      rewrite app_nil_iff. split; [split; [discriminate|tauto]|reflexivity]. }
  assert ((Against.ls_valid st2 = true <-> Against.ls_errors st2 = [])
          /\ (Against.ls_valid st1 = false -> Against.ls_valid st2 = false)) as [Hv2 Hm2].
  { destruct (truthy d1); [|injection H2 as <-; tauto].
    apply obind_ret in H2 as (missingDb & _ & H2).
    destruct missingDb as [|m ms].
    - injection H2 as <-. tauto.
    - apply obind_ret in H2 as (joined & _ & H2). injection H2 as <-. simpl.
      rewrite app_nil_iff. split; [split; [discriminate|tauto]|reflexivity]. }
  injection H as <-. simpl. split; [exact Hv2|]. split; [|reflexivity].
  intros Hsome. apply Hm2, Hm1. destruct missing; [contradiction|discriminate].
Qed.

Lemma validateTableAgainstSchema_report_witness :
  exists r, Against.validateTableAgainstSchema "comment" Fixtures.comment_columns
              Fixtures.nepa_definitions VNull = Ret r
            /\ (Against.valid r = true <-> Against.errors r = []).
Proof.
  eexists. split; [vm_compute; reflexivity|].
  refine (proj1 (validateTableAgainstSchema_report "comment" Fixtures.comment_columns
                   Fixtures.nepa_definitions VNull _ _)).
  vm_compute. reflexivity.
Defined.

End Accounting.

(** ** The crosswalk read from the CSV rows *)

Section ParseCrosswalk.
Import JS Crosswalk Grouping.

Lemma extend_snoc x e es : extend (VArr (elems x ++ [e])) es = extend x (e :: es).
Proof.
  unfold extend. destruct es as [|e' es]; simpl; [reflexivity|].
  rewrite <- app_assoc. reflexivity.
Qed.

Lemma arrays_only_set props k xs :
  arrays_only props -> arrays_only (own_set props k (VArr xs)).
Proof.
  intros H k' v Hget. destruct (String.eqb k' k) eqn:E.
  - apply String.eqb_eq in E. subst k'. rewrite own_get_set_same in Hget.
    injection Hget as <-. eauto.
  - apply String.eqb_neq in E. rewrite own_get_set_other in Hget by exact E. eauto.
Qed.

(** A member of an object literal whose own members are arrays, read under a
    name that is not inherited. *)
Lemma arrays_only_get props t :
  arrays_only props -> mem t objproto_names = false ->
  (own_get props t = None /\ get_prop (obj props) t = VUndef)
  \/ (exists xs, own_get props t = Some (VArr xs) /\ get_prop (obj props) t = VArr xs).
Proof.
  intros Ha Hp. destruct (own_get props t) as [v|] eqn:E.
  - destruct (Ha _ _ E) as (xs & ->). right. exists xs. split; [reflexivity|].
    apply get_prop_own, E.
  - left. split; [reflexivity|]. apply get_prop_obj_miss; assumption.
Qed.

(** Pushing the entry [e] to the table [k] of a crosswalk. *)
Lemma push_to_table props k e :
  arrays_only props -> mem k objproto_names = false ->
  let cw := if negb (truthy (get_prop (obj props) k))
            then set_prop (obj props) k (VArr []) else obj props in
  exists props',
    (let* grown := array_push (get_prop cw k) e in Ret (set_prop cw k grown))
    = Ret (obj props')
    /\ arrays_only props'
    /\ forall t, mem t objproto_names = false ->
         get_prop (obj props') t
         = if String.eqb t k then VArr (elems (get_prop (obj props) k) ++ [e])
           else get_prop (obj props) t.
Proof.
  intros Ha Hp. pose proof (not_proto_name _ Hp) as Hne.
  destruct (arrays_only_get props k Ha Hp) as [[Hn Hg]|(xs & Hs & Hg)];
    rewrite Hg; cbn [truthy negb]; cbv zeta; cbv iota.
  - unfold obj. rewrite set_prop_plain by exact Hne.
    rewrite (get_prop_own _ _ _ _ (own_get_set_same props k (VArr []))).
    cbn [array_push obind app elems]. rewrite set_prop_plain by exact Hne.
    exists (own_set (own_set props k (VArr [])) k (VArr [e])).
    split; [reflexivity|]. split; [apply arrays_only_set, arrays_only_set, Ha|].
    intros t Ht. destruct (String.eqb t k) eqn:E.
    + apply String.eqb_eq in E. subst t. apply get_prop_own, own_get_set_same.
    + apply String.eqb_neq in E.
      apply get_prop_obj_ext. rewrite !own_get_set_other by exact E. reflexivity.
  - rewrite Hg. cbn [array_push obind elems]. unfold obj.
    rewrite set_prop_plain by exact Hne.
    exists (own_set props k (VArr (xs ++ [e]))).
    split; [reflexivity|]. split; [apply arrays_only_set, Ha|].
    intros t Ht. destruct (String.eqb t k) eqn:E.
    + apply String.eqb_eq in E. subst t. apply get_prop_own, own_get_set_same.
    + apply String.eqb_neq in E.
      apply get_prop_obj_ext. rewrite own_get_set_other by exact E. reflexivity.
Qed.

Lemma on_data_fold (rows : list value) : forall props,
  arrays_only props ->
  Forall (fun row => exists t, get_prop row "table" = VStr t
                               /\ mem t objproto_names = false) rows ->
  exists props',
    foldM on_data rows (obj props) = Ret (obj props')
    /\ arrays_only props'
    /\ forall t, mem t objproto_names = false ->
         get_prop (obj props') t
         = extend (get_prop (obj props) t)
             (map crosswalk_entry
                (List.filter (fun row => strict_eq (get_prop row "table") (VStr t)) rows)).
Proof.
  induction rows as [|row rows IH]; intros props Ha Hrows.
  - exists props. split; [reflexivity|]. split; [exact Ha|]. reflexivity.
  - apply Forall_cons_iff in Hrows as [(t0 & Ht0 & Hp0) Hrows].
    cbn [foldM]. unfold on_data at 1.
    assert (get_checked row "table" = Ret (VStr t0)) as ->.
    { unfold get_checked. destruct row; try (rewrite Ht0; reflexivity);
        vm_compute in Ht0; discriminate Ht0. }
    cbn [obind ToString].
    destruct (push_to_table props t0 (crosswalk_entry row) Ha Hp0)
      as (props1 & -> & Ha1 & Hget1).
    cbn [obind].
    destruct (IH props1 Ha1 Hrows) as (props' & -> & Ha' & Hget').
    exists props'. split; [reflexivity|]. split; [exact Ha'|].
    intros t Ht. rewrite (Hget' t Ht), (Hget1 t Ht). cbn [List.filter]. rewrite Ht0.
    cbn [strict_eq]. rewrite (String.eqb_sym t0 t).
    destruct (String.eqb t t0) eqn:E; [|reflexivity].
    apply String.eqb_eq in E. subst t0. cbn [map]. apply extend_snoc.
Qed.

(** [parseCrosswalkCsv] groups the rows by table and keeps their order: when
    every row names a table (that is not called like a member of
    [Object.prototype]), the crosswalk holds under each table name the
    entries of exactly the rows of that table, in the order of the file, and
    nothing under a name no row has. *)
Theorem parseCrosswalkCsv_groups (rows : list value) :
  Forall (fun row => exists t, get_prop row "table" = VStr t
                               /\ mem t objproto_names = false) rows ->
  exists crosswalk,
    parseCrosswalkCsv rows = Ret crosswalk
    /\ forall t, mem t objproto_names = false ->
         get_prop crosswalk t
         = match List.filter (fun row => strict_eq (get_prop row "table") (VStr t)) rows with
           | [] => VUndef
           | g => VArr (map crosswalk_entry g)
           end.
Proof.
  intros Hrows.
  destruct (on_data_fold rows [] (fun k v H => ltac:(discriminate H)) Hrows)
    as (props & Hrun & _ & Hget).
  exists (obj props). split; [exact Hrun|]. intros t Ht. rewrite (Hget t Ht).
  unfold extend. rewrite (get_prop_obj_miss [] t eq_refl Ht).
  destruct (List.filter _ rows); reflexivity.
Qed.

(** A row whose table is called [constructor] stops the parse: the lookup
    finds the inherited function, which has no [push]. *)
Example parseCrosswalkCsv_inherited_table :
  parseCrosswalkCsv [obj [("table", VStr "constructor"); ("column", VStr "id")]]
  = Throw TypeError.
Proof. reflexivity. Qed.

End ParseCrosswalk.

Lemma parseCrosswalkCsv_groups_witness :
  exists crosswalk,
    Crosswalk.parseCrosswalkCsv
      [ JS.obj [("table", VStr "project"); ("column", VStr "id")];
        JS.obj [("table", VStr "document"); ("column", VStr "id")];
        JS.obj [("table", VStr "project"); ("column", VStr "title")] ] = Ret crosswalk
    /\ JS.get_prop crosswalk "project"
       = VArr [ Crosswalk.crosswalk_entry (JS.obj [("table", VStr "project"); ("column", VStr "id")]);
                Crosswalk.crosswalk_entry
                  (JS.obj [("table", VStr "project"); ("column", VStr "title")]) ].
Proof.
  destruct (parseCrosswalkCsv_groups
              [ JS.obj [("table", VStr "project"); ("column", VStr "id")];
                JS.obj [("table", VStr "document"); ("column", VStr "id")];
                JS.obj [("table", VStr "project"); ("column", VStr "title")] ])
    as (cw & Hrun & Hget).
  - repeat constructor; eexists; split; reflexivity.
  - exists cw. split; [exact Hrun|]. apply (Hget "project"). reflexivity.
Defined.

(** ** The analyzers of an OpenAPI document *)

Section OpenApiReports.
Import JS OpenApi Reports.

Lemma missing_column_app (l1 l2 : list message) :
  List.length (List.filter reports_missing_column (l1 ++ l2))
  = (List.length (List.filter reports_missing_column l1)
     + List.length (List.filter reports_missing_column l2))%nat.
Proof. rewrite List.filter_app, length_app. reflexivity. Qed.

Lemma column_step_account params r c r' :
  column_step params r c = Ret r' ->
  found (coverage r')
    + Z.of_nat (List.length (List.filter reports_missing_column (warnings r')))
  = found (coverage r)
    + Z.of_nat (List.length (List.filter reports_missing_column (warnings r))) + 1
  /\ found (coverage r) <= found (coverage r')
  /\ total (coverage r') = total (coverage r)
  /\ valid r' = valid r /\ errors r' = errors r.
Proof.
  unfold column_step. intros H.
  apply obind_ret in H as (columnName & _ & H).
  apply obind_ret in H as (present & _ & H).
  destruct present; [injection H as <-; simpl; repeat split; lia|].
  destruct columnName; try discriminate H.
  destruct (MappingUtils.shouldIgnoreField s); [injection H as <-; simpl; repeat split; lia|].
  match type of H with (if ?c then _ else _) = _ => destruct c end;
    injection H as <-; simpl; [|repeat split; lia].
  rewrite missing_column_app. simpl. repeat split; lia.
Qed.

Lemma parameter_step_account cols r p r' :
  parameter_step cols r p = Ret r' ->
  coverage r' = coverage r /\ valid r' = valid r /\ errors r' = errors r
  /\ List.filter reports_missing_column (warnings r')
     = List.filter reports_missing_column (warnings r).
Proof.
  unfold parameter_step. intros H.
  apply obind_ret in H as (hasDbColumn & _ & H).
  destruct hasDbColumn; [injection H as <-; auto|].
  destruct p; try discriminate H.
  match type of H with (if ?c then _ else _) = _ => destruct c end;
    injection H as <-; auto.
  simpl. rewrite List.filter_app. simpl. rewrite app_nil_r. auto.
Qed.

(** Whatever the table, the parameters and the crosswalk are, a result of
    [validateTableAgainstCrosswalk] is valid and holds no error: a database
    column without a parameter is a warning at most.  Every column of the
    table is counted as found or warned about as missing, never both. *)
Theorem validateTableAgainstCrosswalk_accounts tableName tableInfo crosswalk r :
  validateTableAgainstCrosswalk tableName tableInfo crosswalk = Ret r ->
  valid r = true /\ errors r = []
  /\ found (coverage r)
       + Z.of_nat (List.length (List.filter reports_missing_column (warnings r)))
     = total (coverage r)
  /\ 0 <= found (coverage r).
Proof.
  unfold validateTableAgainstCrosswalk. intros H.
  apply obind_ret in H as (dbColumns & _ & H).
  destruct (truthy dbColumns); simpl negb in H; cbv iota in H.
  2:{ injection H as <-. simpl. repeat split; lia. }
  apply obind_ret in H as (parameters & _ & H).
  apply obind_ret in H as (columns & _ & H).
  apply obind_ret in H as (r1 & H1 & H2).
  pose proof H1 as Hacct.
  apply foldM_exact
    with (c := fun s => found (coverage s)
                        + Z.of_nat (List.length
                                      (List.filter reports_missing_column (warnings s))))
    in Hacct; [|intros s a s' Hs; apply column_step_account in Hs as [Hs _]; exact Hs].
  apply foldM_invariant
    with (I := fun s => total (coverage s) = Z.of_nat (List.length columns)
                        /\ valid s = true /\ errors s = [] /\ 0 <= found (coverage s))
    in H1 as (T1 & V1 & E1 & F1); [| |simpl; repeat split; lia].
  2:{ intros s a s' (I1 & I2 & I3 & I4) Hs.
      apply column_step_account in Hs as (_ & A1 & A2 & A3 & A4).
      repeat split; try congruence; lia. }
  apply obind_ret in H2 as (params & _ & H2).
  apply foldM_invariant
    with (I := fun s => coverage s = coverage r1 /\ valid s = valid r1
                        /\ errors s = errors r1
                        /\ List.filter reports_missing_column (warnings s)
                           = List.filter reports_missing_column (warnings r1))
    in H2 as (C2 & V2 & E2 & W2); [| |auto].
  2:{ intros s a s' (I1 & I2 & I3 & I4) Hs.
      apply parameter_step_account in Hs as (A1 & A2 & A3 & A4).
      repeat split; congruence. }
  rewrite C2, V2, E2, W2. simpl in Hacct. repeat split; try assumption; lia.
Qed.

Lemma map_fst_entries v : map fst (entries v) = keys v.
Proof.
  assert (forall (A : Type) (ks : list string) (xs : list A),
             List.length ks = List.length xs -> map fst (combine ks xs) = ks) as Hc.
  { intros A ks. induction ks as [|k ks IH]; intros [|x xs] E; try discriminate E.
    - reflexivity.
    - simpl. f_equal. apply IH. simpl in E. lia. }
  destruct v; try reflexivity; simpl; apply Hc; unfold index_keys;
    rewrite !length_map, length_seq; try reflexivity.
  induction s as [|c s IH]; simpl; congruence.
Qed.

Lemma error_nil_iff (l : list message) (m : message) : l ++ [m] = [] <-> False.
Proof. split; [destruct l; discriminate|tauto]. Qed.

(** One round of the coverage loop of [validateDefinitionAgainstSchema]
    reports the property exactly when it is required and has no truthy
    member of its name. *)
Lemma definition_step_account name api req r p r' :
  OpenApi.coverage_step name api req r p = Ret r' ->
  errors r'
  = errors r ++ map MsgRequiredMissing
                  (List.filter (fun p => negb (truthy (get_prop api p)) && listed req p) [p])
  /\ ((valid r = true <-> errors r = []) -> (valid r' = true <-> errors r' = []))
  /\ total (coverage r') = total (coverage r) + 1
  /\ found (coverage r) <= found (coverage r')
  /\ found (coverage r') + Z.of_nat (List.length (errors r'))
     <= found (coverage r) + Z.of_nat (List.length (errors r)) + 1
  /\ warnings r' = warnings r.
Proof.
  unfold OpenApi.coverage_step, listed. cbn [List.filter]. intros H.
  apply obind_ret in H as (fieldFound & Hf & H).
  destruct (truthy (get_prop api p)) eqn:Ed.
  - injection Hf as <-. injection H as <-. simpl. rewrite app_nil_r.
    repeat split; try tauto; lia.
  - apply obind_ret in Hf as (required & Hr & Hf). rewrite Hr in H |- *.
    cbn [obind negb andb] in H |- *.
    destruct required; cbn [negb andb] in Hf.
    + injection Hf as <-. injection H as <-. simpl.
      rewrite length_app. simpl. split; [reflexivity|]. split; [|repeat split; lia].
      intros _. rewrite error_nil_iff. split; [discriminate|tauto].
    + destruct fieldFound; injection H as <-; simpl; rewrite app_nil_r;
        repeat split; try tauto; lia.
Qed.

Lemma definition_unmatched_account name props r p r' :
  OpenApi.unmatched_step name props r p = Ret r' ->
  coverage r' = coverage r /\ valid r' = valid r /\ errors r' = errors r.
Proof.
  unfold OpenApi.unmatched_step. intros H.
  match type of H with (if ?c then _ else _) = _ => destruct c end;
    [|injection H as <-; auto].
  apply obind_ret in H as (target & _ & H).
  destruct (truthy target); injection H as <-; auto.
Qed.

Lemma coverage_loop_account name api req ps :
  forall r r',
    foldM (OpenApi.coverage_step name api req) ps r = Ret r' ->
    errors r'
    = errors r ++ map MsgRequiredMissing
                    (List.filter (fun p => negb (truthy (get_prop api p)) && listed req p) ps)
    /\ ((valid r = true <-> errors r = []) -> (valid r' = true <-> errors r' = []))
    /\ total (coverage r') = total (coverage r) + Z.of_nat (List.length ps)
    /\ found (coverage r) <= found (coverage r')
    /\ found (coverage r') + Z.of_nat (List.length (errors r'))
       <= found (coverage r) + Z.of_nat (List.length (errors r)) + Z.of_nat (List.length ps).
Proof.
  induction ps as [|p ps IH]; intros r r' H.
  - injection H as <-. simpl. rewrite app_nil_r. repeat split; try tauto; lia.
  - cbn [foldM] in H. apply obind_ret in H as (r1 & H1 & H2).
    apply definition_step_account in H1 as (E1 & V1 & T1 & F1 & A1 & _).
    apply IH in H2 as (E2 & V2 & T2 & F2 & A2).
    split.
    { rewrite E2, E1. change (p :: ps) with ([p] ++ ps).
      rewrite List.filter_app, map_app, app_assoc. reflexivity. }
    split; [tauto|]. simpl List.length. repeat split; lia.
Qed.

(** A result of [validateDefinitionAgainstSchema] is valid exactly when it
    holds no error, and counts no more properties as found than there are.
    Where the definition is bound to an entity of the schema, its errors are
    the required properties of the entity that the API definition has no
    truthy member for under the same name, in the order of the schema:
    a required property is never matched through the field mapping. *)
Theorem validateDefinitionAgainstSchema_report definitionName definition nepaDefinitions r :
  validateDefinitionAgainstSchema definitionName definition nepaDefinitions = Ret r ->
  (valid r = true <-> errors r = [])
  /\ 0 <= found (coverage r) <= total (coverage r)
  /\ forall schema,
       get_prop (get_prop MappingUtils.OPENAPI_TO_SCHEMA_MAP definitionName) "schema"
       = VStr schema ->
       truthy (get_prop nepaDefinitions schema) = true ->
       let nepaDefinition := get_prop nepaDefinitions schema in
       let schemaProperties := or (get_prop nepaDefinition "properties") (obj []) in
       let requiredFields := or (get_prop nepaDefinition "required") (VArr []) in
       let apiProperties := or (get_prop definition "properties") (obj []) in
       errors r
       = map MsgRequiredMissing (missing_required schemaProperties requiredFields apiProperties)
       /\ total (coverage r) = Z.of_nat (List.length (keys schemaProperties))
       /\ found (coverage r) + Z.of_nat (List.length (errors r)) <= total (coverage r).
Proof.
  unfold validateDefinitionAgainstSchema. intros H.
  destruct (truthy (get_prop MappingUtils.OPENAPI_TO_SCHEMA_MAP definitionName)) eqn:Em;
    simpl negb in H; cbv iota in H.
  2:{ injection H as <-. simpl. split; [tauto|]. split; [lia|].
      intros schema Hs. exfalso.
      destruct (get_prop MappingUtils.OPENAPI_TO_SCHEMA_MAP definitionName) as
        [| |b|n|s| | | |]; try discriminate Em; vm_compute in Hs; discriminate Hs. }
  apply obind_ret in H as (schema & Hschema & H).
  apply obind_ret in H as (nepaDefinition & Hdef & H).
  destruct (truthy nepaDefinition) eqn:Ed; simpl negb in H; cbv iota in H.
  2:{ injection H as <-. simpl. split; [split; discriminate|]. split; [lia|].
      intros schema' Hs Ht. exfalso. rewrite Hs in Hschema. injection Hschema as <-.
      destruct nepaDefinitions; try discriminate Hdef;
        injection Hdef as <-; rewrite Ht in Ed; discriminate Ed. }
  apply obind_ret in H as (properties & Hprops & H).
  apply obind_ret in H as (r1 & H1 & H2).
  rewrite map_fst_entries in H1.
  apply coverage_loop_account in H1 as (E1 & V1 & T1 & F1 & A1).
  apply foldM_invariant
    with (I := fun s => coverage s = coverage r1 /\ valid s = valid r1
                        /\ errors s = errors r1)
    in H2 as (C2 & V2 & E2); [| |auto].
  2:{ intros s a s' (I1 & I2 & I3) Hs.
      apply definition_unmatched_account in Hs as (B1 & B2 & B3).
      repeat split; congruence. }
  rewrite C2, V2, E2. simpl in E1, V1, T1, F1, A1.
  split; [apply V1; tauto|]. split; [lia|].
  intros schema' Hs Ht. rewrite Hs in Hschema. injection Hschema as <-.
  assert (nepaDefinition = get_prop nepaDefinitions schema') as ->.
  { destruct nepaDefinitions; try discriminate Hdef; injection Hdef as <-; reflexivity. }
  assert (properties = get_prop definition "properties") as ->.
  { destruct definition; try discriminate Hprops; injection Hprops as <-; reflexivity. }
  cbv zeta. split; [exact E1|]. split; lia.
Qed.

Lemma validateDefinitionAgainstSchema_report_witness :
  exists r,
    validateDefinitionAgainstSchema "comment" OpenApiFixtures.comment_definition
      Fixtures.nepa_definitions = Ret r
    /\ (valid r = true <-> errors r = [])
    /\ errors r
       = map MsgRequiredMissing
           ["commenter_name"; "content"; "date_submitted"; "related_document_id"].
Proof.
  eexists. split; [vm_compute; reflexivity|].
  split.
  - refine (proj1 (validateDefinitionAgainstSchema_report
                     "comment" OpenApiFixtures.comment_definition
                     Fixtures.nepa_definitions _ _)).
    vm_compute. reflexivity.
  - refine (proj1 (proj2 (proj2 (validateDefinitionAgainstSchema_report
                                   "comment" OpenApiFixtures.comment_definition
                                   Fixtures.nepa_definitions _ _))
                     "public_comment" _ _)).
    + vm_compute. reflexivity.
    + vm_compute. reflexivity.
    + vm_compute. reflexivity.
Defined.

Lemma validateTableAgainstCrosswalk_accounts_witness :
  exists r,
    validateTableAgainstCrosswalk "comment" OpenApiFixtures.comment_table
      OpenApiFixtures.crosswalk = Ret r
    /\ valid r = true
    /\ warnings r = [MsgColumnNotInApi "content_text"; MsgParameterNotInDatabase "reviewer"].
Proof.
  eexists. split; [vm_compute; reflexivity|].
  split; [|vm_compute; reflexivity].
  refine (proj1 (validateTableAgainstCrosswalk_accounts "comment"
                   OpenApiFixtures.comment_table OpenApiFixtures.crosswalk _ _)).
  vm_compute. reflexivity.
Defined.

End OpenApiReports.

(** ** The structure check of an OpenAPI document, and the two schema bindings *)

Section OpenApiStructure.
Import JS OpenApi.

Lemma value_eq_undef_or_null (v : value) :
  (v = VUndef \/ v = VNull) \/ (v <> VUndef /\ v <> VNull).
Proof. destruct v; try (right; split; discriminate); left; auto. Qed.

Lemma get_checked_object spec f :
  spec <> VUndef -> spec <> VNull -> get_checked spec f = Ret (get_prop spec f).
Proof. destruct spec; intros H1 H2; try reflexivity; contradiction. Qed.

Lemma required_loop spec :
  spec <> VUndef -> spec <> VNull ->
  forall l r, exists r',
    foldM (required_step spec) l r = Ret r'
    /\ structure_errors r'
       = structure_errors r
           ++ map MsgMissingField
                (List.filter (fun f => negb (truthy (get_prop spec f))) l)
    /\ structure_valid r'
       = structure_valid r && forallb (fun f => truthy (get_prop spec f)) l
    /\ structure_warnings r' = structure_warnings r.
Proof.
  intros H1 H2 l. induction l as [|f l IH]; intros r.
  - exists r. simpl. rewrite app_nil_r, andb_true_r. auto.
  - cbn [foldM]. unfold required_step at 1. rewrite get_checked_object by assumption.
    cbn [obind List.filter forallb].
    destruct (truthy (get_prop spec f)); cbn [negb obind].
    + destruct (IH r) as (r' & -> & E & V & W). exists r'. auto.
    + match goal with |- context [foldM _ l ?r0] => destruct (IH r0) as (r' & -> & E & V & W) end.
      exists r'. simpl in E, V, W. split; [reflexivity|].
      rewrite E, V, W. cbn [map]. rewrite <- app_assoc, andb_false_r. auto.
Qed.

Lemma deprecated_loop spec :
  spec <> VUndef -> spec <> VNull ->
  forall l r, exists r',
    foldM (deprecated_step spec) l r = Ret r'
    /\ structure_errors r' = structure_errors r
    /\ structure_valid r' = structure_valid r.
Proof.
  intros H1 H2 l. induction l as [|f l IH]; intros r.
  - exists r. auto.
  - cbn [foldM]. unfold deprecated_step at 1. rewrite get_checked_object by assumption.
    cbn [obind]. destruct (truthy (get_prop spec f)); cbn [obind].
    + match goal with |- context [foldM _ l ?r0] => destruct (IH r0) as (r' & -> & E & V) end.
      exists r'. auto.
    + destruct (IH r) as (r' & -> & E & V). exists r'. auto.
Qed.

Lemma none_missing (spec : value) (l : list string) :
  forallb (fun f => truthy (get_prop spec f)) l = true
  <-> map MsgMissingField (List.filter (fun f => negb (truthy (get_prop spec f))) l) = [].
Proof.
  induction l as [|f l IH]; cbn [forallb List.filter]; [tauto|].
  destruct (truthy (get_prop spec f)); cbn [negb andb map]; [exact IH|].
  split; discriminate.
Qed.

(** The structure check of a document that is an object (or any value other
    than [undefined] and [null]).  Where it returns, it reports the missing
    ones of [openapi], [info] and [paths], in this order, and the result is
    valid exactly when none is missing.  It throws exactly when the document
    is [undefined] or [null], or when [openapi] holds a truthy value that is
    not a string, a version written as a number for one: the version check
    calls [startsWith] on it. *)
Theorem validateOpenApiStructure_report (openApiSpec : value) :
  (forall r, validateOpenApiStructure openApiSpec = Ret r ->
     structure_errors r
     = map MsgMissingField
         (List.filter (fun f => negb (truthy (get_prop openApiSpec f))) requiredFields)
     /\ (structure_valid r = true <-> structure_errors r = [])
     /\ (structure_valid r = true
         <-> forall f, In f requiredFields -> truthy (get_prop openApiSpec f) = true))
  /\ (forall e, validateOpenApiStructure openApiSpec = Throw e
        <-> e = TypeError
            /\ (openApiSpec = VUndef \/ openApiSpec = VNull
                \/ (truthy (get_prop openApiSpec "openapi") = true
                    /\ forall s, get_prop openApiSpec "openapi" <> VStr s))).
Proof.
  destruct (value_eq_undef_or_null openApiSpec) as [Hn|[Hu Hnl]].
  { assert (validateOpenApiStructure openApiSpec = Throw TypeError) as ->
      by (destruct Hn as [-> | ->]; reflexivity).
    split; [intros r H; discriminate H|].
    intros e. split.
    - intros H. injection H as <-. split; [reflexivity|]. tauto.
    - intros [-> _]. reflexivity. }
  unfold validateOpenApiStructure.
  match goal with |- context [foldM (required_step _) _ ?r0] =>
    destruct (required_loop openApiSpec Hu Hnl requiredFields r0) as (r1 & -> & E1 & V1 & _)
  end.
  cbn [obind]. rewrite get_checked_object by assumption. cbn [obind].
  simpl structure_errors in E1. simpl structure_valid in V1.
  assert (forall r2 r,
             structure_errors r2 = structure_errors r1 ->
             structure_valid r2 = structure_valid r1 ->
             foldM (deprecated_step openApiSpec) deprecatedFields r2 = Ret r ->
             structure_errors r
             = map MsgMissingField
                 (List.filter (fun f => negb (truthy (get_prop openApiSpec f))) requiredFields)
             /\ (structure_valid r = true <-> structure_errors r = [])
             /\ (structure_valid r = true
                 <-> forall f, In f requiredFields -> truthy (get_prop openApiSpec f) = true))
    as Hret.
  { intros r2 r E2 V2 H.
    destruct (deprecated_loop openApiSpec Hu Hnl deprecatedFields r2) as (r' & H' & E & V).
    rewrite H' in H. injection H as <-.
    rewrite E, V, E2, V2, E1, V1. split; [reflexivity|].
    split; [apply none_missing|apply forallb_forall]. }
  assert (forall r2 e, foldM (deprecated_step openApiSpec) deprecatedFields r2 = Throw e
                       -> False) as Hthrow.
  { intros r2 e H.
    destruct (deprecated_loop openApiSpec Hu Hnl deprecatedFields r2) as (r' & H' & _).
    rewrite H' in H. discriminate H. }
  destruct (truthy (get_prop openApiSpec "openapi")) eqn:Ev.
  2:{ cbn [obind]. split; [intros r H; exact (Hret r1 r eq_refl eq_refl H)|].
      intros e. split; [intros H; destruct (Hthrow _ _ H)|].
      intros (_ & [->|[->|[Ht _]]]); [contradiction..|discriminate Ht]. }
  destruct (get_prop openApiSpec "openapi") as [| |b|n|s|f|b|xs|p props] eqn:Eversion;
    try discriminate Ev;
    try (cbn [call_startsWith obind]; split; [intros r H; discriminate H|];
         intros e; split;
         [intros H; injection H as <-; split; [reflexivity|];
          right; right; split; [reflexivity|intros s; discriminate]
         |intros [-> _]; reflexivity]).
  cbn [call_startsWith obind].
  split.
  - intros r H. destruct (startsWith s "3."); cbn [negb ToString obind] in H;
      refine (Hret _ r _ _ H); reflexivity.
  - intros e. split.
    + intros H. destruct (startsWith s "3."); cbn [negb ToString obind] in H;
        destruct (Hthrow _ _ H).
    + intros (_ & [->|[->|[_ Hs]]]); [contradiction..|]. destruct (Hs s eq_refl).
Qed.

(** A document whose version is written as the number 3. *)
Example numeric_version_throws :
  validateOpenApiStructure
    (obj [("openapi", VNum 3); ("info", obj []); ("paths", obj [])])
  = Throw TypeError.
Proof. reflexivity. Qed.

(** The table names bound by [TABLE_TO_SCHEMA_MAP] and by
    [OPENAPI_TO_SCHEMA_MAP] are the same, and for each of them but
    [gis_data_element] the two bindings name the same entity of the schema
    and the same identifier field. *)
Theorem schema_bindings_agree (t : string) :
  mem t objproto_names = false ->
  truthy (get_prop TABLE_TO_SCHEMA_MAP t) = truthy (get_prop OPENAPI_TO_SCHEMA_MAP t)
  /\ (truthy (get_prop OPENAPI_TO_SCHEMA_MAP t) = true ->
      t <> "gis_data_element" ->
      get_prop (getSchemaMapping t) "schemaName"
      = get_prop (get_prop OPENAPI_TO_SCHEMA_MAP t) "schema"
      /\ mapEntityId t = get_prop (get_prop OPENAPI_TO_SCHEMA_MAP t) "idField").
Proof.
  intros Hp.
  destruct (mem t (keys OPENAPI_TO_SCHEMA_MAP)) eqn:Hk.
  - apply mem_In in Hk. simpl in Hk.
    repeat (destruct Hk as [<-|Hk];
            [split; [reflexivity|]; intros _ Hne;
             first [split; reflexivity|exfalso; apply Hne; reflexivity]|]).
    destruct Hk.
  - assert (mem t (keys TABLE_TO_SCHEMA_MAP) = false) as Hk'.
    { destruct (mem t (keys TABLE_TO_SCHEMA_MAP)) eqn:Hk'; [|reflexivity].
      apply mem_In in Hk'. simpl in Hk'.
      repeat (destruct Hk' as [<-|Hk']; [discriminate Hk|]). destruct Hk'. }
    unfold OPENAPI_TO_SCHEMA_MAP, TABLE_TO_SCHEMA_MAP in *.
    rewrite (literal_miss _ _ Hk Hp), (literal_miss _ _ Hk' Hp).
    split; [reflexivity|]. intros H. discriminate H.
Qed.

Lemma schema_bindings_agree_witness :
  get_prop (getSchemaMapping "comment") "schemaName" = VStr "public_comment"
  /\ mapEntityId "comment" = VStr "comment_id".
Proof.
  refine (proj2 (schema_bindings_agree "comment" _) _ _).
  - reflexivity.
  - reflexivity.
  - discriminate.
Defined.

(** The exception: the crosswalk analyzers bind the table [gis_data_element]
    to the entity of its own name, the OpenAPI analyzer to [gis_data]. *)
Example gis_data_element_bound_twice :
  get_prop (getSchemaMapping "gis_data_element") "schemaName" = VStr "gis_data_element"
  /\ get_prop (get_prop OPENAPI_TO_SCHEMA_MAP "gis_data_element") "schema" = VStr "gis_data".
Proof. split; reflexivity. Qed.

End OpenApiStructure.

(** ** Array indices, the order of keys and plain data *)

Section ArrayIndex.
Local Open Scope N_scope.

Lemma digit_bounds c :
  is_digit c = true -> (48 <= nat_of_ascii c <= 57)%nat.
Proof.
  unfold is_digit. intros H. apply andb_true_iff in H as [H1 H2].
  apply Nat.leb_le in H1, H2. lia.
Qed.

Lemma digits_value_bounds s :
  forall acc n, digits_value s acc = Some n ->
    acc * 10 ^ N.of_nat (String.length s) <= n
    < (acc + 1) * 10 ^ N.of_nat (String.length s).
Proof.
  induction s as [|c r IH]; intros acc n H.
  - simpl in H. injection H as <-. simpl. lia.
  - cbn [digits_value] in H. destruct (is_digit c) eqn:Ed; [|discriminate H].
    apply digit_bounds in Ed. apply IH in H.
    cbn [String.length]. rewrite Nat2N.inj_succ, N.pow_succ_r'.
    set (P := 10 ^ N.of_nat (String.length r)) in *.
    set (d := N.of_nat (nat_of_ascii c - 48)) in *.
    assert (d <= 9) by (subst d; lia).
    nia.
Qed.

Lemma digits_value_inj s :
  forall t acc acc' n,
    String.length s = String.length t ->
    digits_value s acc = Some n -> digits_value t acc' = Some n ->
    acc = acc' /\ s = t.
Proof.
  induction s as [|c r IH]; intros [|c' r'] acc acc' n Hlen H H'; try discriminate Hlen.
  - simpl in H, H'. split; congruence.
  - cbn [digits_value] in H, H'.
    destruct (is_digit c) eqn:Ed; [|discriminate H].
    destruct (is_digit c') eqn:Ed'; [|discriminate H'].
    apply digit_bounds in Ed, Ed'.
    injection Hlen as Hlen.
    destruct (IH _ _ _ _ Hlen H H') as [Hacc ->].
    assert (acc = acc' /\ nat_of_ascii c = nat_of_ascii c') as [-> Hc] by lia.
    split; [reflexivity|]. f_equal.
    rewrite <- (ascii_nat_embedding c), <- (ascii_nat_embedding c'), Hc. reflexivity.
Qed.

(** A string that starts with a digit other than [0] and holds digits only
    has as many code units as its value has decimal digits. *)
Lemma leading_digit_bounds c r n :
  is_digit c = true -> Ascii.eqb c "0" = false ->
  digits_value (String c r) 0 = Some n ->
  10 ^ N.of_nat (String.length r) <= n < 10 ^ N.of_nat (S (String.length r)).
Proof.
  intros Ed Ez H. cbn [digits_value] in H. rewrite Ed in H.
  apply digits_value_bounds in H. apply digit_bounds in Ed.
  assert (nat_of_ascii c <> 48%nat) as Hne.
  { intros E. apply Ascii.eqb_neq in Ez. apply Ez.
    rewrite <- (ascii_nat_embedding c), E. reflexivity. }
  rewrite Nat2N.inj_succ, N.pow_succ_r'.
  set (P := 10 ^ N.of_nat (String.length r)) in *.
  set (d := N.of_nat (nat_of_ascii c - 48)) in *.
  assert (1 <= d <= 9) by (subst d; lia).
  nia.
Qed.

Lemma pow10_length_inj (a b : nat) (n : N) :
  10 ^ N.of_nat a <= n < 10 ^ N.of_nat (S a) ->
  10 ^ N.of_nat b <= n < 10 ^ N.of_nat (S b) ->
  a = b.
Proof.
  intros Ha Hb.
  destruct (Nat.lt_trichotomy a b) as [Hlt|[E|Hlt]]; [|exact E|]; exfalso.
  - assert (10 ^ N.of_nat (S a) <= 10 ^ N.of_nat b) by (apply N.pow_le_mono_r; lia). lia.
  - assert (10 ^ N.of_nat (S b) <= 10 ^ N.of_nat a) by (apply N.pow_le_mono_r; lia). lia.
Qed.

(** Two keys that are the same array index are the same key. *)
Lemma array_index_inj a b i :
  array_index a = Some i -> array_index b = Some i -> a = b.
Proof.
  assert (forall c r j, array_index (String c r) = Some j ->
            (String c r = "0" /\ j = 0)
            \/ (String c r <> "0" /\ is_digit c = true /\ Ascii.eqb c "0" = false
                /\ digits_value (String c r) 0 = Some j)) as Hcases.
  { intros c r j H. unfold array_index in H.
    destruct (String.eqb (String c r) "0") eqn:E0.
    - apply String.eqb_eq in E0. left. split; [exact E0|congruence].
    - apply String.eqb_neq in E0. right.
      destruct (is_digit c) eqn:Ed; [|discriminate H].
      destruct (Ascii.eqb c "0") eqn:Ez; [discriminate H|]. cbn [negb andb] in H.
      destruct (digits_value (String c r) 0) as [m|] eqn:Em; [|discriminate H].
      destruct (m <? 4294967295); [|discriminate H].
      injection H as <-. auto. }
  intros Ha Hb.
  destruct a as [|c r]; [discriminate Ha|]. destruct b as [|c' r']; [discriminate Hb|].
  apply Hcases in Ha, Hb.
  destruct Ha as [[Ea Ei]|(Na & Da & Za & Va)], Hb as [[Eb Ei']|(Nb & Db & Zb & Vb)].
  - congruence.
  - subst i. apply leading_digit_bounds in Vb; [|assumption..].
    assert (0 < 10 ^ N.of_nat (String.length r')) by (apply N.neq_0_lt_0, N.pow_nonzero; lia).
    lia.
  - subst i. apply leading_digit_bounds in Va; [|assumption..].
    assert (0 < 10 ^ N.of_nat (String.length r)) by (apply N.neq_0_lt_0, N.pow_nonzero; lia).
    lia.
  - pose proof (leading_digit_bounds _ _ _ Da Za Va) as Ba.
    pose proof (leading_digit_bounds _ _ _ Db Zb Vb) as Bb.
    pose proof (pow10_length_inj _ _ _ Ba Bb) as Hlen.
    apply (digits_value_inj (String c r) (String c' r') 0 0 i); [simpl; congruence|assumption..].
Qed.

End ArrayIndex.

(** ** The keys of an object stay in order, and a clone is plain data *)

Section CanonicalKeys.
Import JS Transform Canonical.
Implicit Types (props acc : list (string * value)) (v : value).

Lemma before_irrefl k : ~ before k k.
Proof.
  unfold before. destruct (array_index k); [apply N.lt_irrefl|intros H; apply H; reflexivity].
Qed.

Lemma canonical_app ks1 ks2 :
  canonical (ks1 ++ ks2)
  <-> canonical ks1 /\ canonical ks2 /\ (forall a b, In a ks1 -> In b ks2 -> before a b).
Proof.
  unfold canonical. induction ks1 as [|k ks1 IH]; simpl.
  - split; [intros H; repeat split; [constructor|exact H|intros a b []]|tauto].
  - split.
    + intros H. inversion H as [|? ? Hall Hrest]; subst.
      apply IH in Hrest as (H1 & H2 & H3).
      rewrite Forall_app in Hall. destruct Hall as [Ha1 Ha2].
      split; [constructor; assumption|]. split; [exact H2|].
      intros a b [<-|Ha] Hb; [|auto].
      exact (proj1 (List.Forall_forall _ _) Ha2 _ Hb).
    + intros (H1 & H2 & H3). inversion H1 as [|? ? Hall Hrest]; subst.
      constructor.
      * rewrite Forall_app. split; [exact Hall|].
        apply List.Forall_forall. intros b Hb. apply H3; [left; reflexivity|exact Hb].
      * apply IH. repeat split; try assumption. intros a b Ha Hb. apply H3; [right|]; assumption.
Qed.

Lemma insert_index_last acc i k v :
  array_index k = Some i ->
  (forall a, In a (map fst acc) -> before a k) ->
  insert_index acc i k v = acc ++ [(k, v)].
Proof.
  intros Hk. induction acc as [|[k0 x] r IH]; intros Hall; [reflexivity|].
  cbn [insert_index]. pose proof (Hall k0 (or_introl eq_refl)) as H0.
  unfold before in H0. rewrite Hk in H0.
  destruct (array_index k0) as [j|]; [|destruct H0].
  apply N.ltb_lt in H0. rewrite H0. cbn [app]. f_equal.
  apply IH. intros a Ha. apply Hall. right. exact Ha.
Qed.

Lemma own_set_last acc k v :
  (forall a, In a (map fst acc) -> before a k) ->
  own_set acc k v = acc ++ [(k, v)].
Proof.
  intros Hall. unfold own_set.
  destruct (has_own acc k) eqn:E.
  - apply has_own_In in E. destruct (before_irrefl k (Hall k E)).
  - destruct (array_index k) as [i|] eqn:Ek; [|reflexivity].
    apply insert_index_last; assumption.
Qed.

(** Members listed in order are rebuilt as they are listed. *)
Lemma rebuild_canonical l :
  forall acc, canonical (map fst (acc ++ l)) -> rebuild_from l acc = acc ++ l.
Proof.
  unfold rebuild_from.
  induction l as [|[k v] r IH]; intros acc Hc; cbn [fold_left fst snd].
  - rewrite app_nil_r. reflexivity.
  - assert (own_set acc k v = acc ++ [(k, v)]) as ->.
    { apply own_set_last. intros a Ha.
      rewrite map_app in Hc. apply canonical_app in Hc as (_ & _ & Hc).
      apply Hc; [exact Ha|left; reflexivity]. }
    rewrite IH; rewrite <- app_assoc; [reflexivity|exact Hc].
Qed.

Lemma insert_index_canonical acc i k v :
  array_index k = Some i -> ~ In k (map fst acc) ->
  canonical (map fst acc) -> canonical (map fst (insert_index acc i k v)).
Proof.
  intros Hk. unfold canonical.
  induction acc as [|[k0 x] r IH]; intros Hnotin Hc; cbn [insert_index map fst].
  - constructor; constructor.
  - cbn [map fst] in Hc, Hnotin. inversion Hc as [|? ? Hall Hrest]; subst.
    assert (k0 <> k /\ ~ In k (map fst r)) as [Hne Hnotin'] by (simpl in Hnotin; tauto).
    assert (forall b, In b (map fst r) -> before k0 b) as Hall'
      by (apply List.Forall_forall; exact Hall).
    destruct (array_index k0) as [j|] eqn:E0.
    + destruct (j <? i)%N eqn:Ej; cbn [map fst].
      * constructor; [|apply IH; assumption].
        apply List.Forall_forall. intros b Hb. apply insert_index_In in Hb as [->|Hb]; [|auto].
        unfold before. rewrite E0, Hk. apply N.ltb_lt, Ej.
      * apply N.ltb_ge in Ej.
        assert (i < j)%N as Hlt.
        { destruct (N.eq_dec i j) as [<-|]; [|lia].
          destruct Hne. exact (array_index_inj _ _ _ E0 Hk). }
        constructor; [|exact Hc].
        constructor; [unfold before; rewrite Hk, E0; exact Hlt|].
        apply List.Forall_forall. intros b Hb. specialize (Hall' b Hb).
        unfold before in *. rewrite E0 in Hall'. rewrite Hk.
        destruct (array_index b); [lia|exact I].
    + cbn [map fst]. constructor; [|exact Hc].
      constructor; [unfold before; rewrite Hk, E0; exact I|].
      apply List.Forall_forall. intros b Hb. specialize (Hall' b Hb).
      unfold before in *. rewrite E0 in Hall'. rewrite Hk.
      destruct (array_index b); [destruct Hall'|exact I].
Qed.

(** Creating or overwriting a member keeps the keys in order. *)
Lemma own_set_canonical acc k v :
  canonical (map fst acc) -> canonical (map fst (own_set acc k v)).
Proof.
  intros Hc. unfold own_set.
  destruct (has_own acc k) eqn:E.
  - rewrite own_update_keys. exact Hc.
  - assert (~ In k (map fst acc)) as Hnotin.
    { intros Hin. apply has_own_In in Hin. congruence. }
    destruct (array_index k) as [i|] eqn:Ek.
    + apply insert_index_canonical; assumption.
    + rewrite map_app. apply canonical_app. split; [exact Hc|].
      split; [constructor; constructor|].
      intros a b Ha Hb. cbn [map fst In] in Hb. destruct Hb as [<-|[]].
      unfold before. rewrite Ek.
      destruct (array_index a); [exact I|]. intros ->. contradiction.
Qed.

Lemma clone_members_canonical clone l :
  forall acc, canonical (map fst acc) -> canonical (map fst (clone_members clone l acc)).
Proof.
  induction l as [|[k x] r IH]; intros acc Hc; cbn [clone_members]; [exact Hc|].
  destruct (clone x); [apply IH, own_set_canonical, Hc|apply IH, Hc].
Qed.

Lemma own_update_In acc k v k' y :
  In (k', y) (own_update acc k v) -> (k', y) = (k, v) \/ In (k', y) acc.
Proof.
  induction acc as [|[k0 x] r IH]; cbn [own_update]; [tauto|].
  destruct (String.eqb k0 k) eqn:E.
  - apply String.eqb_eq in E. subst k0. intros [H|H]; [left; exact (eq_sym H)|right; right; exact H].
  - intros [H|H]; [right; left; exact H|]. destruct (IH H); [left|right; right]; assumption.
Qed.

Lemma insert_index_members acc i k v k' y :
  In (k', y) (insert_index acc i k v) -> (k', y) = (k, v) \/ In (k', y) acc.
Proof.
  induction acc as [|[k0 x] r IH]; cbn [insert_index].
  - intros [H|[]]. left. exact (eq_sym H).
  - destruct (array_index k0) as [j|]; [destruct (j <? i)%N|].
    + intros [H|H]; [right; left; exact H|]. destruct (IH H); [left|right; right]; assumption.
    + intros [H|H]; [left; exact (eq_sym H)|right; exact H].
    + intros [H|H]; [left; exact (eq_sym H)|right; exact H].
Qed.

Lemma own_set_In acc k v k' y :
  In (k', y) (own_set acc k v) -> (k', y) = (k, v) \/ In (k', y) acc.
Proof.
  unfold own_set. destruct (has_own acc k); [apply own_update_In|].
  destruct (array_index k); [apply insert_index_members|].
  rewrite in_app_iff. intros [H|[H|[]]]; [right; exact H|left; exact (eq_sym H)].
Qed.

Lemma clone_members_In clone l :
  forall acc k y, In (k, y) (clone_members clone l acc) ->
    In (k, y) acc \/ exists x, In (k, x) l /\ clone x = Some y.
Proof.
  induction l as [|[k0 x0] r IH]; intros acc k y H; cbn [clone_members] in H; [left; exact H|].
  destruct (clone x0) as [y0|] eqn:E0.
  - apply IH in H as [H|(x & Hin & Hx)].
    + apply own_set_In in H as [H|H]; [|left; exact H].
      injection H as -> ->. right. exists x0. split; [left; reflexivity|exact E0].
    + right. exists x. split; [right; exact Hin|exact Hx].
  - apply IH in H as [H|(x & Hin & Hx)]; [left; exact H|].
    right. exists x. split; [right; exact Hin|exact Hx].
Qed.

(** An object literal whose keys are in order and whose members are plain
    is plain. *)
Lemma plain_literal props :
  canonical (map fst props) -> (forall k v, In (k, v) props -> plain v) ->
  plain (obj props).
Proof.
  intros Hc Hall. unfold plain, obj. cbn [json_clone]. unfold obj. do 2 f_equal.
  rewrite clone_members_rebuild by exact Hall.
  apply (rebuild_canonical props []). exact Hc.
Qed.

Lemma plain_elements xs : Forall plain xs -> plain (VArr xs).
Proof.
  intros H. unfold plain. cbn [json_clone]. do 2 f_equal.
  induction H as [|x r Hx _ IH]; [reflexivity|].
  cbn [map]. rewrite Hx, IH. reflexivity.
Qed.

(** The keys of a plain object are in order. *)
Lemma plain_canonical p props : plain (VObj p props) -> canonical (map fst props).
Proof.
  intros H. unfold plain in H. cbn [json_clone] in H. unfold obj in H.
  injection H as _ H. rewrite <- H.
  apply clone_members_canonical. constructor.
Qed.

(** What [JSON.parse(JSON.stringify(v))] gives is plain data: the round
    trip leaves it unchanged. *)
Lemma json_clone_plain v : forall c, json_clone v = Some c -> plain c.
Proof.
  induction v as [| |b|n|s|f|n|xs IH|p props _ IH] using value_nested_ind;
    intros c H; cbn [json_clone] in H; try discriminate H;
    try (injection H as <-; reflexivity).
  - destruct (String.eqb n "Function.prototype"); [discriminate H|].
    destruct (String.eqb n "Array.prototype"); injection H as <-; reflexivity.
  - injection H as <-. apply plain_elements.
    induction IH as [|x r Hx _ IHr]; cbn [map]; constructor; [|exact IHr].
    destruct (json_clone x) as [y|] eqn:Ey; [exact (Hx y eq_refl)|reflexivity].
  - injection H as <-. apply plain_literal.
    + apply clone_members_canonical. constructor.
    + intros k y Hin. apply clone_members_In in Hin as [[]|(x & Hin & Hx)].
      pose proof (proj1 (List.Forall_forall _ _) IH (k, x) Hin) as Hp.
      exact (Hp y Hx).
Qed.

(** A member assigned on a plain object literal leaves it plain. *)
Lemma plain_set props k v :
  plain (obj props) -> plain v -> k <> "__proto__" ->
  plain (set_prop (obj props) k v).
Proof.
  intros Hp Hv Hk. unfold obj. rewrite set_prop_plain by exact Hk.
  apply plain_literal.
  - apply own_set_canonical. exact (plain_canonical _ _ Hp).
  - intros k' y Hin. apply own_set_In in Hin as [H|H]; [injection H as -> ->; exact Hv|].
    apply plain_object in Hp as (_ & _ & Hall & _). exact (Hall _ _ H).
Qed.

End CanonicalKeys.

(** ** The structural fixes of the YAML validation *)

Section YamlStructure.
Import JS Transform YamlValidation Grouping.
Implicit Types (props : list (string * value)).

Lemma plain_shape c :
  plain c ->
  c = VNull \/ (exists b, c = VBool b) \/ (exists n, c = VNum n) \/ (exists s, c = VStr s)
  \/ (exists xs, c = VArr xs) \/ (exists props, c = obj props).
Proof.
  unfold plain. destruct c as [| |b|n|s|f|n|xs|p props]; cbn [json_clone]; intros H;
    try discriminate H; eauto 10.
  - destruct (String.eqb n "Function.prototype"); [discriminate H|].
    destruct (String.eqb n "Array.prototype"); discriminate H.
  - unfold obj in H. injection H as Hp _. subst p. do 5 right. exists props. reflexivity.
Qed.

Lemma literal_array_own props k xs :
  get_prop (obj props) k = VArr xs -> own_get props k = Some (VArr xs).
Proof.
  intros H. destruct (literal_get_cases props k) as [(x & Hx & Hg)|(_ & [Hg|[[f Hg]|[n Hg]]])];
    congruence.
Qed.

Lemma fill_settled k v message it fixes :
  truthy (get_prop it k) = true -> it <> VUndef -> it <> VNull ->
  fill_missing k v message (it, fixes) = Ret (it, fixes).
Proof.
  intros Ht Hu Hn. unfold fill_missing.
  rewrite get_checked_object by assumption. cbn [obind]. rewrite Ht. reflexivity.
Qed.

Lemma fill_object k v message props fixes :
  truthy v = true -> plain v -> k <> "__proto__" -> plain (obj props) ->
  exists props' fixes',
    fill_missing k v message (obj props, fixes) = Ret (obj props', fixes')
    /\ plain (obj props')
    /\ truthy (get_prop (obj props') k) = true
    /\ forall k', k' <> k -> get_prop (obj props') k' = get_prop (obj props) k'.
Proof.
  intros Hv Hpv Hk Hp. unfold fill_missing.
  change (get_checked (obj props) k) with (Ret (get_prop (obj props) k)). cbn [obind].
  destruct (truthy (get_prop (obj props) k)) eqn:E; cbn [negb].
  - exists props, fixes. auto.
  - change (assign (obj props) k v) with (Ret (set_prop (obj props) k v)). cbn [obind].
    pose proof (plain_set props k v Hp Hpv Hk) as Hp'.
    unfold obj in Hp' |- *. rewrite set_prop_plain in Hp' |- * by exact Hk.
    exists (own_set props k v), (fixes ++ [message]).
    split; [reflexivity|]. split; [exact Hp'|]. split.
    + rewrite (get_prop_own _ _ _ v) by apply own_get_set_same. exact Hv.
    + intros k' Hne. apply get_prop_obj_ext, own_get_set_other. exact Hne.
Qed.

Lemma fill_primitive k v message it fixes :
  (exists b, it = VBool b) \/ (exists n, it = VNum n) \/ (exists s, it = VStr s) ->
  get_prop it k = VUndef ->
  fill_missing k v message (it, fixes) = Ret (it, fixes ++ [message]).
Proof.
  intros Hit Hg. unfold fill_missing.
  destruct Hit as [[b ->]|[[n ->]|[s ->]]]; cbn [get_checked obind]; rewrite Hg; reflexivity.
Qed.

Lemma item_complete_settled it index fixes :
  complete it -> it <> VUndef -> it <> VNull ->
  gis_item_step it index fixes = Ret (it, fixes).
Proof.
  intros (H1 & H2 & H3) Hu Hn. unfold gis_item_step.
  rewrite fill_settled by assumption. cbn [obind].
  rewrite fill_settled by assumption. cbn [obind].
  apply fill_settled; assumption.
Qed.

Lemma item_object props index fixes :
  plain (obj props) ->
  exists props' fixes',
    gis_item_step (obj props) index fixes = Ret (obj props', fixes')
    /\ plain (obj props') /\ complete (obj props').
Proof.
  intros Hp. unfold gis_item_step.
  match goal with |- context [fill_missing "gis_id" ?v ?m (obj props, fixes)] =>
    destruct (fill_object "gis_id" v m props fixes) as (p1 & f1 & -> & Hp1 & T1 & _);
      [reflexivity|reflexivity|discriminate|exact Hp|]
  end.
  cbn [obind].
  match goal with |- context [fill_missing "data_type" ?v ?m (obj p1, f1)] =>
    destruct (fill_object "data_type" v m p1 f1) as (p2 & f2 & -> & Hp2 & T2 & O2);
      [reflexivity|reflexivity|discriminate|exact Hp1|]
  end.
  cbn [obind].
  match goal with |- context [fill_missing "coordinate_system" ?v ?m (obj p2, f2)] =>
    destruct (fill_object "coordinate_system" v m p2 f2) as (p3 & f3 & -> & Hp3 & T3 & O3);
      [reflexivity|reflexivity|discriminate|exact Hp2|]
  end.
  exists p3, f3. split; [reflexivity|]. split; [exact Hp3|].
  unfold complete. rewrite !O3 by discriminate. rewrite O2 by discriminate. auto.
Qed.

(** What the callback makes of one record of plain data. *)
Lemma item_step_spec it index fixes it' fixes' :
  plain it -> gis_item_step it index fixes = Ret (it', fixes') ->
  plain it'
  /\ (is_object it' = true -> complete it')
  /\ forall index2 fixes2, exists fixes2',
       gis_item_step it' index2 fixes2 = Ret (it', fixes2')
       /\ (is_object it' = true -> fixes2' = fixes2).
Proof.
  intros Hp H.
  assert (forall c : value,
             (exists b, c = VBool b) \/ (exists n, c = VNum n) \/ (exists s, c = VStr s) ->
             forall i f, exists f',
               gis_item_step c i f = Ret (c, f') /\ is_object c = false) as Hprim.
  { intros c Hc i f. unfold gis_item_step.
    rewrite fill_primitive
      by (try exact Hc; destruct Hc as [[b ->]|[[n ->]|[s ->]]]; reflexivity).
    cbn [obind].
    rewrite fill_primitive
      by (try exact Hc; destruct Hc as [[b ->]|[[n ->]|[s ->]]]; reflexivity).
    cbn [obind].
    rewrite fill_primitive
      by (try exact Hc; destruct Hc as [[b ->]|[[n ->]|[s ->]]]; reflexivity).
    eexists. split; [reflexivity|].
    destruct Hc as [[b ->]|[[n ->]|[s ->]]]; reflexivity. }
  destruct (plain_shape it Hp) as [->|[Hb|[Hn|[Hs|[[xs ->]|[props ->]]]]]].
  - discriminate H.
  - destruct (Hprim it (or_introl Hb) index fixes) as (f' & H' & Ho).
    rewrite H' in H. injection H as <- <-. split; [exact Hp|].
    split; [congruence|]. intros i2 f2.
    destruct (Hprim it (or_introl Hb) i2 f2) as (f2' & H2 & _).
    exists f2'. split; [exact H2|congruence].
  - destruct (Hprim it (or_intror (or_introl Hn)) index fixes) as (f' & H' & Ho).
    rewrite H' in H. injection H as <- <-. split; [exact Hp|].
    split; [congruence|]. intros i2 f2.
    destruct (Hprim it (or_intror (or_introl Hn)) i2 f2) as (f2' & H2 & _).
    exists f2'. split; [exact H2|congruence].
  - destruct (Hprim it (or_intror (or_intror Hs)) index fixes) as (f' & H' & Ho).
    rewrite H' in H. injection H as <- <-. split; [exact Hp|].
    split; [congruence|]. intros i2 f2.
    destruct (Hprim it (or_intror (or_intror Hs)) i2 f2) as (f2' & H2 & _).
    exists f2'. split; [exact H2|congruence].
  - discriminate H.
  - destruct (item_object props index fixes Hp) as (props' & f' & H' & Hp' & Hc).
    rewrite H' in H. injection H as <- <-. split; [exact Hp'|].
    split; [intros _; exact Hc|]. intros i2 f2. exists f2.
    split; [|reflexivity]. apply item_complete_settled; [exact Hc|discriminate..].
Qed.

Lemma items_spec items :
  Forall plain items ->
  forall index fixes items' fixes',
    gis_items items index fixes = Ret (items', fixes') ->
    Forall plain items'
    /\ Forall (fun item => is_object item = true -> complete item) items'
    /\ settled items'.
Proof.
  induction 1 as [|it rest Hit Hrest IH]; intros index fixes items' fixes' H.
  - injection H as <- <-. repeat split; try constructor.
    intros i f. exists f. split; reflexivity.
  - cbn [gis_items] in H.
    apply obind_ret in H as ([it1 f1] & H1 & H).
    apply obind_ret in H as ([rest1 f2] & H2 & H). injection H as <- <-.
    apply item_step_spec in H1 as (P1 & C1 & S1); [|exact Hit].
    apply IH in H2 as (P2 & C2 & S2).
    split; [constructor; assumption|]. split; [constructor; assumption|].
    intros i f. destruct (S1 i f) as (fa & Ha & Hfa).
    destruct (S2 (S i) fa) as (fb & Hb & Hfb).
    exists fb. cbn [gis_items]. rewrite Ha. cbn [obind]. rewrite Hb. cbn [obind].
    split; [reflexivity|]. intros Hall. inversion Hall as [|? ? Ho Hos]; subst.
    rewrite (Hfb Hos). exact (Hfa Ho).
Qed.

(** The fixes on a clone that is an object. *)
Lemma apply_fixes_object props r :
  plain (obj props) -> apply_fixes (obj props) = Ret r ->
  exists props',
    data r = obj props' /\ plain (obj props')
    /\ truthy (get_prop (obj props') "projects") = true
    /\ forall items, get_prop (obj props') "gis_data" = VArr items ->
         Forall (fun item => is_object item = true -> complete item) items
         /\ settled items.
Proof.
  intros Hp H. unfold apply_fixes in H.
  change (get_checked (obj props) "projects") with (Ret (get_prop (obj props) "projects")) in H.
  cbn [obind] in H.
  assert (exists props1 fixes1,
             (if negb (truthy (get_prop (obj props) "projects"))
              then let* modifiedData := assign (obj props) "projects" (VArr []) in
                   Ret (modifiedData, ["Added missing required projects array to root level"])
              else Ret (obj props, [])) = Ret (obj props1, fixes1)
             /\ plain (obj props1)
             /\ truthy (get_prop (obj props1) "projects") = true) as (props1 & fixes1 & E1 & Hp1 & T1).
  { destruct (truthy (get_prop (obj props) "projects")) eqn:E; cbn [negb].
    - exists props, []. auto.
    - change (assign (obj props) "projects" (VArr []))
        with (Ret (set_prop (obj props) "projects" (VArr []))).
      cbn [obind].
      pose proof (plain_set props "projects" (VArr []) Hp eq_refl) as Hp'.
      unfold obj in Hp' |- *. rewrite set_prop_plain in Hp' |- * by discriminate.
      eexists _, _. split; [reflexivity|]. split; [apply Hp'; discriminate|].
      rewrite (get_prop_own _ _ _ (VArr [])) by apply own_get_set_same. reflexivity. }
  rewrite E1 in H. cbn [obind] in H.
  destruct (truthy (get_prop (obj props1) "gis_data") && isArray (get_prop (obj props1) "gis_data"))
    eqn:Eg.
  - destruct (get_prop (obj props1) "gis_data") as [| |b|n|s|f|n|items|p ps] eqn:Eget;
      try (injection H as <-; exists props1; split; [reflexivity|];
           split; [assumption|]; split; [assumption|];
           intros items0 Hi; congruence).
    apply obind_ret in H as ([items' fixes'] & Hloop & H). injection H as <-.
    cbn [data].
    assert (Forall plain items) as Hitems.
    { apply literal_array_own in Eget. apply own_get_In in Eget.
      apply plain_object in Hp1 as (_ & _ & Hall & _).
      apply List.Forall_forall. intros x Hx. exact (plain_array _ _ (Hall _ _ Eget) Hx). }
    apply items_spec in Hloop as (P & C & S); [|exact Hitems].
    pose proof (plain_set props1 "gis_data" (VArr items') Hp1 (plain_elements _ P)) as Hp'.
    unfold obj in Hp'. rewrite set_prop_plain in Hp' by discriminate.
    exists (own_set props1 "gis_data" (VArr items')).
    split; [simpl data; unfold obj; apply set_prop_plain; discriminate|].
    split; [apply Hp'; discriminate|]. split.
    + change (VObj ObjectPrototype (own_set props1 "gis_data" (VArr items')))
        with (obj (own_set props1 "gis_data" (VArr items'))).
      rewrite (get_prop_obj_ext _ props1); [exact T1|].
      apply own_get_set_other. discriminate.
    + intros items0 Hi. unfold obj in Hi.
      rewrite (get_prop_own _ _ _ (VArr items')) in Hi by apply own_get_set_same.
      injection Hi as <-. split; assumption.
  - injection H as <-. exists props1. split; [reflexivity|].
    split; [assumption|]. split; [assumption|].
    intros items0 Hi. rewrite Hi in Eg. discriminate Eg.
Qed.

(** The fixes on an object they have nothing left to do for. *)
Lemma apply_fixes_settled props :
  truthy (get_prop (obj props) "projects") = true ->
  (forall items, get_prop (obj props) "gis_data" = VArr items -> settled items) ->
  exists fixes,
    apply_fixes (obj props) = Ret {| data := obj props; fixes := fixes; warnings := [] |}
    /\ (Forall (fun item => is_object item = true) (elems (get_prop (obj props) "gis_data"))
        -> fixes = []).
Proof.
  intros T S. unfold apply_fixes.
  change (get_checked (obj props) "projects") with (Ret (get_prop (obj props) "projects")).
  cbn [obind]. rewrite T. cbn [negb obind].
  destruct (truthy (get_prop (obj props) "gis_data") && isArray (get_prop (obj props) "gis_data")).
  - destruct (get_prop (obj props) "gis_data") as [| |b|n|s|f|n|items|p ps] eqn:Eget;
      try (exists []; split; reflexivity).
    destruct (S items eq_refl 0%nat []) as (fx & Hloop & Hfx).
    exists fx. rewrite Hloop. cbn [obind elems]. split; [|exact Hfx].
    do 2 f_equal. apply literal_array_own in Eget.
    unfold obj, set_prop, has_own. rewrite Eget.
    rewrite own_update_id by exact Eget. reflexivity.
  - exists []. split; reflexivity.
Qed.





End YamlStructure.

(** ** JSON Pointers are read back *)

Section JsonPointer.
Import JS ValidationUtils.

Lemma append_cons c s t : String c s +:+ t = String c (s +:+ t).
Proof. reflexivity. Qed.

Lemma append_empty_l t : "" +:+ t = t.
Proof. reflexivity. Qed.

Lemma append_empty_r s : s +:+ "" = s.
Proof. induction s as [|c r IH]; [reflexivity|]. rewrite append_cons, IH. reflexivity. Qed.

Lemma replace_pair_skip a b rep x t :
  Ascii.eqb x a = false ->
  replace_pair a b rep (String x t) = String x (replace_pair a b rep t).
Proof. intros H. destruct t; cbn [replace_pair]; rewrite ?H; reflexivity. Qed.

Lemma replace_pair_hit a b rep r :
  replace_pair a b rep (String a (String b r)) = rep +:+ replace_pair a b rep r.
Proof. cbn [replace_pair]. rewrite !Ascii.eqb_refl. reflexivity. Qed.

Lemma replace_pair_miss a b rep y r :
  Ascii.eqb y b = false ->
  replace_pair a b rep (String a (String y r))
  = String a (replace_pair a b rep (String y r)).
Proof. intros H. cbn [replace_pair]. rewrite H, andb_false_r. reflexivity. Qed.

(** Decoding a reference token gives back the key. *)
Lemma unescape_escape k :
  replace_pair "~" "0" "~" (replace_pair "~" "1" "/" (escape k)) = k.
Proof.
  induction k as [|c r IH]; [reflexivity|]. cbn [escape].
  destruct (Ascii.eqb c "~") eqn:Et.
  - apply Ascii.eqb_eq in Et. subst c.
    rewrite replace_pair_miss by reflexivity.
    rewrite (replace_pair_skip "~" "1" "/" "0") by reflexivity.
    rewrite replace_pair_hit, IH. reflexivity.
  - destruct (Ascii.eqb c "/") eqn:Es.
    + apply Ascii.eqb_eq in Es. subst c.
      rewrite replace_pair_hit, append_cons, append_empty_l.
      rewrite replace_pair_skip by reflexivity. rewrite IH. reflexivity.
    + rewrite replace_pair_skip by exact Et. rewrite replace_pair_skip by exact Et.
      rewrite IH. reflexivity.
Qed.

Lemma split_other sep c s part parts :
  Ascii.eqb c sep = false -> split sep s = part :: parts ->
  split sep (String c s) = String c part :: parts.
Proof. intros H E. cbn [split]. rewrite H, E. reflexivity. Qed.

(** A reference token holds no separator: it is a part of its own. *)
Lemma split_token k tail :
  split "/" (escape k +:+ tail) =
  match split "/" tail with
  | part :: parts => (escape k +:+ part) :: parts
  | [] => [escape k]
  end.
Proof.
  induction k as [|c r IH]; cbn [escape]; rewrite ?append_empty_l.
  - destruct (split "/" tail) eqn:E; [|reflexivity].
    destruct tail; cbn [split] in E; [discriminate E|].
    destruct (Ascii.eqb a "/"); [discriminate E|].
    destruct (split "/" tail); discriminate E.
  - destruct (split "/" tail) as [|part parts] eqn:E.
    + exfalso. destruct tail; cbn [split] in E; [discriminate E|].
      destruct (Ascii.eqb a "/"); [discriminate E|].
      destruct (split "/" tail); discriminate E.
    + destruct (Ascii.eqb c "~") eqn:Et; [|destruct (Ascii.eqb c "/") eqn:Es].
      * rewrite !append_cons. apply split_other; [reflexivity|].
        apply split_other; [reflexivity|exact IH].
      * rewrite !append_cons. apply split_other; [reflexivity|].
        apply split_other; [reflexivity|exact IH].
      * rewrite !append_cons. apply split_other; [exact Es|exact IH].
Qed.

Lemma split_pointer ks :
  forall k, split "/" (escape k +:+ pointer_of ks) = escape k :: map escape ks.
Proof.
  induction ks as [|k2 r IH]; intros k; rewrite split_token; cbn [pointer_of].
  - cbn [split]. rewrite append_empty_r. reflexivity.
  - cbn [split]. rewrite Ascii.eqb_refl. rewrite IH. cbn [map].
    rewrite append_empty_r. reflexivity.
Qed.

Lemma pointer_loop_stopped parts : foldM pointer_step parts None = Ret None.
Proof. induction parts as [|p r IH]; [reflexivity|exact IH]. Qed.

Lemma pointer_loop_path ks :
  forall v,
    (let* current := foldM pointer_step (map escape ks) (Some v) in
     Ret (match current with Some x => x | None => VUndef end))
    = own_path v ks.
Proof.
  induction ks as [|k r IH]; intros v; [reflexivity|].
  change (map escape (k :: r)) with (escape k :: map escape r).
  change (foldM pointer_step (escape k :: map escape r) (Some v))
    with (let* s := pointer_step (Some v) (escape k) in foldM pointer_step (map escape r) s).
  change (own_path v (k :: r))
    with (if negb (is_object v) then Ret VUndef
          else let* own := hasOwnProperty v k in
               if negb own then Ret VUndef else own_path (get_prop v k) r).
  unfold pointer_step at 1. rewrite unescape_escape.
  destruct (is_object v); cbn [negb obind].
  - destruct (hasOwnProperty v k) as [[|]|e]; cbn [obind negb].
    + apply IH.
    + rewrite pointer_loop_stopped. reflexivity.
    + reflexivity.
  - rewrite pointer_loop_stopped. reflexivity.
Qed.

Lemma startsWith_slash s : startsWith (String "/" s) "/" = true.
Proof. destruct s; reflexivity. Qed.

Lemma startsWith_fragment s : startsWith (String "#" (String "/" s)) "#/" = true.
Proof. destruct s; reflexivity. Qed.

Lemma escape_empty k : escape k = "" -> k = "".
Proof.
  destruct k as [|c r]; [reflexivity|]. cbn [escape].
  destruct (Ascii.eqb c "~"); [discriminate|]. destruct (Ascii.eqb c "/"); discriminate.
Qed.

(** The value at the path [ks] is found from the JSON Pointer of the path,
    written plainly or as a URI fragment: the pointer is split into the
    reference tokens it was made of, and each token is decoded to its key.
    The one path that is not read back is the member with the empty name
    at the root, whose pointer ["/"] answers the whole document. *)
Theorem json_pointer_round_trip (data : value) (ks : list string) :
  ks <> [""] ->
  _getValueByJsonPointer data (pointer_of ks) = own_path data ks
  /\ _getValueByJsonPointer data ("#" +:+ pointer_of ks) = own_path data ks.
Proof.
  intros Hne. destruct ks as [|k r]; [split; reflexivity|].
  assert (String.eqb (escape k +:+ pointer_of r) "" = false) as Hpath.
  { apply String.eqb_neq. intros E.
    destruct (escape k) eqn:Ek; [|discriminate E].
    apply escape_empty in Ek. subst k.
    destruct r; [contradiction|discriminate E]. }
  unfold _getValueByJsonPointer. cbn [pointer_of]. rewrite append_cons, append_empty_l.
  split.
  - change (String.eqb (String "/" (escape k +:+ pointer_of r)) "") with false.
    change (String.eqb (String "/" (escape k +:+ pointer_of r)) "#") with false.
    change (startsWith (String "/" (escape k +:+ pointer_of r)) "#/") with false.
    rewrite startsWith_slash. cbn [orb substring_from]. rewrite Hpath, split_pointer.
    apply (pointer_loop_path (k :: r)).
  - change (String.eqb (String "#" (String "/" (escape k +:+ pointer_of r))) "") with false.
    change (String.eqb (String "#" (String "/" (escape k +:+ pointer_of r))) "#") with false.
    rewrite startsWith_fragment. cbn [orb substring_from]. rewrite Hpath, split_pointer.
    apply (pointer_loop_path (k :: r)).
Qed.

Lemma json_pointer_round_trip_witness :
  _getValueByJsonPointer
    (obj [("paths", obj [("/comment", VArr [VStr "get"; VStr "post"])])])
    "/paths/~1comment/1"
  = Ret (VStr "post").
Proof.
  refine (proj1 (json_pointer_round_trip
                   (obj [("paths", obj [("/comment", VArr [VStr "get"; VStr "post"])])])
                   ["paths"; "/comment"; "1"] _)).
  discriminate.
Defined.

(** The pointer of the member with the empty name. *)
Example json_pointer_empty_key :
  _getValueByJsonPointer (obj [("", VNum 1)]) (pointer_of [""]) = Ret (obj [("", VNum 1)])
  /\ own_path (obj [("", VNum 1)]) [""] = Ret (VNum 1).
Proof. split; reflexivity. Qed.

End JsonPointer.

(** ** The rows of a CSV file grouped by a key *)

Section CsvGroups.
Import JS Grouping CsvUtils.

(** A loop that pushes an entry for every row it does not skip groups the
    entries by key and keeps their order. *)
Lemma grouping_fold (step : value -> value -> outcome value)
    (key_of : value -> option string) (entry_of : value -> value) (rows : list value) :
  (forall cw row, In row rows ->
     step cw row = match key_of row with
                   | Some k => push_under cw k (entry_of row)
                   | None => Ret cw
                   end) ->
  (forall row k, In row rows -> key_of row = Some k -> mem k objproto_names = false) ->
  forall props, arrays_only props ->
  exists props',
    foldM step rows (obj props) = Ret (obj props')
    /\ arrays_only props'
    /\ forall t, mem t objproto_names = false ->
         get_prop (obj props') t
         = extend (get_prop (obj props) t)
             (map entry_of
                (List.filter (fun row => match key_of row with
                                         | Some k => String.eqb k t
                                         | None => false
                                         end) rows)).
Proof.
  induction rows as [|row rows IH]; intros Hstep Hkeys props Ha.
  - exists props. split; [reflexivity|]. split; [exact Ha|]. reflexivity.
  - cbn [foldM]. rewrite (Hstep _ row (or_introl eq_refl)).
    assert (forall cw r, In r rows ->
              step cw r = match key_of r with
                          | Some k => push_under cw k (entry_of r)
                          | None => Ret cw
                          end) as Hstep' by (intros cw r Hr; apply Hstep; right; exact Hr).
    assert (forall r k, In r rows -> key_of r = Some k -> mem k objproto_names = false)
      as Hkeys' by (intros r k Hr; apply Hkeys; right; exact Hr).
    cbn [List.filter].
    destruct (key_of row) as [k|] eqn:Ek.
    + pose proof (Hkeys row k (or_introl eq_refl) Ek) as Hp.
      destruct (push_to_table props k (entry_of row) Ha Hp) as (props1 & E1 & Ha1 & Hget1).
      unfold push_under. cbv zeta in E1. rewrite E1. cbn [obind].
      destruct (IH Hstep' Hkeys' props1 Ha1) as (props' & -> & Ha' & Hget').
      exists props'. split; [reflexivity|]. split; [exact Ha'|].
      intros t Ht. rewrite (Hget' t Ht), (Hget1 t Ht). rewrite (String.eqb_sym k t).
      destruct (String.eqb t k) eqn:E; [|reflexivity].
      apply String.eqb_eq in E. subst k. cbn [map]. apply extend_snoc.
    + cbn [obind]. destruct (IH Hstep' Hkeys' props Ha) as (props' & -> & Ha' & Hget').
      exists props'. split; [reflexivity|]. split; [exact Ha'|]. exact Hget'.
Qed.

Lemma extend_nothing (t : string) (es : list value) :
  mem t objproto_names = false ->
  extend (get_prop (obj []) t) es = match es with [] => VUndef | g => VArr g end.
Proof.
  intros Ht. unfold extend. rewrite (get_prop_obj_miss [] t eq_refl Ht).
  destruct es; reflexivity.
Qed.

Lemma no_members : arrays_only [].
Proof. intros k v H. discriminate H. Qed.

Lemma filter_same {A} (f g : A -> bool) (l : list A) :
  (forall a, In a l -> f a = g a) -> List.filter f l = List.filter g l.
Proof.
  induction l as [|a r IH]; intros H; [reflexivity|]. cbn [List.filter].
  rewrite (H a (or_introl eq_refl)), IH; [reflexivity|].
  intros b Hb. apply H. right. exact Hb.
Qed.

(** The key [row_step] files each row under. *)
Lemma row_step_keys (rows : list value) :
  Forall csv_named rows ->
  exists key_of : value -> option string,
    (forall cw row, In row rows ->
       row_step cw row = match key_of row with
                         | Some k => push_under cw k (crosswalk_entry row)
                         | None => Ret cw
                         end)
    /\ (forall row k, In row rows -> key_of row = Some k -> mem k objproto_names = false)
    /\ (forall row t, In row rows ->
          names_table t row = match key_of row with
                              | Some k => String.eqb k t
                              | None => false
                              end).
Proof.
  intros Hrows.
  exists (fun row =>
            if truthy (tableName_of row) && truthy (columnName_of row)
            then match tableName_of row with VStr t => Some t | _ => None end
            else None).
  assert (forall row, In row rows -> csv_named row) as Hall
    by (apply List.Forall_forall; exact Hrows).
  repeat split.
  - intros cw row Hin. destruct (Hall row Hin) as (Hu & Hn & Hs).
    unfold row_step. rewrite get_checked_object by assumption. cbn [obind].
    destruct (truthy (tableName_of row)) eqn:Et; [|reflexivity].
    destruct (truthy (columnName_of row)) eqn:Ec; [|reflexivity].
    destruct (Hs eq_refl eq_refl) as (t & c & Ht & _ & _). rewrite Ht. reflexivity.
  - intros row k Hin E. destruct (Hall row Hin) as (_ & _ & Hs).
    destruct (truthy (tableName_of row)) eqn:Et; [|discriminate E].
    destruct (truthy (columnName_of row)) eqn:Ec; [|discriminate E].
    destruct (Hs eq_refl eq_refl) as (t & c & Ht & _ & Hp). rewrite Ht in E.
    cbn in E. injection E as <-. exact Hp.
  - intros row t Hin. destruct (Hall row Hin) as (_ & _ & Hs). unfold names_table.
    destruct (truthy (tableName_of row)) eqn:Et; [|reflexivity].
    destruct (truthy (columnName_of row)) eqn:Ec; [|reflexivity].
    destruct (Hs eq_refl eq_refl) as (t0 & c & Ht & _ & _). rewrite Ht. reflexivity.
Qed.

(** The crosswalk of a loop over the rows. *)
Lemma row_loop_groups (rows : list value) :
  Forall csv_named rows ->
  exists props,
    foldM row_step rows (obj []) = Ret (obj props)
    /\ forall t, mem t objproto_names = false ->
         get_prop (obj props) t
         = match List.filter (names_table t) rows with
           | [] => VUndef
           | g => VArr (map crosswalk_entry g)
           end.
Proof.
  intros Hrows. destruct (row_step_keys rows Hrows) as (key_of & Hstep & Hkeys & Hnames).
  destruct (grouping_fold row_step key_of crosswalk_entry rows Hstep Hkeys [] no_members)
    as (props & Hrun & _ & Hget).
  exists props. split; [exact Hrun|]. intros t Ht.
  rewrite (Hget t Ht), (extend_nothing t _ Ht).
  rewrite (filter_same _ (names_table t)) by (intros row Hin; symmetry; apply Hnames, Hin).
  destruct (List.filter (names_table t) rows); reflexivity.
Qed.

(** [loadDatabaseCrosswalk] groups the rows by table and keeps their order:
    the crosswalk holds under each table name the entries of exactly the
    rows that name the table and a column, in the order of the file, and
    nothing under a name no such row has.  A row without a table or a
    column name is skipped. *)
Theorem loadDatabaseCrosswalk_groups (rows : list value) :
  Forall csv_named rows ->
  exists crosswalk,
    loadDatabaseCrosswalk rows = Loaded crosswalk
    /\ forall t, mem t objproto_names = false ->
         get_prop crosswalk t
         = match List.filter (names_table t) rows with
           | [] => VUndef
           | g => VArr (map crosswalk_entry g)
           end.
Proof.
  intros Hrows. destruct (row_loop_groups rows Hrows) as (props & Hrun & Hget).
  exists (obj props). unfold loadDatabaseCrosswalk. rewrite Hrun.
  split; [reflexivity|exact Hget].
Qed.

(** [groupCsvData] groups the rows by the string they hold in the column
    and keeps their order; a row with nothing in the column is in no
    group. *)
Theorem groupCsvData_groups (csvData : list value) (groupByColumn : string) :
  Forall (csv_keyed groupByColumn) csvData ->
  exists grouped,
    groupCsvData csvData groupByColumn = Ret grouped
    /\ forall t, mem t objproto_names = false ->
         get_prop grouped t
         = match List.filter (in_group groupByColumn t) csvData with
           | [] => VUndef
           | g => VArr g
           end.
Proof.
  intros Hrows.
  assert (forall row, In row csvData -> csv_keyed groupByColumn row) as Hall
    by (apply List.Forall_forall; exact Hrows).
  set (key_of := fun row : value =>
                   if truthy (get_prop row groupByColumn)
                   then match get_prop row groupByColumn with
                        | VStr t => Some t
                        | _ => None
                        end
                   else None).
  destruct (grouping_fold (group_step groupByColumn) key_of (fun row => row) csvData)
    with (props := @nil (string * value)) as (props & Hrun & _ & Hget).
  - intros cw row Hin. destruct (Hall row Hin) as (Hu & Hn & Hs).
    unfold group_step, key_of. rewrite get_checked_object by assumption. cbn [obind].
    destruct (truthy (get_prop row groupByColumn)) eqn:Et; [|reflexivity].
    destruct (Hs eq_refl) as (t & Ht & _). rewrite Ht. reflexivity.
  - intros row k Hin E. destruct (Hall row Hin) as (_ & _ & Hs). unfold key_of in E.
    destruct (truthy (get_prop row groupByColumn)) eqn:Et; [|discriminate E].
    destruct (Hs eq_refl) as (t & Ht & Hp). rewrite Ht in E. injection E as <-. exact Hp.
  - exact no_members.
  - exists (obj props). split; [exact Hrun|]. intros t Ht.
    rewrite (Hget t Ht), (extend_nothing t _ Ht), map_id.
    rewrite (filter_same _ (in_group groupByColumn t));
      [destruct (List.filter (in_group groupByColumn t) csvData); reflexivity|].
    intros row Hin. destruct (Hall row Hin) as (_ & _ & Hs). unfold key_of, in_group.
    destruct (truthy (get_prop row groupByColumn)) eqn:Et; [|reflexivity].
    destruct (Hs eq_refl) as (t0 & Ht0 & _). rewrite Ht0. reflexivity.
Qed.

Lemma someM_returns (f : value -> outcome bool) (xs : list value) :
  (forall x, In x xs -> exists b, f x = Ret b) -> exists b, OpenApi.someM f xs = Ret b.
Proof.
  induction xs as [|x r IH]; intros H; [exists false; reflexivity|].
  cbn [OpenApi.someM]. destruct (H x (or_introl eq_refl)) as (b & ->). cbn [obind].
  destruct b; [exists true; reflexivity|]. apply IH. intros y Hy. apply H. right. exact Hy.
Qed.

Lemma column_loop_returns params (es : list value) :
  (forall e, In e es -> exists c, get_checked e "column" = Ret (VStr c)) ->
  forall r, exists r',
    foldM (OpenApi.column_step (VArr params)) es r = Ret r'
    /\ OpenApi.total (OpenApi.coverage r') = OpenApi.total (OpenApi.coverage r).
Proof.
  induction es as [|e es IH]; intros H r; [exists r; split; reflexivity|].
  cbn [foldM]. unfold OpenApi.column_step at 1.
  destruct (H e (or_introl eq_refl)) as (c & ->). cbn [obind includes_value].
  assert (forall r1, OpenApi.total (OpenApi.coverage r1) = OpenApi.total (OpenApi.coverage r) ->
            exists r',
              foldM (OpenApi.column_step (VArr params)) es r1 = Ret r'
              /\ OpenApi.total (OpenApi.coverage r') = OpenApi.total (OpenApi.coverage r))
    as Hrest.
  { intros r1 E. destruct (IH (fun x Hx => H x (or_intror Hx)) r1) as (r' & Hr & Ht).
    exists r'. split; [exact Hr|congruence]. }
  destruct (existsb (strict_eq (VStr c)) params); [apply Hrest; reflexivity|].
  destruct (shouldIgnoreField c); [apply Hrest; reflexivity|].
  destruct (negb (includes c "_json") && negb (startsWith c "parent_"));
    apply Hrest; reflexivity.
Qed.

Lemma parameter_loop_returns (es params : list value) :
  (forall e, In e es -> exists c, get_checked e "column" = Ret (VStr c)) ->
  Forall (fun p => exists s, p = VStr s) params ->
  forall r, exists r',
    foldM (OpenApi.parameter_step (VArr es)) params r = Ret r'
    /\ OpenApi.coverage r' = OpenApi.coverage r.
Proof.
  intros Hes. induction 1 as [|p ps (s & ->) _ IH]; intros r; [exists r; split; reflexivity|].
  cbn [foldM]. unfold OpenApi.parameter_step at 1. cbn [OpenApi.array_some].
  destruct (someM_returns
              (fun col => let* c := get_checked col "column" in Ret (strict_eq c (VStr s))) es)
    as (b & ->).
  { intros e He. destruct (Hes e He) as (c & ->). eexists. reflexivity. }
  cbn [obind].
  destruct b; [apply IH|].
  match goal with |- context [if ?c then _ else _] => destruct c end.
  - destruct (IH (OpenApi.push_warning r (OpenApi.MsgParameterNotInDatabase s)))
      as (r' & Hr & Hc).
    exists r'. split; [exact Hr|exact Hc].
  - apply IH.
Qed.

(** The crosswalk loaded from the rows of a file can be compared with the
    parameters of any table: [validateTableAgainstCrosswalk] returns a
    result, whose total is the number of rows of the table that name a
    column. *)
Theorem crosswalk_validation_returns (rows : list value) (t : string)
    (tableInfo : value) (params : list value) :
  Forall csv_named rows -> mem t objproto_names = false ->
  get_checked tableInfo "parameters" = Ret (VArr params) ->
  Forall (fun p => exists s, p = VStr s) params ->
  exists crosswalk r,
    loadDatabaseCrosswalk rows = Loaded crosswalk
    /\ OpenApi.validateTableAgainstCrosswalk t tableInfo crosswalk = Ret r
    /\ OpenApi.total (OpenApi.coverage r)
       = Z.of_nat (List.length (List.filter (names_table t) rows)).
Proof.
  intros Hrows Ht Hinfo Hparams.
  destruct (row_loop_groups rows Hrows) as (props & Hrun & Hget).
  exists (obj props). unfold loadDatabaseCrosswalk. rewrite Hrun.
  unfold OpenApi.validateTableAgainstCrosswalk.
  change (get_checked (obj props) t) with (Ret (get_prop (obj props) t)).
  cbn [obind]. rewrite (Hget t Ht).
  assert (forall e, In e (map crosswalk_entry (List.filter (names_table t) rows)) ->
            exists c, get_checked e "column" = Ret (VStr c)) as Hes.
  { intros e He. apply in_map_iff in He as (row & <- & Hin).
    apply filter_In in Hin as [Hin Hnamed].
    pose proof (proj1 (List.Forall_forall _ _) Hrows row Hin) as (_ & _ & Hs).
    unfold names_table in Hnamed.
    apply andb_true_iff in Hnamed as [Hnamed _]. apply andb_true_iff in Hnamed as [H1 H2].
    destruct (Hs H1 H2) as (t0 & c & _ & Hc & _).
    exists c. unfold crosswalk_entry. cbn. rewrite Hc. reflexivity. }
  destruct (List.filter (names_table t) rows) as [|row g] eqn:Ef.
  - eexists. split; [reflexivity|]. cbn. split; reflexivity.
  - cbn [truthy negb]. cbv iota. rewrite Hinfo. cbn [obind or truthy OpenApi.for_of].
    match goal with |- context [foldM (OpenApi.column_step _) ?es ?r0] =>
      destruct (column_loop_returns params es Hes r0) as (r1 & -> & T1)
    end.
    cbn [obind].
    destruct (parameter_loop_returns _ params Hes Hparams r1) as (r2 & -> & C2).
    exists r2. split; [reflexivity|]. split; [reflexivity|].
    rewrite C2, T1. cbn. rewrite length_map. reflexivity.
Qed.

Lemma loadDatabaseCrosswalk_groups_witness :
  exists crosswalk,
    loadDatabaseCrosswalk CsvFixtures.rows = Loaded crosswalk
    /\ get_prop crosswalk "comment"
       = VArr [ crosswalk_entry (CsvFixtures.crosswalk_row "comment" "id" "bigint");
                crosswalk_entry (CsvFixtures.crosswalk_row "comment" "content_text" "text") ].
Proof.
  destruct (loadDatabaseCrosswalk_groups CsvFixtures.rows) as (cw & Hrun & Hget).
  - repeat constructor; try discriminate; intros _ _; eexists _, _; repeat split; reflexivity.
  - exists cw. split; [exact Hrun|]. apply (Hget "comment"). reflexivity.
Defined.

Lemma groupCsvData_groups_witness :
  exists grouped,
    groupCsvData CsvFixtures.rows "table_name" = Ret grouped
    /\ get_prop grouped "project" = VArr [CsvFixtures.crosswalk_row "project" "title" "text"].
Proof.
  destruct (groupCsvData_groups CsvFixtures.rows "table_name") as (g & Hrun & Hget).
  - repeat constructor; try discriminate; intros H; try discriminate H;
      eexists; split; reflexivity.
  - exists g. split; [exact Hrun|]. apply (Hget "project"). reflexivity.
Defined.

Lemma crosswalk_validation_returns_witness :
  exists crosswalk r,
    loadDatabaseCrosswalk CsvFixtures.rows = Loaded crosswalk
    /\ OpenApi.validateTableAgainstCrosswalk "comment" OpenApiFixtures.comment_table crosswalk
       = Ret r
    /\ OpenApi.total (OpenApi.coverage r) = 2.
Proof.
  refine (crosswalk_validation_returns CsvFixtures.rows "comment"
            OpenApiFixtures.comment_table [VStr "id"; VStr "select"; VStr "reviewer"] _ _ _ _).
  - repeat constructor; try discriminate; intros _ _; eexists _, _; repeat split; reflexivity.
  - reflexivity.
  - reflexivity.
  - repeat constructor; eexists; reflexivity.
Defined.

End CsvGroups.

(** ** The values of a column, and the structure of a CSV file *)

Section CsvValues.
Import JS CsvUtils.

Lemma sequence_map_ret {A B} (f : A -> outcome B) (l : list A) :
  forall ys, sequence (map f l) = Ret ys -> Forall2 (fun x y => f x = Ret y) l ys.
Proof.
  induction l as [|a r IH]; intros ys H; cbn [map sequence] in H.
  - injection H as <-. constructor.
  - apply obind_ret in H as (y & Hy & H). apply obind_ret in H as (t & Ht & H).
    injection H as <-. constructor; [exact Hy|exact (IH _ Ht)].
Qed.

Lemma Forall2_In_r {A B} (R : A -> B -> Prop) (l : list A) (ys : list B) (y : B) :
  Forall2 R l ys -> In y ys -> exists x, In x l /\ R x y.
Proof.
  induction 1 as [|a b l' ys' Hab _ IH]; intros Hin; [destruct Hin|].
  destruct Hin as [<-|Hin]; [exists a; split; [left; reflexivity|exact Hab]|].
  destruct (IH Hin) as (x & Hx & Hr). exists x. split; [right; exact Hx|exact Hr].
Qed.

Lemma Forall2_In_l {A B} (R : A -> B -> Prop) (l : list A) (ys : list B) (x : A) :
  Forall2 R l ys -> In x l -> exists y, In y ys /\ R x y.
Proof.
  induction 1 as [|a b l' ys' Hab _ IH]; intros Hin; [destruct Hin|].
  destruct Hin as [<-|Hin]; [exists b; split; [left; reflexivity|exact Hab]|].
  destruct (IH Hin) as (y & Hy & Hr). exists y. split; [right; exact Hy|exact Hr].
Qed.

Lemma filterM_In (f : value -> outcome bool) (l : list value) :
  forall kept, filterM f l = Ret kept ->
    forall x, In x kept <-> In x l /\ f x = Ret true.
Proof.
  induction l as [|a r IH]; intros kept H x; cbn [filterM] in H.
  - injection H as <-. split; [intros []|intros [[] _]].
  - apply obind_ret in H as (keep & Hk & H). apply obind_ret in H as (t & Ht & H).
    injection H as <-. specialize (IH _ Ht x).
    destruct keep; cbn [In]; rewrite IH; split.
    + intros [<-|[H1 H2]]; auto.
    + intros [[<-|H1] H2]; auto.
    + intros [H1 H2]; auto.
    + intros [[<-|H1] H2]; [congruence|auto].
Qed.

Lemma set_has_In (acc : list value) (s : string) :
  (forall v, In v acc -> exists t, v = VStr t) ->
  Crosswalk.set_has acc (VStr s) = true <-> In (VStr s) acc.
Proof.
  intros Hstr. unfold Crosswalk.set_has. rewrite existsb_exists. split.
  - intros (e & He & Heq). destruct (Hstr e He) as (t & ->).
    cbn in Heq. apply String.eqb_eq in Heq. subst t. exact He.
  - intros H. exists (VStr s). split; [exact H|]. cbn. apply String.eqb_refl.
Qed.

Lemma NoDup_added {A} (l : list A) (a : A) :
  ~ In a l -> List.NoDup l -> List.NoDup (l ++ [a]).
Proof.
  induction l as [|b r IH]; cbn [app]; intros Hnotin Hnd.
  - constructor; [intros []|constructor].
  - inversion Hnd as [|? ? Hb Hnd']; subst. constructor.
    + rewrite in_app_iff. intros [H|[H|[]]]; [contradiction|].
      apply Hnotin. left. exact (eq_sym H).
    + apply IH; [|exact Hnd']. intros H. apply Hnotin. right. exact H.
Qed.

(** The values of a set built from strings: each of them once. *)
Lemma unique_strings (l : list value) :
  (forall v, In v l -> exists t, v = VStr t) ->
  forall acc,
    (forall v, In v acc -> exists t, v = VStr t) -> List.NoDup acc ->
    List.NoDup (fold_left Crosswalk.set_add l acc)
    /\ forall v, In v (fold_left Crosswalk.set_add l acc) <-> In v acc \/ In v l.
Proof.
  induction l as [|a r IH]; intros Hl acc Hacc Hnd; cbn [fold_left].
  - split; [exact Hnd|]. intros v. cbn [In]. tauto.
  - destruct (Hl a (or_introl eq_refl)) as (s & ->).
    assert (forall v, In v r -> exists t, v = VStr t) as Hr
      by (intros v Hv; apply Hl; right; exact Hv).
    assert (Crosswalk.set_add acc (VStr s)
            = if Crosswalk.set_has acc (VStr s) then acc else acc ++ [VStr s]) as ->
      by reflexivity.
    destruct (Crosswalk.set_has acc (VStr s)) eqn:E.
    + apply set_has_In in E; [|exact Hacc].
      destruct (IH Hr acc Hacc Hnd) as (N & I). split; [exact N|].
      intros v. rewrite I. cbn [In]. split; [tauto|].
      intros [H|[<-|H]]; auto.
    + assert (~ In (VStr s) acc) as Hnotin.
      { intros Hin. apply set_has_In in Hin; [congruence|exact Hacc]. }
      destruct (IH Hr (acc ++ [VStr s])) as (N & I).
      * intros v Hv. apply in_app_iff in Hv as [Hv|[<-|[]]]; [auto|eauto].
      * apply NoDup_added; assumption.
      * split; [exact N|]. intros v. rewrite I, in_app_iff. cbn [In]. tauto.
Qed.

Lemma trim_empty : trim "" = "".
Proof. reflexivity. Qed.

(** [getUniqueColumnValues] answers each value once: the strings the rows
    hold in the column, trimmed, except those that are blank. *)
Theorem getUniqueColumnValues_unique (csvData : list value) (columnName : string)
    (values : list value) :
  getUniqueColumnValues csvData columnName = Ret values ->
  List.NoDup values
  /\ forall v, In v values
       <-> exists row s, In row csvData /\ get_prop row columnName = VStr s
                         /\ trim s <> "" /\ v = VStr (trim s).
Proof.
  unfold getUniqueColumnValues. intros H.
  apply obind_ret in H as (column & Hcol & H).
  apply obind_ret in H as (kept & Hkept & H).
  apply obind_ret in H as (vals & Hvals & H). injection H as <-.
  apply sequence_map_ret in Hcol. apply sequence_map_ret in Hvals.
  pose proof (filterM_In _ _ _ Hkept) as Hk.
  assert (forall row val, get_checked row columnName = Ret val ->
            get_prop row columnName = val) as Hget.
  { intros row val E. destruct row; try discriminate E; injection E as <-; reflexivity. }
  assert (forall val, not_blank val = Ret true ->
            exists s, val = VStr s /\ trim s <> "") as Hblank.
  { intros val E. unfold not_blank in E. destruct (truthy val); [|discriminate E].
    destruct val; try discriminate E. cbn in E. injection E as E.
    exists s. split; [reflexivity|]. intros Ht. rewrite Ht in E. discriminate E. }
  assert (forall v, In v vals -> exists t, v = VStr t) as Hstr.
  { intros v Hv. destruct (Forall2_In_r _ _ _ _ Hvals Hv) as (val & _ & E).
    apply obind_ret in E as (t & _ & E). injection E as <-. eauto. }
  destruct (unique_strings vals Hstr [] (fun v (F : In v []) => match F with end)
              (List.NoDup_nil _)) as (N & I).
  split; [exact N|]. intros v. unfold unique. rewrite I. cbn [In]. split.
  - intros [[]|Hv].
    destruct (Forall2_In_r _ _ _ _ Hvals Hv) as (val & Hval & E).
    apply Hk in Hval as [Hin Hnb].
    destruct (Hblank val Hnb) as (s & -> & Hs).
    cbn in E. injection E as <-.
    destruct (Forall2_In_r _ _ _ _ Hcol Hin) as (row & Hrow & E).
    exists row, s. repeat split; try assumption. apply Hget, E.
  - intros (row & s & Hrow & Hs & Ht & ->). right.
    destruct (Forall2_In_l _ _ _ _ Hcol Hrow) as (val & Hval & E).
    apply Hget in E as E'. rewrite Hs in E'. subst val.
    assert (In (VStr s) kept) as Hin.
    { apply Hk. split; [exact Hval|]. unfold not_blank.
      assert (truthy (VStr s) = true) as ->.
      { cbn. destruct s; [destruct Ht; reflexivity|reflexivity]. }
      cbn. apply String.eqb_neq in Ht. rewrite Ht. reflexivity. }
    destruct (Forall2_In_l _ _ _ _ Hvals Hin) as (y & Hy & E2).
    cbn in E2. injection E2 as <-. exact Hy.
Qed.

Lemma getUniqueColumnValues_unique_witness :
  exists values,
    getUniqueColumnValues
      [ obj [("sector", VStr " Energy ")]; obj [("sector", VStr "Energy")];
        obj [("sector", VStr "  ")]; obj [("sector", VStr "Transit")] ] "sector"
    = Ret values
    /\ List.NoDup values /\ values = [VStr "Energy"; VStr "Transit"].
Proof.
  eexists. split; [vm_compute; reflexivity|]. split; [|reflexivity].
  refine (proj1 (getUniqueColumnValues_unique
                   [ obj [("sector", VStr " Energy ")]; obj [("sector", VStr "Energy")];
                     obj [("sector", VStr "  ")]; obj [("sector", VStr "Transit")] ]
                   "sector" _ _)).
  vm_compute. reflexivity.
Defined.

Lemma present_iff (required : value) (headers : list string) :
  existsb (strict_eq required) (map VStr headers) = true
  <-> exists s, required = VStr s /\ In s headers.
Proof.
  rewrite existsb_exists. split.
  - intros (h & Hin & Heq). apply in_map_iff in Hin as (s & <- & Hs).
    destruct required; try discriminate Heq. cbn in Heq.
    apply String.eqb_eq in Heq. subst. eauto.
  - intros (s & -> & Hs). exists (VStr s). split; [apply in_map, Hs|].
    cbn. apply String.eqb_refl.
Qed.

Lemma csv_error_nil_iff (l : list string) (m : string) : l ++ [m] = [] <-> False.
Proof. split; [destruct l; discriminate|tauto]. Qed.

Lemma required_loop_spec (headers : list string) (required : list value) :
  forall r r',
    foldM (required_step headers) required r = Ret r' ->
    rowCount r' = rowCount r
    /\ ((valid r = true <-> errors r = []) -> (valid r' = true <-> errors r' = []))
    /\ valid r' = valid r
                  && forallb (fun c => existsb (strict_eq c) (map VStr headers)) required
    /\ warnings r' = warnings r.
Proof.
  induction required as [|c cs IH]; intros r r' H.
  - injection H as <-. cbn. rewrite andb_true_r. tauto.
  - cbn [foldM] in H. apply obind_ret in H as (r1 & H1 & H2).
    apply IH in H2 as (C2 & V2 & F2 & W2). unfold required_step in H1.
    cbn [forallb]. destruct (existsb (strict_eq c) (map VStr headers)); cbn [negb] in H1.
    + injection H1 as <-. cbn [andb]. tauto.
    + apply obind_ret in H1 as (shown & _ & H1). injection H1 as <-.
      cbn in C2, V2, F2, W2.
      split; [exact C2|]. split; [|split; [rewrite F2, andb_false_r; reflexivity|exact W2]].
      intros _. apply V2. rewrite csv_error_nil_iff. split; [discriminate|tauto].
Qed.

(** A result of [validateCsvStructure] counts the rows, is valid exactly
    when it holds no error, and is valid exactly when the file has a row
    and every required column is a string among the keys of the first
    row: the other rows are not looked at for their columns. *)
Theorem validateCsvStructure_report (csvData requiredColumns : list value)
    (r : csv_results) :
  validateCsvStructure csvData requiredColumns = Ret r ->
  rowCount r = Z.of_nat (List.length csvData)
  /\ (valid r = true <-> errors r = [])
  /\ (valid r = true
      <-> exists first rest,
            csvData = first :: rest
            /\ Forall (fun c => exists s, c = VStr s /\ In s (keys first)) requiredColumns).
Proof.
  unfold validateCsvStructure. intros H.
  destruct csvData as [|first rest].
  - injection H as <-. cbn. split; [reflexivity|]. split; [split; discriminate|].
    split; [discriminate|]. intros (f & t & E & _). discriminate E.
  - apply obind_ret in H as (headers & Hh & H).
    apply obind_ret in H as (r1 & H1 & H). apply obind_ret in H as (n & _ & H).
    assert (headers = keys first) as ->
      by (destruct first; try discriminate Hh; injection Hh as <-; reflexivity).
    apply required_loop_spec in H1 as (C1 & V1 & F1 & _). cbn in C1, V1, F1.
    assert (rowCount r = rowCount r1 /\ valid r = valid r1 /\ errors r = errors r1)
      as (-> & -> & ->) by (destruct (0 <? n); injection H as <-; auto).
    split; [exact C1|]. split; [apply V1; tauto|].
    rewrite F1, forallb_forall. split.
    + intros Hall. exists first, rest. split; [reflexivity|].
      apply List.Forall_forall. intros c Hc. apply present_iff, Hall, Hc.
    + intros (f & t & E & Hall) c Hc. injection E as <- <-.
      apply present_iff. exact (proj1 (List.Forall_forall _ _) Hall c Hc).
Qed.

Lemma validateCsvStructure_report_witness :
  exists r,
    validateCsvStructure CsvFixtures.rows [VStr "table_name"; VStr "column_name"] = Ret r
    /\ rowCount r = 4 /\ valid r = true.
Proof.
  eexists. split; [vm_compute; reflexivity|]. split; [|reflexivity].
  refine (proj1 (validateCsvStructure_report CsvFixtures.rows
                   [VStr "table_name"; VStr "column_name"] _ _)).
  vm_compute. reflexivity.
Defined.

End CsvValues.

(** ** The fields of a transformed record *)

Section EntityFields.
Import JS Transform Fields.

Variable Date_now : nat -> Z.

(** One round of the loop of [transformEntity] assigns the member the field
    mapping names, whatever else it does. *)
Lemma transformEntity_step_assigns item ot tg ESP idField props k s t' s' :
  transformEntity_step item ot tg ESP idField (obj props) k s = Ret (t', s') ->
  exists g v, mapDatabaseFieldToSchema k ot = VStr g /\ t' = obj (own_set props g v).
Proof.
  intros H. unfold transformEntity_step in H.
  pose proof (mapDatabaseFieldToSchema_not_proto k ot) as Hnp.
  apply bind_ret_inv in H as (v1 & s1 & _ & H).
  apply bind_ret_inv in H as (et & s2 & _ & H).
  apply bind_ret_inv in H as (v2 & s3 & _ & H).
  apply bind_ret_inv in H as (sk & s4 & Hsk & H).
  destruct (mapDatabaseFieldToSchema k ot) as [| |b|n|g|f|bn|xs|p ps] eqn:Eg;
    try discriminate Hsk.
  apply ret_inv in Hsk as [-> ->].
  apply bind_ret_inv in H as (v3 & s5 & _ & H).
  assert (forall x, exists v, set_prop (obj props) g x = obj (own_set props g v)) as Hset.
  { intros x. exists x. apply set_prop_plain. congruence. }
  exists g.
  destruct (is_object v3 && negb (isArray v3)).
  { apply bind_ret_inv in H as (nested & s6 & _ & H). apply ret_inv in H as [-> _].
    destruct (Hset nested) as (v & ->). eauto. }
  match type of H with (if ?c then _ else _) _ = _ => destruct c end.
  - apply bind_ret_inv in H as (items & s6 & _ & H). apply ret_inv in H as [-> _].
    destruct (Hset (VArr items)) as (v & ->). eauto.
  - apply ret_inv in H as [-> _]. destruct (Hset v3) as (v & ->). eauto.
Qed.

Lemma transformEntity_loop_fields item ot tg ESP idField (l : list string) :
  forall props s r s',
    forM l (obj props) (transformEntity_step item ot tg ESP idField) s = Ret (r, s') ->
    exists props',
      r = obj props'
      /\ (forall g, has_own props g = true -> has_own props' g = true)
      /\ forall k, In k l ->
           exists g, mapDatabaseFieldToSchema k ot = VStr g /\ has_own props' g = true.
Proof.
  induction l as [|a l IH]; intros props s r s' H.
  - apply ret_inv in H as [-> _]. exists props. split; [reflexivity|].
    split; [auto|intros k []].
  - cbn [forM] in H. apply bind_ret_inv in H as (acc & s1 & H1 & H2).
    apply transformEntity_step_assigns in H1 as (g & v & Hg & ->).
    destruct (IH _ _ _ _ H2) as (props' & -> & Hkeep & Hall).
    assert (forall g', has_own props g' = true -> has_own (own_set props g v) g' = true)
      as Hgrow.
    { intros g' Hg'. destruct (String.eqb g' g) eqn:E.
      - apply String.eqb_eq in E. subst g'. apply has_own_set_same.
      - apply String.eqb_neq in E. rewrite (has_own_set_other _ _ _ _ E). exact Hg'. }
    exists props'. split; [reflexivity|]. split; [intros g' Hg'; apply Hkeep, Hgrow, Hg'|].
    intros k [<-|Hk]; [|apply Hall, Hk].
    exists g. split; [exact Hg|]. apply Hkeep, has_own_set_same.
Qed.

(** Assigning a member of an object removes none of its own members. *)
Lemma set_prop_keeps_own p (props : list (string * value)) k v :
  exists p' props',
    set_prop (VObj p props) k v = VObj p' props'
    /\ forall g, has_own props g = true -> has_own props' g = true.
Proof.
  unfold set_prop. destruct (has_own props k) eqn:Ek.
  - exists p, (own_update props k v). split; [reflexivity|].
    intros g Hg. rewrite has_own_update. exact Hg.
  - assert (forall g, has_own props g = true -> has_own (own_set props k v) g = true)
      as Hgrow.
    { intros g Hg. destruct (String.eqb g k) eqn:E.
      - apply String.eqb_eq in E. subst g. apply has_own_set_same.
      - apply String.eqb_neq in E. rewrite (has_own_set_other _ _ _ _ E). exact Hg. }
    destruct (String.eqb k "__proto__" && inherits_proto_accessor p).
    + destruct (is_objectlike v || is_null v); eexists _, _; split; try reflexivity; auto.
    + eexists _, _. split; [reflexivity|exact Hgrow].
Qed.

Lemma grows_refl t : grows t t.
Proof. intros p props ->. eauto. Qed.

Lemma grows_trans t1 t2 t3 : grows t1 t2 -> grows t2 t3 -> grows t1 t3.
Proof.
  intros H12 H23 p props E. destruct (H12 p props E) as (p2 & props2 & E2 & K2).
  destruct (H23 p2 props2 E2) as (p3 & props3 & E3 & K3).
  exists p3, props3. split; [exact E3|auto].
Qed.

Lemma grows_set t k v : grows t (set_prop t k v).
Proof. intros p props ->. apply set_prop_keeps_own. Qed.

(** The defaults of a GIS record remove no member. *)
Lemma gis_defaults_grows ot schema t s t' s' :
  gis_defaults Date_now ot schema t s = Ret (t', s') -> grows t t'.
Proof.
  intros H. unfold gis_defaults in H.
  apply bind_ret_inv in H as (t1 & s1 & H1 & H).
  assert (grows t t1) as G1.
  { match type of H1 with (if ?c then _ else _) _ = _ => destruct c end.
    - apply bind_ret_inv in H1 as (v & s0 & _ & H1).
      apply push_bind_inv, ret_inv in H1 as [-> _]. apply grows_set.
    - apply ret_inv in H1 as [-> _]. apply grows_refl. }
  apply bind_ret_inv in H as (t2 & s2 & H2 & H).
  assert (grows t1 t2) as G2.
  { match type of H2 with (if ?c then _ else _) _ = _ => destruct c end.
    - apply push_bind_inv, ret_inv in H2 as [-> _]. apply grows_set.
    - apply ret_inv in H2 as [-> _]. apply grows_refl. }
  apply bind_ret_inv in H as (t3 & s3 & H3 & H).
  assert (grows t2 t3) as G3.
  { match type of H3 with (if ?c then _ else _) _ = _ => destruct c end.
    - apply push_bind_inv, ret_inv in H3 as [-> _]. apply grows_set.
    - apply ret_inv in H3 as [-> _]. apply grows_refl. }
  apply (grows_trans _ _ _ G1), (grows_trans _ _ _ G2), (grows_trans _ _ _ G3).
  match type of H with (if ?c then _ else _) _ = _ => destruct c end;
    [|match type of H with (if ?c then _ else _) _ = _ => destruct c end].
  - apply push_bind_inv, ret_inv in H as [-> _]. apply grows_set.
  - apply push_bind_inv, ret_inv in H as [-> _]. apply grows_set.
  - apply ret_inv in H as [-> _]. apply grows_refl.
Qed.


End EntityFields.

